(** * cpp-filecoin: the branch graph of the sync engine and the HAMT store

    A shallow embedding of [core/node/branches.cpp] (module [Branches]) and
    of [core/storage/hamt/hamt.cpp] (module [Hamt]), followed by the
    properties of the specification that concern them. *)

From stdpp Require Import gmap strings list fin_maps sorting.
From Stdlib Require Import ZArith Lia.

#[local] Open Scope Z_scope.
#[local] Set Warnings "-register-all".

(** Iteration over a [std::map] or a [std::set] visits the keys in
    increasing order; the finite maps and sets used here are unordered, so
    every loop of the source goes through one of these two listings. *)
Definition key_le {V} (x y : Z * V) : Prop := x.1 ≤ y.1.

#[global] Instance key_le_dec {V} (x y : Z * V) : Decision (key_le x y).
Proof. unfold key_le. apply _. Defined.

Definition ordered_items {V} (m : gmap Z V) : list (Z * V) :=
  merge_sort key_le (map_to_list m).

Definition ordered_ids (s : gset Z) : list Z :=
  merge_sort Z.le (elements s).

(** ** HAMT *)
Module Hamt.

Abbreviation CID := (list Z) (only parsing).
Abbreviation Value := (list Z) (only parsing).

(** [Node::Item] is a variant of a CID (a subtree that is not loaded), a
    pointer to a loaded [Node], owned by the slot, and a [Leaf]; a [Node]
    is its [items], a [std::map] from index to item. *)
Inductive Item : Type :=
| ICid (c : CID)
| IPtr (items : gmap Z Item)
| ILeaf (leaf : gmap string (list Z)).

Abbreviation Node := (gmap Z Item) (only parsing).
Abbreviation Leaf := (gmap string (list Z)) (only parsing).

(** Modelled from the spec: [hamt.hpp] is not among the sources; the spec
    gives the bound on the size of a leaf as [kLeafMax], default 3. *)
Definition kLeafMax : nat := 3.

(** The three [HamtError] values, the errors of the block store, and two
    ends that are not results of the source: [Fault], where the source
    throws [boost::bad_get] or its behaviour is undefined, and
    [OutOfFuel], where the model was given too little fuel. *)
Inductive Error :=
| kExpectedCID
| kNotFound
| kMaxDepth
| StoreError (code : Z)
| Fault
| OutOfFuel.

Inductive result (A : Type) : Type :=
| Ok (a : A)
| Err (e : Error).
Arguments Ok {A} a.
Arguments Err {A} e.

Record Hamt := mkHamt {
  root_ : Item;
  bit_width_ : Z }.

(** The entries of a leaf in the order of [std::map<std::string, Value>]. *)
Definition str_key_le {V} (x y : string * V) : Prop :=
  String.leb x.1 y.1 = true.

#[global] Instance str_key_le_dec {V} (x y : string * V) :
  Decision (str_key_le x y).
Proof. unfold str_key_le. apply _. Defined.

Definition ordered_pairs {V} (l : gmap string V) : list (string * V) :=
  merge_sort str_key_le (map_to_list l).

Definition byte_bits : Z := 8.

(** Arithmetic of [size_t] and the conversion of a [size_t] to [int]. *)
Definition wrap64 (z : Z) : Z := z mod 2 ^ 64.
Definition to_int (z : Z) : Z := (z + 2 ^ 31) mod 2 ^ 32 - 2 ^ 31.

(** [1 & (hash[offset / byte_bits] >> (byte_bits - 1 - offset % byte_bits))],
    with [offset] an [int]: the division truncates, and a negative quotient
    is an index out of range. *)
Definition hash_bit (hash : list Z) (offset : Z) : option Z :=
  let i := Z.quot offset byte_bits in
  if bool_decide (0 ≤ i < Z.of_nat (length hash)) then
    Some (Z.land 1 (Z.shiftr (nth (Z.to_nat i) hash 0)
                      (byte_bits - 1 - Z.rem offset byte_bits)))
  else None.

(** The inner [for] loop of [keyToIndices]: [count] bits from [offset]. *)
Fixpoint read_bits (count : nat) (hash : list Z) (offset index : Z)
    : option (Z * Z) :=
  match count with
  | O => Some (index, offset)
  | S count' =>
    match hash_bit hash offset with
    | None => None
    | Some bit =>
      read_bits count' hash (offset + 1)
        (Z.lor (wrap64 (Z.shiftl index 1)) bit)
    end
  end.

(** The [while (offset + bit_width_ <= max_bits)] loop. *)
Fixpoint indices_loop (fuel : nat) (hash : list Z) (bit_width max_bits : Z)
    (offset : Z) (indices : list Z) : option (list Z) :=
  if bool_decide (wrap64 (wrap64 offset + bit_width) ≤ max_bits) then
    match fuel with
    | O => None
    | S fuel' =>
      match read_bits (Z.to_nat bit_width) hash offset 0 with
      | None => None
      | Some (index, offset') =>
        indices_loop fuel' hash bit_width max_bits offset' (indices ++ [index])
      end
    end
  else Some indices.

Section Defs.

(** The collaborators of the HAMT: the hash of a key, and the two calls
    on the block store, reading and writing a CBOR-encoded node. *)
Variable sha256 : string → list Z.
Variable getCbor : CID → result Node.
Variable setCbor : Node → result CID.

(** [keyToIndices(key, n)], [n = -1] being the default argument; [None]
    where the source divides by zero or reads outside the hash. *)
Definition keyToIndices (bit_width : Z) (key : string) (n : Z)
    : option (list Z) :=
  let hash := sha256 key in
  if bool_decide (bit_width = 0) then None
  else
    let max_bits := byte_bits * Z.of_nat (length hash) in
    let max_bits := max_bits - max_bits mod bit_width in
    let offset :=
      if bool_decide (n = -1) then 0
      else to_int (wrap64 (max_bits - wrap64 (wrap64 (n - 1) * bit_width))) in
    indices_loop (S (Z.to_nat max_bits)) hash bit_width max_bits offset [].

Definition loadItem (item : Item) : Item * result unit :=
  match item with
  | ICid c =>
    match getCbor c with
    | Ok child => (IPtr child, Ok tt)
    | Err e => (item, Err e)
    end
  | _ => (item, Ok tt)
  end.

(** The [for (auto &pair : leaf)] loop of [set], [set_child] being the
    recursive call on the new child. *)
Fixpoint reinsert
    (set_child : Node → list Z → string → Value → Node * result unit)
    (bit_width n : Z) (pairs : list (string * Value)) (child : Node)
    : Node * result unit :=
  match pairs with
  | [] => (child, Ok tt)
  | (k, v) :: pairs' =>
    match keyToIndices bit_width k n with
    | None => (child, Err Fault)
    | Some indices2 =>
      match set_child child indices2 k v with
      | (child', Ok _) => reinsert set_child bit_width n pairs' child'
      | (child', Err e) => (child', Err e)
      end
    end
  end.

(** [set(node, indices, key, value)]: the node after the call and the
    result.  The recursion of the source on the re-indexed entries of a
    split leaf is not structural, hence the fuel. *)
Fixpoint set_node (fuel : nat) (bit_width : Z) (node : Node)
    (indices : list Z) (key : string) (value : Value)
    : Node * result unit :=
  match indices with
  | [] => (node, Err kMaxDepth)
  | index :: rest =>
    match node !! index with
    | None => (<[index := ILeaf {[key := value]}]> node, Ok tt)
    | Some item =>
      match loadItem item with
      | (_, Err e) => (node, Err e)
      | (item, Ok _) =>
        let node := <[index := item]> node in
        match fuel with
        | O => (node, Err OutOfFuel)
        | S fuel' =>
          match item with
          | IPtr child =>
            let '(child', r) := set_node fuel' bit_width child rest key value in
            (<[index := IPtr child']> node, r)
          | ILeaf leaf =>
            if bool_decide (is_Some (leaf !! key))
               || bool_decide (size leaf < kLeafMax)%nat then
              (<[index := ILeaf (<[key := value]> leaf)]> node, Ok tt)
            else
              match set_node fuel' bit_width ∅ rest key value with
              | (_, Err e) => (node, Err e)
              | (child, Ok _) =>
                match reinsert (set_node fuel' bit_width) bit_width
                        (to_int (Z.of_nat (length indices)))
                        (ordered_pairs leaf) child with
                | (_, Err e) => (node, Err e)
                | (child, Ok _) => (<[index := IPtr child]> node, Ok tt)
                end
              end
          | ICid _ => (node, Err Fault)
          end
        end
      end
    end
  end.

(** The two loops of [cleanShard] that gather the entries of the leaves
    of a node; [None] is the early [return outcome::success()]. *)
Fixpoint gather_pairs (pairs : list (string * Value)) (leaf : Leaf)
    : option Leaf :=
  match pairs with
  | [] => Some leaf
  | (k, v) :: pairs' =>
    let leaf := match leaf !! k with
                | Some _ => leaf
                | None => <[k := v]> leaf
                end in
    if bool_decide (kLeafMax < size leaf)%nat then None
    else gather_pairs pairs' leaf
  end.

Fixpoint gather_items (items : list (Z * Item)) (leaf : Leaf) : option Leaf :=
  match items with
  | [] => Some leaf
  | (_, ILeaf l) :: items' =>
    match gather_pairs (ordered_pairs l) leaf with
    | None => None
    | Some leaf => gather_items items' leaf
    end
  | _ :: _ => None
  end.

Definition cleanShard (item : Item) : Item * result unit :=
  match item with
  | IPtr node =>
    if bool_decide (size node = 1%nat) then
      match ordered_items node with
      | (_, ILeaf single) :: _ => (ILeaf single, Ok tt)
      | _ => (item, Ok tt)
      end
    else if bool_decide (size node ≤ kLeafMax)%nat then
      match gather_items (ordered_items node) ∅ with
      | Some leaf => (ILeaf leaf, Ok tt)
      | None => (item, Ok tt)
      end
    else (item, Ok tt)
  | _ => (item, Err Fault)
  end.

(** [remove(node, indices, key)] *)
Fixpoint remove_node (node : Node) (indices : list Z) (key : string)
    : Node * result unit :=
  match indices with
  | [] => (node, Err kMaxDepth)
  | index :: rest =>
    match node !! index with
    | None => (node, Err kNotFound)
    | Some item =>
      match loadItem item with
      | (_, Err e) => (node, Err e)
      | (item, Ok _) =>
        let node := <[index := item]> node in
        match item with
        | IPtr child =>
          match remove_node child rest key with
          | (child', Err e) => (<[index := IPtr child']> node, Err e)
          | (child', Ok _) =>
            let '(item', r) := cleanShard (IPtr child') in
            (<[index := item']> node, r)
          end
        | ILeaf leaf =>
          match leaf !! key with
          | None => (node, Err kNotFound)
          | Some _ =>
            if bool_decide (size leaf = 1%nat) then (delete index node, Ok tt)
            else (<[index := ILeaf (delete key leaf)]> node, Ok tt)
          end
        | ICid _ => (node, Err Fault)
        end
      end
    end
  end.

(** The loop of [get], which also loads the items it walks through. *)
Fixpoint get_node (node : Node) (indices : list Z) (key : string)
    : Node * result Value :=
  match indices with
  | [] => (node, Err kMaxDepth)
  | index :: rest =>
    match node !! index with
    | None => (node, Err kNotFound)
    | Some item =>
      match loadItem item with
      | (_, Err e) => (node, Err e)
      | (item, Ok _) =>
        let node := <[index := item]> node in
        match item with
        | IPtr child =>
          let '(child', r) := get_node child rest key in
          (<[index := IPtr child']> node, r)
        | ILeaf leaf =>
          match leaf !! key with
          | None => (node, Err kNotFound)
          | Some v => (node, Ok v)
          end
        | ICid _ => (node, Err Fault)
        end
      end
    end
  end.

(** [OUTCOME_TRY(loadItem(root_))] followed by a call on
    [*boost::get<Node::Ptr>(root_)]. *)
Definition on_root {A} (h : Hamt) (call : Node → Node * result A)
    : Hamt * result A :=
  match loadItem (root_ h) with
  | (_, Err e) => (h, Err e)
  | (IPtr node, Ok _) =>
    let '(node', r) := call node in
    (mkHamt (IPtr node') (bit_width_ h), r)
  | (root, Ok _) => (mkHamt root (bit_width_ h), Err Fault)
  end.

Definition set (h : Hamt) (key : string) (value : Value)
    : Hamt * result unit :=
  on_root h (λ node,
    match keyToIndices (bit_width_ h) key (-1) with
    | None => (node, Err Fault)
    | Some indices =>
      set_node (length indices) (bit_width_ h) node indices key value
    end).

Definition get (h : Hamt) (key : string) : Hamt * result Value :=
  on_root h (λ node,
    match keyToIndices (bit_width_ h) key (-1) with
    | None => (node, Err Fault)
    | Some indices => get_node node indices key
    end).

Definition remove (h : Hamt) (key : string) : Hamt * result unit :=
  on_root h (λ node,
    match keyToIndices (bit_width_ h) key (-1) with
    | None => (node, Err Fault)
    | Some indices => remove_node node indices key
    end).

Definition contains (h : Hamt) (key : string) : Hamt * result bool :=
  match get h key with
  | (h', Err kNotFound) => (h', Ok false)
  | (h', Err e) => (h', Err e)
  | (h', Ok _) => (h', Ok true)
  end.

(** The loop of [flush(item)] over the items of a node, each already
    paired with the outcome of its own flush. *)
Fixpoint flush_items (items : list (Z * (Item * result unit))) (node : Node)
    : Node * result unit :=
  match items with
  | [] => (node, Ok tt)
  | (i, (item', Ok _)) :: items' => flush_items items' (<[i := item']> node)
  | (i, (item', Err e)) :: _ => (<[i := item']> node, Err e)
  end.

Fixpoint flush_item (item : Item) : Item * result unit :=
  match item with
  | IPtr node =>
    match flush_items (ordered_items (flush_item <$> node)) node with
    | (node', Err e) => (IPtr node', Err e)
    | (node', Ok _) =>
      match setCbor node' with
      | Err e => (IPtr node', Err e)
      | Ok cid => (ICid cid, Ok tt)
      end
    end
  | _ => (item, Ok tt)
  end.

(** [flush()], with the [boost::get<CID>(root_)] of [cid()]. *)
Definition flush (h : Hamt) : Hamt * result CID :=
  match flush_item (root_ h) with
  | (root, Err e) => (mkHamt root (bit_width_ h), Err e)
  | (ICid c, Ok _) => (mkHamt (ICid c) (bit_width_ h), Ok c)
  | (root, Ok _) => (mkHamt root (bit_width_ h), Err Fault)
  end.

(** [visit]: the visitor is a [std::function], whose effects are what it
    does to a state of its own, of type [A]. *)

(** The loop over the entries of a leaf. *)
Fixpoint visit_pairs {A} (visitor : A → string → Value → A * result unit)
    (pairs : list (string * Value)) (a : A) : A * result unit :=
  match pairs with
  | [] => (a, Ok tt)
  | (k, v) :: pairs' =>
    match visitor a k v with
    | (a', Ok _) => visit_pairs visitor pairs' a'
    | (a', Err e) => (a', Err e)
    end
  end.

(** The loop over the items of a node, [visit_item] being the recursive
    call. *)
Fixpoint visit_items {A} (visit_item : Item → A → Item * A * result unit)
    (items : list (Z * Item)) (node : Node) (a : A)
    : Node * A * result unit :=
  match items with
  | [] => (node, a, Ok tt)
  | (i, item) :: items' =>
    match visit_item item a with
    | (item', a', Ok _) =>
      visit_items visit_item items' (<[i := item']> node) a'
    | (item', a', Err e) => (<[i := item']> node, a', Err e)
    end
  end.

(** [visit(item, visitor)]; the recursion goes into nodes loaded from the
    store, hence the fuel. *)
Fixpoint visit_item {A} (fuel : nat)
    (visitor : A → string → Value → A * result unit)
    (item : Item) (a : A) : Item * A * result unit :=
  match loadItem item with
  | (item, Err e) => (item, a, Err e)
  | (IPtr node, Ok _) =>
    match fuel with
    | O => (IPtr node, a, Err OutOfFuel)
    | S fuel' =>
      let '(node', a', r) :=
        visit_items (visit_item fuel' visitor) (ordered_items node) node a in
      (IPtr node', a', r)
    end
  | (ILeaf leaf, Ok _) =>
    let '(a', r) := visit_pairs visitor (ordered_pairs leaf) a in
    (ILeaf leaf, a', r)
  | (ICid c, Ok _) => (ICid c, a, Err Fault)
  end.

Definition visit {A} (fuel : nat)
    (visitor : A → string → Value → A * result unit) (h : Hamt) (a : A)
    : Hamt * A * result unit :=
  let '(root, a', r) := visit_item fuel visitor (root_ h) a in
  (mkHamt root (bit_width_ h), a', r).

End Defs.

End Hamt.

(** ** Branches *)
Module Branches.

Abbreviation BranchId := Z (only parsing).
Abbreviation Height := Z (only parsing).
Abbreviation TipsetHash := (list Z) (only parsing).
(** A [shared_ptr<BranchInfo>] is an address of the heap below; address 0
    is the null pointer. *)
Abbreviation BranchPtr := N (only parsing).

Definition null : BranchPtr := 0%N.

Record RenameBranch := mkRename {
  old_id : BranchId;
  new_id : BranchId;
  above_height : Height;
  split : bool }.

Record BranchInfo := mkBranchInfo {
  id : BranchId;
  top : TipsetHash;
  top_height : Height;
  bottom : TipsetHash;
  bottom_height : Height;
  parent : BranchId;
  parent_hash : TipsetHash;
  synced_to_genesis : bool;
  forks : gset Z }.

Definition set_id v b := mkBranchInfo v (top b) (top_height b) (bottom b)
  (bottom_height b) (parent b) (parent_hash b) (synced_to_genesis b) (forks b).
Definition set_top v b := mkBranchInfo (id b) v (top_height b) (bottom b)
  (bottom_height b) (parent b) (parent_hash b) (synced_to_genesis b) (forks b).
Definition set_top_height v b := mkBranchInfo (id b) (top b) v (bottom b)
  (bottom_height b) (parent b) (parent_hash b) (synced_to_genesis b) (forks b).
Definition set_bottom v b := mkBranchInfo (id b) (top b) (top_height b) v
  (bottom_height b) (parent b) (parent_hash b) (synced_to_genesis b) (forks b).
Definition set_bottom_height v b := mkBranchInfo (id b) (top b) (top_height b)
  (bottom b) v (parent b) (parent_hash b) (synced_to_genesis b) (forks b).
Definition set_parent v b := mkBranchInfo (id b) (top b) (top_height b)
  (bottom b) (bottom_height b) v (parent_hash b) (synced_to_genesis b) (forks b).
Definition set_parent_hash v b := mkBranchInfo (id b) (top b) (top_height b)
  (bottom b) (bottom_height b) (parent b) v (synced_to_genesis b) (forks b).
Definition set_synced_to_genesis v b := mkBranchInfo (id b) (top b)
  (top_height b) (bottom b) (bottom_height b) (parent b) (parent_hash b) v
  (forks b).
Definition set_forks v b := mkBranchInfo (id b) (top b) (top_height b)
  (bottom b) (bottom_height b) (parent b) (parent_hash b)
  (synced_to_genesis b) v.

Record StorePosition := mkPos {
  assigned_branch : BranchId;
  at_bottom_of_branch : BranchId;
  on_top_of_branch : BranchId;
  rename : option RenameBranch }.

Record HeadChanges := mkChanges {
  removed : list TipsetHash;
  added : list TipsetHash }.

Record Tipset := mkTipset {
  height : Height;
  hash : TipsetHash }.

Inductive Error :=
| BRANCHES_LOAD_ERROR
| BRANCHES_NO_GENESIS_BRANCH
| BRANCHES_PARENT_EXPECTED
| BRANCHES_NO_CURRENT_CHAIN
| BRANCHES_BRANCH_NOT_FOUND
| BRANCHES_HEAD_NOT_FOUND
| BRANCHES_HEAD_NOT_SYNCED
| BRANCHES_CYCLE_DETECTED
| BRANCHES_STORE_ERROR
| BRANCHES_HEIGHT_MISMATCH
| BRANCHES_NO_COMMON_ROOT
| BRANCHES_NO_ROUTE.

Inductive result (A : Type) : Type :=
| Ok (a : A)
| Err (e : Error).
Arguments Ok {A} a.
Arguments Err {A} e.

(** The members of class [Branches], and the heap that holds the
    [BranchInfo] objects its maps share. *)
Record State := mkState {
  heap : gmap N BranchInfo;
  all_branches_ : gmap Z N;
  heads_ : gmap (list Z) N;
  unloaded_roots_ : gmap (list Z) N;
  genesis_branch_ : BranchPtr;
  current_chain_ : gmap Z N;
  current_top_branch_ : BranchId;
  current_height_ : Height }.

Definition set_heap v s := mkState v (all_branches_ s) (heads_ s)
  (unloaded_roots_ s) (genesis_branch_ s) (current_chain_ s)
  (current_top_branch_ s) (current_height_ s).
Definition set_all_branches v s := mkState (heap s) v (heads_ s)
  (unloaded_roots_ s) (genesis_branch_ s) (current_chain_ s)
  (current_top_branch_ s) (current_height_ s).
Definition set_heads v s := mkState (heap s) (all_branches_ s) v
  (unloaded_roots_ s) (genesis_branch_ s) (current_chain_ s)
  (current_top_branch_ s) (current_height_ s).
Definition set_unloaded_roots v s := mkState (heap s) (all_branches_ s)
  (heads_ s) v (genesis_branch_ s) (current_chain_ s)
  (current_top_branch_ s) (current_height_ s).
Definition set_genesis_branch v s := mkState (heap s) (all_branches_ s)
  (heads_ s) (unloaded_roots_ s) v (current_chain_ s)
  (current_top_branch_ s) (current_height_ s).
Definition set_current_chain v s := mkState (heap s) (all_branches_ s)
  (heads_ s) (unloaded_roots_ s) (genesis_branch_ s) v
  (current_top_branch_ s) (current_height_ s).
Definition set_current_top_branch v s := mkState (heap s) (all_branches_ s)
  (heads_ s) (unloaded_roots_ s) (genesis_branch_ s) (current_chain_ s) v
  (current_height_ s).
Definition set_current_height v s := mkState (heap s) (all_branches_ s)
  (heads_ s) (unloaded_roots_ s) (genesis_branch_ s) (current_chain_ s)
  (current_top_branch_ s) v.

(** A call either returns, in a new state, or stops at a failed [assert]
    or at the dereference of a null pointer ([Abort]); a loop of the model
    that was given too little fuel ends in [OutOfFuel]. *)
Inductive outcome (A : Type) : Type :=
| Done (a : A) (s : State)
| Abort
| OutOfFuel.
Arguments Done {A} a s.
Arguments Abort {A}.
Arguments OutOfFuel {A}.

Definition M (A : Type) : Type := State → outcome A.

Definition ret {A} (a : A) : M A := λ s, Done a s.

Definition bind {A B} (m : M A) (k : A → M B) : M B :=
  λ s, match m s with
       | Done a s' => k a s'
       | Abort => Abort
       | OutOfFuel => OutOfFuel
       end.

Notation "'do' x <- c1 ; c2" := (bind c1 (λ x, c2))
  (at level 10, x name, c1 at level 100, c2 at level 200).

Definition gets {A} (f : State → A) : M A := λ s, Done (f s) s.
Definition modify (f : State → State) : M unit := λ s, Done tt (f s).
Definition assert (c : bool) : M unit :=
  λ s, if c then Done tt s else Abort.

(** [*p] *)
Definition deref (p : BranchPtr) : M BranchInfo :=
  λ s, match heap s !! p with
       | Some b => Done b s
       | None => Abort
       end.

(** [p->field = v] *)
Definition update (p : BranchPtr) (f : BranchInfo → BranchInfo) : M unit :=
  λ s, match heap s !! p with
       | Some b => Done tt (set_heap (<[p := f b]> (heap s)) s)
       | None => Abort
       end.

Definition fresh_ptr (h : gmap N BranchInfo) : BranchPtr :=
  N.succ (map_fold (λ p _ acc, N.max p acc) 0%N h).

(** [std::make_shared<BranchInfo>(b)] *)
Definition make_shared (b : BranchInfo) : M BranchPtr :=
  λ s, let p := fresh_ptr (heap s) in
       Done p (set_heap (<[p := b]> (heap s)) s).

Fixpoint for_each {A} (l : list A) (body : A → M unit) : M unit :=
  match l with
  | [] => ret tt
  | x :: l' => do _ <- body x ; for_each l' body
  end.

Definition default_branch (kNoBranch : BranchId) : BranchInfo :=
  mkBranchInfo kNoBranch [] 0 [] 0 kNoBranch [] false ∅.

Definition is_empty_hash (h : TipsetHash) : bool :=
  match h with [] => true | _ => false end.

Section Defs.

(** [fwd.hpp] is not among the sources: its two distinguished branch ids
    are parameters of the model. *)
Variables (kNoBranch kGenesisBranch : BranchId).

Definition empty (s : State) : bool := bool_decide (all_branches_ s = ∅).

(** [getBranch(id) const] *)
Definition getBranch_const (s : State) (i : BranchId) : result BranchPtr :=
  match all_branches_ s !! i with
  | None => Err BRANCHES_BRANCH_NOT_FOUND
  | Some p => Ok p
  end.

(** [getBranch(id)], a null pointer when the id is unknown *)
Definition getBranch (s : State) (i : BranchId) : BranchPtr :=
  match all_branches_ s !! i with
  | None => null
  | Some p => p
  end.

Definition newBranchId (s : State) : BranchId :=
  match last (ordered_items (all_branches_ s)) with
  | Some (i, _) => i + 1
  | None => kGenesisBranch + 1
  end.

(** The [while (a != b)] loop of [getCommonRoot]; [A] and [B] are the
    pointers the two ids resolve to. *)
Fixpoint getCommonRoot_loop (fuel : nat) (s : State) (a b : BranchId)
    (A B : BranchPtr) : outcome (result BranchPtr) :=
  if bool_decide (a = b) then
    if bool_decide (A = B) then Done (Ok A) s else Abort
  else
    match fuel with
    | O => OutOfFuel
    | S fuel' =>
      match heap s !! A, heap s !! B with
      | Some iA, Some iB =>
        if bool_decide (bottom_height iA ≤ bottom_height iB) then
          let b' := parent iB in
          if bool_decide (b' = kNoBranch) then
            Done (Err BRANCHES_NO_COMMON_ROOT) s
          else
            match getBranch_const s b' with
            | Err e => Done (Err e) s
            | Ok B' => getCommonRoot_loop fuel' s a b' A B'
            end
        else if bool_decide (bottom_height iB ≤ bottom_height iA) then
          let a' := parent iA in
          if bool_decide (a' = kNoBranch) then
            Done (Err BRANCHES_NO_COMMON_ROOT) s
          else
            match getBranch_const s a' with
            | Err e => Done (Err e) s
            | Ok A' => getCommonRoot_loop fuel' s a' b A' B
            end
        else getCommonRoot_loop fuel' s a b A B
      | _, _ => Abort
      end
    end.

Definition getCommonRoot (fuel : nat) (a b : BranchId) : M (result BranchPtr) :=
  λ s,
  if bool_decide (a = kNoBranch) || bool_decide (b = kNoBranch) then
    Done (Err BRANCHES_NO_COMMON_ROOT) s
  else
    match getBranch_const s a with
    | Err e => Done (Err e) s
    | Ok A =>
      match getBranch_const s b with
      | Err e => Done (Err e) s
      | Ok B => getCommonRoot_loop fuel s a b A B
      end
    end.

Definition clear : M unit :=
  modify (λ s, mkState (heap s) ∅ ∅ ∅ null ∅ kNoBranch 0).

Definition newBranch (hash : TipsetHash) (height : Height)
    (parent_hash : TipsetHash) (pos : StorePosition) : M unit :=
  do _ <- assert (negb (bool_decide (assigned_branch pos = kNoBranch))) ;
  do known <- gets (λ s, all_branches_ s !! assigned_branch pos) ;
  do _ <- assert (bool_decide (known = None)) ;
  do ptr <- make_shared
    (mkBranchInfo (assigned_branch pos) hash height hash height kNoBranch
       parent_hash false ∅) ;
  do _ <- modify (λ s, set_all_branches (<[assigned_branch pos := ptr]> (all_branches_ s)) s) ;
  do _ <- modify (λ s, set_heads (<[hash := ptr]> (heads_ s)) s) ;
  if is_empty_hash parent_hash then
    do _ <- assert (bool_decide (assigned_branch pos = kGenesisBranch)) ;
    do _ <- assert (bool_decide (height = 0)) ;
    do _ <- update ptr (set_synced_to_genesis true) ;
    modify (set_genesis_branch ptr)
  else
    do _ <- assert (bool_decide (0 < height)) ;
    modify (λ s, set_unloaded_roots (<[parent_hash := ptr]> (unloaded_roots_ s)) s).

Fixpoint updateHeads (fuel : nat) (branch : BranchPtr) (synced : bool)
    (changes : HeadChanges) : M HeadChanges :=
  match fuel with
  | O => λ _, OutOfFuel
  | S fuel' =>
    do _ <- update branch (set_synced_to_genesis synced) ;
    do b <- deref branch ;
    if bool_decide (forks b = ∅) then
      do _ <- modify (λ s, set_heads (<[top b := branch]> (heads_ s)) s) ;
      ret (if synced
           then mkChanges (removed changes) (added changes ++ [top b])
           else changes)
    else
      (fix each (ids : list Z) (changes : HeadChanges) : M HeadChanges :=
         match ids with
         | [] => ret changes
         | i :: ids' =>
           do fork <- gets (λ s, getBranch s i) ;
           do _ <- assert (negb (bool_decide (fork = null))) ;
           do f <- deref fork ;
           do _ <- assert (negb (synced_to_genesis f)) ;
           do changes' <- updateHeads fuel' fork synced changes ;
           each ids' changes'
         end) (ordered_ids (forks b)) changes
  end.

Definition mergeBranches (fuel : nat) (branch parent_branch : BranchPtr)
    (changes : HeadChanges) : M HeadChanges :=
  do b <- deref branch ;
  do _ <- update parent_branch (set_top_height (top_height b)) ;
  do b <- deref branch ;
  do _ <- update parent_branch (set_top (top b)) ;
  do _ <- update branch (set_top []) ;
  do b <- deref branch ;
  do _ <- update parent_branch (set_forks (forks b)) ;
  do _ <- update branch (set_forks ∅) ;
  do b <- deref branch ;
  do _ <- modify (λ s, set_all_branches (delete (id b) (all_branches_ s)) s) ;
  do p <- deref parent_branch ;
  updateHeads fuel parent_branch (synced_to_genesis p) changes.

Definition storeTipset (fuel : nat) (tipset : Tipset)
    (parent_hash : TipsetHash) (pos : StorePosition) : M HeadChanges :=
  let changes := mkChanges [] [] in
  let height := height tipset in
  let hash := hash tipset in
  let new_standalone_branch :=
    bool_decide (at_bottom_of_branch pos = kNoBranch)
    && bool_decide (on_top_of_branch pos = kNoBranch) in
  if new_standalone_branch then
    do _ <- newBranch hash height parent_hash pos ;
    ret (mkChanges [] [])
  else
    do _ <- assert (bool_decide (0 < height) && negb (is_empty_hash parent_hash)) ;
    do bottom_link <-
      (if bool_decide (at_bottom_of_branch pos = kNoBranch) then
         ret (null, false)
       else
         do it <- gets (λ s, unloaded_roots_ s !! hash) ;
         match it with
         | None => λ _, Abort
         | Some b =>
           do ib <- deref b ;
           do _ <- assert (bool_decide (height < bottom_height ib)) ;
           do _ <- assert (bool_decide (parent ib = kNoBranch)) ;
           do _ <- assert (bool_decide (id ib = at_bottom_of_branch pos)) ;
           do _ <- update b (set_bottom_height height) ;
           do _ <- update b (set_bottom hash) ;
           do _ <- update b (set_parent_hash parent_hash) ;
           do _ <- modify (λ s, set_unloaded_roots (delete hash (unloaded_roots_ s)) s) ;
           if bool_decide (on_top_of_branch pos = kNoBranch) then
             do _ <- modify (λ s, set_unloaded_roots (<[parent_hash := b]> (unloaded_roots_ s)) s) ;
             ret (b, true)
           else ret (b, false)
         end) ;
    let linked_to_bottom := bottom_link.1 in
    if bottom_link.2 then ret changes
    else
      do _ <- assert (negb (bool_decide (on_top_of_branch pos = kNoBranch))) ;
      if bool_decide (assigned_branch pos = on_top_of_branch pos) then
        (* linking without fork *)
        do it <- gets (λ s, heads_ s !! parent_hash) ;
        match it with
        | None => λ _, Abort
        | Some parent_branch =>
          do _ <- modify (λ s, set_heads (delete parent_hash (heads_ s)) s) ;
          do p <- deref parent_branch ;
          do _ <- assert (bool_decide (top_height p < height)) ;
          do _ <- assert (bool_decide (forks p = ∅)) ;
          if bool_decide (linked_to_bottom = null) then
            (* appending tipset on top of new head *)
            do _ <- update parent_branch (set_top_height height) ;
            do _ <- update parent_branch (set_top parent_hash) ;
            do p <- deref parent_branch ;
            let notify_change := synced_to_genesis p in
            do _ <- modify (λ s, set_heads (<[hash := parent_branch]> (heads_ s)) s) ;
            ret (if notify_change
                 then mkChanges (removed changes ++ [parent_hash])
                                (added changes ++ [hash])
                 else changes)
          else
            (* merging branches by renaming *)
            do _ <- assert (negb (bool_decide (at_bottom_of_branch pos = kNoBranch))) ;
            do known <- gets (λ s, getBranch s (at_bottom_of_branch pos)) ;
            do _ <- assert (bool_decide (known = linked_to_bottom)) ;
            mergeBranches fuel linked_to_bottom parent_branch changes
        end
      else
        (* make fork from the non-head branch top *)
        do branch <- gets (λ s, getBranch s (on_top_of_branch pos)) ;
        do _ <- assert (negb (bool_decide (branch = null))) ;
        do b <- deref branch ;
        do _ <- assert (bool_decide (parent_hash = top b)) ;
        do hd <- gets (λ s, heads_ s !! parent_hash) ;
        do _ <- assert (bool_decide (hd = None)) ;
        do _ <- assert (negb (bool_decide (forks b = ∅))) ;
        do linked_to_bottom <-
          (if bool_decide (linked_to_bottom = null) then
             do _ <- newBranch hash height parent_hash pos ;
             gets (λ s, getBranch s (assigned_branch pos))
           else ret linked_to_bottom) ;
        do _ <- assert (negb (bool_decide (linked_to_bottom = null))) ;
        do _ <- update branch (λ b, set_forks ({[assigned_branch pos]} ∪ forks b) b) ;
        do b <- deref branch ;
        do _ <- update linked_to_bottom (set_parent (id b)) ;
        do b <- deref branch ;
        updateHeads fuel linked_to_bottom (synced_to_genesis b) changes.

Definition storeGenesis (fuel : nat) (genesis_tipset : Tipset)
    : M (result unit) :=
  do e <- gets empty ;
  if negb e then ret (Err BRANCHES_STORE_ERROR)
  else
    do _ <- storeTipset fuel genesis_tipset []
      (mkPos kGenesisBranch kNoBranch kNoBranch None) ;
    ret (Ok tt).

Definition findStorePosition (tipset : Tipset) (parent_hash : TipsetHash)
    (parent_branch : BranchId) (parent_height : Height)
    : M (result StorePosition) :=
  let height := height tipset in
  let hash := hash tipset in
  if bool_decide (height = 0) then
    do e <- gets empty ;
    if negb e then ret (Err BRANCHES_STORE_ERROR)
    else ret (Ok (mkPos kGenesisBranch kNoBranch kNoBranch None))
  else
    do it <- gets (λ s, unloaded_roots_ s !! hash) ;
    do p <-
      match it with
      | Some b => do ib <- deref b ; ret (mkPos (id ib) (id ib) kNoBranch None)
      | None => ret (mkPos kNoBranch kNoBranch kNoBranch None)
      end ;
    do _ <- assert (bool_decide (parent_height < height)) ;
    do r <-
      (if bool_decide (parent_branch = kNoBranch) then ret (Ok p)
       else
         do found <- gets (λ s, getBranch_const s parent_branch) ;
         match found with
         | Err e => ret (Err e)
         | Ok ptr =>
           do info <- deref ptr ;
           if bool_decide (top_height info < parent_height)
              || bool_decide (parent_height < bottom_height info) then
             ret (Err BRANCHES_HEIGHT_MISMATCH)
           else
             let p := mkPos (assigned_branch p) (at_bottom_of_branch p)
                        parent_branch (rename p) in
             if negb (bool_decide (parent_height = top_height info)) then
               do fresh <- gets newBranchId ;
               ret (Ok (mkPos (assigned_branch p) (at_bottom_of_branch p)
                          (on_top_of_branch p)
                          (Some (mkRename parent_branch fresh parent_height true))))
             else if bool_decide (forks info = ∅) then
               ret (Ok (mkPos parent_branch (at_bottom_of_branch p)
                          (on_top_of_branch p)
                          (if bool_decide (at_bottom_of_branch p = kNoBranch)
                           then rename p
                           else Some (mkRename (at_bottom_of_branch p)
                                        parent_branch 0 false))))
             else ret (Ok p)
         end) ;
    match r with
    | Err e => ret (Err e)
    | Ok p =>
      if bool_decide (assigned_branch p = kNoBranch) then
        do fresh <- gets newBranchId ;
        ret (Ok (mkPos fresh (at_bottom_of_branch p) (on_top_of_branch p)
                   (rename p)))
      else ret (Ok p)
    end.

Definition splitBranch (new_top new_bottom : TipsetHash)
    (new_bottom_height : Height) (pos : RenameBranch) : M unit :=
  do _ <- assert (negb (bool_decide (old_id pos = kNoBranch))) ;
  do _ <- assert (negb (bool_decide (new_id pos = kNoBranch))) ;
  do _ <- assert (negb (bool_decide (new_id pos = old_id pos))) ;
  do _ <- assert (bool_decide (0 ≤ above_height pos)) ;
  do known <- gets (λ s, all_branches_ s !! new_id pos) ;
  do _ <- assert (bool_decide (known = None)) ;
  do parent_ptr <- gets (λ s, getBranch s (old_id pos)) ;
  do _ <- assert (negb (bool_decide (parent_ptr = null))) ;
  do p <- deref parent_ptr ;
  do _ <- assert (bool_decide (above_height pos < top_height p)) ;
  do _ <- assert (bool_decide (bottom_height p ≤ above_height pos)) ;
  do _ <- assert (bool_decide (new_bottom_height ≤ top_height p)) ;
  do _ <- assert (bool_decide (above_height pos < new_bottom_height)) ;
  do fork <- make_shared p ;
  do hd <- gets (λ s, heads_ s !! top p) ;
  let is_head := bool_decide (is_Some hd) in
  do _ <- (if is_head
           then modify (λ s, set_heads (delete (top p) (heads_ s)) s)
           else ret tt) ;
  do chain <- gets current_chain_ ;
  let in_current_chain :=
    negb (bool_decide (chain = ∅)) && synced_to_genesis p
    && bool_decide (chain !! top_height p = Some parent_ptr) in
  do _ <- (if in_current_chain
           then modify (λ s, set_current_chain
                               (delete (top_height p) (current_chain_ s)) s)
           else ret tt) ;
  do _ <- update fork (set_id (new_id pos)) ;
  do _ <- update fork (set_bottom new_bottom) ;
  do p <- deref parent_ptr ;
  do _ <- update fork (set_parent (id p)) ;
  do f <- deref fork ;
  do _ <- for_each (ordered_ids (forks f)) (λ i,
            do b <- gets (λ s, getBranch s i) ;
            do _ <- assert (negb (bool_decide (b = null))) ;
            do f <- deref fork ;
            update b (set_parent (id f))) ;
  do f <- deref fork ;
  do _ <- modify (λ s, set_all_branches (<[id f := fork]> (all_branches_ s)) s) ;
  do _ <- update parent_ptr (set_top new_top) ;
  do _ <- update parent_ptr (set_top_height (above_height pos)) ;
  do _ <- update parent_ptr (set_forks ∅) ;
  do f <- deref fork ;
  do _ <- update parent_ptr (λ b, set_forks ({[id f]} ∪ forks b) b) ;
  do _ <- (if is_head
           then do f <- deref fork ;
                modify (λ s, set_heads (<[top f := fork]> (heads_ s)) s)
           else ret tt) ;
  if in_current_chain then
    do p <- deref parent_ptr ;
    do _ <- modify (λ s, set_current_chain
                           (<[top_height p := parent_ptr]> (current_chain_ s)) s) ;
    do f <- deref fork ;
    modify (λ s, set_current_chain
                   (<[top_height f := fork]> (current_chain_ s)) s)
  else ret tt.

(** The [while (parent != kNoBranch)] loop of [setCurrentHead]; the
    recursion is on the source's own [cycle_guard]. *)
Fixpoint setCurrentHead_loop (cycle_guard : nat) (parent_id : BranchId)
    : M (result unit) :=
  if bool_decide (parent_id = kNoBranch) then ret (Ok tt)
  else
    match cycle_guard with
    | O => λ _, OutOfFuel
    | S guard' =>
      if bool_decide (guard' = O) then
        do _ <- modify (set_current_chain ∅) ;
        ret (Err BRANCHES_CYCLE_DETECTED)
      else
        do known <- gets (λ s, all_branches_ s !! parent_id) ;
        match known with
        | None => λ _, Abort
        | Some branch =>
          do b <- deref branch ;
          do _ <- modify (λ s, set_current_chain
                                 (<[top_height b := branch]> (current_chain_ s)) s) ;
          setCurrentHead_loop guard' (parent b)
        end
    end.

Definition setCurrentHead (head_branch : BranchId) (height : Height)
    : M (result unit) :=
  if bool_decide (head_branch = kNoBranch) then
    do _ <- modify (set_current_chain ∅) ;
    do _ <- modify (set_current_top_branch kNoBranch) ;
    do _ <- modify (set_current_height 0) ;
    ret (Ok tt)
  else
    do cur <- gets current_top_branch_ ;
    if bool_decide (cur = head_branch) then
      do h <- gets current_height_ ;
      if negb (bool_decide (h = height)) then
        do chain <- gets current_chain_ ;
        match last (ordered_items chain) with
        | None => λ _, Abort
        | Some (_, ptr) =>
          do info <- deref ptr ;
          if bool_decide (top_height info < height)
             || bool_decide (height < bottom_height info) then
            ret (Err BRANCHES_HEIGHT_MISMATCH)
          else
            do _ <- modify (set_current_height height) ;
            ret (Ok tt)
        end
      else ret (Ok tt)
    else
      do it <- gets (λ s, all_branches_ s !! head_branch) ;
      match it with
      | None => ret (Err BRANCHES_HEAD_NOT_FOUND)
      | Some ptr =>
        do info <- deref ptr ;
        if negb (synced_to_genesis info) then
          ret (Err BRANCHES_HEAD_NOT_SYNCED)
        else if bool_decide (top_height info < height)
                || bool_decide (height < bottom_height info) then
          ret (Err BRANCHES_HEIGHT_MISMATCH)
        else
          do _ <- modify (set_current_height height) ;
          do _ <- modify (set_current_chain ∅) ;
          do _ <- modify (set_current_top_branch head_branch) ;
          do n <- gets (λ s, size (all_branches_ s)) ;
          do _ <- modify (λ s, set_current_chain
                                 (<[top_height info := ptr]> (current_chain_ s)) s) ;
          setCurrentHead_loop (S n) (parent info)
      end.

(** The first loop of [init], over the records of [all_branches_]; it
    yields the error the source returns from inside the loop, if any. *)
Fixpoint init_validate (l : list (Z * N)) : M (option Error) :=
  match l with
  | [] => ret None
  | (i, ptr) :: l' =>
    let loadFailed : M (option Error) :=
      do _ <- clear ; ret (Some BRANCHES_LOAD_ERROR) in
    if bool_decide (ptr = null) then loadFailed
    else
      do b <- deref ptr ;
      if negb (bool_decide (i = id b)) || bool_decide (i = kNoBranch) then
        loadFailed
      else if bool_decide (top_height b < bottom_height b) then loadFailed
      else if negb (bool_decide (parent b = kNoBranch)) then
        if bool_decide (parent b = id b) then loadFailed
        else
          do it <- gets (λ s, all_branches_ s !! parent b) ;
          match it with
          | None => loadFailed
          | Some parent_ptr =>
            do p <- deref parent_ptr ;
            if bool_decide (bottom_height b ≤ top_height p) then loadFailed
            else
              do _ <- update parent_ptr (λ p, set_forks ({[id b]} ∪ forks p) p) ;
              init_validate l'
          end
      else if bool_decide (id b = kGenesisBranch) then
        do _ <- modify (set_genesis_branch ptr) ;
        init_validate l'
      else if is_empty_hash (parent_hash b) then
        ret (Some BRANCHES_PARENT_EXPECTED)
      else
        do _ <- modify (λ s, set_unloaded_roots
                               (<[parent_hash b := ptr]> (unloaded_roots_ s)) s) ;
        init_validate l'
  end.

Definition init (fuel : nat) (all_branches : gmap Z N)
    : M (result HeadChanges) :=
  do _ <- clear ;
  let heads := mkChanges [] [] in
  if bool_decide (all_branches = ∅) then ret (Ok heads)
  else
    do _ <- modify (set_all_branches all_branches) ;
    do failed <- init_validate (ordered_items all_branches) ;
    match failed with
    | Some e => ret (Err e)
    | None =>
      do genesis <- gets genesis_branch_ ;
      if bool_decide (genesis = null) then
        do _ <- clear ;
        ret (Err BRANCHES_NO_GENESIS_BRANCH)
      else
        do heads <- updateHeads fuel genesis true heads ;
        (* unsynced heads also needed *)
        do all <- gets all_branches_ ;
        do _ <- for_each (ordered_items all) (λ '(_, ptr),
                  do b <- deref ptr ;
                  if bool_decide (forks b = ∅) && negb (synced_to_genesis b)
                  then modify (λ s, set_heads (<[top b := ptr]> (heads_ s)) s)
                  else ret tt) ;
        ret (Ok heads)
    end.

(** [getAllHeads()] *)
Definition getAllHeads (s : State) : gmap (list Z) N := heads_ s.

(** [current_chain_.lower_bound(h)]: the first entry, in the order of the
    keys, whose key is not less than [h]. *)
Definition lower_bound {V} (m : gmap Z V) (h : Z) : option (Z * V) :=
  head (filter (λ kv, h ≤ kv.1) (ordered_items m)).

Definition getBranchAtHeight (h : Height) (must_exist : bool)
    : M (result BranchId) :=
  do chain <- gets current_chain_ ;
  if bool_decide (chain = ∅) then ret (Err BRANCHES_NO_CURRENT_CHAIN)
  else
    do current <- gets current_height_ ;
    if bool_decide (current < h) then
      ret (if must_exist then Err BRANCHES_BRANCH_NOT_FOUND else Ok kNoBranch)
    else
      do genesis <- gets genesis_branch_ ;
      do g <- deref genesis ;
      if bool_decide (h ≤ top_height g) then ret (Ok kGenesisBranch)
      else
        match lower_bound chain h with
        | None =>
          ret (if must_exist then Err BRANCHES_BRANCH_NOT_FOUND
               else Ok kNoBranch)
        | Some (_, ptr) => do b <- deref ptr ; ret (Ok (id b))
        end.

(** The [for (;;)] loop of [getRoute]; [route] holds the ids pushed so
    far. *)
Fixpoint getRoute_loop (fuel : nat) (s : State) (from to : BranchId)
    (route : list BranchId) : outcome (result (list BranchId)) :=
  match fuel with
  | O => OutOfFuel
  | S fuel' =>
    let route := route ++ [to] in
    match getBranch_const s to with
    | Err e => Done (Err e) s
    | Ok ptr =>
      match heap s !! ptr with
      | None => Abort
      | Some info =>
        let to := parent info in
        if bool_decide (to = from) then
          Done (Ok (reverse (route ++ [from]))) s
        else if bool_decide (to = kNoBranch)
                || bool_decide (to = kGenesisBranch) then
          Done (Err BRANCHES_NO_ROUTE) s
        else getRoute_loop fuel' s from to route
      end
    end
  end.

Definition getRoute (fuel : nat) (from to : BranchId)
    : M (result (list BranchId)) :=
  λ s,
  if bool_decide (from = kNoBranch) || bool_decide (to = kNoBranch) then
    Done (Err BRANCHES_NO_ROUTE) s
  else if bool_decide (from = to) then Done (Ok [from]) s
  else getRoute_loop fuel s from to [].

(** [getRootBranch(id)]; the [return] after the loop is never reached. *)
Fixpoint getRootBranch (fuel : nat) (i : BranchId) (s : State)
    : outcome (result BranchPtr) :=
  match fuel with
  | O => OutOfFuel
  | S fuel' =>
    match getBranch_const s i with
    | Err e => Done (Err e) s
    | Ok ptr =>
      match heap s !! ptr with
      | None => Abort
      | Some info =>
        if bool_decide (parent info = kNoBranch) then Done (Ok ptr) s
        else getRootBranch fuel' (parent info) s
      end
    end
  end.

End Defs.

End Branches.

(** * Properties of the branch graph *)
Module BranchesFacts.
Import Branches.

(** ** The graph invariant

    Every recorded branch is a live object, no branch has the id
    [kNoBranch], and a branch that names a parent has that parent recorded,
    the parent ending strictly below the bottom of the branch ([init]
    rejects every graph that breaks one of these). *)
Definition info_of (s : State) (i : BranchId) : option BranchInfo :=
  match all_branches_ s !! i with
  | Some p => heap s !! p
  | None => None
  end.

Definition branch_ok (kNoBranch : BranchId) (s : State) (b : BranchInfo) : bool :=
  bool_decide (0 ≤ bottom_height b)
  && bool_decide (bottom_height b ≤ top_height b)
  && (bool_decide (parent b = kNoBranch)
      || match info_of s (parent b) with
         | Some p => bool_decide (top_height p < bottom_height b)
                     && bool_decide (bottom_height p ≤ top_height p)
         | None => false
         end).

Definition dag_ok (kNoBranch : BranchId) (s : State) : bool :=
  bool_decide (all_branches_ s !! kNoBranch = None)
  && forallb (λ '(i, _), match info_of s i with
                         | Some b => branch_ok kNoBranch s b
                         | None => false
                         end)
       (map_to_list (all_branches_ s)).

(** [ancestor s a c]: [c] is [a] or is reached from [a] along [parent]. *)
Inductive ancestor (s : State) : BranchId → BranchId → Prop :=
| ancestor_self a b : info_of s a = Some b → ancestor s a a
| ancestor_up a b c :
    info_of s a = Some b → ancestor s (parent b) c → ancestor s a c.



Section Facts.

Variables (kNoBranch kGenesisBranch : BranchId).

Lemma dag_ok_no_branch s :
  dag_ok kNoBranch s = true → all_branches_ s !! kNoBranch = None.
Proof.
  unfold dag_ok. intros H. apply andb_prop in H as [H _].
  by apply bool_decide_eq_true in H.
Qed.

Lemma dag_ok_branch s i p :
  dag_ok kNoBranch s = true → all_branches_ s !! i = Some p →
  ∃ b, heap s !! p = Some b ∧ branch_ok kNoBranch s b = true.
Proof.
  unfold dag_ok. intros H Hi. apply andb_prop in H as [_ H].
  rewrite forallb_forall in H.
  specialize (H (i, p)). cbn in H.
  assert (Hin : In (i, p) (map_to_list (all_branches_ s))).
  { apply list_elem_of_In, elem_of_map_to_list, Hi. }
  specialize (H Hin). unfold info_of in H. rewrite Hi in H.
  destruct (heap s !! p) as [b|]; [|done]. eauto.
Qed.

Lemma dag_ok_info s i b :
  dag_ok kNoBranch s = true → info_of s i = Some b →
  0 ≤ bottom_height b ≤ top_height b ∧
  (parent b ≠ kNoBranch →
   ∃ pb, info_of s (parent b) = Some pb ∧ top_height pb < bottom_height b
         ∧ bottom_height pb < bottom_height b).
Proof.
  intros Hok Hi. unfold info_of in Hi.
  destruct (all_branches_ s !! i) as [p|] eqn:Hp; [|done].
  destruct (dag_ok_branch _ _ _ Hok Hp) as (b' & Hb' & Hbo).
  assert (b' = b) as -> by congruence.
  unfold branch_ok in Hbo.
  apply andb_prop in Hbo as [Hbo Hpar]. apply andb_prop in Hbo as [H0 H1].
  apply bool_decide_eq_true in H0, H1. split; [lia|].
  intros Hne. apply orb_prop in Hpar as [Hpar|Hpar].
  { apply bool_decide_eq_true in Hpar. done. }
  destruct (info_of s (parent b)) as [pb|]; [|done].
  apply andb_prop in Hpar as [H2 H3]. apply bool_decide_eq_true in H2, H3.
  exists pb. split; [done|lia].
Qed.

Lemma ancestor_known s a c : ancestor s a c → is_Some (info_of s a).
Proof. destruct 1; eauto. Qed.

Lemma ancestor_target_known s a c : ancestor s a c → is_Some (info_of s c).
Proof. induction 1; eauto. Qed.


Lemma ancestor_trans s a b c : ancestor s a b → ancestor s b c → ancestor s a c.
Proof.
  induction 1 as [|a i b Hi Hab IH]; [done|].
  intros Hbc. eapply ancestor_up; eauto.
Qed.











Lemma info_of_lookup s a A ia :
  all_branches_ s !! a = Some A → heap s !! A = Some ia →
  info_of s a = Some ia.
Proof. intros Ha HA. unfold info_of. by rewrite Ha. Qed.



Lemma no_ancestor_of_no_branch s c :
  dag_ok kNoBranch s = true → ¬ ancestor s kNoBranch c.
Proof.
  intros Hok H. apply ancestor_known in H as [x Hx]. unfold info_of in Hx.
  by rewrite (dag_ok_no_branch _ Hok) in Hx.
Qed.


(** ** Running the monad *)

Lemma bind_done {A B} (m : M A) (k : A → M B) s r s' :
  bind m k s = Done r s' ↔ ∃ a s1, m s = Done a s1 ∧ k a s1 = Done r s'.
Proof.
  unfold bind. split.
  - destruct (m s) as [a s1| |]; [eauto|done|done].
  - intros (a & s1 & -> & H). done.
Qed.

Lemma assert_done c s r s' :
  assert c s = Done r s' ↔ c = true ∧ s' = s.
Proof.
  unfold assert. destruct c; split; try done.
  - intros [= _ <-]. done.
  - intros [_ ->]. by destruct r.
  - by intros [? _].
Qed.

(** ** [storeTipset], extending a head

    The case of [storeTipset] that appends a tipset to a head: no link to
    the bottom of an unloaded branch, and the assigned branch is the one
    the tipset lands on.  The branch found under [parent_hash] in [heads_]
    is moved to the key [hash], its [top_height] becomes the height of the
    tipset, and its [top] is assigned [parent_hash]. *)
Lemma storeTipset_head_extension fuel s tipset parent_hash pos p b :
  at_bottom_of_branch pos = kNoBranch →
  on_top_of_branch pos ≠ kNoBranch →
  assigned_branch pos = on_top_of_branch pos →
  0 < height tipset → parent_hash ≠ [] →
  heads_ s !! parent_hash = Some p → heap s !! p = Some b →
  top_height b < height tipset → forks b = ∅ →
  storeTipset kNoBranch kGenesisBranch fuel tipset parent_hash pos s =
    Done (if synced_to_genesis b
          then mkChanges [parent_hash] [hash tipset]
          else mkChanges [] [])
      (set_heads (<[hash tipset := p]> (delete parent_hash (heads_ s)))
         (set_heap
            (<[p := set_top parent_hash (set_top_height (height tipset) b)]>
               (heap s)) s)).
Proof.
  intros Hbot Htop Hasg Hh Hph Hhd Hb Hlt Hforks.
  unfold storeTipset.
  rewrite (bool_decide_eq_true_2 _ Hbot), (bool_decide_eq_false_2 _ Htop).
  rewrite (bool_decide_eq_true_2 (0 < height tipset)) by done.
  assert (is_empty_hash parent_hash = false) as -> by (by destruct parent_hash).
  rewrite (bool_decide_eq_true_2 _ Hasg).
  unfold bind, assert, ret, gets, modify, deref, update. cbn.
  rewrite Hhd. cbn. rewrite Hb.
  rewrite (bool_decide_eq_true_2 _ Hlt), (bool_decide_eq_true_2 _ Hforks).
  rewrite (bool_decide_eq_true_2 (null = null)) by done.
  cbn. rewrite Hb. cbn. rewrite !lookup_insert_eq. cbn.
  rewrite !insert_insert_eq.
  unfold set_heads, set_heap. cbn.
  rewrite lookup_insert_eq. cbn. reflexivity.
Qed.

(** ** [init] and [clear] *)

(** The state [clear()] leaves. *)
Definition cleared (s : State) : Prop :=
  all_branches_ s = ∅ ∧ heads_ s = ∅ ∧ unloaded_roots_ s = ∅
  ∧ current_chain_ s = ∅ ∧ genesis_branch_ s = null
  ∧ current_top_branch_ s = kNoBranch ∧ current_height_ s = 0.

Lemma clear_cleared s r s' : clear kNoBranch s = Done r s' → cleared s'.
Proof. intros [= _ <-]. by repeat split. Qed.

(** An error found by the first loop of [init] is returned after
    [clear()], unless it is [BRANCHES_PARENT_EXPECTED]. *)
Lemma init_validate_error l s e s' :
  init_validate kNoBranch kGenesisBranch l s = Done (Some e) s' →
  (e = BRANCHES_LOAD_ERROR ∧ cleared s') ∨ e = BRANCHES_PARENT_EXPECTED.
Proof.
  revert s. induction l as [|[i ptr] l IH]; intros s H; cbn in H.
  { by inversion H. }
  repeat
    match type of H with
    | bind _ _ _ = _ => apply bind_done in H as (? & ? & ? & H)
    | context [match ?x with _ => _ end] => destruct x eqn:?
    end;
    try discriminate H;
    try (by apply IH in H);
    try (by right; inversion H);
    left; inversion H; subst;
    match goal with
    | Hc : clear _ _ = Done _ _ |- _ => apply clear_cleared in Hc; by split
    end.
Qed.

Lemma init_error fuel all_branches s e s' :
  init kNoBranch kGenesisBranch fuel all_branches s = Done (Err e) s' →
  (cleared s' ∧ (e = BRANCHES_LOAD_ERROR ∨ e = BRANCHES_NO_GENESIS_BRANCH))
  ∨ e = BRANCHES_PARENT_EXPECTED.
Proof.
  unfold init. intros H.
  apply bind_done in H as (? & s1 & _ & H).
  case_match; [by inversion H|].
  apply bind_done in H as (? & s2 & _ & H).
  apply bind_done in H as (failed & s3 & Hv & H).
  destruct failed as [e'|].
  - inversion H; subst. apply init_validate_error in Hv as [[-> Hc] | ->]; auto.
  - apply bind_done in H as (g & s4 & _ & H). case_match.
    + apply bind_done in H as (? & s5 & Hc & H). inversion H; subst.
      apply clear_cleared in Hc. auto.
    + apply bind_done in H as (? & s5 & _ & H).
      apply bind_done in H as (? & s6 & _ & H).
      apply bind_done in H as (? & s7 & _ & H). by inversion H.
Qed.

End Facts.

(** ** Concrete graphs, with [kNoBranch = 0] and [kGenesisBranch = 1] *)

Definition no_branches : State := mkState ∅ ∅ ∅ ∅ null ∅ 0 0.

(** The graph after [storeGenesis] of a tipset with hash [[7]]. *)
Definition genesis_state : State :=
  mkState {[1%N := mkBranchInfo 1 [7] 0 [7] 0 0 [] true ∅]}
    {[1 := 1%N]} {[[7] := 1%N]} ∅ 1%N ∅ 0 0.

Example storeGenesis_genesis_state :
  storeGenesis 0 1 0 (mkTipset 0 [7]) no_branches = Done (Ok tt) genesis_state.
Proof. vm_compute. reflexivity. Qed.

(** One branch of three tipsets, of hashes [[7]], [[8]] and [[9]] at
    heights 0, 1 and 2, which is the head and the current chain. *)
Definition linear_state : State :=
  mkState {[1%N := mkBranchInfo 1 [9] 2 [7] 0 0 [] true ∅]}
    {[1 := 1%N]} {[[9] := 1%N]} ∅ 1%N {[2 := 1%N]} 1 2.

(** The genesis branch, heights 0 to 3, with two forks that start at
    height 4. *)
Definition forked_state : State :=
  mkState
    (<[1%N := mkBranchInfo 1 [3] 3 [0] 0 0 [] true {[2; 3]}]>
       (<[2%N := mkBranchInfo 2 [15] 5 [14] 4 1 [3] true ∅]>
          {[3%N := mkBranchInfo 3 [24] 4 [24] 4 1 [3] true ∅]}))
    (<[1 := 1%N]> (<[2 := 2%N]> {[3 := 3%N]}))
    (<[[15] := 2%N]> {[[24] := 3%N]}) ∅ 1%N ∅ 0 0.

(** Two records handed to [init]: the genesis branch, and a branch
    without a parent whose [parent_hash] is empty. *)
Definition orphan_records : gmap Z N := <[1 := 1%N]> {[2 := 2%N]}.

Definition orphan_heap : gmap N BranchInfo :=
  <[1%N := mkBranchInfo 1 [7] 0 [7] 0 0 [] false ∅]>
    {[2%N := mkBranchInfo 2 [5] 3 [5] 3 0 [] false ∅]}.

(** ** The claims *)

(** C1. In the head-extension case of [storeTipset] the branch ends with
    [top_height] equal to the height of the new tipset and, when it is
    synced, the changes are [removed = [old top]] and [added = [new hash]];
    but its [top] is assigned [parent_hash], so it still is the old top
    and not the hash of the new tipset.  Here the tipset [[8]] of height 1
    is stored on top of the genesis branch, whose top is [[7]]. *)
Theorem storeTipset_head_extension_top_not_advanced :
  ∃ s' b,
    storeTipset 0 1 0 (mkTipset 1 [8]) [7] (mkPos 1 0 1 None) genesis_state
      = Done (mkChanges [[7]] [[8]]) s'
    ∧ info_of s' 1 = Some b
    ∧ heads_ s' !! [8] = Some 1%N
    ∧ top_height b = 1
    ∧ top b = [7]
    ∧ top b ≠ hash (mkTipset 1 [8]).
Proof.
  eexists _, _. split.
  - apply (storeTipset_head_extension 0 1 0 genesis_state (mkTipset 1 [8]) [7]
             (mkPos 1 0 1 None) 1%N (mkBranchInfo 1 [7] 0 [7] 0 0 [] true ∅));
      done.
  - repeat split; done.
Qed.

(** C2. [splitBranch] leaves the old branch on [bottom_height, above_height]
    with the new top, and gives the fork the new id, the new bottom, the
    old top, the parent [old_id], the head and the current-chain entries;
    but the fork keeps the [bottom_height] of the old branch instead of
    [new_bottom_height].  Here the branch of heights 0 to 2 is split above
    height 0, the fork starting at the tipset [[8]] of height 1. *)
Theorem splitBranch_fork_keeps_old_bottom_height :
  ∃ s' p f,
    splitBranch 0 [7] [8] 1 (mkRename 1 2 0 true) linear_state = Done tt s'
    ∧ info_of s' 1 = Some p ∧ info_of s' 2 = Some f
    ∧ (bottom_height p = 0 ∧ top_height p = 0 ∧ top p = [7]
       ∧ forks p = {[2]})
    ∧ (bottom f = [8] ∧ top f = [9] ∧ top_height f = 2 ∧ parent f = 1)
    ∧ heads_ s' = {[[9] := 2%N]}
    ∧ current_chain_ s' = <[0 := 1%N]> {[2 := 2%N]}
    ∧ bottom_height f = 0
    ∧ bottom_height f ≠ 1.
Proof.
  eexists _, _, _. split; [vm_compute; reflexivity|].
  split; [vm_compute; reflexivity|].
  split; [vm_compute; reflexivity|].
  repeat split; try done; by vm_compute.
Qed.

(** C4. [init] returns [BRANCHES_PARENT_EXPECTED] from inside its loop
    without calling [clear()]: the records it was given, and the genesis
    branch found so far, stay in the object. *)
Theorem init_parent_expected_not_cleared :
  ∃ s',
    init 0 1 0 orphan_records
      (mkState orphan_heap ∅ ∅ ∅ null ∅ 0 0)
      = Done (Err BRANCHES_PARENT_EXPECTED) s'
    ∧ all_branches_ s' = orphan_records
    ∧ genesis_branch_ s' = 1%N
    ∧ ¬ cleared 0 s'.
Proof.
  eexists. split; [vm_compute; reflexivity|].
  split; [done|]. split; [done|].
  intros (H & _). cbn in H. by apply (f_equal (λ m, m !! 1)) in H.
Qed.




Example getCommonRoot_forked_state :
  getCommonRoot 0 2 2 3 forked_state = Done (Ok 1%N) forked_state
  ∧ getCommonRoot 0 2 3 2 forked_state = Done (Ok 1%N) forked_state.
Proof. split; vm_compute; reflexivity. Qed.

End BranchesFacts.

(** * Properties of the HAMT *)
Module HamtFacts.
Import Hamt.

(** ** The index path of a key

    The hash read as one number, most significant byte first, and its
    successive groups of [bit_width] bits from the most significant bit;
    the bits left over at the end belong to no group. *)
Fixpoint hash_value (hash : list Z) : Z :=
  match hash with
  | [] => 0
  | b :: rest => b * 2 ^ (8 * Z.of_nat (length rest)) + hash_value rest
  end.

Definition hash_bits (hash : list Z) : Z := 8 * Z.of_nat (length hash).

Definition index_count (bit_width : Z) (hash : list Z) : nat :=
  Z.to_nat (hash_bits hash / bit_width).

Definition index_group (bit_width : Z) (hash : list Z) (j : nat) : Z :=
  (hash_value hash / 2 ^ (hash_bits hash - (Z.of_nat j + 1) * bit_width))
  mod 2 ^ bit_width.

Definition index_path (bit_width : Z) (hash : list Z) : list Z :=
  index_group bit_width hash <$> seq 0 (index_count bit_width hash).

Definition is_byte (b : Z) : Prop := 0 ≤ b < 256.

Lemma hash_value_bound hash :
  Forall is_byte hash → 0 ≤ hash_value hash < 2 ^ hash_bits hash.
Proof.
  unfold hash_bits. induction 1 as [|b rest Hb _ IH]; cbn [hash_value length].
  { cbn. lia. }
  rewrite Nat2Z.inj_succ.
  replace (8 * Z.succ (Z.of_nat (length rest)))
    with (8 + 8 * Z.of_nat (length rest)) by lia.
  rewrite Z.pow_add_r by lia. unfold is_byte in Hb.
  change (2 ^ 8) with 256. nia.
Qed.

Lemma land_1_l x : Z.land 1 x = x mod 2.
Proof.
  rewrite Z.land_comm. change (Z.land x 1) with (Z.land x (Z.ones 1)).
  by rewrite Z.land_ones.
Qed.

(** The bit at [offset], counted from the most significant bit. *)
Lemma hash_bit_spec hash offset :
  Forall is_byte hash → 0 ≤ offset < hash_bits hash →
  hash_bit hash offset
  = Some ((hash_value hash / 2 ^ (hash_bits hash - 1 - offset)) mod 2).
Proof.
  intros Hbytes. revert offset.
  induction Hbytes as [|b rest Hb Hrest IH]; intros offset Ho.
  { unfold hash_bits in Ho. cbn in Ho. lia. }
  unfold hash_bit, byte_bits.
  rewrite Z.quot_div_nonneg, Z.rem_mod_nonneg by lia.
  assert (Hlen : hash_bits (b :: rest) = 8 + hash_bits rest).
  { unfold hash_bits. cbn [length]. lia. }
  assert (Hq : 0 ≤ offset / 8 < Z.of_nat (length (b :: rest))).
  { split; [apply Z.div_pos; lia|].
    apply Z.div_lt_upper_bound; [lia|]. unfold hash_bits in Ho. lia. }
  rewrite bool_decide_eq_true_2 by done. f_equal.
  rewrite land_1_l.
  rewrite Z.shiftr_div_pow2 by (pose proof (Z.mod_pos_bound offset 8); lia).
  pose proof (hash_value_bound rest Hrest) as Hv.
  cbn [hash_value]. fold (hash_bits rest). rewrite Hlen.
  destruct (decide (offset < 8)) as [Hlt|Hge].
  - rewrite (Z.div_small offset 8), (Z.mod_small offset 8) by lia.
    cbn [Z.to_nat nth].
    replace (8 + hash_bits rest - 1 - offset)
      with (hash_bits rest + (7 - offset)) by lia.
    rewrite Z.pow_add_r by (unfold hash_bits; lia).
    rewrite <- Z.div_div by lia.
    rewrite Z.div_add_l by lia. rewrite (Z.div_small (hash_value rest)) by lia.
    by rewrite Z.add_0_r.
  - specialize (IH (offset - 8)).
    assert (Ho' : 0 ≤ offset - 8 < hash_bits rest) by lia.
    specialize (IH Ho'). unfold hash_bit, byte_bits in IH.
    rewrite Z.quot_div_nonneg, Z.rem_mod_nonneg in IH by lia.
    assert (Hq' : 0 ≤ (offset - 8) / 8 < Z.of_nat (length rest)).
    { split; [apply Z.div_pos; lia|].
      apply Z.div_lt_upper_bound; [lia|]. unfold hash_bits in Ho'. lia. }
    rewrite bool_decide_eq_true_2 in IH by done.
    rewrite land_1_l in IH.
    rewrite Z.shiftr_div_pow2 in IH
      by (pose proof (Z.mod_pos_bound (offset - 8) 8); lia).
    assert (Hd : (offset - 8) / 8 = offset / 8 - 1).
    { replace (offset - 8) with (offset + (-1) * 8) by lia.
      rewrite Z.div_add by lia. lia. }
    assert (Hm : (offset - 8) mod 8 = offset mod 8).
    { replace (offset - 8) with (offset + (-1) * 8) by lia.
      by rewrite Z.mod_add by lia. }
    rewrite Hd, Hm in IH.
    assert (1 ≤ offset / 8) by (apply Z.div_le_lower_bound; lia).
    replace (Z.to_nat (offset / 8)) with (S (Z.to_nat (offset / 8 - 1)))
      by lia.
    cbn [nth]. injection IH as IH. rewrite IH.
    set (e := 8 + hash_bits rest - 1 - offset).
    replace (hash_bits rest - 1 - (offset - 8)) with e by lia.
    assert (He : 0 ≤ e < hash_bits rest) by lia.
    assert (Hpow : 2 ^ hash_bits rest
                   = 2 ^ (hash_bits rest - e - 1) * 2 * 2 ^ e).
    { transitivity (2 ^ ((hash_bits rest - e - 1) + 1 + e)); [f_equal; lia|].
      rewrite !Z.pow_add_r by lia. done. }
    rewrite Hpow.
    replace (b * (2 ^ (hash_bits rest - e - 1) * 2 * 2 ^ e) + hash_value rest)
      with (hash_value rest + (b * 2 ^ (hash_bits rest - e - 1) * 2) * 2 ^ e)
      by lia.
    rewrite Z.div_add by lia.
    rewrite Z.mod_add by lia. done.
Qed.

(** Reading [count] bits appends the group that starts at [offset]. *)
Lemma read_bits_spec count hash offset index k :
  Forall is_byte hash →
  0 ≤ offset → offset + Z.of_nat count ≤ hash_bits hash →
  0 ≤ k → 0 ≤ index < 2 ^ k → k + Z.of_nat count ≤ 64 →
  read_bits count hash offset index
  = Some (index * 2 ^ Z.of_nat count
          + (hash_value hash
             / 2 ^ (hash_bits hash - offset - Z.of_nat count))
            mod 2 ^ Z.of_nat count,
          offset + Z.of_nat count).
Proof.
  intros Hbytes. revert offset index k.
  induction count as [|count IH]; intros offset index k Ho Hend Hk Hi Hfit.
  { cbn. rewrite Z.mod_1_r. do 2 f_equal; lia. }
  cbn [read_bits]. rewrite hash_bit_spec by (done || lia).
  pose (H := hash_value hash). pose (M := hash_bits hash).
  fold H M.
  set (bit := (H / 2 ^ (M - 1 - offset)) mod 2).
  assert (Hbit : 0 ≤ bit < 2) by (apply Z.mod_pos_bound; lia).
  rewrite Nat2Z.inj_succ in *.
  assert (Hpos : 0 < 2 ^ Z.of_nat count) by (apply Z.pow_pos_nonneg; lia).
  assert (Hk64 : 2 ^ (k + 1) ≤ 2 ^ 64) by (apply Z.pow_le_mono_r; lia).
  assert (Hk1 : 2 ^ (k + 1) = 2 * 2 ^ k).
  { rewrite Z.pow_add_r by lia. change (2 ^ 1) with 2. lia. }
  assert (Hsh : wrap64 (Z.shiftl index 1) = 2 * index).
  { rewrite Z.shiftl_mul_pow2 by lia. unfold wrap64.
    change (2 ^ 1) with 2. rewrite Z.mod_small; lia. }
  assert (Hlor : Z.lor (wrap64 (Z.shiftl index 1)) bit = 2 * index + bit).
  { rewrite Hsh. rewrite <- Z.add_nocarry_lor; [done|].
    assert (bit = 0 ∨ bit = 1) as [->| ->] by lia.
    - apply Z.land_0_r.
    - change (Z.land (2 * index) 1) with (Z.land (2 * index) (Z.ones 1)).
      rewrite Z.land_ones by lia. change (2 ^ 1) with 2.
      rewrite Z.mul_comm. apply Z.mod_mul. lia. }
  rewrite Hlor. rewrite (IH _ _ (k + 1)); try lia.
  fold H M. f_equal. f_equal; [|lia].
  replace (M - (offset + 1) - Z.of_nat count)
    with (M - offset - Z.succ (Z.of_nat count)) by lia.
  set (x := H / 2 ^ (M - offset - Z.succ (Z.of_nat count))).
  assert (Hx : bit = (x / 2 ^ Z.of_nat count) mod 2).
  { unfold bit, x. rewrite Z.div_div by lia.
    rewrite <- Z.pow_add_r by lia. do 2 f_equal. f_equal. lia. }
  rewrite (Z.pow_succ_r 2 (Z.of_nat count)) by lia.
  rewrite (Z.mul_comm 2 (2 ^ Z.of_nat count)).
  rewrite (Z.rem_mul_r x (2 ^ Z.of_nat count) 2) by lia.
  rewrite <- Hx. ring.
Qed.

Lemma wrap64_small z : 0 ≤ z < 18446744073709551616 → wrap64 z = z.
Proof. intros H. unfold wrap64. apply Z.mod_small. exact H. Qed.

Lemma to_int_small z : 0 ≤ z < 2147483648 → to_int z = z.
Proof.
  intros H. unfold to_int. change (2 ^ 31) with 2147483648.
  change (2 ^ 32) with 4294967296. rewrite Z.mod_small; lia.
Qed.

Lemma index_count_mul bit_width hash :
  0 < bit_width →
  Z.of_nat (index_count bit_width hash) * bit_width
  = hash_bits hash - hash_bits hash mod bit_width
  ∧ Z.of_nat (index_count bit_width hash) * bit_width ≤ hash_bits hash.
Proof.
  intros Hbw. unfold index_count.
  assert (0 ≤ hash_bits hash) by (unfold hash_bits; lia).
  assert (0 ≤ hash_bits hash / bit_width) by (apply Z.div_pos; lia).
  rewrite Z2Nat.id by done.
  pose proof (Z.div_mod (hash_bits hash) bit_width).
  pose proof (Z.mod_pos_bound (hash_bits hash) bit_width). lia.
Qed.

(** From the start of group [j] the loop yields the groups [j], [j+1],
    ... up to the last one. *)
Lemma indices_loop_spec hash bit_width rem :
  Forall is_byte hash → 0 < bit_width ≤ 64 → hash_bits hash < 2 ^ 31 →
  ∀ j fuel acc,
    (j + rem = index_count bit_width hash)%nat → (rem ≤ fuel)%nat →
    indices_loop fuel hash bit_width
      (Z.of_nat (index_count bit_width hash) * bit_width)
      (Z.of_nat j * bit_width) acc
    = Some (acc ++ (index_group bit_width hash <$> seq j rem)).
Proof.
  intros Hbytes Hbw Hsmall. change (2 ^ 31) with 2147483648 in Hsmall.
  destruct (index_count_mul bit_width hash) as [_ Hle]; [lia|].
  set (Lc := index_count bit_width hash) in *.
  induction rem as [|rem IH]; intros j fuel acc Hj Hfuel.
  - assert (j = Lc) as -> by lia.
    assert (0 ≤ Z.of_nat Lc * bit_width) by nia.
    destruct fuel; cbn [indices_loop].
    all: rewrite (wrap64_small (Z.of_nat Lc * bit_width)) by lia.
    all: rewrite wrap64_small by lia.
    all: rewrite bool_decide_eq_false_2 by lia; by rewrite app_nil_r.
  - destruct fuel as [|fuel]; [lia|]. cbn [indices_loop].
    assert (Hj1 : (Z.of_nat j + 1) * bit_width ≤ Z.of_nat Lc * bit_width)
      by nia.
    assert (0 ≤ Z.of_nat j * bit_width) by nia.
    rewrite (wrap64_small (Z.of_nat j * bit_width)) by lia.
    rewrite wrap64_small by lia.
    rewrite bool_decide_eq_true_2 by lia.
    rewrite (read_bits_spec _ _ _ _ 0); try done; try lia;
      try (rewrite Z2Nat.id by lia; nia).
    rewrite Z2Nat.id by lia. cbn [Z.mul Z.add].
    replace (Z.of_nat j * bit_width + bit_width)
      with (Z.of_nat (S j) * bit_width) by lia.
    rewrite IH by lia. f_equal. rewrite <- app_assoc. f_equal.
    cbn [seq fmap list_fmap app]. f_equal. unfold index_group.
    rewrite Z.mul_0_l, Z.add_0_l. do 3 f_equal. lia.
Qed.

Section Indices.

Variable sha256 : string → list Z.
Variable bit_width : Z.

(** What is assumed of the hash: 32 bytes; and of the width of an index:
    it fits the [size_t] the source builds it in. *)
Definition sha256_ok (key : string) : Prop :=
  length (sha256 key) = 32%nat ∧ Forall is_byte (sha256 key).

Definition path (key : string) : list Z := index_path bit_width (sha256 key).

(** The number of levels, [L] in the specification. *)
Definition levels : nat := Z.to_nat (256 / bit_width).

Lemma path_length key :
  sha256_ok key → length (path key) = levels.
Proof.
  intros [Hlen _]. unfold path, index_path, levels, index_count, hash_bits.
  rewrite length_fmap, length_seq, Hlen. done.
Qed.

Lemma keyToIndices_full key :
  0 < bit_width ≤ 64 → sha256_ok key →
  keyToIndices sha256 bit_width key (-1) = Some (path key).
Proof.
  intros Hbw [Hlen Hbytes]. unfold keyToIndices.
  rewrite bool_decide_eq_false_2 by lia.
  rewrite (bool_decide_eq_true_2 (-1 = -1)) by done.
  fold (hash_bits (sha256 key)). unfold byte_bits.
  destruct (index_count_mul bit_width (sha256 key)) as [Heq Hle]; [lia|].
  assert (Hbits : hash_bits (sha256 key) = 256).
  { unfold hash_bits. rewrite Hlen. done. }
  fold (hash_bits (sha256 key)). rewrite <- Heq.
  assert (Hsmall : hash_bits (sha256 key) < 2 ^ 31) by (by rewrite Hbits).
  pose proof (indices_loop_spec _ _ (index_count bit_width (sha256 key))
                Hbytes Hbw Hsmall 0%nat
                (S (Z.to_nat (Z.of_nat (index_count bit_width (sha256 key))
                              * bit_width))) []) as Hloop.
  change (Z.of_nat 0 * bit_width) with 0 in Hloop.
  rewrite Hloop; [done|lia|nia].
Qed.

(** The variant with [n]: the indices from position [levels - n + 1]. *)
Lemma keyToIndices_suffix key n :
  0 < bit_width ≤ 64 → sha256_ok key →
  1 ≤ n ≤ Z.of_nat levels + 1 →
  keyToIndices sha256 bit_width key n
  = Some (drop (Z.to_nat (Z.of_nat levels - n + 1)) (path key)).
Proof.
  intros Hbw [Hlen Hbytes] Hn. unfold keyToIndices.
  rewrite bool_decide_eq_false_2 by lia.
  rewrite (bool_decide_eq_false_2 (n = -1)) by lia.
  unfold byte_bits. fold (hash_bits (sha256 key)).
  destruct (index_count_mul bit_width (sha256 key)) as [Heq Hle]; [lia|].
  assert (Hbits : hash_bits (sha256 key) = 256).
  { unfold hash_bits. rewrite Hlen. done. }
  assert (Hlev : index_count bit_width (sha256 key) = levels).
  { unfold index_count, levels. by rewrite Hbits. }
  rewrite <- Heq, Hlev.
  assert (Hoff : to_int (wrap64 (Z.of_nat levels * bit_width
                                 - wrap64 (wrap64 (n - 1) * bit_width)))
                 = Z.of_nat (Z.to_nat (Z.of_nat levels - n + 1)) * bit_width).
  { rewrite Z2Nat.id by lia. rewrite Hlev, Hbits in Hle.
    assert (0 ≤ (n - 1) * bit_width ≤ Z.of_nat levels * bit_width) by nia.
    rewrite (wrap64_small (n - 1)) by lia.
    rewrite (wrap64_small ((n - 1) * bit_width)) by lia.
    rewrite wrap64_small by lia. rewrite to_int_small by lia. lia. }
  rewrite Hoff. rewrite <- Hlev.
  rewrite (indices_loop_spec _ _ (Z.to_nat (n - 1))); try done; try lia.
  - cbn [app]. unfold path, index_path. rewrite <- fmap_drop, drop_seq.
    do 2 f_equal. f_equal; lia.
  - rewrite Hlev. nia.
Qed.

(** C8. With an index of 1 to 64 bits and a hash of 32 bytes,
    [keyToIndices(key)] yields [floor(256 / bit_width)] indices, the
    successive groups of [bit_width] bits of the hash from the most
    significant bit, the bits left over being dropped; and for [n] from 1
    to [L + 1], [keyToIndices(key, n)] yields the indices from position
    [L - n + 1] of that sequence.  So at the split of a leaf in a node at
    depth [k], where [n = L - k] indices are left, the entries of the leaf
    are put back with the indices from position [k + 1], those of the
    child node. *)
Theorem keyToIndices_index_path key :
  0 < bit_width ≤ 64 → sha256_ok key →
  keyToIndices sha256 bit_width key (-1)
  = Some (index_path bit_width (sha256 key))
  ∧ length (index_path bit_width (sha256 key)) = Z.to_nat (256 / bit_width)
  ∧ (∀ j, (j < levels)%nat →
       index_path bit_width (sha256 key) !! j
       = Some (index_group bit_width (sha256 key) j))
  ∧ (∀ n, 1 ≤ n ≤ Z.of_nat levels + 1 →
       keyToIndices sha256 bit_width key n
       = Some (drop (Z.to_nat (Z.of_nat levels - n + 1))
                 (index_path bit_width (sha256 key))))
  ∧ (∀ k, (k < levels)%nat →
       keyToIndices sha256 bit_width key (Z.of_nat (levels - k))
       = Some (drop (S k) (index_path bit_width (sha256 key)))).
Proof.
  intros Hbw Hok. split; [by apply keyToIndices_full|].
  split; [by apply path_length|]. split.
  { intros j Hj. unfold index_path. rewrite list_lookup_fmap.
    rewrite lookup_seq_lt; [done|].
    destruct Hok as [Hlen _]. unfold index_count, hash_bits. by rewrite Hlen. }
  split.
  { intros n Hn. by apply keyToIndices_suffix. }
  intros k Hk. rewrite keyToIndices_suffix by (done || lia).
  do 2 f_equal. lia.
Qed.

End Indices.

(** ** The contents of a trie, and the tries the operations build *)

(** The key-value entries stored under an item; a subtree that is not
    loaded contributes none. *)
Fixpoint content (item : Item) : gmap string (list Z) :=
  match item with
  | ICid _ => ∅
  | ILeaf leaf => leaf
  | IPtr node => map_fold (λ _ it acc, content it ∪ acc) ∅ node
  end.

(** The total number of key-value entries stored under an item. *)
Fixpoint item_entries (item : Item) : nat :=
  match item with
  | ICid _ => 0
  | ILeaf leaf => size leaf
  | IPtr node => map_fold (λ _ it acc, item_entries it + acc)%nat 0%nat node
  end.

Lemma content_in node k v :
  content (IPtr node) !! k = Some v →
  ∃ j it, node !! j = Some it ∧ content it !! k = Some v.
Proof.
  cbn [content].
  apply (map_fold_weak_ind
    (λ r (m : gmap Z Item), r !! k = Some v →
       ∃ j it, m !! j = Some it ∧ content it !! k = Some v)).
  - by rewrite lookup_empty.
  - intros i x m r Hi IH Hr. apply lookup_union_Some_raw in Hr as [Hx|[_ Hr]].
    + exists i, x. by rewrite lookup_insert_eq.
    + destruct (IH Hr) as (j & it & Hj & Hit). exists j, it.
      rewrite lookup_insert_ne; [done|]. intros ->. congruence.
Qed.

Lemma content_covers node j it k :
  node !! j = Some it → is_Some (content it !! k) →
  is_Some (content (IPtr node) !! k).
Proof.
  cbn [content]. revert j it.
  apply (map_fold_weak_ind
    (λ r (m : gmap Z Item), ∀ j it, m !! j = Some it →
       is_Some (content it !! k) → is_Some (r !! k))).
  - intros j it. by rewrite lookup_empty.
  - intros i x m r Hi IH j it Hj Hk.
    destruct (decide (i = j)) as [->|Hne].
    + rewrite lookup_insert_eq in Hj. injection Hj as ->.
      destruct Hk as [v Hv]. exists v. by apply lookup_union_Some_l.
    + rewrite lookup_insert_ne in Hj by done.
      destruct (IH j it Hj Hk) as [v Hv].
      destruct (content x !! k) as [v'|] eqn:Hx.
      * exists v'. by apply lookup_union_Some_l.
      * exists v. rewrite lookup_union_r; done.
Qed.

(** ** Sequences of operations and the reference mapping *)

Inductive op : Type :=
| OpSet (key : string) (value : list Z)
| OpRemove (key : string).

(** The mapping a sequence of operations leaves, given their results: a
    successful [set] binds the key, a successful [remove] unbinds it, and
    a failed operation changes nothing. *)
Definition reference_step (m : gmap string (list Z)) (o : op)
    (r : result unit) : gmap string (list Z) :=
  match r, o with
  | Ok _, OpSet k v => <[k := v]> m
  | Ok _, OpRemove k => delete k m
  | Err _, _ => m
  end.

Fixpoint reference (ops : list op) (rs : list (result unit))
    (m : gmap string (list Z)) : gmap string (list Z) :=
  match ops, rs with
  | o :: ops', r :: rs' => reference ops' rs' (reference_step m o r)
  | _, _ => m
  end.

(** ** The canonical form

    A node in a slot is hoistable when it has a single item and that item
    is a leaf; an item is canonical when no node in a slot, at any depth
    below or at the item, is hoistable or holds [kLeafMax] entries or
    fewer.  The root node is in no slot. *)
Definition single_leaf (node : gmap Z Item) : bool :=
  bool_decide (size node = 1%nat)
  && match ordered_items node with
     | (_, ILeaf _) :: _ => true
     | _ => false
     end.

Fixpoint canonical_item (item : Item) : bool :=
  match item with
  | IPtr node =>
    negb (single_leaf node)
    && bool_decide (kLeafMax < item_entries item)%nat
    && map_fold (λ _ it acc, canonical_item it && acc) true node
  | _ => true
  end.

Definition canonical (h : Hamt) : bool :=
  match root_ h with
  | IPtr node => map_fold (λ _ it acc, canonical_item it && acc) true node
  | _ => true
  end.

Lemma map_fold_all (f : Item → bool) (node : gmap Z Item) :
  (∀ j it, node !! j = Some it → f it = true) →
  map_fold (λ _ it acc, f it && acc) true node = true.
Proof.
  apply (map_fold_weak_ind
    (λ r (m : gmap Z Item), (∀ j it, m !! j = Some it → f it = true) → r = true)).
  - done.
  - intros i x m r Hi IH H. rewrite (H i x) by apply lookup_insert_eq.
    apply IH. intros j it Hj. apply (H j). rewrite lookup_insert_ne; [done|].
    intros ->. congruence.
Qed.

Section Trie.

Variable sha256 : string → list Z.
Variable getCbor : list Z → result (gmap Z Item).
Variable bit_width : Z.

Hypothesis bit_width_ok : 0 < bit_width ≤ 64.
Hypothesis sha256_32 : ∀ key, sha256_ok sha256 key.

Abbreviation path := (path sha256 bit_width).
Abbreviation levels := (levels bit_width).

Lemma levels_pos : (4 ≤ levels)%nat.
Proof.
  unfold HamtFacts.levels.
  assert (4 ≤ 256 / bit_width); [|lia].
  apply Z.div_le_lower_bound; lia.
Qed.

Lemma path_len key : length (path key) = levels.
Proof. apply path_length, sha256_32. Qed.

Lemma path_lookup key d :
  (d < levels)%nat → ∃ i, path key !! d = Some i.
Proof.
  intros Hd. apply lookup_lt_is_Some. by rewrite path_len.
Qed.

Lemma path_drop key d i :
  path key !! d = Some i → drop d (path key) = i :: drop (S d) (path key).
Proof. apply drop_S. Qed.

Lemma path_take key d i :
  path key !! d = Some i → take (S d) (path key) = take d (path key) ++ [i].
Proof. apply take_S_r. Qed.

(** A leaf in the slot reached by the indices [pre]: not empty, within
    [kLeafMax], and all its keys have [pre] as the start of their path. *)
Definition wf_leaf (pre : list Z) (leaf : gmap string (list Z)) : Prop :=
  leaf ≠ ∅ ∧ (size leaf ≤ kLeafMax)%nat
  ∧ ∀ k v, leaf !! k = Some v → take (length pre) (path k) = pre.

(** The items that [set] and [remove] build, [m] being the number of
    indices left below the slot: loaded, every leaf as above, and every
    inner node with more than [kLeafMax] entries. *)
Fixpoint wf_item (m : nat) (pre : list Z) (item : Item) : Prop :=
  match item with
  | ICid _ => False
  | ILeaf leaf => wf_leaf pre leaf
  | IPtr node =>
    match m with
    | O => False
    | S m' =>
      (kLeafMax < size (content item))%nat
      ∧ ∀ j it, node !! j = Some it → wf_item m' (pre ++ [j]) it
    end
  end.

Definition wf_node (m : nat) (pre : list Z) (node : gmap Z Item) : Prop :=
  match m with
  | O => False
  | S m' => ∀ j it, node !! j = Some it → wf_item m' (pre ++ [j]) it
  end.

Lemma wf_item_ptr m pre node :
  wf_item m pre (IPtr node)
  ↔ (kLeafMax < size (content (IPtr node)))%nat ∧ wf_node m pre node.
Proof. destruct m; cbn [wf_item wf_node]; tauto. Qed.

Lemma wf_item_cid m pre c : ¬ wf_item m pre (ICid c).
Proof. destruct m; intros []. Qed.

Lemma wf_item_leaf m pre leaf : wf_item m pre (ILeaf leaf) ↔ wf_leaf pre leaf.
Proof. destruct m; reflexivity. Qed.

Lemma wf_item_keys m pre item k :
  wf_item m pre item → is_Some (content item !! k) →
  take (length pre) (path k) = pre.
Proof.
  revert pre item. induction m as [|m IH]; intros pre [c|node|leaf] Hwf Hk;
    try done.
  - destruct Hwf as (_ & _ & H). destruct Hk as [v Hv]. by eapply H.
  - destruct Hwf as [_ Hwf]. destruct Hk as [v Hv].
    apply content_in in Hv as (j & it & Hj & Hit).
    specialize (IH _ _ (Hwf j it Hj) (mk_is_Some _ _ Hit)).
    rewrite length_app in IH. cbn in IH.
    apply (f_equal (take (length pre))) in IH.
    rewrite take_take, take_app_length in IH.
    by replace (length pre `min` (length pre + 1))%nat with (length pre) in IH
      by lia.
  - destruct Hwf as (_ & _ & H). destruct Hk as [v Hv]. by eapply H.
Qed.

(** The keys under slot [j] of a node have [j] as their index at the
    depth of the node. *)
Lemma wf_node_slot m pre node j it k :
  wf_node m pre node → node !! j = Some it → is_Some (content it !! k) →
  path k !! length pre = Some j.
Proof.
  destruct m as [|m]; [done|]. intros Hwf Hj Hk.
  pose proof (wf_item_keys _ _ _ _ (Hwf j it Hj) Hk) as Ht.
  rewrite length_app in Ht. cbn in Ht.
  apply (f_equal (λ l, l !! length pre)) in Ht.
  rewrite lookup_take in Ht. rewrite decide_True in Ht by lia.
  rewrite Ht. rewrite lookup_app_r by lia.
  by rewrite Nat.sub_diag.
Qed.

(** Looking a key up in the contents of a node goes through the slot of
    its index. *)
Lemma content_lookup m pre node k :
  wf_node m pre node →
  content (IPtr node) !! k
  = match path k !! length pre with
    | Some j => match node !! j with
                | Some it => content it !! k
                | None => None
                end
    | None => None
    end.
Proof.
  intros Hwf. destruct (content (IPtr node) !! k) as [v|] eqn:Hc.
  - pose proof Hc as Hc'.
    apply content_in in Hc as (j & it & Hj & Hit).
    rewrite (wf_node_slot _ _ _ _ _ _ Hwf Hj (mk_is_Some _ _ Hit)), Hj.
    destruct (content_covers node j it k Hj (mk_is_Some _ _ Hit)) as [v' Hv'].
    by rewrite Hit.
  - destruct (path k !! length pre) as [j|]; [|done].
    destruct (node !! j) as [it|] eqn:Hj; [|done].
    destruct (content it !! k) as [v|] eqn:Hit; [|done].
    destruct (content_covers node j it k Hj (mk_is_Some _ _ Hit)) as [v' Hv'].
    congruence.
Qed.

Lemma pre_length key d : (d ≤ levels)%nat → length (take d (path key)) = d.
Proof. intros Hd. rewrite length_take, path_len. lia. Qed.

Definition lookup_result (o : option (list Z)) : result (list Z) :=
  match o with
  | Some v => Ok v
  | None => Err kNotFound
  end.

(** [get] walks down the slots of the indices of the key and returns
    what the contents hold for it; it changes nothing in a loaded trie. *)
Lemma get_node_spec m :
  ∀ d node k,
    (d + m = levels)%nat → wf_node m (take d (path k)) node →
    get_node getCbor node (drop d (path k)) k
    = (node, lookup_result (content (IPtr node) !! k)).
Proof.
  induction m as [|m IH]; intros d node k Hd Hwf; [done|].
  destruct (path_lookup k d) as [i Hi]; [lia|].
  rewrite (content_lookup _ _ _ k Hwf), pre_length, Hi by lia.
  rewrite (path_drop _ _ _ Hi). cbn [get_node].
  destruct (node !! i) as [item|] eqn:Hitem; [|done].
  pose proof (Hwf i item Hitem) as Hit.
  rewrite <- (path_take _ _ _ Hi) in Hit.
  destruct item as [c|child|leaf]; [by apply wf_item_cid in Hit| |];
    cbn [loadItem].
  - apply wf_item_ptr in Hit as [_ Hchild].
    rewrite (IH (S d) child k) by (done || lia).
    rewrite insert_insert_eq, (insert_id _ _ _ Hitem). done.
  - rewrite (insert_id _ _ _ Hitem). cbn [content].
    by destruct (leaf !! k).
Qed.

(** ** Updating one slot of a node *)

Lemma wf_node_insert m pre node i it :
  wf_node (S m) pre node → wf_item m (pre ++ [i]) it →
  wf_node (S m) pre (<[i := it]> node).
Proof.
  intros Hwf Hit j it' Hj. apply lookup_insert_Some in Hj as [[<- <-]|[_ Hj]];
    [done|]. by apply Hwf.
Qed.

Lemma wf_node_delete m pre node i :
  wf_node m pre node → wf_node m pre (delete i node).
Proof.
  destruct m; [done|]. intros Hwf j it Hj.
  apply lookup_delete_Some in Hj as [_ Hj]. by apply Hwf.
Qed.

Lemma wf_node_empty m pre : wf_node (S m) pre ∅.
Proof. intros j it Hj. by rewrite lookup_empty in Hj. Qed.

(** The contents of a node are those of one slot and, disjoint from them,
    those of the other slots. *)
Lemma content_rest_None m pre node i k :
  wf_node m pre node → path k !! length pre = Some i →
  content (IPtr (delete i node)) !! k = None.
Proof.
  intros Hwf Hi.
  rewrite (content_lookup m pre _ k (wf_node_delete _ _ _ _ Hwf)), Hi.
  by rewrite lookup_delete_eq.
Qed.

Lemma content_slot_None m pre node i it k :
  wf_node m pre node → node !! i = Some it →
  path k !! length pre ≠ Some i → content it !! k = None.
Proof.
  intros Hwf Hit Hne. destruct (content it !! k) as [v|] eqn:Hv; [|done].
  destruct Hne. by eapply wf_node_slot.
Qed.

Lemma content_split m pre node i it :
  wf_node m pre node → node !! i = Some it →
  content (IPtr node) = content it ∪ content (IPtr (delete i node)).
Proof.
  intros Hwf Hit. apply map_eq. intros k.
  destruct (decide (path k !! length pre = Some i)) as [Hi|Hne].
  - rewrite lookup_union_l by (by eapply content_rest_None).
    by rewrite (content_lookup _ _ _ k Hwf), Hi, Hit.
  - rewrite lookup_union_r by (by eapply content_slot_None).
    rewrite (content_lookup _ _ _ k Hwf).
    rewrite (content_lookup m pre _ k (wf_node_delete _ _ _ _ Hwf)).
    destruct (path k !! length pre) as [j|]; [|done].
    rewrite lookup_delete_ne; [done|]. congruence.
Qed.

Lemma content_insert m pre node i it :
  wf_node m pre (<[i := it]> node) →
  content (IPtr (<[i := it]> node))
  = content it ∪ content (IPtr (delete i node)).
Proof.
  intros Hwf.
  rewrite (content_split _ _ _ i it Hwf) by apply lookup_insert_eq.
  by rewrite delete_insert_eq.
Qed.

Lemma content_empty_node : content (IPtr ∅) = ∅.
Proof. cbn [content]. apply map_fold_empty. Qed.

(** Replacing the contents of the slot of [k] by those with [k] set, or
    with [k] removed, does the same to the contents of the node. *)
Lemma content_set_slot m pre node i it it' k v :
  wf_node m pre node → wf_node m pre (<[i := it']> node) →
  node !! i = Some it →
  content it' = <[k := v]> (content it) →
  content (IPtr (<[i := it']> node)) = <[k := v]> (content (IPtr node)).
Proof.
  intros Hwf Hwf' Hit Hc.
  rewrite (content_insert _ _ _ _ _ Hwf'), (content_split _ _ _ _ _ Hwf Hit).
  by rewrite Hc, insert_union_l.
Qed.

Lemma content_new_slot m pre node i it' k v :
  wf_node m pre node → wf_node m pre (<[i := it']> node) →
  node !! i = None →
  content it' = {[k := v]} →
  content (IPtr (<[i := it']> node)) = <[k := v]> (content (IPtr node)).
Proof.
  intros Hwf Hwf' Hit Hc.
  rewrite (content_insert _ _ _ _ _ Hwf'), Hc, (delete_id _ _ Hit).
  by rewrite insert_union_singleton_l.
Qed.

Lemma content_remove_slot m pre node i it it' k :
  wf_node m pre node → wf_node m pre (<[i := it']> node) →
  node !! i = Some it → path k !! length pre = Some i →
  content it' = delete k (content it) →
  content (IPtr (<[i := it']> node)) = delete k (content (IPtr node)).
Proof.
  intros Hwf Hwf' Hit Hi Hc.
  rewrite (content_insert _ _ _ _ _ Hwf'), (content_split _ _ _ _ _ Hwf Hit).
  rewrite Hc, delete_union. f_equal. symmetry. apply delete_id.
  by eapply content_rest_None.
Qed.

Lemma content_erase_slot m pre node i it k v :
  wf_node m pre node → node !! i = Some it →
  path k !! length pre = Some i → content it = {[k := v]} →
  content (IPtr (delete i node)) = delete k (content (IPtr node)).
Proof.
  intros Hwf Hit Hi Hc.
  rewrite (content_split _ _ _ _ _ Hwf Hit), Hc, delete_union.
  rewrite delete_singleton_eq, (left_id_L ∅ (∪)). symmetry. apply delete_id.
  by eapply content_rest_None.
Qed.

(** ** [set] *)

Definition insert_all (pairs : list (string * list Z))
    (c : gmap string (list Z)) : gmap string (list Z) :=
  foldl (λ c p, <[p.1 := p.2]> c) c pairs.

Lemma insert_all_list_to_map pairs c :
  NoDup pairs.*1 → insert_all pairs c = list_to_map pairs ∪ c.
Proof.
  unfold insert_all. revert c.
  induction pairs as [|[k v] pairs IH]; intros c Hnd.
  { cbn. by rewrite (left_id_L ∅ (∪)). }
  rewrite fmap_cons in Hnd. apply NoDup_cons in Hnd as [Hk Hnd].
  rewrite list_to_map_cons. cbn [foldl fst snd]. rewrite IH by done.
  rewrite <- insert_union_l. symmetry. apply insert_union_r.
  by apply not_elem_of_list_to_map_1.
Qed.

Lemma ordered_pairs_perm (leaf : gmap string (list Z)) :
  ordered_pairs leaf ≡ₚ map_to_list leaf.
Proof. apply merge_sort_Permutation. Qed.

Lemma ordered_pairs_lookup (leaf : gmap string (list Z)) k v :
  (k, v) ∈ ordered_pairs leaf ↔ leaf !! k = Some v.
Proof. by rewrite ordered_pairs_perm, elem_of_map_to_list. Qed.

Lemma insert_all_ordered leaf c :
  insert_all (ordered_pairs leaf) c = leaf ∪ c.
Proof.
  assert (Hnd : NoDup (ordered_pairs leaf).*1).
  { rewrite ordered_pairs_perm. apply NoDup_fst_map_to_list. }
  rewrite insert_all_list_to_map by done. f_equal.
  rewrite (list_to_map_proper _ (map_to_list leaf)) by
    (done || apply ordered_pairs_perm).
  apply list_to_map_to_list.
Qed.

(** What [set] does to a node of a trie built by the operations, the
    indices being those of the key from the depth of the node on: it fails
    with [kMaxDepth] and changes nothing, or it succeeds and the contents
    get the key set to the value. *)
Definition set_ok (m : nat) : Prop :=
  ∀ d node k v fuel,
    (d + m = levels)%nat → (m ≤ fuel)%nat →
    wf_node m (take d (path k)) node →
    set_node sha256 getCbor fuel bit_width node (drop d (path k)) k v
      = (node, Err kMaxDepth)
    ∨ ∃ node',
        set_node sha256 getCbor fuel bit_width node (drop d (path k)) k v
          = (node', Ok tt)
        ∧ wf_node m (take d (path k)) node'
        ∧ content (IPtr node') = <[k := v]> (content (IPtr node)).

Lemma reinsert_spec m d pre fuel :
  set_ok m → (S d + m = levels)%nat → (m ≤ fuel)%nat →
  ∀ pairs child,
    wf_node m pre child →
    Forall (λ p, take (S d) (path p.1) = pre) pairs →
    (∃ c, reinsert sha256 (set_node sha256 getCbor fuel bit_width) bit_width
            (Z.of_nat (S m)) pairs child = (c, Err kMaxDepth))
    ∨ ∃ child',
        reinsert sha256 (set_node sha256 getCbor fuel bit_width) bit_width
          (Z.of_nat (S m)) pairs child = (child', Ok tt)
        ∧ wf_node m pre child'
        ∧ content (IPtr child') = insert_all pairs (content (IPtr child)).
Proof.
  intros Hset Hd Hfuel pairs.
  induction pairs as [|[k v] pairs IH]; intros child Hwf Hpre.
  { right. exists child. by cbn. }
  apply Forall_cons in Hpre as [Hk Hpre]. cbn in Hk.
  cbn [reinsert].
  rewrite keyToIndices_suffix by (done || lia).
  replace (Z.to_nat (Z.of_nat levels - Z.of_nat (S m) + 1)) with (S d) by lia.
  rewrite <- Hk in Hwf.
  destruct (Hset (S d) child k v fuel Hd Hfuel Hwf) as [->|(c & -> & Hc & Hcc)].
  { left. eauto. }
  rewrite Hk in Hc.
  destruct (IH c Hc Hpre) as [(c' & ->)|(c' & -> & Hc' & Hcc')].
  { left. eauto. }
  right. exists c'. split; [done|]. split; [done|].
  rewrite Hcc', Hcc. done.
Qed.

Lemma size_insert_ge (c : gmap string (list Z)) k v :
  (size c ≤ size (<[k := v]> c))%nat.
Proof. rewrite map_size_insert. destruct (c !! k); cbn; lia. Qed.

Lemma set_node_nil fuel node k v :
  set_node sha256 getCbor fuel bit_width node [] k v = (node, Err kMaxDepth).
Proof. by destruct fuel. Qed.

Lemma set_node_spec m : set_ok m.
Proof.
  induction m as [|m IH]; intros d node k v fuel Hd Hfuel Hwf; [done|].
  destruct (path_lookup k d) as [i Hi]; [lia|].
  assert (Hlen : length (take d (path k)) = d) by (apply pre_length; lia).
  rewrite (path_drop _ _ _ Hi).
  destruct fuel as [|fuel]; [lia|]. cbn [set_node].
  destruct (node !! i) as [item|] eqn:Hitem.
  2:{ (* an empty slot *)
    right. eexists. split; [done|].
    assert (Hwf' : wf_node (S m) (take d (path k))
                     (<[i := ILeaf {[k := v]}]> node)).
    { apply wf_node_insert; [done|]. apply wf_item_leaf.
      split; [apply insert_non_empty|]. split.
      { rewrite map_size_singleton. unfold kLeafMax. lia. }
      intros k' v' Hk'. apply lookup_singleton_Some in Hk' as [<- _].
      rewrite length_app, Hlen. cbn. rewrite Nat.add_1_r.
      by apply path_take. }
    split; [done|]. by eapply content_new_slot. }
  pose proof (Hwf i item Hitem) as Hit.
  rewrite <- (path_take _ _ _ Hi) in Hit.
  destruct item as [c|child|leaf]; [by apply wf_item_cid in Hit| |];
    cbn [loadItem]; rewrite (insert_id _ _ _ Hitem).
  - (* a loaded child *)
    apply wf_item_ptr in Hit as [Hsize Hchild].
    destruct (IH (S d) child k v fuel) as [->|(child' & -> & Hc & Hcc)];
      [lia|lia|done| |].
    { left. by rewrite (insert_id _ _ _ Hitem). }
    right. eexists. split; [done|].
    assert (Hwf' : wf_node (S m) (take d (path k)) (<[i := IPtr child']> node)).
    { apply wf_node_insert; [done|]. rewrite <- (path_take _ _ _ Hi).
      apply wf_item_ptr. split; [|done]. rewrite Hcc.
      pose proof (size_insert_ge (content (IPtr child)) k v). lia. }
    split; [done|]. by eapply content_set_slot.
  - (* a leaf *)
    apply wf_item_leaf in Hit. destruct Hit as (Hne & Hmax & Hkeys).
    destruct (bool_decide (is_Some (leaf !! k))
              || bool_decide (size leaf < kLeafMax)%nat) eqn:Hroom.
    + right. eexists. split; [done|].
      assert (Hwf' : wf_node (S m) (take d (path k))
                       (<[i := ILeaf (<[k := v]> leaf)]> node)).
      { apply wf_node_insert; [done|]. rewrite <- (path_take _ _ _ Hi).
        apply wf_item_leaf. split; [apply insert_non_empty|]. split.
        - rewrite map_size_insert. apply orb_prop in Hroom as [Hin|Hlt].
          + apply bool_decide_eq_true in Hin as [x ->]. done.
          + apply bool_decide_eq_true in Hlt. destruct (leaf !! k); cbn; lia.
        - intros k' v' Hk'.
          apply lookup_insert_Some in Hk' as [[<- _]|[_ Hk']]; [|by eauto].
          rewrite length_take, path_len.
          replace (S d `min` levels)%nat with (S d) by lia. done. }
      split; [done|]. by eapply content_set_slot.
    + (* the leaf is full: it becomes a node *)
      apply orb_false_elim in Hroom as [Hin Hfull].
      apply bool_decide_eq_false in Hin, Hfull.
      assert (Hk : leaf !! k = None).
      { destruct (leaf !! k) eqn:E; [|done]. destruct Hin. eauto. }
      destruct m as [|m].
      { (* no index is left for the child *)
        left. rewrite drop_ge by (rewrite path_len; lia).
        by rewrite set_node_nil. }
      destruct (IH (S d) ∅ k v fuel) as [->|(child1 & -> & Hc1 & Hcc1)];
        [lia|lia|apply wf_node_empty|by left|].
      cbn [length]. rewrite length_drop, path_len.
      replace (S (levels - S d)) with (S (S m)) by lia.
      rewrite to_int_small by (pose proof (Z.div_le_upper_bound 256 bit_width 256);
                               unfold HamtFacts.levels in *; lia).
      destruct (reinsert_spec (S m) d (take (S d) (path k)) fuel (IH)
                  ltac:(lia) ltac:(lia) (ordered_pairs leaf) child1 Hc1)
        as [(c & ->)|(child' & -> & Hc' & Hcc')].
      { apply Forall_forall. intros [k' v'] Hin'.
        apply ordered_pairs_lookup in Hin'. cbn.
        specialize (Hkeys k' v' Hin').
        rewrite length_take, path_len in Hkeys.
        replace (S d `min` levels)%nat with (S d) in Hkeys by lia.
        exact Hkeys. }
      { by left. }
      assert (Hcontent : content (IPtr child') = <[k := v]> leaf).
      { rewrite Hcc', Hcc1, content_empty_node, insert_all_ordered.
        rewrite insert_empty, <- insert_union_singleton_r; done. }
      right. eexists. split; [done|].
      assert (Hwf' : wf_node (S (S m)) (take d (path k))
                       (<[i := IPtr child']> node)).
      { apply wf_node_insert; [done|]. rewrite <- (path_take _ _ _ Hi).
        apply wf_item_ptr. split; [|done]. rewrite Hcontent.
        rewrite map_size_insert, Hk. cbn. lia. }
      split; [done|]. by eapply content_set_slot.
Qed.

(** ** [cleanShard] *)

Lemma ordered_items_perm (node : gmap Z Item) :
  ordered_items node ≡ₚ map_to_list node.
Proof. apply merge_sort_Permutation. Qed.

Lemma ordered_items_lookup (node : gmap Z Item) j it :
  (j, it) ∈ ordered_items node ↔ node !! j = Some it.
Proof. by rewrite ordered_items_perm, elem_of_map_to_list. Qed.

Lemma ordered_items_single (node : gmap Z Item) :
  size node = 1%nat →
  ∃ j it, ordered_items node = [(j, it)] ∧ node = {[j := it]}.
Proof.
  intros Hsize.
  assert (Hlen : length (ordered_items node) = 1%nat).
  { by rewrite ordered_items_perm, length_map_to_list. }
  destruct (ordered_items node) as [|[j it] [|??]] eqn:Hitems; try done.
  exists j, it. split; [done|].
  pose proof (ordered_items_perm node) as Hperm. rewrite Hitems in Hperm.
  symmetry in Hperm. apply Permutation_singleton_r in Hperm.
  rewrite <- (list_to_map_to_list node), Hperm. cbn.
  by rewrite insert_empty.
Qed.

(** The entries gathered so far: those already there, or those of one
    of the leaves gone through. *)
Lemma gather_pairs_Some pairs (acc r : gmap string (list Z)) :
  gather_pairs pairs acc = Some r →
  (size acc ≤ kLeafMax → size r ≤ kLeafMax)%nat
  ∧ acc ⊆ r
  ∧ (∀ k v, r !! k = Some v → acc !! k = Some v ∨ (k, v) ∈ pairs)
  ∧ (∀ k v, (k, v) ∈ pairs → is_Some (r !! k)).
Proof.
  revert acc. induction pairs as [|[k v] pairs IH]; intros acc H.
  { injection H as <-. split; [done|]. split; [done|]. split; [by left|].
    intros k v Hin. by apply elem_of_nil in Hin. }
  cbn [gather_pairs] in H.
  set (acc' := match acc !! k with Some _ => acc | None => <[k := v]> acc end)
    in H.
  destruct (bool_decide (kLeafMax < size acc')%nat) eqn:Hover; [done|].
  apply bool_decide_eq_false in Hover.
  destruct (IH acc' H) as (Hsize & Hsub & Hin & Hcov).
  assert (Hacc : acc ⊆ acc').
  { unfold acc'. destruct (acc !! k) eqn:E; [done|]. by apply insert_subseteq. }
  split; [intros _; apply Hsize; lia|].
  split; [by trans acc'|]. split.
  - intros k' v' Hr. destruct (Hin k' v' Hr) as [Ha|Hp]; [|right; by right].
    unfold acc' in Ha. destruct (acc !! k) eqn:E; [by left|].
    apply lookup_insert_Some in Ha as [[<- <-]|[_ Ha]]; [right; by left|by left].
  - intros k' v' Hp. apply elem_of_cons in Hp as [[= -> ->]|Hp]; [|by eauto].
    assert (Hk : is_Some (acc' !! k)).
    { unfold acc'. destruct (acc !! k) eqn:E; [by rewrite E|].
      by rewrite lookup_insert_eq. }
    destruct Hk as [x Hx]. exists x.
    by eapply lookup_weaken.
Qed.

Lemma gather_pairs_None pairs (acc : gmap string (list Z)) :
  gather_pairs pairs acc = None →
  ∃ r : gmap string (list Z), (kLeafMax < size r)%nat
       ∧ ∀ k v, r !! k = Some v → acc !! k = Some v ∨ (k, v) ∈ pairs.
Proof.
  revert acc. induction pairs as [|[k v] pairs IH]; intros acc H; [done|].
  cbn [gather_pairs] in H.
  set (acc' := match acc !! k with Some _ => acc | None => <[k := v]> acc end)
    in H.
  assert (Hacc' : ∀ k' v', acc' !! k' = Some v' →
                    acc !! k' = Some v' ∨ (k', v') ∈ (k, v) :: pairs).
  { intros k' v' Ha. unfold acc' in Ha. destruct (acc !! k) eqn:E; [by left|].
    apply lookup_insert_Some in Ha as [[<- <-]|[_ Ha]]; [right; by left|by left]. }
  destruct (bool_decide (kLeafMax < size acc')%nat) eqn:Hover.
  - apply bool_decide_eq_true in Hover. by exists acc'.
  - destruct (IH acc' H) as (r & Hr & Hin). exists r. split; [done|].
    intros k' v' Hk'. destruct (Hin k' v' Hk') as [Ha|Hp]; [by apply Hacc'|].
    right. by right.
Qed.

Definition is_leaf (item : Item) : Prop :=
  match item with
  | ILeaf _ => True
  | _ => False
  end.

Lemma gather_items_Some items (acc r : gmap string (list Z)) :
  gather_items items acc = Some r →
  (size acc ≤ kLeafMax → size r ≤ kLeafMax)%nat
  ∧ acc ⊆ r
  ∧ (∀ j it, (j, it) ∈ items → is_leaf it)
  ∧ (∀ k v, r !! k = Some v →
       acc !! k = Some v
       ∨ ∃ j it, (j, it) ∈ items ∧ content it !! k = Some v)
  ∧ (∀ j it k, (j, it) ∈ items → is_Some (content it !! k) →
       is_Some (r !! k)).
Proof.
  revert acc. induction items as [|[j it] items IH]; intros acc H.
  { injection H as <-. split; [done|]. split; [done|].
    split; [intros ?? Hin; by apply elem_of_nil in Hin|].
    split; [by left|]. intros ??? Hin. by apply elem_of_nil in Hin. }
  cbn [gather_items] in H. destruct it as [c|child|l]; try done.
  destruct (gather_pairs (ordered_pairs l) acc) as [acc'|] eqn:Hp; [|done].
  apply gather_pairs_Some in Hp as (Hs1 & Hsub1 & Hin1 & Hcov1).
  destruct (IH acc' H) as (Hs2 & Hsub2 & Hleaf & Hin2 & Hcov2).
  split; [auto|]. split; [by trans acc'|]. split.
  { intros j' it' Hin. apply elem_of_cons in Hin as [[= -> ->]|Hin];
      [done|by eauto]. }
  split.
  - intros k v Hr. destruct (Hin2 k v Hr) as [Ha|(j' & it' & Hj' & Hc)].
    + destruct (Hin1 k v Ha) as [?|Hl]; [by left|]. right.
      exists j, (ILeaf l). split; [by left|].
      by apply ordered_pairs_lookup in Hl.
    + right. exists j', it'. split; [by right|done].
  - intros j' it' k Hin Hk.
    apply elem_of_cons in Hin as [[= -> ->]|Hin]; [|by eauto].
    destruct Hk as [v Hv]. cbn in Hv. apply ordered_pairs_lookup in Hv.
    destruct (Hcov1 k v Hv) as [x Hx]. exists x. by eapply lookup_weaken.
Qed.

Lemma gather_items_None items (acc : gmap string (list Z)) :
  gather_items items acc = None →
  (∃ j it, (j, it) ∈ items ∧ ¬ is_leaf it)
  ∨ ∃ r : gmap string (list Z), (kLeafMax < size r)%nat
         ∧ ∀ k v, r !! k = Some v →
             acc !! k = Some v
             ∨ ∃ j it, (j, it) ∈ items ∧ content it !! k = Some v.
Proof.
  revert acc. induction items as [|[j it] items IH]; intros acc H; [done|].
  cbn [gather_items] in H.
  destruct it as [c|child|l];
    try (left; eexists _, _; split; [by left|]; by intros []).
  destruct (gather_pairs (ordered_pairs l) acc) as [acc'|] eqn:Hp.
  - apply gather_pairs_Some in Hp as (_ & _ & Hin1 & _).
    destruct (IH acc' H) as [(j' & it' & Hin & Hnl)|(r & Hr & Hin)].
    + left. exists j', it'. split; [by right|done].
    + right. exists r. split; [done|]. intros k v Hk.
      destruct (Hin k v Hk) as [Ha|(j' & it' & Hj' & Hc)].
      * destruct (Hin1 k v Ha) as [?|Hl]; [by left|]. right.
        exists j, (ILeaf l). split; [by left|].
        by apply ordered_pairs_lookup in Hl.
      * right. exists j', it'. split; [by right|done].
  - apply gather_pairs_None in Hp as (r & Hr & Hin). right.
    exists r. split; [done|]. intros k v Hk.
    destruct (Hin k v Hk) as [?|Hl]; [by left|]. right.
    exists j, (ILeaf l). split; [by left|].
    by apply ordered_pairs_lookup in Hl.
Qed.

Lemma wf_item_size m pre it :
  wf_item m pre it → (1 ≤ size (content it))%nat.
Proof.
  destruct it as [c|node|leaf]; intros Hwf.
  - by apply wf_item_cid in Hwf.
  - apply wf_item_ptr in Hwf as [H _]. lia.
  - apply wf_item_leaf in Hwf as (Hne & _). cbn [content].
    apply map_size_non_empty_iff in Hne. lia.
Qed.

Lemma content_submap m pre node j it :
  wf_node m pre node → node !! j = Some it →
  content it ⊆ content (IPtr node).
Proof.
  intros Hwf Hj. rewrite (content_split _ _ _ _ _ Hwf Hj).
  apply map_union_subseteq_l.
Qed.

Lemma wf_node_keys m pre node k :
  wf_node m pre node → is_Some (content (IPtr node) !! k) →
  take (length pre) (path k) = pre.
Proof.
  destruct m as [|m]; [done|]. intros Hwf [v Hv].
  apply content_in in Hv as (j & it & Hj & Hit).
  pose proof (wf_item_keys _ _ _ _ (Hwf j it Hj) (mk_is_Some _ _ Hit)) as IH.
  rewrite length_app in IH. cbn in IH.
  apply (f_equal (take (length pre))) in IH.
  rewrite take_take, take_app_length in IH.
  by replace (length pre `min` (length pre + 1))%nat with (length pre) in IH
    by lia.
Qed.

Lemma wf_leaf_shorten pre j leaf : wf_leaf (pre ++ [j]) leaf → wf_leaf pre leaf.
Proof.
  intros (Hne & Hmax & Hkeys). split; [done|]. split; [done|].
  intros k v Hk. specialize (Hkeys k v Hk).
  rewrite length_app in Hkeys. cbn in Hkeys.
  apply (f_equal (take (length pre))) in Hkeys.
  rewrite take_take, take_app_length in Hkeys.
  by replace (length pre `min` (length pre + 1))%nat with (length pre)
    in Hkeys by lia.
Qed.

(** A node holds at least one entry in each slot. *)
Lemma content_size_ge m pre node :
  wf_node m pre node → (size node ≤ size (content (IPtr node)))%nat.
Proof.
  induction node as [|i x node Hi IH] using map_ind; intros Hwf.
  { rewrite map_size_empty. lia. }
  assert (Hwf0 : wf_node m pre node).
  { rewrite <- (delete_id node i Hi), <- (delete_insert_eq node i x).
    by apply wf_node_delete. }
  rewrite (content_insert _ _ _ _ _ Hwf), (delete_id _ _ Hi).
  rewrite map_size_disj_union.
  - rewrite map_size_insert_None by done.
    destruct m as [|m]; [done|].
    pose proof (wf_item_size _ _ _ (Hwf i x (lookup_insert_eq _ _ _))).
    specialize (IH Hwf0). lia.
  - apply map_disjoint_spec. intros k v v' Hx Hn.
    pose proof (wf_node_slot _ _ _ _ _ k Hwf (lookup_insert_eq _ _ _)
                  (mk_is_Some _ _ Hx)) as Hslot.
    pose proof (content_rest_None _ _ _ _ k Hwf Hslot) as Hnone.
    rewrite delete_insert_eq, (delete_id _ _ Hi) in Hnone. congruence.
Qed.

(** After an entry was removed below it, a node that is left with
    [kLeafMax] entries becomes one leaf, and a larger one is kept. *)
Lemma cleanShard_spec m pre node :
  wf_node m pre node → (kLeafMax ≤ size (content (IPtr node)))%nat →
  ∃ item',
    cleanShard (IPtr node) = (item', Ok tt)
    ∧ wf_item m pre item'
    ∧ content item' = content (IPtr node).
Proof.
  intros Hwf Hsize. destruct m as [|m]; [done|]. unfold cleanShard.
  destruct (decide (size node = 1%nat)) as [Hone|Hmany].
  { rewrite (bool_decide_eq_true_2 _ Hone).
    destruct (ordered_items_single node Hone) as (j & it & -> & Hnode).
    assert (Hj : node !! j = Some it) by (by rewrite Hnode, lookup_singleton_eq).
    pose proof (Hwf j it Hj) as Hit.
    assert (Hc : content (IPtr node) = content it).
    { rewrite Hnode. cbn [content]. rewrite map_fold_singleton.
      by rewrite (right_id_L ∅ (∪)). }
    destruct it as [c|gc|single].
    - by apply wf_item_cid in Hit.
    - eexists. split; [done|]. split; [|done].
      apply wf_item_ptr. split; [|done].
      apply wf_item_ptr in Hit as [H _]. by rewrite Hc.
    - eexists. split; [done|]. split; [|done].
      apply wf_item_leaf. apply wf_item_leaf in Hit.
      by eapply wf_leaf_shorten. }
  rewrite (bool_decide_eq_false_2 _ Hmany).
  destruct (decide (size node ≤ kLeafMax)%nat) as [Hfew|Hlarge].
  2:{ rewrite (bool_decide_eq_false_2 _ Hlarge).
      eexists. split; [done|]. split; [|done].
      apply wf_item_ptr. split; [|done].
      pose proof (content_size_ge _ _ _ Hwf). lia. }
  rewrite (bool_decide_eq_true_2 _ Hfew).
  destruct (gather_items (ordered_items node) ∅) as [r|] eqn:Hg.
  - apply gather_items_Some in Hg as (Hs & _ & _ & Hin & Hcov).
    assert (Hr : r = content (IPtr node)).
    { apply map_eq. intros k. destruct (r !! k) as [v|] eqn:Hk.
      - destruct (Hin k v Hk) as [He|(j & it & Hj & Hc)].
        { by rewrite lookup_empty in He. }
        apply ordered_items_lookup in Hj. symmetry.
        by eapply lookup_weaken; [|eapply content_submap].
      - destruct (content (IPtr node) !! k) as [v|] eqn:Hc; [|done].
        apply content_in in Hc as (j & it & Hj & Hc).
        apply ordered_items_lookup in Hj.
        destruct (Hcov j it k Hj (mk_is_Some _ _ Hc)) as [x Hx]. congruence. }
    eexists. split; [done|]. split; [|done].
    apply wf_item_leaf. split.
    { intros ->. rewrite <- Hr, map_size_empty in Hsize.
      unfold kLeafMax in Hsize. lia. }
    split.
    { apply Hs. rewrite map_size_empty. lia. }
    intros k v Hk. apply (wf_node_keys _ _ _ _ Hwf). rewrite <- Hr. eauto.
  - eexists. split; [done|]. split; [|done].
    apply wf_item_ptr. split; [|done].
    apply gather_items_None in Hg as [(j & it & Hj & Hnl)|(r & Hr & Hin)].
    + apply ordered_items_lookup in Hj. pose proof (Hwf j it Hj) as Hit.
      pose proof (content_submap _ _ _ _ _ Hwf Hj) as Hsub.
      apply map_subseteq_size in Hsub.
      destruct it as [c|gc|l]; [by apply wf_item_cid in Hit| |by destruct Hnl].
      apply wf_item_ptr in Hit as [H _]. lia.
    + assert (Hsub : r ⊆ content (IPtr node)).
      { apply map_subseteq_spec. intros k v Hk.
        destruct (Hin k v Hk) as [He|(j & it & Hj & Hc)].
        { by rewrite lookup_empty in He. }
        apply ordered_items_lookup in Hj.
        by eapply lookup_weaken; [|eapply content_submap]. }
      apply map_subseteq_size in Hsub. lia.
Qed.

(** ** [remove] *)

Lemma size_one_singleton (leaf : gmap string (list Z)) k v :
  size leaf = 1%nat → leaf !! k = Some v → leaf = {[k := v]}.
Proof.
  intros Hsize Hk.
  assert (Hd : delete k leaf = ∅).
  { apply map_size_empty_iff. rewrite map_size_delete, Hk. cbn. lia. }
  rewrite <- (insert_delete_id leaf k v Hk), Hd. by rewrite insert_empty.
Qed.

(** What [remove] does to a node of a trie built by the operations: it
    fails with [kNotFound] and changes nothing when the key is not in the
    contents, and otherwise succeeds and takes the key out. *)
Definition remove_ok (m : nat) : Prop :=
  ∀ d node k,
    (d + m = levels)%nat → wf_node m (take d (path k)) node →
    (content (IPtr node) !! k = None
     ∧ remove_node getCbor node (drop d (path k)) k = (node, Err kNotFound))
    ∨ (is_Some (content (IPtr node) !! k)
       ∧ ∃ node',
           remove_node getCbor node (drop d (path k)) k = (node', Ok tt)
           ∧ wf_node m (take d (path k)) node'
           ∧ content (IPtr node') = delete k (content (IPtr node))).

Lemma remove_node_spec m : remove_ok m.
Proof.
  induction m as [|m IH]; intros d node k Hd Hwf; [done|].
  destruct (path_lookup k d) as [i Hi]; [lia|].
  assert (Hlen : length (take d (path k)) = d) by (apply pre_length; lia).
  assert (Hslot : path k !! length (take d (path k)) = Some i)
    by (by rewrite Hlen).
  rewrite (content_lookup _ _ _ k Hwf), Hslot.
  rewrite (path_drop _ _ _ Hi). cbn [remove_node].
  destruct (node !! i) as [item|] eqn:Hitem; [|by left].
  pose proof (Hwf i item Hitem) as Hit.
  rewrite <- (path_take _ _ _ Hi) in Hit.
  destruct item as [c|child|leaf]; [by apply wf_item_cid in Hit| |];
    cbn [loadItem]; rewrite (insert_id _ _ _ Hitem).
  - (* a loaded child *)
    apply wf_item_ptr in Hit as [Hsize Hchild].
    destruct (IH (S d) child k) as [[Hnone ->]|(Hsome & child' & -> & Hc & Hcc)];
      [lia|done| |].
    { left. by rewrite (insert_id _ _ _ Hitem). }
    right. split; [done|].
    destruct (cleanShard_spec m (take (S d) (path k)) child' Hc)
      as (item' & -> & Hit' & Hci').
    { rewrite Hcc, map_size_delete. destruct Hsome as [x ->]. lia. }
    eexists. split; [done|].
    assert (Hwf' : wf_node (S m) (take d (path k)) (<[i := item']> node)).
    { apply wf_node_insert; [done|]. by rewrite <- (path_take _ _ _ Hi). }
    split; [done|].
    eapply content_remove_slot; try done. by rewrite Hci'.
  - (* a leaf *)
    apply wf_item_leaf in Hit. destruct Hit as (Hne & Hmax & Hkeys).
    cbn [content]. destruct (leaf !! k) as [v|] eqn:Hk; [|by left].
    right. split; [by eauto|].
    destruct (decide (size leaf = 1%nat)) as [Hone|Hmany].
    + rewrite (bool_decide_eq_true_2 _ Hone). eexists. split; [done|].
      split; [by apply wf_node_delete|].
      eapply content_erase_slot; try done. cbn [content].
      by apply size_one_singleton.
    + rewrite (bool_decide_eq_false_2 _ Hmany). eexists. split; [done|].
      assert (Hwf' : wf_node (S m) (take d (path k))
                       (<[i := ILeaf (delete k leaf)]> node)).
      { apply wf_node_insert; [done|]. rewrite <- (path_take _ _ _ Hi).
        apply wf_item_leaf. split.
        { intros He. apply map_size_empty_iff in He.
          rewrite map_size_delete, Hk in He. cbn in He.
          apply map_size_non_empty_iff in Hne. lia. }
        split.
        { rewrite map_size_delete, Hk. cbn. lia. }
        intros k' v' Hk'. apply lookup_delete_Some in Hk' as [_ Hk'].
        by eauto. }
      split; [done|]. by eapply content_remove_slot.
Qed.

(** ** Uniqueness of the trie for its contents *)

Lemma slot_content_eq m pre n1 n2 j it1 it2 :
  wf_node m pre n1 → wf_node m pre n2 →
  content (IPtr n1) = content (IPtr n2) →
  n1 !! j = Some it1 → n2 !! j = Some it2 →
  content it1 = content it2.
Proof.
  intros Hwf1 Hwf2 Hc H1 H2. apply map_eq. intros k.
  destruct (decide (path k !! length pre = Some j)) as [Hj|Hne].
  - pose proof (content_lookup _ _ _ k Hwf1) as E1.
    pose proof (content_lookup _ _ _ k Hwf2) as E2.
    rewrite Hj, H1 in E1. rewrite Hj, H2 in E2. congruence.
  - rewrite (content_slot_None _ _ _ _ _ k Hwf1 H1 Hne).
    by rewrite (content_slot_None _ _ _ _ _ k Hwf2 H2 Hne).
Qed.

Lemma slot_present m pre n1 n2 j it1 :
  wf_node m pre n1 → wf_node m pre n2 →
  content (IPtr n1) = content (IPtr n2) →
  n1 !! j = Some it1 → is_Some (n2 !! j).
Proof.
  intros Hwf1 Hwf2 Hc H1. destruct m as [|m]; [done|].
  pose proof (wf_item_size _ _ _ (Hwf1 j it1 H1)) as Hsz.
  assert (Hne : content it1 ≠ ∅).
  { apply map_size_non_empty_iff. lia. }
  apply map_choose in Hne as (k & v & Hk).
  pose proof (wf_node_slot _ _ _ _ _ k Hwf1 H1 (mk_is_Some _ _ Hk)) as Hj.
  pose proof (content_lookup _ _ _ k Hwf1) as E1.
  pose proof (content_lookup _ _ _ k Hwf2) as E2.
  rewrite Hj, H1, Hk in E1. rewrite Hj, <- Hc, E1 in E2.
  destruct (n2 !! j); [by eauto|done].
Qed.

(** Two tries built by the operations that hold the same entries are the
    same trie. *)
Lemma wf_node_unique m :
  ∀ pre n1 n2,
    wf_node m pre n1 → wf_node m pre n2 →
    content (IPtr n1) = content (IPtr n2) → n1 = n2.
Proof.
  induction m as [|m IH]; intros pre n1 n2 Hwf1 Hwf2 Hc; [done|].
  apply map_eq. intros j.
  destruct (n1 !! j) as [it1|] eqn:H1, (n2 !! j) as [it2|] eqn:H2; try done.
  - pose proof (slot_content_eq _ _ _ _ _ _ _ Hwf1 Hwf2 Hc H1 H2) as Hci.
    pose proof (Hwf1 j it1 H1) as Hi1. pose proof (Hwf2 j it2 H2) as Hi2.
    destruct it1 as [c1|c1|l1]; [by apply wf_item_cid in Hi1| |];
      (destruct it2 as [c2|c2|l2]; [by apply wf_item_cid in Hi2| |]).
    + apply wf_item_ptr in Hi1 as [_ Hi1]. apply wf_item_ptr in Hi2 as [_ Hi2].
      do 2 f_equal. by eapply IH.
    + apply wf_item_ptr in Hi1 as [Hs _].
      apply wf_item_leaf in Hi2 as (_ & Hmax & _).
      rewrite Hci in Hs. cbn [content] in Hs. lia.
    + apply wf_item_ptr in Hi2 as [Hs _].
      apply wf_item_leaf in Hi1 as (_ & Hmax & _).
      rewrite <- Hci in Hs. cbn [content] in Hs. lia.
    + cbn [content] in Hci. by rewrite Hci.
  - destruct (slot_present _ _ _ _ _ _ Hwf1 Hwf2 Hc H1) as [x Hx]. congruence.
  - destruct (slot_present _ _ _ _ _ _ Hwf2 Hwf1 (eq_sym Hc) H2) as [x Hx].
    congruence.
Qed.

(** ** The operations of the class *)

(** The HAMT made by the constructor: an empty root node. *)
Definition empty_hamt : Hamt := mkHamt (IPtr ∅) bit_width.

(** The HAMTs the operations build from the empty one. *)
Definition wf_hamt (h : Hamt) : Prop :=
  bit_width_ h = bit_width
  ∧ ∃ node, root_ h = IPtr node ∧ wf_node levels [] node.

Lemma wf_empty_hamt : wf_hamt empty_hamt.
Proof.
  split; [done|]. exists ∅. split; [done|].
  pose proof levels_pos. destruct levels; [lia|]. apply wf_node_empty.
Qed.

Lemma get_spec h k :
  wf_hamt h →
  get sha256 getCbor h k = (h, lookup_result (content (root_ h) !! k)).
Proof.
  destruct h as [root bw]. intros [Hbw (node & Hroot & Hwf)]. cbn in *.
  subst. unfold get, on_root. cbn [loadItem root_ bit_width_].
  rewrite keyToIndices_full by done.
  pose proof (get_node_spec levels 0%nat node k) as H.
  change (drop 0 (path k)) with (path k) in H.
  rewrite H by (done || lia). done.
Qed.

Lemma set_spec h k v :
  wf_hamt h →
  set sha256 getCbor h k v = (h, Err kMaxDepth)
  ∨ ∃ h', set sha256 getCbor h k v = (h', Ok tt)
          ∧ wf_hamt h'
          ∧ content (root_ h') = <[k := v]> (content (root_ h)).
Proof.
  destruct h as [root bw]. intros [Hbw (node & Hroot & Hwf)]. cbn in *.
  subst. unfold set, on_root. cbn [loadItem root_ bit_width_].
  rewrite keyToIndices_full by done. rewrite path_len.
  pose proof (set_node_spec levels 0%nat node k v levels) as H.
  change (drop 0 (path k)) with (path k) in H.
  change (take 0 (path k)) with (@nil Z) in H.
  destruct H as [->|(node' & -> & Hwf' & Hc)]; [lia|lia|done|by left|].
  right. eexists. split; [done|]. split; [|done].
  split; [done|]. by exists node'.
Qed.

Lemma remove_spec h k :
  wf_hamt h →
  (content (root_ h) !! k = None
   ∧ remove sha256 getCbor h k = (h, Err kNotFound))
  ∨ (is_Some (content (root_ h) !! k)
     ∧ ∃ h', remove sha256 getCbor h k = (h', Ok tt)
             ∧ wf_hamt h'
             ∧ content (root_ h') = delete k (content (root_ h))).
Proof.
  destruct h as [root bw]. intros [Hbw (node & Hroot & Hwf)]. cbn in *.
  subst. unfold remove, on_root. cbn [loadItem root_ bit_width_].
  rewrite keyToIndices_full by done.
  pose proof (remove_node_spec levels 0%nat node k) as H.
  change (drop 0 (path k)) with (path k) in H.
  change (take 0 (path k)) with (@nil Z) in H.
  destruct H as [[Hn ->]|(Hs & node' & -> & Hwf' & Hc)]; [lia|done|by left|].
  right. split; [done|]. eexists. split; [done|]. split; [|done].
  split; [done|]. by exists node'.
Qed.

Lemma wf_hamt_unique h1 h2 :
  wf_hamt h1 → wf_hamt h2 →
  content (root_ h1) = content (root_ h2) → h1 = h2.
Proof.
  destruct h1 as [r1 b1], h2 as [r2 b2].
  intros [Hb1 (n1 & Hr1 & Hw1)] [Hb2 (n2 & Hr2 & Hw2)] Hc. cbn in *. subst.
  do 2 f_equal. by eapply wf_node_unique.
Qed.

(** ** Sequences of operations from the empty HAMT *)

Definition apply_op (h : Hamt) (o : op) : Hamt * result unit :=
  match o with
  | OpSet k v => set sha256 getCbor h k v
  | OpRemove k => remove sha256 getCbor h k
  end.

Fixpoint run (ops : list op) (h : Hamt) : Hamt * list (result unit) :=
  match ops with
  | [] => (h, [])
  | o :: ops' =>
    let '(h', r) := apply_op h o in
    let '(h'', rs) := run ops' h' in
    (h'', r :: rs)
  end.

Lemma apply_op_spec h o :
  wf_hamt h →
  ∃ h' r, apply_op h o = (h', r) ∧ wf_hamt h'
          ∧ content (root_ h') = reference_step (content (root_ h)) o r.
Proof.
  intros Hwf. destruct o as [k v|k]; cbn [apply_op].
  - destruct (set_spec h k v Hwf) as [->|(h' & -> & Hwf' & Hc)]; eauto 6.
  - destruct (remove_spec h k Hwf) as [[_ ->]|(_ & h' & -> & Hwf' & Hc)];
      eauto 6.
Qed.

Lemma run_spec ops :
  ∀ h, wf_hamt h →
  ∃ h' rs, run ops h = (h', rs) ∧ wf_hamt h'
           ∧ content (root_ h') = reference ops rs (content (root_ h)).
Proof.
  induction ops as [|o ops IH]; intros h Hwf.
  { exists h, []. by cbn. }
  destruct (apply_op_spec h o Hwf) as (h1 & r & Hop & Hwf1 & Hc1).
  destruct (IH h1 Hwf1) as (h2 & rs & Hrun & Hwf2 & Hc2).
  exists h2, (r :: rs). cbn [run reference]. rewrite Hop, Hrun.
  split; [done|]. split; [done|]. by rewrite Hc2, Hc1.
Qed.

(** ** The canonical form of the tries the operations build *)

Lemma entries_content m :
  ∀ pre it, wf_item m pre it → item_entries it = size (content it).
Proof.
  induction m as [|m IH]; intros pre [c|node|leaf] Hwf; try done.
  destruct Hwf as [_ Hwf]. cbn [item_entries].
  assert (Hnode : wf_node (S m) pre node) by done. clear Hwf.
  induction node as [|i x node Hi IHn] using map_ind.
  { by rewrite map_fold_empty, content_empty_node, map_size_empty. }
  assert (Hwf0 : wf_node (S m) pre node).
  { rewrite <- (delete_id node i Hi), <- (delete_insert_eq node i x).
    by apply wf_node_delete. }
  rewrite map_fold_insert_L; [|intros; lia|done].
  rewrite (content_insert _ _ _ _ _ Hnode), (delete_id _ _ Hi).
  rewrite map_size_disj_union.
  - rewrite (IH _ x (Hnode i x (lookup_insert_eq _ _ _))).
    by rewrite (IHn Hwf0).
  - apply map_disjoint_spec. intros k v v' Hx Hn.
    pose proof (wf_node_slot _ _ _ _ _ k Hnode (lookup_insert_eq _ _ _)
                  (mk_is_Some _ _ Hx)) as Hslot.
    pose proof (content_rest_None _ _ _ _ k Hnode Hslot) as Hnone.
    rewrite delete_insert_eq, (delete_id _ _ Hi) in Hnone. congruence.
Qed.

Lemma wf_item_canonical m :
  ∀ pre it, wf_item m pre it → canonical_item it = true.
Proof.
  induction m as [|m IH]; intros pre [c|node|leaf] Hwf; try done.
  pose proof (entries_content _ _ _ Hwf) as Hentries.
  destruct Hwf as [Hsize Hwf]. cbn [canonical_item].
  rewrite Hentries, (bool_decide_eq_true_2 _ Hsize), andb_true_r.
  rewrite (map_fold_all canonical_item)
    by (intros j it Hj; eapply IH, Hwf, Hj).
  rewrite andb_true_r. apply negb_true_iff. unfold single_leaf.
  destruct (decide (size node = 1%nat)) as [Hone|Hmany];
    [|by rewrite (bool_decide_eq_false_2 _ Hmany)].
  rewrite (bool_decide_eq_true_2 _ Hone). cbn [andb].
  destruct (ordered_items_single node Hone) as (j & it & -> & Hnode).
  destruct it as [c|gc|single]; try done. exfalso.
  assert (Hj : node !! j = Some (ILeaf single))
    by (by rewrite Hnode, lookup_singleton_eq).
  pose proof (Hwf j _ Hj) as Hit.
  apply wf_item_leaf in Hit as (_ & Hmax & _).
  rewrite Hnode in Hsize. cbn [content] in Hsize.
  rewrite map_fold_singleton in Hsize. cbn [content] in Hsize.
  rewrite (right_id_L ∅ (∪)) in Hsize. lia.
Qed.

Lemma wf_hamt_canonical h : wf_hamt h → canonical h = true.
Proof.
  intros [_ (node & Hroot & Hwf)]. unfold canonical. rewrite Hroot.
  apply map_fold_all. intros j it Hj.
  pose proof levels_pos. destruct levels as [|m]; [lia|].
  eapply wf_item_canonical, Hwf, Hj.
Qed.

(** ** The claims on sequences of operations *)

(** C3. After any sequence of [set] and [remove] from the empty HAMT,
    [get(k)] returns the value of the last successful [set(k, v)] that no
    successful [remove(k)] followed, and fails with [kNotFound] for every
    other key; and [remove(k)] fails with [kNotFound] exactly when [k] is
    not bound at the time of the call, and succeeds otherwise.  The
    reference mapping is that of the successful operations, so nothing is
    assumed of the results: an operation that fails leaves the trie as it
    was. *)
Theorem hamt_round_trip ops key :
  let h := (run ops empty_hamt).1 in
  let bound := reference ops (run ops empty_hamt).2 ∅ !! key in
  (get sha256 getCbor h key).2 = lookup_result bound
  ∧ ((remove sha256 getCbor h key).2 = Err kNotFound ↔ bound = None)
  ∧ ((remove sha256 getCbor h key).2 = Ok tt ↔ is_Some bound).
Proof.
  destruct (run_spec ops empty_hamt wf_empty_hamt) as (h & rs & -> & Hwf & Hc).
  cbn [empty_hamt root_] in Hc. rewrite content_empty_node in Hc.
  cbn [fst snd]. rewrite <- Hc. cbn zeta. split.
  { by rewrite get_spec. }
  destruct (remove_spec h key Hwf) as [[Hn ->]|(Hs & h' & -> & _ & _)]; cbn.
  - rewrite Hn. split; [done|]. split; [done|]. by intros [??].
  - destruct Hs as [x ->]. split; [done|]. by eauto.
Qed.

(** C5. After every successful [remove] on a HAMT built from the empty
    one by [set] and [remove], the trie is canonical: no node in a slot
    has a single item that is a leaf, and none holds [kLeafMax] entries or
    fewer. *)
Theorem remove_leaves_canonical ops key :
  let h := (run ops empty_hamt).1 in
  (remove sha256 getCbor h key).2 = Ok tt →
  canonical (remove sha256 getCbor h key).1 = true.
Proof.
  destruct (run_spec ops empty_hamt wf_empty_hamt) as (h & rs & -> & Hwf & _).
  cbn [fst]. intros _.
  destruct (remove_spec h key Hwf) as [[_ ->]|(_ & h' & -> & Hwf' & _)]; cbn.
  - by apply wf_hamt_canonical.
  - by apply wf_hamt_canonical.
Qed.

(** C6. Two HAMTs of the same [bit_width], built from the empty one by
    two sequences of operations that leave the same mapping from keys to
    values, are the same trie, and [flush] returns the same root CID for
    both.  This holds for sequences of [set], which the claim is about,
    and also when they contain [remove]. *)
Theorem flush_deterministic (setCbor : gmap Z Item → result (list Z))
    ops1 ops2 :
  let r1 := run ops1 empty_hamt in
  let r2 := run ops2 empty_hamt in
  reference ops1 r1.2 ∅ = reference ops2 r2.2 ∅ →
  r1.1 = r2.1 ∧ flush setCbor r1.1 = flush setCbor r2.1.
Proof.
  destruct (run_spec ops1 empty_hamt wf_empty_hamt)
    as (h1 & rs1 & -> & Hwf1 & Hc1).
  destruct (run_spec ops2 empty_hamt wf_empty_hamt)
    as (h2 & rs2 & -> & Hwf2 & Hc2).
  cbn [empty_hamt root_] in Hc1, Hc2. rewrite content_empty_node in Hc1, Hc2.
  cbn [fst snd]. intros Href. rewrite <- Hc1, <- Hc2 in Href.
  assert (h1 = h2) as -> by (by apply wf_hamt_unique). done.
Qed.

End Trie.

(** ** Failed calls and lazy loading *)

Lemma map_fold_all_inv (f : Item → bool) (node : gmap Z Item) :
  map_fold (λ _ it acc, f it && acc) true node = true →
  ∀ j it, node !! j = Some it → f it = true.
Proof.
  apply (map_fold_weak_ind
    (λ r (m : gmap Z Item), r = true → ∀ j it, m !! j = Some it → f it = true)).
  - intros _ j it Hj. by rewrite lookup_empty in Hj.
  - intros i x m r Hi IH H j it Hj. apply andb_prop in H as [Hx Hr].
    apply lookup_insert_Some in Hj as [[<- <-]|[_ Hj]]; [done|by eauto].
Qed.

(** No part of the trie under the item is a CID still to be loaded. *)
Fixpoint loaded (item : Item) : bool :=
  match item with
  | ICid _ => false
  | ILeaf _ => true
  | IPtr node => map_fold (λ _ it acc, loaded it && acc) true node
  end.

Section Loading.

Variable sha256 : string → list Z.
Variable getCbor : list Z → result (gmap Z Item).

(** [loads_to item item']: [item'] is [item] in which, along one path of
    slots, the CIDs were replaced by the nodes the store holds for them.
    This is all that a call of [get], [set] or [remove] that fails does to
    the trie. *)
Inductive loads_to : Item → Item → Prop :=
| loads_refl item : loads_to item item
| loads_fetch c node node' :
    getCbor c = Ok node → loads_to (IPtr node) (IPtr node') →
    loads_to (ICid c) (IPtr node')
| loads_slot node i item item' :
    node !! i = Some item → loads_to item item' →
    loads_to (IPtr node) (IPtr (<[i := item']> node)).

Lemma loadItem_loads item item' r :
  loadItem getCbor item = (item', r) → loads_to item item'.
Proof.
  destruct item as [c|node|leaf]; cbn; try (intros [= <- _]; constructor).
  destruct (getCbor c) as [node|e] eqn:Hc; intros [= <- _].
  - eapply loads_fetch; [done|constructor].
  - constructor.
Qed.

Lemma loadItem_ptr item child :
  loadItem getCbor item = (IPtr child, Ok tt) →
  ∀ child', loads_to (IPtr child) (IPtr child') → loads_to item (IPtr child').
Proof.
  destruct item as [c|node|leaf]; cbn.
  - destruct (getCbor c) as [node|e] eqn:Hc; [|done]. intros [= <-] child' H.
    by eapply loads_fetch.
  - by intros [= <-].
  - done.
Qed.

Lemma loads_to_loaded item item' :
  loads_to item item' → loaded item = true → item' = item.
Proof.
  induction 1 as [item|c node node' Hc _ _|node i item item' Hi _ IH];
    intros Hl; [done|done|].
  cbn [loaded] in Hl. rewrite IH by (by eapply map_fold_all_inv).
  by rewrite insert_id.
Qed.

(** A call of [set] that returns an error has only loaded items. *)
Lemma set_node_error fuel bw :
  ∀ node indices k v node' e,
    set_node sha256 getCbor fuel bw node indices k v = (node', Err e) →
    loads_to (IPtr node) (IPtr node').
Proof.
  induction fuel as [|fuel IH]; intros node [|i rest] k v node' e;
    cbn [set_node]; try (intros [= <- _]; constructor).
  - destruct (node !! i) as [item|] eqn:Hi; [|done].
    destruct (loadItem getCbor item) as [item1 [[]|e1]] eqn:Hload.
    + intros [= <- _]. eapply loads_slot; [done|by eapply loadItem_loads].
    + intros [= <- _]. constructor.
  - destruct (node !! i) as [item|] eqn:Hi; [|done].
    destruct (loadItem getCbor item) as [item1 [[]|e1]] eqn:Hload;
      [|intros [= <- _]; constructor].
    destruct item1 as [c|child|leaf].
    + intros [= <- _]. eapply loads_slot; [done|by eapply loadItem_loads].
    + destruct (set_node sha256 getCbor fuel bw child rest k v)
        as [child' r] eqn:Hrec.
      intros [= <- ->]. rewrite insert_insert_eq.
      eapply loads_slot; [done|]. eapply loadItem_ptr; [done|].
      by eapply IH.
    + assert (Hsame : loads_to (IPtr node) (IPtr (<[i := ILeaf leaf]> node))).
      { eapply loads_slot; [done|by eapply loadItem_loads]. }
      destruct (bool_decide (is_Some (leaf !! k))
                || bool_decide (size leaf < kLeafMax)%nat); [done|].
      destruct (set_node sha256 getCbor fuel bw ∅ rest k v) as [c1 [[]|e1]];
        [|by intros [= <- _]].
      destruct (reinsert _ _ _ _ _ _) as [c2 [[]|e2]]; [done|].
      by intros [= <- _].
Qed.

(** The part of [get] below the slot of the first index. *)
Definition get_item (item : Item) (rest : list Z) (k : string)
    : result (list Z) :=
  match loadItem getCbor item with
  | (_, Err e) => Err e
  | (IPtr child, Ok _) => (get_node getCbor child rest k).2
  | (ILeaf leaf, Ok _) => lookup_result (leaf !! k)
  | (ICid _, Ok _) => Err Fault
  end.

Lemma get_node_cons node i rest k :
  (get_node getCbor node (i :: rest) k).2
  = match node !! i with
    | Some item => get_item item rest k
    | None => Err kNotFound
    end.
Proof.
  cbn [get_node]. destruct (node !! i) as [item|]; [|done].
  unfold get_item.
  destruct (loadItem getCbor item) as [[c|child|leaf] [[]|e]]; try done.
  - by destruct (get_node getCbor child rest k).
  - by destruct (leaf !! k).
Qed.

(** Loading does not change what [get] returns. *)
Lemma loads_to_get item item' :
  loads_to item item' → ∀ rest k, get_item item' rest k = get_item item rest k.
Proof.
  induction 1 as [item|c node node' Hc _ IH|node i item item' Hi _ IH];
    intros rest k; [done| |].
  - specialize (IH rest k). unfold get_item in *. cbn [loadItem] in *.
    by rewrite Hc.
  - unfold get_item. cbn [loadItem]. destruct rest as [|j rest]; [done|].
    rewrite !get_node_cons. destruct (decide (i = j)) as [->|Hne].
    + by rewrite lookup_insert_eq, Hi.
    + by rewrite lookup_insert_ne.
Qed.

Lemma get_loads r r' bw k :
  loads_to r r' →
  (get sha256 getCbor (mkHamt r' bw) k).2
  = (get sha256 getCbor (mkHamt r bw) k).2.
Proof.
  intros H. unfold get, on_root. cbn [root_ bit_width_].
  assert (Hptr : ∀ n n', loads_to (IPtr n) (IPtr n') →
    ∀ rest, (get_node getCbor n' rest k).2 = (get_node getCbor n rest k).2).
  { intros n n' Hn rest. apply (loads_to_get _ _ Hn rest k). }
  inversion H as [item|c node node' Hc Hn|node i item item' Hi Hit]; subst.
  - done.
  - cbn [loadItem]. rewrite Hc.
    destruct (keyToIndices sha256 bw k (-1)) as [indices|]; [|done].
    specialize (Hptr _ _ Hn indices).
    by destruct (get_node getCbor node' indices k),
                (get_node getCbor node indices k).
  - cbn [loadItem].
    destruct (keyToIndices sha256 bw k (-1)) as [indices|]; [|done].
    specialize (Hptr _ _ H indices).
    by destruct (get_node getCbor (<[i:=item']> node) indices k),
                (get_node getCbor node indices k).
Qed.

(** The descent of [set] for a key uses up all the indices and finds no
    place for the entry: every index leads to a child node, or the last
    one leads to a full leaf that does not hold the key. *)
Inductive exhausted (k : string) : gmap Z Item → list Z → Prop :=
| exhausted_nil node : exhausted k node []
| exhausted_child node i rest item child :
    node !! i = Some item → loadItem getCbor item = (IPtr child, Ok tt) →
    exhausted k child rest → exhausted k node (i :: rest)
| exhausted_leaf node i leaf :
    node !! i = Some (ILeaf leaf) → leaf !! k = None →
    (kLeafMax ≤ size leaf)%nat → exhausted k node [i].

Lemma set_node_nil' fuel bw node k v :
  set_node sha256 getCbor fuel bw node [] k v = (node, Err kMaxDepth).
Proof. by destruct fuel. Qed.

Lemma set_node_exhausted k node indices :
  exhausted k node indices →
  ∀ fuel bw v, (length indices ≤ fuel)%nat →
    (set_node sha256 getCbor fuel bw node indices k v).2 = Err kMaxDepth.
Proof.
  induction 1 as [node|node i rest item child Hi Hload _ IH|node i leaf Hi Hk Hfull];
    intros fuel bw v Hfuel.
  - by rewrite set_node_nil'.
  - destruct fuel as [|fuel]; [cbn in Hfuel; lia|]. cbn [set_node].
    rewrite Hi, Hload. cbn in Hfuel.
    specialize (IH fuel bw v ltac:(lia)).
    by destruct (set_node sha256 getCbor fuel bw child rest k v).
  - destruct fuel as [|fuel]; [cbn in Hfuel; lia|]. cbn [set_node loadItem].
    rewrite Hi. cbn [loadItem]. rewrite Hk.
    rewrite (bool_decide_eq_false_2 (is_Some None)) by (by intros [??]).
    rewrite (bool_decide_eq_false_2 (size leaf < kLeafMax)%nat) by lia.
    cbn [orb]. by rewrite set_node_nil'.
Qed.

Definition exhausted_path (h : Hamt) (k : string) : Prop :=
  ∃ node indices,
    loadItem getCbor (root_ h) = (IPtr node, Ok tt)
    ∧ keyToIndices sha256 (bit_width_ h) k (-1) = Some indices
    ∧ exhausted k node indices.

(** C7. When the index path of the key is used up in the descent without
    a place for the entry, [set] returns [kMaxDepth]; and whenever [set]
    returns [kMaxDepth] no slot was created and no leaf was split: the
    trie is the one before the call, in which items on the path of the
    descent may have been loaded from their CIDs, so that every [get]
    returns what it returned before, and a trie that was fully loaded is
    exactly the same. *)
Theorem set_max_depth_leaves_trie h key value :
  (exhausted_path h key →
   (set sha256 getCbor h key value).2 = Err kMaxDepth)
  ∧ ((set sha256 getCbor h key value).2 = Err kMaxDepth →
     let h' := (set sha256 getCbor h key value).1 in
     bit_width_ h' = bit_width_ h
     ∧ loads_to (root_ h) (root_ h')
     ∧ (∀ k, (get sha256 getCbor h' k).2 = (get sha256 getCbor h k).2)
     ∧ (loaded (root_ h) = true → h' = h)).
Proof.
  split.
  { intros (node & indices & Hload & Hidx & Hex). unfold set, on_root.
    rewrite Hload, Hidx.
    pose proof (set_node_exhausted _ _ _ Hex (length indices) (bit_width_ h)
                  value ltac:(lia)) as H.
    by destruct (set_node _ _ _ _ _ _ _ _). }
  intros Herr. cbn zeta.
  assert (Hroot : bit_width_ (set sha256 getCbor h key value).1 = bit_width_ h
                  ∧ loads_to (root_ h) (root_ (set sha256 getCbor h key value).1)).
  { revert Herr. unfold set, on_root.
    destruct (loadItem getCbor (root_ h)) as [root1 [[]|e]] eqn:Hload;
      [|destruct root1; cbn; intros _; split; [done|constructor..]].
    destruct root1 as [c|node|leaf];
      try (cbn; intros _; split; [done|by eapply loadItem_loads]).
    destruct (keyToIndices sha256 (bit_width_ h) key (-1)) as [indices|];
      [|done].
    destruct (set_node _ _ _ _ _ _ _ _) as [node' r] eqn:Hset. cbn.
    intros ->. split; [done|]. eapply loadItem_ptr; [done|].
    by eapply set_node_error. }
  destruct Hroot as [Hbw Hloads]. split; [done|]. split; [done|]. split.
  - intros k. destruct (set sha256 getCbor h key value).1 as [r' b'].
    destruct h as [r b]. cbn in Hbw, Hloads. subst b'. by apply get_loads.
  - intros Hl. apply (loads_to_loaded _ _ Hloads) in Hl.
    destruct (set sha256 getCbor h key value).1 as [r b], h as [r0 b0].
    cbn in *. by subst.
Qed.

(** C10. [contains] returns [false] exactly when [get] fails with
    [kNotFound] and [true] exactly when [get] succeeds, and returns every
    other error of [get] as it is; it leaves the HAMT as [get] does. *)
Theorem contains_follows_get h key :
  let g := get sha256 getCbor h key in
  let c := contains sha256 getCbor h key in
  c.1 = g.1
  ∧ (c.2 = Ok false ↔ g.2 = Err kNotFound)
  ∧ (c.2 = Ok true ↔ ∃ v, g.2 = Ok v)
  ∧ (∀ e, e ≠ kNotFound → (c.2 = Err e ↔ g.2 = Err e))
  ∧ c.2 ≠ Err kNotFound.
Proof.
  unfold contains. destruct (get sha256 getCbor h key) as [h' [v|e]]; cbn.
  - split; [done|]. split; [done|]. split; [split; [by eauto|done]|].
    split; [|done]. by intros e _.
  - destruct e; cbn; (split; [done|]); (split; [done|]);
      (split; [split; [done|by intros [??]]|]);
      (split; [|done]); intros e' He'; split; congruence.
Qed.

End Loading.

(** ** Concrete runs

    A hash for the examples: the bytes of the key, cut or filled with
    zeros to 32 bytes; a store that holds no block; and a store that
    names a node by the number of its items. *)
Definition toy_sha256 (key : string) : list Z :=
  take 32 (((λ a, Z.of_N (Ascii.N_of_ascii a))
              <$> String.list_ascii_of_string key) ++ replicate 32 0).

Definition no_store (c : list Z) : result (gmap Z Item) :=
  Err (StoreError 1).

Definition count_store (node : gmap Z Item) : result (list Z) :=
  Ok [Z.of_nat (size node)].

Lemma toy_sha256_ok key : sha256_ok toy_sha256 key.
Proof.
  unfold sha256_ok, toy_sha256. split.
  - rewrite length_take, length_app, length_replicate. lia.
  - apply Forall_take, Forall_app. split.
    + apply Forall_fmap, Forall_forall. intros a _. unfold is_byte, compose.
      pose proof (Ascii.N_ascii_bounded a). lia.
    + apply Forall_replicate. unfold is_byte. lia.
Qed.

(** Four keys that share the first index at 8 bits, so that the fourth
    splits the leaf of the first three, then two removals, of which the
    second finds nothing, and a second [set] of a key. *)
Definition sample_ops : list op :=
  [OpSet "aa" [1]; OpSet "ab" [2]; OpSet "ac" [3]; OpSet "ad" [4];
   OpRemove "ab"; OpRemove "zz"; OpSet "aa" [5]].

Definition split_ops : list op :=
  [OpSet "aa" [1]; OpSet "ab" [2]; OpSet "ac" [3]; OpSet "ad" [4]].

Definition other_order_ops : list op :=
  [OpSet "ad" [4]; OpSet "ac" [7]; OpSet "zz" [9]; OpSet "ab" [2];
   OpRemove "zz"; OpSet "aa" [1]; OpSet "ac" [3]].

(** At 64 bits a key has four indices.  The first four keys differ in the
    last index only; the last two have the 32 first bytes of the first
    one, hence its whole index path. *)
Definition deep_ops : list op :=
  [OpSet "aaaaaaaaaaaaaaaaaaaaaaaa1bbbbbbb" [1];
   OpSet "aaaaaaaaaaaaaaaaaaaaaaaa2bbbbbbb" [2];
   OpSet "aaaaaaaaaaaaaaaaaaaaaaaa3bbbbbbb" [3];
   OpSet "aaaaaaaaaaaaaaaaaaaaaaaa4bbbbbbb" [4];
   OpSet "aaaaaaaaaaaaaaaaaaaaaaaa1bbbbbbbx" [5];
   OpSet "aaaaaaaaaaaaaaaaaaaaaaaa1bbbbbbby" [6]].

Definition deep_hamt : Hamt :=
  (run toy_sha256 no_store deep_ops (empty_hamt 64)).1.

Definition deep_key : string := "aaaaaaaaaaaaaaaaaaaaaaaa1bbbbbbbz".

Lemma hamt_round_trip_witness :
  let h := (run toy_sha256 no_store sample_ops (empty_hamt 8)).1 in
  (get toy_sha256 no_store h "aa").2 = Ok [5]
  ∧ (get toy_sha256 no_store h "ab").2 = Err kNotFound
  ∧ ((remove toy_sha256 no_store h "ab").2 = Err kNotFound
     ↔ reference sample_ops
         (run toy_sha256 no_store sample_ops (empty_hamt 8)).2 ∅ !! "ab"
       = None).
Proof.
  pose proof (hamt_round_trip toy_sha256 no_store 8 ltac:(lia) toy_sha256_ok
                sample_ops "aa") as (Haa & _).
  pose proof (hamt_round_trip toy_sha256 no_store 8 ltac:(lia) toy_sha256_ok
                sample_ops "ab") as (Hab & Hrm & _).
  cbn zeta in *. split; [|split].
  - rewrite Haa. vm_compute. reflexivity.
  - rewrite Hab. vm_compute. reflexivity.
  - exact Hrm.
Defined.

Lemma remove_leaves_canonical_witness :
  let h := (run toy_sha256 no_store split_ops (empty_hamt 8)).1 in
  (remove toy_sha256 no_store h "ad").2 = Ok tt
  ∧ canonical (remove toy_sha256 no_store h "ad").1 = true.
Proof.
  cbn zeta.
  assert (Hok : (remove toy_sha256 no_store
                   (run toy_sha256 no_store split_ops (empty_hamt 8)).1
                   "ad").2 = Ok tt) by (vm_compute; reflexivity).
  split; [exact Hok|].
  exact (remove_leaves_canonical toy_sha256 no_store 8 ltac:(lia)
           toy_sha256_ok split_ops "ad" Hok).
Defined.

Lemma flush_deterministic_witness :
  let h1 := (run toy_sha256 no_store split_ops (empty_hamt 8)).1 in
  let h2 := (run toy_sha256 no_store other_order_ops (empty_hamt 8)).1 in
  h1 = h2 ∧ flush count_store h1 = flush count_store h2.
Proof.
  apply (flush_deterministic toy_sha256 no_store 8 ltac:(lia) toy_sha256_ok
           count_store split_ops other_order_ops).
  vm_compute. reflexivity.
Defined.

Lemma set_max_depth_leaves_trie_witness :
  exhausted_path toy_sha256 no_store deep_hamt deep_key
  ∧ (set toy_sha256 no_store deep_hamt deep_key [7]).2 = Err kMaxDepth
  ∧ (set toy_sha256 no_store deep_hamt deep_key [7]).1 = deep_hamt.
Proof.
  destruct (set_max_depth_leaves_trie toy_sha256 no_store deep_hamt deep_key
              [7]) as [Hreturns Hsame].
  assert (Hex : exhausted_path toy_sha256 no_store deep_hamt deep_key).
  { eexists _, _. split; [vm_compute; reflexivity|].
    split; [vm_compute; reflexivity|].
    do 3 (eapply exhausted_child; [vm_compute; reflexivity..|]).
    eapply exhausted_leaf; [vm_compute; reflexivity..|vm_compute; lia]. }
  split; [exact Hex|]. split; [exact (Hreturns Hex)|].
  apply (Hsame (Hreturns Hex)). vm_compute. reflexivity.
Defined.

(** With [n = -1], the default, the whole sequence is returned and not
    the indices from position [L + 2], of which there are none; and with
    [n = L + 2] the loop starts [bit_width] bits before the hash, reads
    zeros there and yields an index more than the whole sequence has.
    Here [bit_width = 5] and [L = 51]. *)
Lemma keyToIndices_outside_range :
  keyToIndices toy_sha256 5 "a" (-1)
  ≠ Some (drop (Z.to_nat (51 - (-1) + 1)) (index_path 5 (toy_sha256 "a")))
  ∧ keyToIndices toy_sha256 5 "a" 53
    = Some (0 :: index_path 5 (toy_sha256 "a"))
  ∧ ∀ d, keyToIndices toy_sha256 5 "a" 53
         ≠ Some (drop d (index_path 5 (toy_sha256 "a"))).
Proof.
  assert (Hlong : keyToIndices toy_sha256 5 "a" 53
                  = Some (0 :: index_path 5 (toy_sha256 "a")))
    by (vm_compute; reflexivity).
  split; [by vm_compute|]. split; [exact Hlong|].
  intros d H. rewrite Hlong in H. injection H as H.
  apply (f_equal length) in H. rewrite length_drop in H.
  cbn [length] in H. lia.
Qed.

Lemma keyToIndices_index_path_witness :
  keyToIndices toy_sha256 5 "a" (-1) = Some (index_path 5 (toy_sha256 "a"))
  ∧ length (index_path 5 (toy_sha256 "a")) = 51%nat
  ∧ keyToIndices toy_sha256 5 "a" 3
    = Some (drop 49 (index_path 5 (toy_sha256 "a"))).
Proof.
  destruct (keyToIndices_index_path toy_sha256 5 "a" ltac:(lia)
              (toy_sha256_ok "a")) as (Hfull & Hlen & _ & Hsuffix & _).
  split; [exact Hfull|]. split; [exact Hlen|].
  apply (Hsuffix 3). vm_compute. split; discriminate.
Defined.

End HamtFacts.

(** * Queries on the branch graph *)
Module BranchQueryFacts.
Import Branches BranchesFacts.

(** [route_of s from to route]: the route starts at [from], ends at [to],
    and each id after the first is a recorded branch whose parent is the
    id before it. *)
Inductive route_of (s : State) : BranchId → BranchId → list BranchId → Prop :=
| route_one a : route_of s a a [a]
| route_cons from x to route b :
    info_of s x = Some b → parent b = from → route_of s x to route →
    route_of s from to (from :: route).

(** ** The order of iteration over a map *)

#[local] Instance key_le_trans {V} : Transitive (@key_le V).
Proof. intros x y z. unfold key_le. lia. Qed.

#[local] Instance key_le_total {V} : Total (@key_le V).
Proof. intros x y. unfold key_le. lia. Qed.

Lemma ordered_items_sorted {V} (m : gmap Z V) :
  StronglySorted key_le (ordered_items m).
Proof. apply StronglySorted_merge_sort; apply _. Qed.

Lemma ordered_items_elem {V} (m : gmap Z V) k v :
  (k, v) ∈ ordered_items m ↔ m !! k = Some v.
Proof.
  unfold ordered_items. by rewrite merge_sort_Permutation, elem_of_map_to_list.
Qed.

(** The last entry has the greatest key. *)
Lemma ordered_items_last {V} (m : gmap Z V) :
  match last (ordered_items m) with
  | Some (k, v) => m !! k = Some v ∧ ∀ k', is_Some (m !! k') → k' ≤ k
  | None => m = ∅
  end.
Proof.
  pose proof (ordered_items_sorted m) as Hsorted.
  destruct (last (ordered_items m)) as [[k v]|] eqn:Hlast.
  - apply last_Some in Hlast as [l Hl]. split.
    + apply ordered_items_elem. rewrite Hl. set_solver.
    + intros k' [v' Hk']. apply ordered_items_elem in Hk'.
      rewrite Hl in Hk', Hsorted.
      apply elem_of_app in Hk' as [Hk'|Hk'].
      * apply (StronglySorted_app_1_elem_of _ _ _ (k', v') (k, v)) in Hsorted;
          [done|done|set_solver].
      * apply list_elem_of_singleton in Hk'. injection Hk' as -> _. lia.
  - apply last_None in Hlast. apply map_eq. intros k.
    rewrite lookup_empty. destruct (m !! k) as [v|] eqn:Hk; [|done].
    apply ordered_items_elem in Hk. rewrite Hlast in Hk.
    by apply elem_of_nil in Hk.
Qed.

Lemma head_filter_sorted {V} (l : list (Z * V)) h :
  StronglySorted key_le l →
  match head (filter (λ kv, h ≤ kv.1) l) with
  | Some kv => kv ∈ l ∧ h ≤ kv.1 ∧ ∀ kv', kv' ∈ l → h ≤ kv'.1 → kv.1 ≤ kv'.1
  | None => ∀ kv', kv' ∈ l → kv'.1 < h
  end.
Proof.
  induction 1 as [|x l Hl IH Hx].
  { cbn. intros kv' H. by apply elem_of_nil in H. }
  rewrite filter_cons. destruct (decide (h ≤ x.1)) as [Hle|Hgt].
  - cbn. split; [left|]. split; [done|]. intros kv' Hin Hh.
    apply elem_of_cons in Hin as [->|Hin]; [lia|].
    rewrite Forall_forall in Hx. by apply Hx.
  - destruct (head (filter (λ kv, h ≤ kv.1) l)) as [kv|].
    + destruct IH as (Hin & Hh & Hmin). split; [by right|]. split; [done|].
      intros kv' Hin' Hh'. apply elem_of_cons in Hin' as [->|Hin']; [lia|].
      by apply Hmin.
    + intros kv' Hin'. apply elem_of_cons in Hin' as [->|Hin']; [lia|].
      by apply IH.
Qed.

(** [lower_bound] finds the entry with the least key that is not below
    [h]. *)
Lemma lower_bound_spec {V} (m : gmap Z V) h :
  match lower_bound m h with
  | Some (k, v) =>
    m !! k = Some v ∧ h ≤ k ∧ ∀ k', is_Some (m !! k') → h ≤ k' → k ≤ k'
  | None => ∀ k', is_Some (m !! k') → k' < h
  end.
Proof.
  unfold lower_bound.
  pose proof (head_filter_sorted (ordered_items m) h (ordered_items_sorted m))
    as H.
  destruct (head (filter (λ kv, h ≤ kv.1) (ordered_items m))) as [[k v]|].
  - destruct H as (Hin & Hh & Hmin). split; [by apply ordered_items_elem|].
    split; [done|]. intros k' [v' Hk'] Hh'.
    apply (Hmin (k', v')); [by apply ordered_items_elem|done].
  - intros k' [v' Hk']. apply (H (k', v')). by apply ordered_items_elem.
Qed.

Section Facts.

Variables (kNoBranch kGenesisBranch : BranchId).

Lemma ancestor_parent s a c b :
  ancestor s a c → a ≠ c → info_of s a = Some b → ancestor s (parent b) c.
Proof.
  intros H Hne Hb. destruct H as [a b' Hb'|a b' c Hb' Hup]; [done|].
  by assert (b' = b) as -> by congruence.
Qed.

Lemma info_of_inv s i b :
  info_of s i = Some b →
  ∃ p, all_branches_ s !! i = Some p ∧ heap s !! p = Some b.
Proof.
  unfold info_of. destruct (all_branches_ s !! i) as [p|]; [|done]. eauto.
Qed.

(** ** [getRootBranch] *)

Lemma getRootBranch_known s n :
  dag_ok kNoBranch s = true →
  ∀ i b, info_of s i = Some b → (Z.to_nat (bottom_height b) < n)%nat →
    ∃ r p rb,
      (∀ fuel, (n ≤ fuel)%nat →
         getRootBranch kNoBranch fuel i s = Done (Ok p) s)
      ∧ ancestor s i r ∧ all_branches_ s !! r = Some p
      ∧ heap s !! p = Some rb ∧ parent rb = kNoBranch.
Proof.
  intros Hok. induction n as [|n IH]; intros i b Hb Hn; [lia|].
  destruct (info_of_inv _ _ _ Hb) as (p & Hi & Hp).
  destruct (dag_ok_info _ _ _ _ Hok Hb) as [Hh Hpar].
  destruct (decide (parent b = kNoBranch)) as [Hroot|Hup].
  - exists i, p, b. split; [|by eauto using ancestor_self].
    intros [|fuel] Hf; [lia|]. cbn. unfold getBranch_const.
    by rewrite Hi, Hp, (bool_decide_eq_true_2 _ Hroot).
  - destruct (Hpar Hup) as (pb & Hpb & _ & Hlt).
    destruct (dag_ok_info _ _ _ _ Hok Hpb) as [Hhp _].
    destruct (IH (parent b) pb Hpb) as (r & q & rb & Hrun & Hanc & Hr & Hq & Hrb);
      [lia|].
    exists r, q, rb. split; [|by eauto using ancestor_up].
    intros [|fuel] Hf; [lia|]. cbn. unfold getBranch_const.
    rewrite Hi, Hp, (bool_decide_eq_false_2 _ Hup). apply Hrun. lia.
Qed.

(** In a graph that satisfies the invariant, [getRootBranch(id)] fails
    with [BRANCHES_BRANCH_NOT_FOUND] when the id is not recorded, and
    otherwise returns the ancestor of the branch that has no parent. *)
Theorem getRootBranch_root s i :
  dag_ok kNoBranch s = true →
  ∃ fuel0 r,
    (∀ fuel, (fuel0 ≤ fuel)%nat →
       getRootBranch kNoBranch fuel i s = Done r s)
    ∧ match r with
      | Ok p =>
        ∃ c rb, ancestor s i c ∧ all_branches_ s !! c = Some p
                ∧ heap s !! p = Some rb ∧ parent rb = kNoBranch
      | Err e => e = BRANCHES_BRANCH_NOT_FOUND ∧ all_branches_ s !! i = None
      end.
Proof.
  intros Hok. destruct (all_branches_ s !! i) as [p|] eqn:Hi.
  - destruct (dag_ok_branch _ _ _ _ Hok Hi) as (b & Hp & _).
    pose proof (info_of_lookup _ _ _ _ Hi Hp) as Hb.
    destruct (getRootBranch_known s (S (Z.to_nat (bottom_height b))) Hok
                i b Hb) as (r & q & rb & Hrun & Hrest); [lia|].
    exists (S (Z.to_nat (bottom_height b))), (Ok q). split; [done|].
    by exists r, rb.
  - exists 1%nat, (Err BRANCHES_BRANCH_NOT_FOUND). split; [|done].
    intros [|fuel] Hf; [lia|]. cbn. unfold getBranch_const. by rewrite Hi.
Qed.

(** ** [getRoute] *)

Lemma getRoute_loop_sound s from to0 fuel :
  ∀ to route r s',
    route_of s to to0 (to :: reverse route) →
    getRoute_loop kNoBranch kGenesisBranch fuel s from to route
      = Done (Ok r) s' →
    s' = s ∧ route_of s from to0 r.
Proof.
  induction fuel as [|fuel IH]; intros to route r s' Hinv; [done|].
  cbn [getRoute_loop]. unfold getBranch_const.
  destruct (all_branches_ s !! to) as [p|] eqn:Hto; [|done].
  destruct (heap s !! p) as [b|] eqn:Hp; [|done].
  pose proof (info_of_lookup _ _ _ _ Hto Hp) as Hb.
  assert (Hnext : route_of s (parent b) to0
                    (parent b :: reverse (route ++ [to]))).
  { rewrite reverse_snoc. by eapply route_cons. }
  case_bool_decide as Hfrom.
  - intros [= <- <-]. split; [done|].
    rewrite reverse_snoc. by rewrite <- Hfrom.
  - destruct (bool_decide (parent b = kNoBranch)
              || bool_decide (parent b = kGenesisBranch)); [done|].
    by apply IH.
Qed.

(** Whatever the graph, a route that [getRoute(from, to)] returns starts
    at [from], ends at [to] and follows the parent links: each branch on
    it after the first is recorded and has the one before it as its
    parent.  The call changes nothing. *)
Theorem getRoute_sound s fuel from to route s' :
  getRoute kNoBranch kGenesisBranch fuel from to s = Done (Ok route) s' →
  s' = s ∧ from ≠ kNoBranch ∧ to ≠ kNoBranch ∧ route_of s from to route.
Proof.
  unfold getRoute.
  destruct (decide (from = kNoBranch)) as [->|Hf].
  { by rewrite bool_decide_eq_true_2. }
  destruct (decide (to = kNoBranch)) as [->|Ht].
  { rewrite (bool_decide_eq_true_2 (kNoBranch = kNoBranch)) by done.
    by rewrite orb_true_r. }
  rewrite !bool_decide_eq_false_2 by done. cbn [orb].
  case_bool_decide as Heq.
  - intros [= <- <-]. subst. repeat split; try done. constructor.
  - intros H. apply (getRoute_loop_sound _ _ to) in H as [-> H]; [done|].
    constructor.
Qed.

Lemma getRoute_loop_spec s from n :
  dag_ok kNoBranch s = true →
  (∀ g, info_of s kGenesisBranch = Some g → parent g = kNoBranch) →
  from ≠ kNoBranch →
  ∀ to route b,
    info_of s to = Some b → from ≠ to →
    (Z.to_nat (bottom_height b) < n)%nat →
    ∃ r, (∀ fuel, (n ≤ fuel)%nat →
            getRoute_loop kNoBranch kGenesisBranch fuel s from to route
              = Done r s)
         ∧ (ancestor s to from → ∃ l, r = Ok l)
         ∧ (¬ ancestor s to from → r = Err BRANCHES_NO_ROUTE).
Proof.
  intros Hok Hgen Hfrom0.
  induction n as [|n IH]; intros to route b Hb Hne Hn; [lia|].
  destruct (info_of_inv _ _ _ Hb) as (p & Hi & Hp).
  destruct (dag_ok_info _ _ _ _ Hok Hb) as [Hh Hpar].
  assert (Hstep : ∀ k,
            getRoute_loop kNoBranch kGenesisBranch (S k) s from to route =
            if bool_decide (parent b = from) then
              Done (Ok (reverse ((route ++ [to]) ++ [from]))) s
            else if bool_decide (parent b = kNoBranch)
                    || bool_decide (parent b = kGenesisBranch) then
              Done (Err BRANCHES_NO_ROUTE) s
            else getRoute_loop kNoBranch kGenesisBranch k s from (parent b)
                   (route ++ [to])).
  { intros k. cbn [getRoute_loop]. unfold getBranch_const.
    by rewrite Hi, Hp. }
  assert (Hup : ancestor s to from ↔ ancestor s (parent b) from).
  { split; intros H.
    - by eapply ancestor_parent.
    - by eapply ancestor_up. }
  destruct (decide (parent b = from)) as [Hfrom|Hnf].
  { eexists. split.
    - intros [|fuel] Hf; [lia|]. rewrite Hstep.
      by rewrite (bool_decide_eq_true_2 _ Hfrom).
    - split; [by eauto|]. intros Hno. exfalso. apply Hno, Hup.
      destruct (Hpar ltac:(congruence)) as (pb & Hpb & _).
      rewrite Hfrom in *. by eapply ancestor_self. }
  destruct (decide (parent b = kNoBranch)) as [Hroot|Hnr].
  { exists (Err BRANCHES_NO_ROUTE). split.
    - intros [|fuel] Hf; [lia|]. rewrite Hstep.
      rewrite (bool_decide_eq_false_2 _ Hnf).
      by rewrite (bool_decide_eq_true_2 _ Hroot).
    - split; [|done]. intros H. apply Hup in H. rewrite Hroot in H.
      by apply no_ancestor_of_no_branch in H. }
  destruct (decide (parent b = kGenesisBranch)) as [Hg|Hng].
  { exists (Err BRANCHES_NO_ROUTE). split.
    - intros [|fuel] Hf; [lia|]. rewrite Hstep.
      rewrite (bool_decide_eq_false_2 _ Hnf).
      rewrite (bool_decide_eq_true_2 _ Hg). by rewrite orb_true_r.
    - split; [|done]. intros H. apply Hup in H. rewrite Hg in H.
      destruct (ancestor_known _ _ _ H) as [g Hgi].
      apply (ancestor_parent _ _ _ g) in H; [|congruence|done].
      rewrite (Hgen g Hgi) in H. by apply no_ancestor_of_no_branch in H. }
  destruct (Hpar Hnr) as (pb & Hpb & _ & Hlt).
  destruct (dag_ok_info _ _ _ _ Hok Hpb) as [Hhp _].
  destruct (IH (parent b) (route ++ [to]) pb Hpb ltac:(congruence))
    as (r & Hrun & Hyes & Hno); [lia|].
  exists r. split.
  - intros [|fuel] Hf; [lia|]. rewrite Hstep.
    rewrite (bool_decide_eq_false_2 _ Hnf), (bool_decide_eq_false_2 _ Hnr).
    rewrite (bool_decide_eq_false_2 _ Hng). cbn [orb]. apply Hrun. lia.
  - split; intros H; [apply Hyes|apply Hno]; by rewrite <- Hup.
Qed.

(** In a graph that satisfies the invariant and whose genesis branch, if
    recorded, has no parent, [getRoute(from, to)] on a recorded branch
    [to] finds a route exactly when [from] is [to] or an ancestor of it,
    and fails with [BRANCHES_NO_ROUTE] otherwise. *)
Theorem getRoute_finds_ancestors s from to :
  dag_ok kNoBranch s = true →
  (∀ g, info_of s kGenesisBranch = Some g → parent g = kNoBranch) →
  from ≠ kNoBranch → is_Some (info_of s to) →
  ∃ fuel0 r,
    (∀ fuel, (fuel0 ≤ fuel)%nat →
       getRoute kNoBranch kGenesisBranch fuel from to s = Done r s)
    ∧ (ancestor s to from → ∃ route, r = Ok route ∧ route_of s from to route)
    ∧ (¬ ancestor s to from → r = Err BRANCHES_NO_ROUTE).
Proof.
  intros Hok Hgen Hfrom [b Hb]. unfold getRoute.
  assert (Hto : to ≠ kNoBranch).
  { intros ->. destruct (info_of_inv _ _ _ Hb) as (p & Hp & _).
    by rewrite (dag_ok_no_branch _ _ Hok) in Hp. }
  rewrite !bool_decide_eq_false_2 by done. cbn [orb].
  destruct (decide (from = to)) as [->|Hne].
  - exists 0%nat, (Ok [to]). rewrite bool_decide_eq_true_2 by done.
    split; [done|]. split.
    + intros _. exists [to]. split; [done|]. constructor.
    + intros H. exfalso. apply H. by eapply ancestor_self.
  - rewrite bool_decide_eq_false_2 by done.
    destruct (getRoute_loop_spec s from (S (Z.to_nat (bottom_height b)))
                Hok Hgen Hfrom to [] b Hb Hne) as (r & Hrun & Hyes & Hno);
      [lia|].
    exists (S (Z.to_nat (bottom_height b))), r.
    split; [done|]. split; [|done].
    intros Hanc. destruct (Hyes Hanc) as [route ->]. exists route.
    split; [done|].
    eapply (getRoute_loop_sound _ _ to _ to []); [constructor|].
    by apply Hrun.
Qed.

(** ** [setCurrentHead] *)

(** The branch [i] and its ancestors, from [i] up to the root: the id,
    the pointer and the record of each. *)
Inductive lineage (s : State)
    : BranchId → list (BranchId * N * BranchInfo) → Prop :=
| lineage_root : lineage s kNoBranch []
| lineage_up i p b l :
    all_branches_ s !! i = Some p → heap s !! p = Some b →
    lineage s (parent b) l → lineage s i ((i, p, b) :: l).

Definition chain_entry (e : BranchId * N * BranchInfo) : Z * N :=
  (top_height e.2, e.1.2).

Definition add_entries (chain : gmap Z N) (l : list (Z * N)) : gmap Z N :=
  foldl (λ m e, <[e.1 := e.2]> m) chain l.

Lemma lineage_exists s n :
  dag_ok kNoBranch s = true →
  ∀ i b, info_of s i = Some b → (Z.to_nat (bottom_height b) < n)%nat →
    ∃ l, lineage s i l.
Proof.
  intros Hok. induction n as [|n IH]; intros i b Hb Hn; [lia|].
  destruct (info_of_inv _ _ _ Hb) as (p & Hi & Hp).
  destruct (dag_ok_info _ _ _ _ Hok Hb) as [Hh Hpar].
  destruct (decide (parent b = kNoBranch)) as [Hroot|Hup].
  - exists [(i, p, b)]. econstructor; [done..|]. rewrite Hroot. constructor.
  - destruct (Hpar Hup) as (pb & Hpb & _ & Hlt).
    destruct (dag_ok_info _ _ _ _ Hok Hpb) as [Hhp _].
    destruct (IH (parent b) pb Hpb) as [l Hl]; [lia|].
    exists ((i, p, b) :: l). by econstructor.
Qed.

(** The entries of a lineage are the ancestors. *)
Lemma lineage_ancestor s i l :
  all_branches_ s !! kNoBranch = None →
  lineage s i l →
  ∀ c q bc, (c, q, bc) ∈ l ↔
    ancestor s i c ∧ all_branches_ s !! c = Some q ∧ heap s !! q = Some bc.
Proof.
  intros Hno. induction 1 as [|i p b l Hi Hp Hl IH]; intros c q bc.
  { split; [by intros ?%elem_of_nil|]. intros [H _].
    apply ancestor_known in H as [x Hx]. unfold info_of in Hx.
    by rewrite Hno in Hx. }
  pose proof (info_of_lookup _ _ _ _ Hi Hp) as Hb.
  rewrite elem_of_cons. split.
  - intros [[= -> -> ->]|Hin].
    + split; [by eapply ancestor_self|done].
    + apply IH in Hin as (Hanc & Hc & Hq). split; [|done].
      by eapply ancestor_up.
  - intros (Hanc & Hc & Hq). destruct (decide (i = c)) as [->|Hne].
    + left. congruence.
    + right. apply IH. split; [|done]. by eapply ancestor_parent.
Qed.

(** Along a lineage the heights go down: every entry after the first
    ends below the bottom of the first. *)
Lemma lineage_heights s i p b l :
  dag_ok kNoBranch s = true → lineage s i ((i, p, b) :: l) →
  ∀ e, e ∈ l → top_height e.2 < bottom_height b.
Proof.
  intros Hok H. remember ((i, p, b) :: l) as l0 eqn:Hl0.
  revert p b l Hl0. induction H as [|i p b l Hi Hp Hl IH]; [done|].
  intros p0 b0 l0 [= <- <- <-] e He.
  pose proof (info_of_lookup _ _ _ _ Hi Hp) as Hb.
  destruct (dag_ok_info _ _ _ _ Hok Hb) as [Hh Hpar].
  inversion Hl as [|j q bj l' Hj Hq Hl' Hj0 Hl0]; subst;
    [by apply elem_of_nil in He|].
  pose proof (info_of_lookup _ _ _ _ Hj Hq) as Hbj.
  destruct (dag_ok_info _ _ _ _ Hok Hbj) as [Hhj _].
  assert (Hpj : parent b ≠ kNoBranch).
  { intros Heq. rewrite Heq in Hj. by rewrite (dag_ok_no_branch _ _ Hok) in Hj. }
  destruct (Hpar Hpj) as (pb & Hpb & Hlt & _).
  assert (pb = bj) as -> by congruence.
  apply elem_of_cons in He as [->|He]; [done|].
  specialize (IH _ _ _ eq_refl e He). lia.
Qed.

Lemma lineage_NoDup s i l :
  dag_ok kNoBranch s = true → lineage s i l →
  NoDup (fst <$> (fst <$> l)) ∧ NoDup (fst <$> (chain_entry <$> l)).
Proof.
  intros Hok. induction 1 as [|i p b l Hi Hp Hl IH]; [split; constructor|].
  pose proof (lineage_heights s i p b l Hok
                ltac:(by econstructor)) as Hlow.
  pose proof (info_of_lookup _ _ _ _ Hi Hp) as Hb.
  destruct (dag_ok_info _ _ _ _ Hok Hb) as [Hh _].
  destruct IH as [IH1 IH2]. rewrite !fmap_cons. split.
  - constructor; [|done]. cbn. intros Hin.
    apply list_elem_of_fmap in Hin as ([c q] & -> & Hin).
    apply list_elem_of_fmap in Hin as ([[c' q'] bc] & [= <- <-] & Hin).
    cbn in *. pose proof (Hlow _ Hin) as Hlt. cbn in Hlt.
    apply (lineage_ancestor s _ l (dag_ok_no_branch _ _ Hok) Hl) in Hin
      as (_ & Hc & Hq).
    assert (bc = b) as -> by congruence. lia.
  - constructor; [|done]. cbn. intros Hin.
    apply list_elem_of_fmap in Hin as ([h q] & Heq & Hin).
    apply list_elem_of_fmap in Hin as (e & [= -> ->] & Hin).
    cbn in Heq. pose proof (Hlow _ Hin). lia.
Qed.

Lemma lineage_length s i l :
  dag_ok kNoBranch s = true → lineage s i l →
  (length l ≤ size (all_branches_ s))%nat.
Proof.
  intros Hok Hl. destruct (lineage_NoDup s i l Hok Hl) as [Hnd _].
  rewrite <- (length_fmap fst l), <- (length_fmap fst (fst <$> l)).
  rewrite <- (size_list_to_set (C := gset Z)) by done.
  rewrite <- size_dom. apply subseteq_size. intros c Hc.
  apply elem_of_list_to_set in Hc.
  apply list_elem_of_fmap in Hc as ([c' q] & -> & Hin).
  apply list_elem_of_fmap in Hin as ([[c'' q'] bc] & [= <- <-] & Hin).
  apply (lineage_ancestor s _ l (dag_ok_no_branch _ _ Hok) Hl) in Hin
    as (_ & Hc & _).
  apply elem_of_dom. by eauto.
Qed.

Lemma add_entries_lookup l :
  ∀ chain h q,
    NoDup (fst <$> l) →
    add_entries chain l !! h = Some q
    ↔ (h, q) ∈ l ∨ (chain !! h = Some q ∧ h ∉ fst <$> l).
Proof.
  induction l as [|[k v] l IH]; intros chain h q Hnd.
  { cbn. split; [intros H; right; split; [done|by intros ?%elem_of_nil]|].
    intros [H|[H _]]; [by apply elem_of_nil in H|done]. }
  rewrite fmap_cons in Hnd. apply NoDup_cons in Hnd as [Hk Hnd].
  unfold add_entries. cbn [foldl]. fold (add_entries (<[k := v]> chain) l).
  rewrite IH by done. rewrite elem_of_cons, fmap_cons, not_elem_of_cons.
  cbn [fst snd]. split.
  - intros [Hin|[Hc Hnot]]; [by left; right|].
    apply lookup_insert_Some in Hc as [[<- <-]|[Hne Hc]]; [by left; left|].
    right. by repeat split.
  - intros [[[= -> ->]|Hin]|(Hc & Hne & Hnot)].
    + right. split; [apply lookup_insert_eq|done].
    + by left.
    + right. split; [|done]. by rewrite lookup_insert_ne.
Qed.

(** The loop walks up the lineage of the parent and records every branch
    of it under its top height; the guard is never used up. *)
Lemma setCurrentHead_loop_lineage s i l :
  all_branches_ s !! kNoBranch = None → lineage s i l →
  ∀ guard s1,
    heap s1 = heap s → all_branches_ s1 = all_branches_ s →
    (length l < guard)%nat →
    setCurrentHead_loop kNoBranch guard i s1
    = Done (Ok tt)
        (set_current_chain
           (add_entries (current_chain_ s1) (chain_entry <$> l)) s1).
Proof.
  intros Hno. induction 1 as [|i p b l Hi Hp Hl IH];
    intros guard s1 Hheap Hall Hguard.
  { destruct guard, s1; cbn; by rewrite bool_decide_eq_true_2. }
  assert (Hi0 : i ≠ kNoBranch) by (intros ->; congruence).
  destruct guard as [|guard]; [cbn in Hguard; lia|].
  cbn [setCurrentHead_loop]. rewrite (bool_decide_eq_false_2 _ Hi0).
  cbn [length] in Hguard.
  rewrite (bool_decide_eq_false_2 (guard = 0%nat)) by lia.
  unfold bind at 1, gets at 1. rewrite Hall, Hi.
  unfold bind at 1, deref at 1. rewrite Hheap, Hp.
  unfold bind at 1, modify at 1.
  rewrite IH by (done || lia). by destruct s1.
Qed.

Lemma lineage_chain_lookup s i l :
  dag_ok kNoBranch s = true → lineage s i l →
  ∀ h q, add_entries ∅ (chain_entry <$> l) !! h = Some q ↔
    ∃ c bc, ancestor s i c ∧ all_branches_ s !! c = Some q
            ∧ heap s !! q = Some bc ∧ top_height bc = h.
Proof.
  intros Hok Hl h q.
  pose proof (dag_ok_no_branch _ _ Hok) as Hno.
  destruct (lineage_NoDup s i l Hok Hl) as [_ Hkeys].
  rewrite add_entries_lookup by done. rewrite lookup_empty. split.
  - intros [Hin|[? _]]; [|done].
    apply list_elem_of_fmap in Hin as ([[c q'] bc] & [= -> ->] & Hin).
    apply (lineage_ancestor s _ _ Hno Hl) in Hin as (Hanc & Hc & Hq).
    by exists c, bc.
  - intros (c & bc & Hanc & Hc & Hq & <-). left.
    apply list_elem_of_fmap. exists (c, q, bc). split; [done|].
    by apply (lineage_ancestor s _ _ Hno Hl).
Qed.

Lemma setCurrentHead_fresh s head height p b :
  dag_ok kNoBranch s = true →
  current_top_branch_ s ≠ head →
  all_branches_ s !! head = Some p → heap s !! p = Some b →
  synced_to_genesis b = true →
  bottom_height b ≤ height ≤ top_height b →
  ∃ l,
    lineage s head l
    ∧ setCurrentHead kNoBranch head height s
      = Done (Ok tt)
          (mkState (heap s) (all_branches_ s) (heads_ s) (unloaded_roots_ s)
             (genesis_branch_ s) (add_entries ∅ (chain_entry <$> l))
             head height).
Proof.
  intros Hok Hcur Hhead Hp Hsync Hheight.
  pose proof (dag_ok_no_branch _ _ Hok) as Hno.
  pose proof (info_of_lookup _ _ _ _ Hhead Hp) as Hb.
  destruct (lineage_exists s (S (Z.to_nat (bottom_height b))) Hok head b Hb)
    as [l Hl]; [lia|].
  pose proof (lineage_length s head l Hok Hl) as Hlen.
  exists l. split; [done|].
  inversion Hl as [|i p' b' l' Hi' Hp' Hl' Heq1 Heq2]; [congruence|]. subst.
  assert (p' = p) as -> by congruence. assert (b' = b) as -> by congruence.
  unfold setCurrentHead.
  rewrite bool_decide_eq_false_2 by (intros ->; congruence).
  unfold bind at 1, gets at 1. rewrite (bool_decide_eq_false_2 _ Hcur).
  unfold bind at 1, gets at 1. rewrite Hhead.
  unfold bind at 1, deref at 1. rewrite Hp, Hsync. cbn [negb].
  rewrite !bool_decide_eq_false_2 by lia. cbn [orb].
  cbn [length] in Hlen.
  unfold bind, modify, gets.
  rewrite (setCurrentHead_loop_lineage s (parent b) l' Hno Hl');
    [done|done|done|cbn; lia].
Qed.

(** On a graph that satisfies the invariant, [setCurrentHead] on a
    recorded, synced branch other than the current one, with a height
    within the branch, succeeds: it never reports a cycle.  Afterwards the
    branch is the current top, the height the current height, and the
    current chain holds exactly the branch and its ancestors, each under
    its top height; nothing else changes. *)
Theorem setCurrentHead_selects_chain s head height p b :
  dag_ok kNoBranch s = true →
  current_top_branch_ s ≠ head →
  all_branches_ s !! head = Some p → heap s !! p = Some b →
  synced_to_genesis b = true →
  bottom_height b ≤ height ≤ top_height b →
  ∃ chain,
    setCurrentHead kNoBranch head height s
    = Done (Ok tt)
        (mkState (heap s) (all_branches_ s) (heads_ s) (unloaded_roots_ s)
           (genesis_branch_ s) chain head height)
    ∧ ∀ h q, chain !! h = Some q ↔
        ∃ c bc, ancestor s head c ∧ all_branches_ s !! c = Some q
                ∧ heap s !! q = Some bc ∧ top_height bc = h.
Proof.
  intros Hok Hcur Hhead Hp Hsync Hheight.
  destruct (setCurrentHead_fresh s head height p b) as (l & Hl & Hrun);
    try done.
  exists (add_entries ∅ (chain_entry <$> l)). split; [exact Hrun|].
  by apply lineage_chain_lookup.
Qed.

(** After such a [setCurrentHead(head, height)], [getBranchAtHeight(h)]
    for a height up to [height] returns [kGenesisBranch] when [h] is
    within the genesis branch, and otherwise the id held by the lowest
    branch, among [head] and its ancestors, whose top height reaches
    [h]. *)
Theorem getBranchAtHeight_after_setCurrentHead
    s head height p b g h must_exist :
  dag_ok kNoBranch s = true →
  current_top_branch_ s ≠ head →
  all_branches_ s !! head = Some p → heap s !! p = Some b →
  synced_to_genesis b = true →
  bottom_height b ≤ height ≤ top_height b →
  heap s !! genesis_branch_ s = Some g →
  h ≤ height →
  ∃ s' r,
    setCurrentHead kNoBranch head height s = Done (Ok tt) s'
    ∧ getBranchAtHeight kNoBranch kGenesisBranch h must_exist s'
      = Done (Ok r) s'
    ∧ (h ≤ top_height g → r = kGenesisBranch)
    ∧ (top_height g < h →
       ∃ c q bc,
         ancestor s head c ∧ all_branches_ s !! c = Some q
         ∧ heap s !! q = Some bc ∧ r = id bc ∧ h ≤ top_height bc
         ∧ ∀ c' bc', ancestor s head c' → info_of s c' = Some bc' →
                     h ≤ top_height bc' → top_height bc ≤ top_height bc').
Proof.
  intros Hok Hcur Hhead Hp Hsync Hheight Hg Hh.
  destruct (setCurrentHead_fresh s head height p b) as (l & Hl & Hrun);
    try done.
  pose proof (lineage_chain_lookup s head l Hok Hl) as Hchain.
  set (chain := add_entries ∅ (chain_entry <$> l)) in *.
  assert (Htop : chain !! top_height b = Some p).
  { apply Hchain. exists head, b. split; [|done].
    eapply ancestor_self. by eapply info_of_lookup. }
  assert (Hquery : ∀ s',
    s' = mkState (heap s) (all_branches_ s) (heads_ s) (unloaded_roots_ s)
           (genesis_branch_ s) chain head height →
    getBranchAtHeight kNoBranch kGenesisBranch h must_exist s'
    = if bool_decide (h ≤ top_height g) then Done (Ok kGenesisBranch) s'
      else match lower_bound chain h with
           | None =>
             Done (if must_exist then Err BRANCHES_BRANCH_NOT_FOUND
                   else Ok kNoBranch) s'
           | Some (_, ptr) =>
             match heap s !! ptr with
             | Some bc => Done (Ok (id bc)) s'
             | None => Abort
             end
           end).
  { intros s' ->. unfold getBranchAtHeight.
    unfold bind at 1, gets at 1. cbn [current_chain_].
    rewrite bool_decide_eq_false_2
      by (intros Heq; by rewrite Heq, lookup_empty in Htop).
    unfold bind at 1, gets at 1. cbn [current_height_].
    rewrite bool_decide_eq_false_2 by lia.
    unfold bind at 1, gets at 1. cbn [genesis_branch_].
    unfold bind at 1, deref at 1. cbn [heap]. rewrite Hg.
    case_bool_decide; [done|].
    destruct (lower_bound chain h) as [[k q]|]; [|done].
    unfold bind, deref, ret. cbn [heap]. by destruct (heap s !! q). }
  eexists. specialize (Hquery _ eq_refl).
  destruct (decide (h ≤ top_height g)) as [Hin|Hout].
  { exists kGenesisBranch. split; [exact Hrun|].
    rewrite Hquery, (bool_decide_eq_true_2 _ Hin).
    split; [done|]. split; [done|lia]. }
  rewrite (bool_decide_eq_false_2 _ Hout) in Hquery.
  pose proof (lower_bound_spec chain h) as Hlb.
  destruct (lower_bound chain h) as [[k q]|].
  - destruct Hlb as (Hk & Hhk & Hmin).
    apply Hchain in Hk as (c & bc & Hanc & Hc & Hq & Hbc).
    rewrite Hq in Hquery. exists (id bc). split; [exact Hrun|].
    split; [exact Hquery|]. split; [lia|]. intros _.
    exists c, q, bc. repeat split; try done; [lia|].
    intros c' bc' Hanc' Hbc' Hh'. rewrite Hbc. apply Hmin; [|done].
    destruct (info_of_inv _ _ _ Hbc') as (q' & Hc' & Hq').
    exists q'. apply Hchain. by exists c', bc'.
  - exfalso. specialize (Hlb (top_height b) (mk_is_Some _ _ Htop)). lia.
Qed.

(** A second [setCurrentHead] on the branch that the first one made the
    current top only moves the current height, when the new height is
    within the branch, and fails with [BRANCHES_HEIGHT_MISMATCH] without
    a change otherwise: the last entry of the current chain, which it
    checks the height against, is the top branch. *)
Theorem setCurrentHead_again s head height height' p b :
  dag_ok kNoBranch s = true →
  current_top_branch_ s ≠ head →
  all_branches_ s !! head = Some p → heap s !! p = Some b →
  synced_to_genesis b = true →
  bottom_height b ≤ height ≤ top_height b →
  ∃ s1,
    setCurrentHead kNoBranch head height s = Done (Ok tt) s1
    ∧ setCurrentHead kNoBranch head height' s1
      = if bool_decide (bottom_height b ≤ height' ≤ top_height b)
        then Done (Ok tt) (set_current_height height' s1)
        else Done (Err BRANCHES_HEIGHT_MISMATCH) s1.
Proof.
  intros Hok Hcur Hhead Hp Hsync Hheight.
  destruct (setCurrentHead_fresh s head height p b) as (l & Hl & Hrun);
    try done.
  pose proof (dag_ok_no_branch _ _ Hok) as Hno.
  assert (Hne : head ≠ kNoBranch) by (intros ->; congruence).
  destruct (lineage_NoDup s head l Hok Hl) as [_ Hkeys].
  pose proof (info_of_lookup _ _ _ _ Hhead Hp) as Hb.
  destruct (dag_ok_info _ _ _ _ Hok Hb) as [Hh _].
  inversion Hl as [|i q bq l' Hi Hq Hl' Heq1 Heq2]; [congruence|subst].
  assert (q = p) as -> by congruence. assert (bq = b) as -> by congruence.
  pose proof (lineage_heights s head p b l' Hok Hl) as Hlow.
  set (chain := add_entries ∅ (chain_entry <$> (head, p, b) :: l')) in *.
  assert (Hchain : ∀ k v, chain !! k = Some v →
                          (k = top_height b ∧ v = p) ∨ k < bottom_height b).
  { intros k v Hk. apply add_entries_lookup in Hk as [Hin|[Hk _]]; [|done|done].
    apply list_elem_of_fmap in Hin as ([[c q] bc] & [= -> ->] & Hin).
    apply elem_of_cons in Hin as [[= -> -> ->]|Hin]; [by left|].
    right. by apply (Hlow (c, q, bc)). }
  assert (Htop : chain !! top_height b = Some p).
  { apply add_entries_lookup; [done|]. left. rewrite fmap_cons. by left. }
  assert (Hlast : last (ordered_items chain) = Some (top_height b, p)).
  { pose proof (ordered_items_last chain) as H.
    destruct (last (ordered_items chain)) as [[k v]|].
    - destruct H as [Hk Hmax].
      specialize (Hmax (top_height b) (mk_is_Some _ _ Htop)).
      destruct (Hchain k v Hk) as [[-> ->]|Hlt]; [done|lia].
    - by rewrite H, lookup_empty in Htop. }
  eexists. split; [exact Hrun|].
  unfold setCurrentHead. rewrite (bool_decide_eq_false_2 _ Hne).
  unfold bind at 1, gets at 1. cbn [current_top_branch_].
  rewrite (bool_decide_eq_true_2 (head = head)) by done.
  unfold bind at 1, gets at 1. cbn [current_height_].
  destruct (decide (height = height')) as [<-|Hother].
  { rewrite (bool_decide_eq_true_2 (height = height)) by done. cbn [negb].
    by rewrite (bool_decide_eq_true_2 _ Hheight). }
  rewrite (bool_decide_eq_false_2 _ Hother). cbn [negb].
  unfold bind at 1, gets at 1. cbn [current_chain_]. rewrite Hlast.
  unfold bind at 1, deref at 1. cbn [heap]. rewrite Hp. cbv beta iota.
  destruct (decide (bottom_height b ≤ height' ≤ top_height b)) as [Hin|Hout].
  - rewrite (bool_decide_eq_true_2 _ Hin).
    rewrite (bool_decide_eq_false_2 (top_height b < height')) by lia.
    by rewrite (bool_decide_eq_false_2 (height' < bottom_height b)) by lia.
  - rewrite (bool_decide_eq_false_2 _ Hout).
    destruct (decide (top_height b < height')) as [Hhigh|Hlow'].
    + by rewrite (bool_decide_eq_true_2 _ Hhigh).
    + rewrite (bool_decide_eq_false_2 _ Hlow').
      by rewrite (bool_decide_eq_true_2 (height' < bottom_height b)) by lia.
Qed.

Lemma setCurrentHead_loop_error guard :
  ∀ i s1 e s2,
    setCurrentHead_loop kNoBranch guard i s1 = Done (Err e) s2 →
    e = BRANCHES_CYCLE_DETECTED ∧ current_chain_ s2 = ∅
    ∧ current_top_branch_ s2 = current_top_branch_ s1
    ∧ current_height_ s2 = current_height_ s1.
Proof.
  induction guard as [|guard IH]; intros i s1 e s2; cbn [setCurrentHead_loop].
  { by case_bool_decide. }
  case_bool_decide; [done|]. case_bool_decide.
  { by intros [= <- <-]. }
  unfold bind at 1, gets at 1.
  destruct (all_branches_ s1 !! i) as [q|]; [|done].
  unfold bind at 1, deref at 1. destruct (heap s1 !! q) as [bq|]; [|done].
  unfold bind at 1, modify at 1. intros Hrun. by apply IH in Hrun.
Qed.

(** [setCurrentHead] fails with one of four errors.  When the head is not
    recorded, is not synced, or the height is outside the branch, the
    object is left as it was.  When a cycle is detected the current chain
    is left empty, while the top branch and the height are already those
    of the call. *)
Theorem setCurrentHead_failure s head height e s' :
  setCurrentHead kNoBranch head height s = Done (Err e) s' →
  (e = BRANCHES_CYCLE_DETECTED ∧ current_chain_ s' = ∅
   ∧ current_top_branch_ s' = head ∧ current_height_ s' = height)
  ∨ (s' = s
     ∧ (e = BRANCHES_HEAD_NOT_FOUND ∧ all_branches_ s !! head = None
        ∨ e = BRANCHES_HEAD_NOT_SYNCED
        ∨ e = BRANCHES_HEIGHT_MISMATCH)).
Proof.
  unfold setCurrentHead. case_bool_decide as Hno; [done|].
  unfold bind at 1, gets at 1. case_bool_decide as Hcur.
  - unfold bind at 1, gets at 1. case_bool_decide as Hsame; cbn [negb]; [done|].
    unfold bind at 1, gets at 1.
    destruct (last (ordered_items (current_chain_ s))) as [[k q]|]; [|done].
    unfold bind at 1, deref at 1. destruct (heap s !! q) as [bq|]; [|done].
    destruct (_ || _); [|done].
    intros [= <- <-]. right. by eauto.
  - unfold bind at 1, gets at 1.
    destruct (all_branches_ s !! head) as [q|] eqn:Hq.
    2:{ intros [= <- <-]. right. by eauto. }
    unfold bind at 1, deref at 1. destruct (heap s !! q) as [bq|]; [|done].
    destruct (synced_to_genesis bq); cbn [negb].
    2:{ intros [= <- <-]. right. by eauto. }
    destruct (_ || _).
    { intros [= <- <-]. right. by eauto. }
    unfold bind, modify, gets. intros Hrun.
    apply setCurrentHead_loop_error in Hrun as (-> & Hc & Ht & Hh). by left.
Qed.

End Facts.

(** ** Concrete runs, on the graph with two forks of the genesis branch *)

Lemma getRootBranch_root_witness :
  ∃ fuel0 r,
    (∀ fuel, (fuel0 ≤ fuel)%nat →
       getRootBranch 0 fuel 2 forked_state = Done r forked_state)
    ∧ match r with
      | Ok p =>
        ∃ c rb, ancestor forked_state 2 c
                ∧ all_branches_ forked_state !! c = Some p
                ∧ heap forked_state !! p = Some rb ∧ parent rb = 0
      | Err e =>
        e = BRANCHES_BRANCH_NOT_FOUND ∧ all_branches_ forked_state !! 2 = None
      end.
Proof. apply (getRootBranch_root 0 forked_state 2). reflexivity. Defined.

Lemma getRoute_sound_witness :
  getRoute 0 1 3 1 2 forked_state = Done (Ok [1; 2]) forked_state
  ∧ route_of forked_state 1 2 [1; 2].
Proof.
  assert (H : getRoute 0 1 3 1 2 forked_state
              = Done (Ok [1; 2]) forked_state) by (vm_compute; reflexivity).
  split; [exact H|]. apply (getRoute_sound 0 1 _ _ _ _ _ _ H).
Defined.

Lemma getRoute_finds_ancestors_witness :
  ∃ fuel0 r,
    (∀ fuel, (fuel0 ≤ fuel)%nat →
       getRoute 0 1 fuel 1 2 forked_state = Done r forked_state)
    ∧ (ancestor forked_state 2 1 →
       ∃ route, r = Ok route ∧ route_of forked_state 1 2 route)
    ∧ (¬ ancestor forked_state 2 1 → r = Err BRANCHES_NO_ROUTE).
Proof.
  apply (getRoute_finds_ancestors 0 1 forked_state 1 2).
  - reflexivity.
  - intros g Hg. vm_compute in Hg. by injection Hg as <-.
  - done.
  - eexists. vm_compute. reflexivity.
Defined.

Lemma setCurrentHead_selects_chain_witness :
  ∃ chain,
    setCurrentHead 0 2 5 forked_state
    = Done (Ok tt)
        (mkState (heap forked_state) (all_branches_ forked_state)
           (heads_ forked_state) (unloaded_roots_ forked_state)
           (genesis_branch_ forked_state) chain 2 5)
    ∧ ∀ h q, chain !! h = Some q ↔
        ∃ c bc, ancestor forked_state 2 c
                ∧ all_branches_ forked_state !! c = Some q
                ∧ heap forked_state !! q = Some bc ∧ top_height bc = h.
Proof.
  apply (setCurrentHead_selects_chain 0 forked_state 2 5 2%N
           (mkBranchInfo 2 [15] 5 [14] 4 1 [3] true ∅));
    try reflexivity; done.
Defined.

Lemma getBranchAtHeight_after_setCurrentHead_witness :
  ∃ s' r,
    setCurrentHead 0 2 5 forked_state = Done (Ok tt) s'
    ∧ getBranchAtHeight 0 1 4 true s' = Done (Ok r) s'
    ∧ (4 ≤ 3 → r = 1)
    ∧ (3 < 4 →
       ∃ c q bc,
         ancestor forked_state 2 c ∧ all_branches_ forked_state !! c = Some q
         ∧ heap forked_state !! q = Some bc ∧ r = id bc ∧ 4 ≤ top_height bc
         ∧ ∀ c' bc', ancestor forked_state 2 c' →
                     info_of forked_state c' = Some bc' →
                     4 ≤ top_height bc' → top_height bc ≤ top_height bc').
Proof.
  apply (getBranchAtHeight_after_setCurrentHead 0 1 forked_state 2 5 2%N
           (mkBranchInfo 2 [15] 5 [14] 4 1 [3] true ∅)
           (mkBranchInfo 1 [3] 3 [0] 0 0 [] true {[2; 3]}) 4 true);
    try reflexivity; done.
Defined.

Lemma setCurrentHead_again_witness :
  ∃ s1,
    setCurrentHead 0 2 5 forked_state = Done (Ok tt) s1
    ∧ setCurrentHead 0 2 4 s1
      = if bool_decide (4 ≤ 4 ≤ 5)
        then Done (Ok tt) (set_current_height 4 s1)
        else Done (Err BRANCHES_HEIGHT_MISMATCH) s1.
Proof.
  apply (setCurrentHead_again 0 forked_state 2 5 4 2%N
           (mkBranchInfo 2 [15] 5 [14] 4 1 [3] true ∅));
    try reflexivity; done.
Defined.

Lemma setCurrentHead_failure_witness :
  setCurrentHead 0 7 0 forked_state
  = Done (Err BRANCHES_HEAD_NOT_FOUND) forked_state
  ∧ ((BRANCHES_HEAD_NOT_FOUND = BRANCHES_CYCLE_DETECTED
      ∧ current_chain_ forked_state = ∅
      ∧ current_top_branch_ forked_state = 7
      ∧ current_height_ forked_state = 0)
     ∨ (forked_state = forked_state
        ∧ (BRANCHES_HEAD_NOT_FOUND = BRANCHES_HEAD_NOT_FOUND
           ∧ all_branches_ forked_state !! 7 = None
           ∨ BRANCHES_HEAD_NOT_FOUND = BRANCHES_HEAD_NOT_SYNCED
           ∨ BRANCHES_HEAD_NOT_FOUND = BRANCHES_HEIGHT_MISMATCH))).
Proof.
  assert (H : setCurrentHead 0 7 0 forked_state
              = Done (Err BRANCHES_HEAD_NOT_FOUND) forked_state)
    by (vm_compute; reflexivity).
  split; [exact H|]. exact (setCurrentHead_failure 0 _ _ _ _ _ H).
Defined.

End BranchQueryFacts.

(** * Storing tipsets and loading the graph *)
Module BranchStoreFacts.
Import Branches BranchesFacts BranchQueryFacts.

Section Facts.

Variables (kNoBranch kGenesisBranch : BranchId).

Lemma newBranchId_above s i :
  is_Some (all_branches_ s !! i) → i < newBranchId kGenesisBranch s.
Proof.
  unfold newBranchId. pose proof (ordered_items_last (all_branches_ s)) as H.
  destruct (last (ordered_items (all_branches_ s))) as [[k p]|].
  - destruct H as [_ Hmax]. intros Hi. specialize (Hmax i Hi). lia.
  - rewrite H. intros [x Hi]. by rewrite lookup_empty in Hi.
Qed.

Lemma newBranchId_free s :
  all_branches_ s !! newBranchId kGenesisBranch s = None.
Proof.
  destruct (all_branches_ s !! _) as [q|] eqn:Hq; [|done].
  pose proof (newBranchId_above s _ (mk_is_Some _ _ Hq)). lia.
Qed.

Lemma newBranchId_first s :
  all_branches_ s = ∅ → newBranchId kGenesisBranch s = kGenesisBranch + 1.
Proof.
  intros Hempty. unfold newBranchId.
  pose proof (ordered_items_last (all_branches_ s)) as H.
  destruct (last (ordered_items (all_branches_ s))) as [[k p]|]; [|done].
  destruct H as [Hk _]. by rewrite Hempty, lookup_empty in Hk.
Qed.

(** When every recorded id is above [kNoBranch], which is not above
    [kGenesisBranch], the id [newBranchId] returns is not [kNoBranch]. *)
Lemma newBranchId_not_kNoBranch s :
  kNoBranch ≤ kGenesisBranch →
  (∀ i, is_Some (all_branches_ s !! i) → kNoBranch < i) →
  newBranchId kGenesisBranch s ≠ kNoBranch.
Proof.
  intros Hids Hrec. destruct (decide (all_branches_ s = ∅)) as [Hempty|Hne].
  - rewrite (newBranchId_first s Hempty). lia.
  - apply map_choose in Hne as (i & q & Hi).
    pose proof (Hrec i (mk_is_Some _ _ Hi)).
    pose proof (newBranchId_above s i (mk_is_Some _ _ Hi)). lia.
Qed.

(** [newBranchId] returns an id above every recorded one, hence one that
    is not recorded; the first id given out is [kGenesisBranch + 1]. *)
Theorem newBranchId_fresh s :
  all_branches_ s !! newBranchId kGenesisBranch s = None
  ∧ (∀ i, is_Some (all_branches_ s !! i) → i < newBranchId kGenesisBranch s)
  ∧ (all_branches_ s = ∅ → newBranchId kGenesisBranch s = kGenesisBranch + 1).
Proof.
  split; [apply newBranchId_free|].
  split; [apply newBranchId_above|apply newBranchId_first].
Qed.

(** [storeGenesis] on an object that holds branches fails with
    [BRANCHES_STORE_ERROR] and changes nothing.  On an object without
    branches, for a tipset of height 0, it makes the genesis branch: one
    new record with the id [kGenesisBranch], top and bottom the tipset,
    no parent, synced to genesis; the record is the only branch, a head
    under the hash of the tipset, and the genesis branch of the object. *)
Theorem storeGenesis_makes_genesis_branch fuel tipset s :
  kGenesisBranch ≠ kNoBranch →
  (all_branches_ s ≠ ∅ →
   storeGenesis kNoBranch kGenesisBranch fuel tipset s
   = Done (Err BRANCHES_STORE_ERROR) s)
  ∧ (all_branches_ s = ∅ → height tipset = 0 →
     let p := fresh_ptr (heap s) in
     storeGenesis kNoBranch kGenesisBranch fuel tipset s
     = Done (Ok tt)
         (mkState
            (<[p := mkBranchInfo kGenesisBranch (hash tipset) 0 (hash tipset)
                      0 kNoBranch [] true ∅]> (heap s))
            {[kGenesisBranch := p]} (<[hash tipset := p]> (heads_ s))
            (unloaded_roots_ s) p (current_chain_ s)
            (current_top_branch_ s) (current_height_ s))).
Proof.
  intros Hgen. unfold storeGenesis. split.
  - intros Hne. unfold bind, gets, empty.
    by rewrite (bool_decide_eq_false_2 _ Hne).
  - intros Hempty Hheight. cbn zeta.
    unfold bind at 1, gets at 1, empty.
    rewrite (bool_decide_eq_true_2 _ Hempty). cbn [negb].
    unfold storeTipset. cbn [at_bottom_of_branch on_top_of_branch].
    rewrite (bool_decide_eq_true_2 (kNoBranch = kNoBranch)) by done.
    cbn [andb]. unfold newBranch. cbn [assigned_branch is_empty_hash].
    rewrite (bool_decide_eq_false_2 _ Hgen). cbn [negb].
    unfold bind, assert, gets, make_shared, modify, update, ret.
    rewrite Hempty, lookup_empty.
    rewrite (bool_decide_eq_true_2 (None = None)) by done.
    rewrite (bool_decide_eq_true_2 (kGenesisBranch = kGenesisBranch)) by done.
    rewrite Hheight. rewrite (bool_decide_eq_true_2 (0 = 0)) by done.
    cbn. rewrite lookup_insert_eq.
    unfold set_genesis_branch, set_heap, set_heads, set_all_branches,
      set_synced_to_genesis. cbn.
    by rewrite insert_insert_eq, Hempty, insert_empty.
Qed.

(** A tipset whose parent is in no recorded branch, and for which no
    unloaded root waits: [findStorePosition] assigns it a new branch id and
    no link, and [storeTipset] at that position makes a new branch of this
    one tipset, not synced, which is a head under the hash of the tipset
    and an unloaded root under the hash of its parent; no head change is
    reported. *)
Theorem store_unlinked_tipset fuel tipset parent_hash parent_height s :
  kNoBranch ≤ kGenesisBranch →
  (∀ i, is_Some (all_branches_ s !! i) → kNoBranch < i) →
  0 < height tipset → parent_height < height tipset → parent_hash ≠ [] →
  unloaded_roots_ s !! hash tipset = None →
  let fresh := newBranchId kGenesisBranch s in
  let pos := mkPos fresh kNoBranch kNoBranch None in
  let p := fresh_ptr (heap s) in
  findStorePosition kNoBranch kGenesisBranch tipset parent_hash kNoBranch
    parent_height s = Done (Ok pos) s
  ∧ storeTipset kNoBranch kGenesisBranch fuel tipset parent_hash pos s
    = Done (mkChanges [] [])
        (mkState
           (<[p := mkBranchInfo fresh (hash tipset) (height tipset)
                     (hash tipset) (height tipset) kNoBranch parent_hash
                     false ∅]> (heap s))
           (<[fresh := p]> (all_branches_ s))
           (<[hash tipset := p]> (heads_ s))
           (<[parent_hash := p]> (unloaded_roots_ s))
           (genesis_branch_ s) (current_chain_ s)
           (current_top_branch_ s) (current_height_ s)).
Proof.
  intros Hids Hrec Hh Hph Hparent Hroot. cbn zeta.
  pose proof (newBranchId_free s) as Hfresh.
  pose proof (newBranchId_not_kNoBranch s Hids Hrec) as Hnew.
  assert (Hnonempty : is_empty_hash parent_hash = false)
    by (by destruct parent_hash).
  split.
  - unfold findStorePosition.
    rewrite (bool_decide_eq_false_2 (height tipset = 0)) by lia.
    unfold bind, gets, ret, assert. rewrite Hroot.
    rewrite (bool_decide_eq_true_2 _ Hph).
    rewrite (bool_decide_eq_true_2 (kNoBranch = kNoBranch)) by done.
    cbn [assigned_branch at_bottom_of_branch on_top_of_branch rename].
    by rewrite (bool_decide_eq_true_2 (kNoBranch = kNoBranch)).
  - unfold storeTipset. cbn [at_bottom_of_branch on_top_of_branch].
    rewrite (bool_decide_eq_true_2 (kNoBranch = kNoBranch)) by done.
    cbn [andb]. unfold newBranch. cbn [assigned_branch].
    rewrite Hnonempty, (bool_decide_eq_false_2 _ Hnew). cbn [negb].
    unfold bind, assert, gets, make_shared, modify, update, ret.
    rewrite Hfresh. rewrite (bool_decide_eq_true_2 (None = None)) by done.
    cbn. by rewrite (bool_decide_eq_true_2 _ Hh).
Qed.

(** ** [init] *)

(** What [init] checks of a record, and never changes afterwards. *)
Definition skeleton (b : BranchInfo) : Z * Z * Z * Z :=
  (id b, top_height b, bottom_height b, parent b).

Definition same_graph (s s' : State) : Prop :=
  all_branches_ s' = all_branches_ s
  ∧ ∀ p, skeleton <$> heap s' !! p = skeleton <$> heap s !! p.

Definition record_ok (s : State) (i : BranchId) (p : N) : Prop :=
  ∃ b, heap s !! p = Some b ∧ id b = i ∧ i ≠ kNoBranch
       ∧ bottom_height b ≤ top_height b
       ∧ (parent b ≠ kNoBranch →
          ∃ pp pb, all_branches_ s !! parent b = Some pp
                   ∧ heap s !! pp = Some pb
                   ∧ top_height pb < bottom_height b).

Lemma same_graph_refl s : same_graph s s.
Proof. by split. Qed.

Lemma same_graph_trans s1 s2 s3 :
  same_graph s1 s2 → same_graph s2 s3 → same_graph s1 s3.
Proof.
  intros [Ha1 Hh1] [Ha2 Hh2]. split; [congruence|].
  intros p. by rewrite Hh2, Hh1.
Qed.

Lemma same_graph_lookup s s' p b :
  same_graph s s' → heap s !! p = Some b →
  ∃ b', heap s' !! p = Some b' ∧ skeleton b' = skeleton b.
Proof.
  intros [_ Hh] Hp. specialize (Hh p). rewrite Hp in Hh.
  destruct (heap s' !! p) as [b'|]; [|done]. exists b'. split; [done|].
  cbn in Hh. congruence.
Qed.

Lemma same_graph_lookup_inv s s' p b' :
  same_graph s s' → heap s' !! p = Some b' →
  ∃ b, heap s !! p = Some b ∧ skeleton b' = skeleton b.
Proof.
  intros [_ Hh] Hp. specialize (Hh p). rewrite Hp in Hh.
  destruct (heap s !! p) as [b|]; [|done]. exists b. split; [done|].
  cbn in Hh. congruence.
Qed.

Lemma record_ok_same s s' i p :
  same_graph s s' → record_ok s i p → record_ok s' i p.
Proof.
  intros Hsame (b & Hp & Hid & Hi & Hh & Hpar).
  destruct (same_graph_lookup _ _ _ _ Hsame Hp) as (b' & Hp' & Hb').
  injection Hb' as Hid' Htop' Hbot' Hpar'.
  exists b'. split; [done|]. rewrite Hid', Htop', Hbot', Hpar'.
  repeat split; try done. intros Hne.
  destruct (Hpar Hne) as (pp & pb & Hpp & Hpb & Hlt).
  destruct (same_graph_lookup _ _ _ _ Hsame Hpb) as (pb' & Hpb' & Hskel).
  injection Hskel as _ Htop _ _. exists pp, pb'.
  destruct Hsame as [-> _]. split; [done|]. split; [done|]. by rewrite Htop.
Qed.

(** A change of a field that [init] does not check. *)
Lemma same_graph_update s p b f :
  heap s !! p = Some b → skeleton (f b) = skeleton b →
  same_graph s (set_heap (<[p := f b]> (heap s)) s).
Proof.
  intros Hp Hf. split; [done|]. intros q. unfold set_heap. cbn [heap].
  destruct (decide (p = q)) as [<-|Hne].
  - rewrite lookup_insert_eq, Hp. cbn [fmap option_fmap option_map].
    by rewrite Hf.
  - by rewrite lookup_insert_ne.
Qed.

(** What a step keeps: the graph, and the genesis pointer. *)
Definition keeps (s s' : State) : Prop :=
  same_graph s s' ∧ genesis_branch_ s' = genesis_branch_ s.

Lemma keeps_refl s : keeps s s.
Proof. split; [apply same_graph_refl|done]. Qed.

Lemma keeps_trans s1 s2 s3 : keeps s1 s2 → keeps s2 s3 → keeps s1 s3.
Proof.
  intros [H1 G1] [H2 G2]. split; [by eapply same_graph_trans|congruence].
Qed.

Lemma update_keeps p f s r s' :
  (∀ b, skeleton (f b) = skeleton b) →
  update p f s = Done r s' → keeps s s'.
Proof.
  intros Hf. unfold update. destruct (heap s !! p) as [b|] eqn:Hp; [|done].
  intros [= _ <-]. split; [|done]. by apply same_graph_update.
Qed.

Lemma deref_done p s b s' :
  deref p s = Done b s' → heap s !! p = Some b ∧ s' = s.
Proof.
  unfold deref. destruct (heap s !! p) as [b'|]; [|done]. by intros [= -> ->].
Qed.

Lemma for_each_keeps {A} (body : A → M unit) l :
  (∀ x s r s', body x s = Done r s' → keeps s s') →
  ∀ s r s', for_each l body s = Done r s' → keeps s s'.
Proof.
  intros Hbody. induction l as [|x l IH]; intros s r s' H; cbn in H.
  { injection H as _ <-. apply keeps_refl. }
  apply bind_done in H as (? & s1 & H1 & H).
  eapply keeps_trans; [by eapply Hbody|by eapply IH].
Qed.

Lemma updateHeads_keeps fuel :
  ∀ branch synced changes s c s',
    updateHeads fuel branch synced changes s = Done c s' → keeps s s'.
Proof.
  induction fuel as [|fuel IH]; intros branch synced changes s c s' H; [done|].
  cbn [updateHeads] in H.
  apply bind_done in H as (? & s1 & Hupd & H).
  apply update_keeps in Hupd; [|done].
  apply bind_done in H as (b & s2 & Hb & H).
  apply deref_done in Hb as [Hb ->].
  eapply keeps_trans; [exact Hupd|]. clear Hupd Hb.
  case_bool_decide.
  { apply bind_done in H as (? & s3 & Hmod & H).
    injection Hmod as _ <-. injection H as _ <-. by split. }
  revert changes s1 H. generalize (ordered_ids (forks b)).
  intros ids. induction ids as [|i ids IHids]; intros changes s1 H.
  { injection H as _ <-. apply keeps_refl. }
  apply bind_done in H as (fork & s3 & Hfork & H). injection Hfork as <- <-.
  apply bind_done in H as (? & s3 & Ha & H). apply assert_done in Ha as [_ ->].
  apply bind_done in H as (f & s3 & Hf & H). apply deref_done in Hf as [_ ->].
  apply bind_done in H as (? & s3 & Ha & H). apply assert_done in Ha as [_ ->].
  apply bind_done in H as (changes' & s3 & Hrec & H).
  eapply keeps_trans; [by eapply IH|by eapply IHids].
Qed.

(** The first loop of [init] goes through without an error only if every
    record passes its checks; the loop itself changes only the forks, the
    genesis pointer and the unloaded roots. *)
Lemma init_validate_ok l :
  ∀ s s',
    init_validate kNoBranch kGenesisBranch l s = Done None s' →
    same_graph s s'
    ∧ (∀ i p, (i, p) ∈ l → record_ok s' i p)
    ∧ (genesis_branch_ s' = genesis_branch_ s
       ∨ ∃ g, (kGenesisBranch, genesis_branch_ s') ∈ l
              ∧ heap s' !! genesis_branch_ s' = Some g
              ∧ parent g = kNoBranch).
Proof.
  induction l as [|[i ptr] l IH]; intros s s' H.
  { injection H as <-. split; [apply same_graph_refl|].
    split; [|by left]. by intros i p ?%elem_of_nil. }
  cbn [init_validate] in H.
  assert (Hfailed : ∀ e s0,
    (do _ <- clear kNoBranch ; ret (Some e)) s0
    ≠ Done (@None Error) s') by done.
  case_bool_decide as Hnull; [by apply Hfailed in H|].
  apply bind_done in H as (b & s1 & Hb & H). apply deref_done in Hb as [Hb ->].
  destruct (negb (bool_decide (i = id b)) || bool_decide (i = kNoBranch))
    eqn:Hid; [by apply Hfailed in H|].
  apply orb_false_elim in Hid as [Hid Hi0].
  apply negb_false_iff, bool_decide_eq_true in Hid.
  apply bool_decide_eq_false in Hi0.
  case_bool_decide as Hheights; [by apply Hfailed in H|].
  assert (Hrest : ∀ s2,
    same_graph s s2 →
    (parent b ≠ kNoBranch →
     ∃ pp pb, all_branches_ s !! parent b = Some pp ∧ heap s !! pp = Some pb
              ∧ top_height pb < bottom_height b) →
    init_validate kNoBranch kGenesisBranch l s2 = Done None s' →
    same_graph s s'
    ∧ (∀ j p, (j, p) ∈ (i, ptr) :: l → record_ok s' j p)
    ∧ (genesis_branch_ s' = genesis_branch_ s2
       ∨ ∃ g, (kGenesisBranch, genesis_branch_ s') ∈ l
              ∧ heap s' !! genesis_branch_ s' = Some g
              ∧ parent g = kNoBranch)).
  { intros s2 Hsame Hpar Hrun.
    destruct (IH s2 s' Hrun) as (Hsame' & Hrecs & Hgen).
    pose proof (same_graph_trans _ _ _ Hsame Hsame') as Hall.
    split; [done|]. split; [|done].
    intros j p Hin. apply elem_of_cons in Hin as [[= -> ->]|Hin]; [|by auto].
    apply (record_ok_same s); [done|]. exists b. repeat split; try done. lia. }
  destruct (negb (bool_decide (parent b = kNoBranch))) eqn:Hparent.
  - apply negb_true_iff, bool_decide_eq_false in Hparent.
    case_bool_decide as Hself; [by apply Hfailed in H|].
    apply bind_done in H as (it & s1 & Hit & H). injection Hit as <- <-.
    destruct (all_branches_ s !! parent b) as [pp|] eqn:Hpp;
      [|by apply Hfailed in H].
    apply bind_done in H as (pb & s1 & Hpb & H).
    apply deref_done in Hpb as [Hpb ->].
    case_bool_decide as Hlow; [by apply Hfailed in H|].
    apply bind_done in H as (? & s2 & Hupd & H).
    apply update_keeps in Hupd; [|done].
    destruct (Hrest s2 (proj1 Hupd)) as (Hsame & Hrecs & Hgen); [|done|].
    { intros _. exists pp, pb. repeat split; try done. lia. }
    split; [done|]. split; [done|].
    destruct Hupd as [_ Hg]. rewrite Hg in Hgen.
    destruct Hgen as [Hgen|(g & Hin & Hgp)]; [by left|].
    right. exists g. split; [by right|done].
  - apply negb_false_iff, bool_decide_eq_true in Hparent.
    case_bool_decide as Hgenesis.
    + apply bind_done in H as (? & s2 & Hmod & H). injection Hmod as _ <-.
      destruct (Hrest (set_genesis_branch ptr s)) as (Hsame & Hrecs & Hgen);
        [by split|done|done|].
      split; [done|]. split; [done|]. right.
      destruct Hgen as [Hgen|(g & Hin & Hgp)].
      * cbn in Hgen. rewrite Hgen.
        destruct (same_graph_lookup _ _ _ _ Hsame Hb) as (g & Hg & Hskel).
        injection Hskel as _ _ _ Hpg. exists g.
        split; [|split; [done|congruence]].
        rewrite <- Hgenesis, <- Hid. by left.
      * exists g. split; [by right|done].
    + destruct (is_empty_hash (parent_hash b)); [done|].
      apply bind_done in H as (? & s2 & Hmod & H). injection Hmod as _ <-.
      destruct (Hrest (set_unloaded_roots
                         (<[parent_hash b := ptr]> (unloaded_roots_ s)) s))
        as (Hsame & Hrecs & Hgen); [by split|done|done|].
      split; [done|]. split; [done|].
      destruct Hgen as [Hgen|(g & Hin & Hgp)]; [by left|].
      right. exists g. split; [by right|done].
Qed.

(** When [init] accepts a non-empty set of records, the graph it has
    loaded satisfies the invariant: the records are those given, each under
    the id it holds, none under [kNoBranch], with its bottom not above its
    top and its parent, if any, recorded and ending below it; and the
    genesis branch of the object is the record under [kGenesisBranch],
    which has no parent.  Heights are taken not to be negative. *)
Theorem init_loads_consistent_graph fuel all_branches s changes s' :
  init kNoBranch kGenesisBranch fuel all_branches s = Done (Ok changes) s' →
  all_branches ≠ ∅ →
  (∀ p b, heap s !! p = Some b → 0 ≤ bottom_height b) →
  all_branches_ s' = all_branches
  ∧ dag_ok kNoBranch s' = true
  ∧ (∀ i p b, all_branches !! i = Some p → heap s' !! p = Some b → id b = i)
  ∧ ∃ g, all_branches !! kGenesisBranch = Some (genesis_branch_ s')
         ∧ heap s' !! genesis_branch_ s' = Some g ∧ parent g = kNoBranch.
Proof.
  intros H Hne Hpos. unfold init in H.
  apply bind_done in H as (? & s0 & Hclear & H). injection Hclear as _ <-.
  rewrite (bool_decide_eq_false_2 _ Hne) in H.
  apply bind_done in H as (? & s1 & Hset & H). injection Hset as _ <-.
  apply bind_done in H as (failed & s2 & Hvalid & H).
  destruct failed as [e|]; [by injection H|].
  apply init_validate_ok in Hvalid as (Hsame & Hrecs & Hgen).
  apply bind_done in H as (genesis & s3 & Hg & H). injection Hg as <- <-.
  case_bool_decide as Hnull.
  { apply bind_done in H as (? & s3 & _ & H). by injection H. }
  apply bind_done in H as (heads & s3 & Hheads & H).
  apply updateHeads_keeps in Hheads.
  apply bind_done in H as (all & s4 & Hall & H). injection Hall as <- <-.
  apply bind_done in H as (? & s4 & Hloop & H). injection H as _ <-.
  apply for_each_keeps in Hloop.
  2:{ intros [j ptr] sa r sb Hbody.
      apply bind_done in Hbody as (b & sc & Hb & Hbody).
      apply deref_done in Hb as [_ ->].
      destruct (_ && _); injection Hbody as _ <-; by split. }
  pose proof (keeps_trans _ _ _ Hheads Hloop) as [Hlate Hgenesis].
  pose proof (same_graph_trans _ _ _ Hsame Hlate) as Hall.
  assert (Hrec : ∀ i p, all_branches !! i = Some p → record_ok s4 i p).
  { intros i p Hi. apply (record_ok_same s2); [done|].
    apply Hrecs. by apply ordered_items_elem. }
  assert (Hbranches : all_branches_ s4 = all_branches) by (by destruct Hall).
  split; [done|]. split; [|split].
  - unfold dag_ok. rewrite Hbranches. apply andb_true_intro. split.
    + apply bool_decide_eq_true.
      destruct (all_branches !! kNoBranch) as [p|] eqn:Hp; [|done].
      by destruct (Hrec _ _ Hp) as (b & _ & _ & Hi & _).
    + apply forallb_forall. intros [i p] Hin.
      apply list_elem_of_In, elem_of_map_to_list in Hin.
      destruct (Hrec _ _ Hin) as (b & Hp & Hid & Hi & Hh & Hpar).
      unfold info_of. rewrite Hbranches, Hin, Hp. unfold branch_ok.
      destruct (same_graph_lookup_inv _ _ _ _ Hall Hp) as (b0 & Hb0 & Hskel).
      injection Hskel as _ _ Hbot _. cbn in Hb0.
      rewrite (bool_decide_eq_true_2 (0 ≤ bottom_height b))
        by (rewrite Hbot; by eapply Hpos).
      rewrite (bool_decide_eq_true_2 _ Hh). cbn [andb].
      destruct (decide (parent b = kNoBranch)) as [Hroot|Hup].
      { by rewrite (bool_decide_eq_true_2 _ Hroot). }
      rewrite (bool_decide_eq_false_2 _ Hup). cbn [orb].
      destruct (Hpar Hup) as (pp & pb & Hpp & Hpb & Hlt).
      rewrite Hbranches in Hpp. unfold info_of. rewrite Hbranches, Hpp, Hpb.
      destruct (Hrec _ _ Hpp) as (pb' & Hpb' & _ & _ & Hhp & _).
      assert (pb' = pb) as -> by congruence.
      by rewrite !bool_decide_eq_true_2.
  - intros i p b Hi Hp. destruct (Hrec _ _ Hi) as (b' & Hp' & Hid & _).
    congruence.
  - rewrite Hgenesis. destruct Hgen as [Hgen|(g & Hin & Hg & Hpg)].
    { cbn in Hgen. congruence. }
    apply ordered_items_elem in Hin.
    destruct (same_graph_lookup _ _ _ _ Hlate Hg) as (g' & Hg' & Hskel).
    injection Hskel as _ _ _ Hpar. exists g'. split; [done|].
    split; [done|congruence].
Qed.

End Facts.

(** ** Concrete runs, with [kNoBranch = 0] and [kGenesisBranch = 1] *)

(** Three records as a store would hand them to [init]: the genesis
    branch and two branches on top of it, the forks not yet filled in. *)
Definition fork_records : gmap Z N :=
  <[1 := 1%N]> (<[2 := 2%N]> {[3 := 3%N]}).

Definition fork_heap : gmap N BranchInfo :=
  <[1%N := mkBranchInfo 1 [3] 3 [0] 0 0 [] false ∅]>
    (<[2%N := mkBranchInfo 2 [15] 5 [14] 4 1 [3] false ∅]>
       {[3%N := mkBranchInfo 3 [24] 4 [24] 4 1 [3] false ∅]}).

(** One record, kept under an id that is not its own. *)
Definition misfiled_heap : gmap N BranchInfo :=
  {[1%N := mkBranchInfo 2 [7] 0 [7] 0 0 [] false ∅]}.

Lemma storeGenesis_makes_genesis_branch_witness :
  (all_branches_ no_branches ≠ ∅ →
   storeGenesis 0 1 0 (mkTipset 0 [7]) no_branches
   = Done (Err BRANCHES_STORE_ERROR) no_branches)
  ∧ (all_branches_ no_branches = ∅ → height (mkTipset 0 [7]) = 0 →
     let p := fresh_ptr (heap no_branches) in
     storeGenesis 0 1 0 (mkTipset 0 [7]) no_branches
     = Done (Ok tt)
         (mkState
            (<[p := mkBranchInfo 1 (hash (mkTipset 0 [7])) 0
                      (hash (mkTipset 0 [7])) 0 0 [] true ∅]>
               (heap no_branches))
            {[1 := p]} (<[hash (mkTipset 0 [7]) := p]> (heads_ no_branches))
            (unloaded_roots_ no_branches) p (current_chain_ no_branches)
            (current_top_branch_ no_branches) (current_height_ no_branches))).
Proof.
  apply (storeGenesis_makes_genesis_branch 0 1 0 (mkTipset 0 [7]) no_branches).
  done.
Defined.

Lemma store_unlinked_tipset_witness :
  let fresh := newBranchId 1 genesis_state in
  let pos := mkPos fresh 0 0 None in
  let p := fresh_ptr (heap genesis_state) in
  findStorePosition 0 1 (mkTipset 5 [9]) [8] 0 4 genesis_state
  = Done (Ok pos) genesis_state
  ∧ storeTipset 0 1 0 (mkTipset 5 [9]) [8] pos genesis_state
    = Done (mkChanges [] [])
        (mkState
           (<[p := mkBranchInfo fresh [9] 5 [9] 5 0 [8] false ∅]>
              (heap genesis_state))
           (<[fresh := p]> (all_branches_ genesis_state))
           (<[[9] := p]> (heads_ genesis_state))
           (<[[8] := p]> (unloaded_roots_ genesis_state))
           (genesis_branch_ genesis_state) (current_chain_ genesis_state)
           (current_top_branch_ genesis_state)
           (current_height_ genesis_state)).
Proof.
  apply (store_unlinked_tipset 0 1 0 (mkTipset 5 [9]) [8] 4 genesis_state);
    try done.
  intros i [p Hi]. cbn in Hi.
  apply lookup_singleton_Some in Hi as [<- _]. done.
Defined.

Lemma init_loads_consistent_graph_witness :
  ∃ changes s',
    init 0 1 3 fork_records (mkState fork_heap ∅ ∅ ∅ null ∅ 0 0)
    = Done (Ok changes) s'
    ∧ all_branches_ s' = fork_records
    ∧ dag_ok 0 s' = true
    ∧ (∀ i p b, fork_records !! i = Some p → heap s' !! p = Some b → id b = i)
    ∧ ∃ g, fork_records !! 1 = Some (genesis_branch_ s')
           ∧ heap s' !! genesis_branch_ s' = Some g ∧ parent g = 0.
Proof.
  eexists _, _.
  assert (H : init 0 1 3 fork_records (mkState fork_heap ∅ ∅ ∅ null ∅ 0 0)
              = Done (Ok _) _) by (vm_compute; reflexivity).
  split; [exact H|].
  apply (init_loads_consistent_graph 0 1 _ _ _ _ _ H).
  - by vm_compute.
  - intros p b Hp. cbn in Hp. unfold fork_heap in Hp.
    repeat (apply lookup_insert_Some in Hp as [[_ <-]|[_ Hp]]; [done|]).
    apply lookup_singleton_Some in Hp as [_ <-]. done.
Defined.

Lemma init_error_witness :
  init 0 1 3 {[1 := 1%N]} (mkState misfiled_heap ∅ ∅ ∅ null ∅ 0 0)
  = Done (Err BRANCHES_LOAD_ERROR) (mkState misfiled_heap ∅ ∅ ∅ null ∅ 0 0)
  ∧ (cleared 0 (mkState misfiled_heap ∅ ∅ ∅ null ∅ 0 0)
     ∧ (BRANCHES_LOAD_ERROR = BRANCHES_LOAD_ERROR
        ∨ BRANCHES_LOAD_ERROR = BRANCHES_NO_GENESIS_BRANCH)
     ∨ BRANCHES_LOAD_ERROR = BRANCHES_PARENT_EXPECTED).
Proof.
  assert (H : init 0 1 3 {[1 := 1%N]} (mkState misfiled_heap ∅ ∅ ∅ null ∅ 0 0)
              = Done (Err BRANCHES_LOAD_ERROR)
                  (mkState misfiled_heap ∅ ∅ ∅ null ∅ 0 0))
    by (vm_compute; reflexivity).
  split; [exact H|]. exact (init_error 0 1 _ _ _ _ _ H).
Defined.

End BranchStoreFacts.

(** * Splitting a branch and linking tipsets to the graph *)
Module BranchLinkFacts.
Import Branches BranchesFacts BranchQueryFacts BranchStoreFacts.

(** ** Steps of the monad *)

Lemma bind_step {A B} (m : M A) (k : A → M B) s a s1 :
  m s = Done a s1 → bind m k s = k a s1.
Proof. unfold bind. by intros ->. Qed.

Lemma bind_abort {A B} (m : M A) (k : A → M B) s :
  m s = Abort → bind m k s = Abort.
Proof. unfold bind. by intros ->. Qed.

Lemma assert_ok (c : bool) s : c = true → assert c s = Done tt s.
Proof. by intros ->. Qed.

Lemma deref_ok p b s : heap s !! p = Some b → deref p s = Done b s.
Proof. unfold deref. by intros ->. Qed.

Lemma update_ok p f b s :
  heap s !! p = Some b →
  update p f s = Done tt (set_heap (<[p := f b]> (heap s)) s).
Proof. unfold update. by intros ->. Qed.

(** Reduces the projections of a state that was built by the setters. *)
Ltac simpl_state :=
  unfold set_heap, set_all_branches, set_heads, set_unloaded_roots,
    set_genesis_branch, set_current_chain;
  cbn [heap all_branches_ heads_ current_chain_ unloaded_roots_
       genesis_branch_ current_top_branch_ current_height_].

(** Looks an object up in a heap that was built by updates. *)
Ltac heap_lookup :=
  simpl_state; repeat (rewrite lookup_insert_ne by done);
  first [apply lookup_insert_eq|eassumption].

(** The address [make_shared] returns is not in use, and is not null. *)
Lemma fresh_ptr_fresh (h : gmap N BranchInfo) : h !! fresh_ptr h = None.
Proof.
  unfold fresh_ptr.
  assert (H : ∀ p x, h !! p = Some x
                → (p ≤ map_fold (λ p _ acc, N.max p acc) 0 h)%N).
  { apply (map_fold_weak_ind
             (λ r (m : gmap N BranchInfo), ∀ p x, m !! p = Some x → (p ≤ r)%N)).
    - intros p x Hp. by rewrite lookup_empty in Hp.
    - intros i x m r _ IH p y Hp. destruct (decide (i = p)) as [->|Hne].
      + lia.
      + rewrite lookup_insert_ne in Hp by done. specialize (IH p y Hp). lia. }
  destruct (h !! N.succ _) as [x|] eqn:Hx; [|done].
  specialize (H _ _ Hx). lia.
Qed.

Lemma fresh_ptr_not_null (h : gmap N BranchInfo) : fresh_ptr h ≠ null.
Proof. unfold fresh_ptr, null. lia. Qed.

(** ** [splitBranch] *)

(** The heap after the loop of [splitBranch] over the forks [l] of the
    split branch: the record of every fork has its parent set to [new]. *)
Definition reparent (all : gmap Z N) (new : BranchId) (l : list Z)
    (h : gmap N BranchInfo) : gmap N BranchInfo :=
  foldl (λ h c, match all !! c with
                | Some q => alter (set_parent new) q h
                | None => h
                end) h l.

Lemma reparent_cons all new c l h :
  reparent all new (c :: l) h
  = reparent all new l (match all !! c with
                        | Some q => alter (set_parent new) q h
                        | None => h
                        end).
Proof. reflexivity. Qed.

Lemma reparent_cases all new l :
  ∀ h q,
    reparent all new l h !! q = h !! q
    ∨ reparent all new l h !! q = set_parent new <$> h !! q.
Proof.
  induction l as [|c l IH]; intros h q; [by left|].
  rewrite reparent_cons.
  destruct (all !! c) as [q'|]; [|apply IH].
  destruct (decide (q' = q)) as [->|Hne].
  - destruct (IH (alter (set_parent new) q h) q) as [->| ->];
      rewrite lookup_alter_eq; [by right|].
    right. by destruct (h !! q).
  - destruct (IH (alter (set_parent new) q' h) q) as [->| ->];
      rewrite lookup_alter_ne by done; [by left|by right].
Qed.

Lemma reparent_other all new l :
  ∀ h q, (∀ c, c ∈ l → all !! c ≠ Some q) →
         reparent all new l h !! q = h !! q.
Proof.
  induction l as [|c l IH]; intros h q Hq; [done|].
  rewrite reparent_cons.
  assert (Hl : ∀ c', c' ∈ l → all !! c' ≠ Some q)
    by (intros c' Hc'; apply Hq; by right).
  destruct (all !! c) as [q'|] eqn:Hc; [|by apply IH].
  rewrite IH by done. apply lookup_alter_ne.
  intros ->. by apply (Hq c); [left|].
Qed.

Lemma reparent_child all new l :
  ∀ h c q, c ∈ l → all !! c = Some q →
           reparent all new l h !! q = set_parent new <$> h !! q.
Proof.
  induction l as [|c' l IH]; intros h c q Hin Hc.
  { by apply elem_of_nil in Hin. }
  rewrite reparent_cons.
  apply elem_of_cons in Hin as [->|Hin].
  - rewrite Hc.
    destruct (reparent_cases all new l (alter (set_parent new) q h) q)
      as [->| ->]; rewrite lookup_alter_eq; [done|by destruct (h !! q)].
  - destruct (all !! c') as [q'|] eqn:Hc'; [|by eapply IH].
    rewrite (IH _ c q Hin Hc). destruct (decide (q' = q)) as [->|Hne].
    + rewrite lookup_alter_eq. by destruct (h !! q).
    + by rewrite lookup_alter_ne.
Qed.

Section Facts.

Variables (kNoBranch kGenesisBranch : BranchId).

(** The loop of [splitBranch] over the forks of the split branch. *)
Lemma splitBranch_loop fork new l :
  ∀ s fr,
    heap s !! fork = Some fr → id fr = new →
    (∀ c, c ∈ l → ∃ q, all_branches_ s !! c = Some q ∧ q ≠ null
                       ∧ q ≠ fork ∧ is_Some (heap s !! q)) →
    for_each l (λ i,
      do b <- gets (λ s, getBranch s i) ;
      do _ <- assert (negb (bool_decide (b = null))) ;
      do f <- deref fork ;
      update b (set_parent (id f))) s
    = Done tt (set_heap (reparent (all_branches_ s) new l (heap s)) s).
Proof.
  induction l as [|c l IH]; intros s fr Hfork Hid Hl.
  { by destruct s. }
  cbn [for_each].
  destruct (Hl c) as (q & Hc & Hnull & Hne & [b Hb]); [by left|].
  erewrite bind_step; cycle 1.
  { erewrite bind_step by reflexivity. unfold getBranch. rewrite Hc.
    erewrite bind_step
      by (apply assert_ok; by rewrite (bool_decide_eq_false_2 _ Hnull)).
    erewrite bind_step by (by apply deref_ok).
    by apply update_ok. }
  rewrite (IH _ fr); cbn [heap all_branches_ set_heap].
  - rewrite reparent_cons, Hid, Hc.
    assert (<[q := set_parent new b]> (heap s)
            = alter (set_parent new) q (heap s)) as ->; [|done].
    apply map_eq. intros i. destruct (decide (i = q)) as [->|Hi].
    + by rewrite lookup_insert_eq, lookup_alter_eq, Hb.
    + by rewrite lookup_insert_ne, lookup_alter_ne.
  - by rewrite lookup_insert_ne.
  - done.
  - intros c' Hc'. destruct (Hl c') as (q' & ? & ? & ? & Hq'); [by right|].
    exists q'. repeat split; try done.
    destruct (decide (q = q')) as [->|?];
      [rewrite lookup_insert_eq|rewrite lookup_insert_ne]; done.
Qed.

(** [splitBranch] on a branch whose forks are recorded: the state it
    leaves. *)
Lemma splitBranch_run s new_top new_bottom new_bottom_height pos ptr p :
  old_id pos ≠ kNoBranch → new_id pos ≠ kNoBranch →
  new_id pos ≠ old_id pos → 0 ≤ above_height pos →
  all_branches_ s !! new_id pos = None →
  all_branches_ s !! old_id pos = Some ptr → ptr ≠ null →
  heap s !! ptr = Some p →
  bottom_height p ≤ above_height pos < top_height p →
  above_height pos < new_bottom_height ≤ top_height p →
  (∀ c, c ∈ forks p →
        ∃ q, all_branches_ s !! c = Some q ∧ q ≠ null ∧ q ≠ ptr
             ∧ is_Some (heap s !! q)) →
  let fork := fresh_ptr (heap s) in
  let is_head := bool_decide (is_Some (heads_ s !! top p)) in
  let in_current_chain :=
    negb (bool_decide (current_chain_ s = ∅)) && synced_to_genesis p
    && bool_decide (current_chain_ s !! top_height p = Some ptr) in
  splitBranch kNoBranch new_top new_bottom new_bottom_height pos s
  = Done tt
      (mkState
         (<[ptr := set_forks {[new_id pos]}
                     (set_top_height (above_height pos) (set_top new_top p))]>
            (reparent (all_branches_ s) (new_id pos) (ordered_ids (forks p))
               (<[fork := set_parent (id p)
                            (set_bottom new_bottom (set_id (new_id pos) p))]>
                  (heap s))))
         (<[new_id pos := fork]> (all_branches_ s))
         (if is_head then <[top p := fork]> (delete (top p) (heads_ s))
          else heads_ s)
         (unloaded_roots_ s) (genesis_branch_ s)
         (if in_current_chain
          then <[top_height p := fork]>
                 (<[above_height pos := ptr]>
                    (delete (top_height p) (current_chain_ s)))
          else current_chain_ s)
         (current_top_branch_ s) (current_height_ s)).
Proof.
  intros Hold Hnew Hne Habove Hfree Hptr Hnull Hp [Hbot Htop] [Hnb1 Hnb2] Hforks.
  intros fork is_head in_current_chain.
  pose proof (fresh_ptr_fresh (heap s)) as Hfresh. fold fork in Hfresh.
  assert (Hfp : fork ≠ ptr) by (intros E; rewrite E in Hfresh; congruence).
  assert (Hpf : ptr ≠ fork) by done.
  set (fr := set_parent (id p) (set_bottom new_bottom (set_id (new_id pos) p))).
  assert (Hchildren : ∀ c, c ∈ ordered_ids (forks p) →
            ∃ q, all_branches_ s !! c = Some q ∧ q ≠ null ∧ q ≠ fork
                 ∧ is_Some (<[fork := fr]> (heap s) !! q)).
  { intros c Hc. unfold ordered_ids in Hc.
    rewrite merge_sort_Permutation, elem_of_elements in Hc.
    destruct (Hforks c Hc) as (q & Hq & Hqn & Hqp & [b Hb]).
    exists q. repeat split; try done.
    - intros ->. congruence.
    - rewrite lookup_insert_ne; [done|]. intros <-. congruence. }
  assert (Hloop_fork :
    reparent (all_branches_ s) (new_id pos) (ordered_ids (forks p))
      (<[fork := fr]> (heap s)) !! fork = Some fr).
  { rewrite reparent_other; [apply lookup_insert_eq|].
    intros c Hc Hcq. destruct (Hchildren c Hc) as (q & Hq & _ & Hqf & _).
    congruence. }
  assert (Hloop_ptr :
    reparent (all_branches_ s) (new_id pos) (ordered_ids (forks p))
      (<[fork := fr]> (heap s)) !! ptr = Some p).
  { rewrite reparent_other; [by rewrite lookup_insert_ne|].
    intros c Hc Hcq. unfold ordered_ids in Hc.
    rewrite merge_sort_Permutation, elem_of_elements in Hc.
    destruct (Hforks c Hc) as (q & Hq & _ & Hqp & _). congruence. }
  unfold splitBranch.
  rewrite (bind_step _ _ _ tt s)
    by (apply assert_ok; by rewrite (bool_decide_eq_false_2 _ Hold)).
  rewrite (bind_step _ _ _ tt s)
    by (apply assert_ok; by rewrite (bool_decide_eq_false_2 _ Hnew)).
  rewrite (bind_step _ _ _ tt s)
    by (apply assert_ok; by rewrite (bool_decide_eq_false_2 _ Hne)).
  rewrite (bind_step _ _ _ tt s)
    by (apply assert_ok; by apply bool_decide_eq_true_2).
  rewrite (bind_step _ _ _ None s) by (unfold gets; by rewrite Hfree).
  rewrite (bind_step _ _ _ tt s)
    by (apply assert_ok; by apply bool_decide_eq_true_2).
  rewrite (bind_step _ _ _ ptr s)
    by (unfold gets, getBranch; by rewrite Hptr).
  rewrite (bind_step _ _ _ tt s)
    by (apply assert_ok; by rewrite (bool_decide_eq_false_2 _ Hnull)).
  rewrite (bind_step _ _ _ p s) by (by apply deref_ok).
  rewrite (bind_step _ _ _ tt s)
    by (apply assert_ok; by apply bool_decide_eq_true_2).
  rewrite (bind_step _ _ _ tt s)
    by (apply assert_ok; by apply bool_decide_eq_true_2).
  rewrite (bind_step _ _ _ tt s)
    by (apply assert_ok; by apply bool_decide_eq_true_2).
  rewrite (bind_step _ _ _ tt s)
    by (apply assert_ok; by apply bool_decide_eq_true_2).
  rewrite (bind_step _ _ _ fork (set_heap (<[fork := p]> (heap s)) s))
    by reflexivity.
  rewrite (bind_step _ _ _ (heads_ s !! top p)
             (set_heap (<[fork := p]> (heap s)) s)) by reflexivity.
  fold is_head.
  destruct s as [hp all hds roots gen chain ctb ch].
  cbn [heap all_branches_ heads_ current_chain_ unloaded_roots_
       genesis_branch_ current_top_branch_ current_height_] in *.
  clearbody is_head.
  unfold set_heap;
    cbn [heap all_branches_ heads_ current_chain_ unloaded_roots_
         genesis_branch_ current_top_branch_ current_height_].
  erewrite bind_step; cycle 1.
  { instantiate (1 := mkState (<[fork := p]> hp) all
                        (if is_head then delete (top p) hds else hds)
                        roots gen chain ctb ch).
    instantiate (1 := tt). by destruct is_head. }
  erewrite (bind_step _ _ _ chain) by reflexivity.
  fold in_current_chain. clearbody in_current_chain.
  erewrite bind_step; cycle 1.
  { instantiate (1 := mkState (<[fork := p]> hp) all
                        (if is_head then delete (top p) hds else hds)
                        roots gen
                        (if in_current_chain
                         then delete (top_height p) chain else chain) ctb ch).
    instantiate (1 := tt). by destruct in_current_chain. }
  erewrite bind_step
    by (apply update_ok; cbn [heap]; apply lookup_insert_eq).
  unfold set_heap at 1; cbn [heap all_branches_ heads_ current_chain_
    unloaded_roots_ genesis_branch_ current_top_branch_ current_height_].
  rewrite insert_insert_eq.
  erewrite bind_step
    by (apply update_ok; cbn [heap]; apply lookup_insert_eq).
  unfold set_heap at 1; cbn [heap all_branches_ heads_ current_chain_
    unloaded_roots_ genesis_branch_ current_top_branch_ current_height_].
  rewrite insert_insert_eq.
  erewrite bind_step
    by (apply deref_ok; cbn [heap]; rewrite lookup_insert_ne by done;
        exact Hp).
  erewrite bind_step
    by (apply update_ok; cbn [heap]; apply lookup_insert_eq).
  unfold set_heap at 1; cbn [heap all_branches_ heads_ current_chain_
    unloaded_roots_ genesis_branch_ current_top_branch_ current_height_].
  rewrite insert_insert_eq. fold fr.
  erewrite bind_step
    by (apply deref_ok; cbn [heap]; apply lookup_insert_eq).
  erewrite bind_step; cycle 1.
  { apply (splitBranch_loop fork (new_id pos) _ _ fr);
      cbn [heap all_branches_]; [apply lookup_insert_eq|done|exact Hchildren]. }
  unfold set_heap at 1; cbn [heap all_branches_ heads_ current_chain_
    unloaded_roots_ genesis_branch_ current_top_branch_ current_height_].
  change (forks fr) with (forks p).
  set (h1 := reparent all (new_id pos) (ordered_ids (forks p))
               (<[fork:=fr]> hp)) in *.
  erewrite bind_step by (apply deref_ok; exact Hloop_fork).
  erewrite bind_step by reflexivity.
  unfold set_all_branches at 1; cbn [heap all_branches_ heads_ current_chain_
    unloaded_roots_ genesis_branch_ current_top_branch_ current_height_].
  change (id fr) with (new_id pos).
  erewrite bind_step by (apply update_ok; exact Hloop_ptr).
  unfold set_heap at 1; cbn [heap all_branches_ heads_ current_chain_
    unloaded_roots_ genesis_branch_ current_top_branch_ current_height_].
  erewrite bind_step
    by (apply update_ok; cbn [heap]; apply lookup_insert_eq).
  unfold set_heap at 1; cbn [heap all_branches_ heads_ current_chain_
    unloaded_roots_ genesis_branch_ current_top_branch_ current_height_].
  rewrite insert_insert_eq.
  erewrite bind_step
    by (apply update_ok; cbn [heap]; apply lookup_insert_eq).
  unfold set_heap at 1; cbn [heap all_branches_ heads_ current_chain_
    unloaded_roots_ genesis_branch_ current_top_branch_ current_height_].
  rewrite insert_insert_eq.
  erewrite bind_step
    by (apply deref_ok; cbn [heap]; rewrite lookup_insert_ne by done;
        exact Hloop_fork).
  erewrite bind_step
    by (apply update_ok; cbn [heap]; apply lookup_insert_eq).
  unfold set_heap at 1; cbn [heap all_branches_ heads_ current_chain_
    unloaded_roots_ genesis_branch_ current_top_branch_ current_height_].
  rewrite insert_insert_eq.
  change (id fr) with (new_id pos).
  assert (Hrecord :
    set_forks ({[new_id pos]}
               ∪ forks (set_forks ∅ (set_top_height (above_height pos)
                                       (set_top new_top p))))
      (set_forks ∅ (set_top_height (above_height pos) (set_top new_top p)))
    = set_forks {[new_id pos]}
        (set_top_height (above_height pos) (set_top new_top p))).
  { unfold set_forks. cbn. by rewrite (right_id_L ∅ (∪)). }
  rewrite Hrecord.
  assert (Hfork' :
    <[ptr := set_forks {[new_id pos]}
               (set_top_height (above_height pos) (set_top new_top p))]> h1
      !! fork = Some fr) by (by rewrite lookup_insert_ne).
  destruct is_head, in_current_chain;
    repeat first
      [ erewrite bind_step
          by (apply deref_ok; unfold set_heads, set_current_chain;
              cbn [heap]; first [exact Hfork'|apply lookup_insert_eq])
      | erewrite bind_step by reflexivity
      | erewrite bind_step
          by (erewrite bind_step by (apply deref_ok; exact Hfork');
              reflexivity) ];
    reflexivity.
Qed.

(** [splitBranch] cuts a branch in two above [above_height].  The old
    record keeps the lower part: its top is [new_top] at [above_height]
    and its only fork is the new branch.  A new record, which no map held
    before, takes the upper part under [new_id]: the old top, the bottom
    [new_bottom], the old branch as parent, the forks, the flag and also
    the [bottom_height] of the old record.  The forks of the old branch
    get the new branch as parent, and no other object changes.  The head
    entry and the current-chain entry of the old top move to the new
    branch, the chain gaining the old branch at [above_height]. *)
Theorem splitBranch_splits s new_top new_bottom new_bottom_height pos ptr p :
  old_id pos ≠ kNoBranch → new_id pos ≠ kNoBranch →
  new_id pos ≠ old_id pos → 0 ≤ above_height pos →
  all_branches_ s !! new_id pos = None →
  all_branches_ s !! old_id pos = Some ptr → ptr ≠ null →
  heap s !! ptr = Some p →
  bottom_height p ≤ above_height pos < top_height p →
  above_height pos < new_bottom_height ≤ top_height p →
  (∀ c, c ∈ forks p →
        ∃ q, all_branches_ s !! c = Some q ∧ q ≠ null ∧ q ≠ ptr
             ∧ is_Some (heap s !! q)) →
  ∃ s' fork,
    splitBranch kNoBranch new_top new_bottom new_bottom_height pos s
    = Done tt s'
    ∧ heap s !! fork = None
    ∧ all_branches_ s' = <[new_id pos := fork]> (all_branches_ s)
    ∧ info_of s' (old_id pos)
      = Some (set_forks {[new_id pos]}
                (set_top_height (above_height pos) (set_top new_top p)))
    ∧ info_of s' (new_id pos)
      = Some (set_parent (id p)
                (set_bottom new_bottom (set_id (new_id pos) p)))
    ∧ (∀ c q, c ∈ forks p → all_branches_ s !! c = Some q →
              heap s' !! q = set_parent (new_id pos) <$> heap s !! q)
    ∧ (∀ q, q ≠ ptr → q ≠ fork →
            (∀ c, c ∈ forks p → all_branches_ s !! c ≠ Some q) →
            heap s' !! q = heap s !! q)
    ∧ heads_ s'
      = (if bool_decide (is_Some (heads_ s !! top p))
         then <[top p := fork]> (heads_ s) else heads_ s)
    ∧ current_chain_ s'
      = (if negb (bool_decide (current_chain_ s = ∅)) && synced_to_genesis p
            && bool_decide (current_chain_ s !! top_height p = Some ptr)
         then <[top_height p := fork]>
                (<[above_height pos := ptr]> (current_chain_ s))
         else current_chain_ s)
    ∧ unloaded_roots_ s' = unloaded_roots_ s
    ∧ genesis_branch_ s' = genesis_branch_ s
    ∧ current_top_branch_ s' = current_top_branch_ s
    ∧ current_height_ s' = current_height_ s.
Proof.
  intros Hold Hnew Hne Habove Hfree Hptr Hnull Hp Hlow Hhigh Hforks.
  pose proof (splitBranch_run s new_top new_bottom new_bottom_height pos ptr p
                Hold Hnew Hne Habove Hfree Hptr Hnull Hp Hlow Hhigh Hforks)
    as Hrun.
  cbn zeta in Hrun. eexists _, (fresh_ptr (heap s)).
  split; [exact Hrun|].
  pose proof (fresh_ptr_fresh (heap s)) as Hfresh.
  set (fork := fresh_ptr (heap s)) in *.
  assert (Hfp : fork ≠ ptr) by (intros E; rewrite E in Hfresh; congruence).
  assert (Hin : ∀ c, c ∈ ordered_ids (forks p) ↔ c ∈ forks p).
  { intros c. unfold ordered_ids.
    by rewrite merge_sort_Permutation, elem_of_elements. }
  split; [done|]. split; [done|].
  unfold info_of. cbn [heap all_branches_ heads_ current_chain_
    unloaded_roots_ genesis_branch_ current_top_branch_ current_height_].
  split; [|split; [|split; [|split; [|split; [|split]]]]].
  - rewrite lookup_insert_ne, Hptr by done. apply lookup_insert_eq.
  - rewrite lookup_insert_eq, lookup_insert_ne by done.
    rewrite reparent_other; [apply lookup_insert_eq|].
    intros c Hc Hcq. apply Hin in Hc.
    destruct (Hforks c Hc) as (q & Hq & _ & _ & [b Hb]). congruence.
  - intros c q Hc Hq. destruct (Hforks c Hc) as (q' & Hq' & _ & Hqp & [b Hb]).
    assert (q' = q) as -> by congruence.
    rewrite lookup_insert_ne by done.
    rewrite (reparent_child _ _ _ _ c q); [|by apply Hin|done].
    rewrite lookup_insert_ne; [done|]. intros <-. congruence.
  - intros q Hqp Hqf Hq. rewrite lookup_insert_ne by done.
    rewrite reparent_other by (intros c Hc; apply Hq; by apply Hin).
    by rewrite lookup_insert_ne.
  - case_bool_decide; [|done]. apply insert_delete_eq.
  - destruct (_ && _ && _) eqn:Hchain; [|done].
    apply map_eq. intros h.
    destruct (decide (h = top_height p)) as [->|Hh1].
    { by rewrite !lookup_insert_eq. }
    rewrite !(lookup_insert_ne _ (top_height p)) by done.
    destruct (decide (h = above_height pos)) as [->|Hh2].
    { by rewrite !lookup_insert_eq. }
    rewrite !(lookup_insert_ne _ (above_height pos)) by done.
    by rewrite lookup_delete_ne.
  - done.
Qed.

(** ** A tipset whose parent lies inside a branch *)

(** The parent of the tipset is recorded strictly below the top of its
    branch, and no unloaded root waits for the tipset.  Then
    [findStorePosition] asks for the branch to be split above the parent,
    and gives the id it chose for the split-off branch to the tipset as
    well, as both come from [newBranchId] on the same object.
    [splitBranch] with that rename succeeds and records the id, so that
    [storeTipset] at the position, after the split, stops in [newBranch]
    at the assertion that the assigned id is not recorded. *)
Theorem store_inside_branch fuel tipset parent_hash parent_branch
    parent_height new_top new_bottom new_bottom_height s ptr p :
  kNoBranch ≤ kGenesisBranch →
  (∀ i, is_Some (all_branches_ s !! i) → kNoBranch < i) →
  height tipset ≠ 0 → parent_height < height tipset →
  unloaded_roots_ s !! hash tipset = None →
  all_branches_ s !! parent_branch = Some ptr → ptr ≠ null →
  heap s !! ptr = Some p →
  0 ≤ parent_height →
  bottom_height p ≤ parent_height < top_height p →
  parent_height < new_bottom_height ≤ top_height p →
  (∀ c, c ∈ forks p →
        ∃ q, all_branches_ s !! c = Some q ∧ q ≠ null ∧ q ≠ ptr
             ∧ is_Some (heap s !! q)) →
  let fresh := newBranchId kGenesisBranch s in
  let split := mkRename parent_branch fresh parent_height true in
  let pos := mkPos fresh kNoBranch parent_branch (Some split) in
  findStorePosition kNoBranch kGenesisBranch tipset parent_hash parent_branch
    parent_height s = Done (Ok pos) s
  ∧ ∃ s', splitBranch kNoBranch new_top new_bottom new_bottom_height split s
          = Done tt s'
          ∧ storeTipset kNoBranch kGenesisBranch fuel tipset parent_hash pos s'
            = Abort.
Proof.
  intros Hids Hrec Hh Hph Hroot Hptr Hnull Hp Hpos Hlow Hhigh Hforks.
  cbn zeta.
  pose proof (newBranchId_free kGenesisBranch s) as Hfree.
  pose proof (newBranchId_not_kNoBranch kNoBranch kGenesisBranch s Hids Hrec)
    as Hnew.
  pose proof (newBranchId_above kGenesisBranch s parent_branch
                (mk_is_Some _ _ Hptr)) as Habove.
  pose proof (Hrec parent_branch (mk_is_Some _ _ Hptr)) as Hparent.
  set (fresh := newBranchId kGenesisBranch s) in *.
  assert (Hpb : parent_branch ≠ kNoBranch) by lia.
  assert (Hfp : fresh ≠ parent_branch) by lia.
  split.
  - unfold findStorePosition.
    rewrite (bool_decide_eq_false_2 _ Hh).
    rewrite (bind_step _ _ _ None s) by (unfold gets; by rewrite Hroot).
    rewrite (bind_step _ _ _ (mkPos kNoBranch kNoBranch kNoBranch None) s)
      by reflexivity.
    rewrite (bind_step _ _ _ tt s)
      by (apply assert_ok; by apply bool_decide_eq_true_2).
    rewrite (bool_decide_eq_false_2 _ Hpb).
    erewrite bind_step; cycle 1.
    { rewrite (bind_step _ _ _ (Ok ptr) s)
        by (unfold gets, getBranch_const; by rewrite Hptr).
      rewrite (bind_step _ _ _ p s) by (by apply deref_ok).
      rewrite (bool_decide_eq_false_2 (top_height p < parent_height)) by lia.
      rewrite (bool_decide_eq_false_2 (parent_height < bottom_height p))
        by lia.
      rewrite (bool_decide_eq_false_2 (parent_height = top_height p)) by lia.
      cbn [orb negb]. rewrite (bind_step _ _ _ fresh s) by reflexivity.
      reflexivity. }
    cbn [assigned_branch at_bottom_of_branch on_top_of_branch rename].
    rewrite (bool_decide_eq_true_2 (kNoBranch = kNoBranch)) by done.
    by rewrite (bind_step _ _ _ fresh s) by reflexivity.
  - pose proof (splitBranch_run s new_top new_bottom new_bottom_height
                  (mkRename parent_branch fresh parent_height true) ptr p)
      as Hrun.
    cbn [old_id new_id above_height] in Hrun. cbn zeta in Hrun.
    specialize (Hrun Hpb Hnew Hfp Hpos Hfree Hptr Hnull Hp Hlow Hhigh Hforks).
    eexists. split; [exact Hrun|].
    unfold storeTipset. cbn [at_bottom_of_branch on_top_of_branch
      assigned_branch].
    rewrite (bool_decide_eq_true_2 (kNoBranch = kNoBranch)) by done.
    rewrite (bool_decide_eq_false_2 _ Hpb), (bool_decide_eq_false_2 _ Hfp).
    cbn [andb negb fst snd].
    destruct (bool_decide (0 < height tipset)
              && negb (is_empty_hash parent_hash)) eqn:Hassert;
      [|by apply bind_abort].
    rewrite (bind_step _ _ _ tt _) by reflexivity.
    erewrite bind_step by reflexivity. cbn [fst snd].
    erewrite bind_step by reflexivity.
    erewrite bind_step; cycle 1.
    { unfold gets, getBranch. cbn [all_branches_].
      rewrite lookup_insert_ne, Hptr by done. reflexivity. }
    erewrite bind_step
      by (apply assert_ok; by rewrite (bool_decide_eq_false_2 _ Hnull)).
    erewrite bind_step
      by (apply deref_ok; cbn [heap]; apply lookup_insert_eq).
    cbn [top set_forks set_top_height set_top forks].
    destruct (bool_decide (parent_hash = new_top)); [|by apply bind_abort].
    erewrite bind_step by reflexivity.
    erewrite bind_step by reflexivity.
    match goal with
    | |- context [bool_decide (?hd = None)] =>
        destruct (bool_decide (hd = None)); [|by apply bind_abort]
    end.
    erewrite bind_step by reflexivity.
    erewrite bind_step; cycle 1.
    { apply assert_ok. rewrite bool_decide_eq_false_2; [done|].
      intros E. assert (Hin : fresh ∈ ({[fresh]} : gset Z))
        by (by apply elem_of_singleton).
      rewrite E in Hin. by apply not_elem_of_empty in Hin. }
    rewrite (bool_decide_eq_true_2 (null = null)) by done.
    apply bind_abort. apply bind_abort. unfold newBranch.
    cbn [assigned_branch].
    erewrite bind_step
      by (apply assert_ok; by rewrite (bool_decide_eq_false_2 _ Hnew)).
    erewrite bind_step by reflexivity.
    cbn [all_branches_]. rewrite lookup_insert_eq.
    by apply bind_abort.
Qed.

(** ** A tipset below an unloaded root *)

(** An unloaded root waits for the tipset, and the parent of the tipset is
    in no recorded branch.  [findStorePosition] assigns the tipset the
    branch of the root, and [storeTipset] extends that branch downwards:
    the tipset becomes its bottom, and the branch now waits, as an
    unloaded root, for the parent of the tipset.  Nothing else changes and
    no head change is reported. *)
Theorem store_below_unloaded_root fuel tipset parent_hash parent_height s b ib :
  0 < height tipset → parent_height < height tipset → parent_hash ≠ [] →
  unloaded_roots_ s !! hash tipset = Some b → heap s !! b = Some ib →
  id ib ≠ kNoBranch → parent ib = kNoBranch →
  height tipset < bottom_height ib →
  let pos := mkPos (id ib) (id ib) kNoBranch None in
  findStorePosition kNoBranch kGenesisBranch tipset parent_hash kNoBranch
    parent_height s = Done (Ok pos) s
  ∧ storeTipset kNoBranch kGenesisBranch fuel tipset parent_hash pos s
    = Done (mkChanges [] [])
        (mkState
           (<[b := set_parent_hash parent_hash
                     (set_bottom (hash tipset)
                        (set_bottom_height (height tipset) ib))]> (heap s))
           (all_branches_ s) (heads_ s)
           (<[parent_hash := b]> (delete (hash tipset) (unloaded_roots_ s)))
           (genesis_branch_ s) (current_chain_ s)
           (current_top_branch_ s) (current_height_ s)).
Proof.
  intros Hh Hph Hparent Hroot Hb Hid Hpar Hbelow. cbn zeta.
  assert (Hnonempty : is_empty_hash parent_hash = false)
    by (by destruct parent_hash).
  split.
  - unfold findStorePosition.
    rewrite (bool_decide_eq_false_2 (height tipset = 0)) by lia.
    rewrite (bind_step _ _ _ (Some b) s) by (unfold gets; by rewrite Hroot).
    erewrite bind_step
      by (erewrite bind_step by (by apply deref_ok); reflexivity).
    rewrite (bind_step _ _ _ tt s)
      by (apply assert_ok; by apply bool_decide_eq_true_2).
    rewrite (bool_decide_eq_true_2 (kNoBranch = kNoBranch)) by done.
    erewrite bind_step by reflexivity.
    cbn [assigned_branch]. by rewrite (bool_decide_eq_false_2 _ Hid).
  - unfold storeTipset. cbn [at_bottom_of_branch on_top_of_branch].
    rewrite (bool_decide_eq_false_2 _ Hid).
    rewrite (bool_decide_eq_true_2 (kNoBranch = kNoBranch)) by done.
    cbn [andb]. rewrite Hnonempty.
    rewrite (bind_step _ _ _ tt s)
      by (apply assert_ok; by rewrite (bool_decide_eq_true_2 _ Hh)).
    erewrite bind_step; cycle 1.
    { rewrite (bind_step _ _ _ (Some b) s) by (unfold gets; by rewrite Hroot).
      rewrite (bind_step _ _ _ ib s) by (by apply deref_ok).
      rewrite (bind_step _ _ _ tt s)
        by (apply assert_ok; by apply bool_decide_eq_true_2).
      rewrite (bind_step _ _ _ tt s)
        by (apply assert_ok; by apply bool_decide_eq_true_2).
      rewrite (bind_step _ _ _ tt s)
        by (apply assert_ok; by apply bool_decide_eq_true_2).
      erewrite bind_step by (by apply update_ok).
      erewrite bind_step
        by (apply update_ok; cbn [heap set_heap]; apply lookup_insert_eq).
      erewrite bind_step
        by (apply update_ok; cbn [heap set_heap]; apply lookup_insert_eq).
      erewrite bind_step by reflexivity.
      erewrite bind_step by reflexivity.
      reflexivity. }
    cbn [fst snd]. unfold ret, set_unloaded_roots, set_heap.
    cbn [heap all_branches_ heads_ current_chain_ unloaded_roots_
         genesis_branch_ current_top_branch_ current_height_].
    by rewrite !insert_insert_eq.
Qed.

(** ** A tipset on the top of a branch that has forks *)

(** The parent of the tipset is the top of a recorded branch that already
    has forks, and no unloaded root waits for the tipset.
    [findStorePosition] assigns the tipset a new branch id on top of that
    branch, and [storeTipset] makes the branch of this one tipset a
    further fork: the new record has the branch as parent and its
    [synced_to_genesis] flag, the branch gains the new id among its forks,
    and the new branch is a head, which is reported as added when it is
    synced.  [newBranch] also leaves the new branch among the unloaded
    roots, under the hash of the parent. *)
Theorem store_fork_on_branch_top fuel tipset parent_hash parent_branch s ptr p :
  kNoBranch ≤ kGenesisBranch →
  (∀ i, is_Some (all_branches_ s !! i) → kNoBranch < i) →
  0 < height tipset → top_height p < height tipset → parent_hash ≠ [] →
  unloaded_roots_ s !! hash tipset = None →
  all_branches_ s !! parent_branch = Some ptr → ptr ≠ null →
  heap s !! ptr = Some p →
  bottom_height p ≤ top_height p →
  forks p ≠ ∅ → parent_hash = top p → heads_ s !! parent_hash = None →
  let fresh := newBranchId kGenesisBranch s in
  let pos := mkPos fresh kNoBranch parent_branch None in
  let new := fresh_ptr (heap s) in
  findStorePosition kNoBranch kGenesisBranch tipset parent_hash parent_branch
    (top_height p) s = Done (Ok pos) s
  ∧ storeTipset kNoBranch kGenesisBranch (S fuel) tipset parent_hash pos s
    = Done (mkChanges [] (if synced_to_genesis p then [hash tipset] else []))
        (mkState
           (<[new := mkBranchInfo fresh (hash tipset) (height tipset)
                       (hash tipset) (height tipset) (id p) parent_hash
                       (synced_to_genesis p) ∅]>
              (<[ptr := set_forks ({[fresh]} ∪ forks p) p]> (heap s)))
           (<[fresh := new]> (all_branches_ s))
           (<[hash tipset := new]> (heads_ s))
           (<[parent_hash := new]> (unloaded_roots_ s))
           (genesis_branch_ s) (current_chain_ s)
           (current_top_branch_ s) (current_height_ s)).
Proof.
  intros Hids Hrec Hh Hph Hparent Hroot Hptr Hnull Hp Hheights Hforks Htop Hhd.
  cbn zeta.
  pose proof (newBranchId_free kGenesisBranch s) as Hfree.
  pose proof (newBranchId_not_kNoBranch kNoBranch kGenesisBranch s Hids Hrec)
    as Hnew.
  pose proof (newBranchId_above kGenesisBranch s parent_branch
                (mk_is_Some _ _ Hptr)) as Habove.
  pose proof (Hrec parent_branch (mk_is_Some _ _ Hptr)) as Hparent_id.
  set (fresh := newBranchId kGenesisBranch s) in *.
  pose proof (fresh_ptr_fresh (heap s)) as Hfresh.
  pose proof (fresh_ptr_not_null (heap s)) as Hnn.
  set (new := fresh_ptr (heap s)) in *.
  assert (Hpb : parent_branch ≠ kNoBranch) by lia.
  assert (Hfp : fresh ≠ parent_branch) by lia.
  assert (Hnp : new ≠ ptr) by (intros E; rewrite E in Hfresh; congruence).
  assert (Hpn : ptr ≠ new) by done.
  assert (Hnonempty : is_empty_hash parent_hash = false)
    by (by destruct parent_hash).
  split.
  - unfold findStorePosition.
    rewrite (bool_decide_eq_false_2 (height tipset = 0)) by lia.
    rewrite (bind_step _ _ _ None s) by (unfold gets; by rewrite Hroot).
    rewrite (bind_step _ _ _ (mkPos kNoBranch kNoBranch kNoBranch None) s)
      by reflexivity.
    rewrite (bind_step _ _ _ tt s)
      by (apply assert_ok; by apply bool_decide_eq_true_2).
    rewrite (bool_decide_eq_false_2 _ Hpb).
    erewrite bind_step; cycle 1.
    { rewrite (bind_step _ _ _ (Ok ptr) s)
        by (unfold gets, getBranch_const; by rewrite Hptr).
      rewrite (bind_step _ _ _ p s) by (by apply deref_ok).
      rewrite (bool_decide_eq_false_2 (top_height p < top_height p)) by lia.
      rewrite (bool_decide_eq_false_2 (top_height p < bottom_height p))
        by lia.
      rewrite (bool_decide_eq_true_2 (top_height p = top_height p)) by done.
      rewrite (bool_decide_eq_false_2 _ Hforks).
      reflexivity. }
    cbn [assigned_branch at_bottom_of_branch on_top_of_branch rename].
    rewrite (bool_decide_eq_true_2 (kNoBranch = kNoBranch)) by done.
    by rewrite (bind_step _ _ _ fresh s) by reflexivity.
  - unfold storeTipset. cbn [at_bottom_of_branch on_top_of_branch
      assigned_branch].
    rewrite (bool_decide_eq_true_2 (kNoBranch = kNoBranch)) by done.
    rewrite (bool_decide_eq_false_2 _ Hpb), (bool_decide_eq_false_2 _ Hfp).
    cbn [andb negb]. rewrite Hnonempty.
    rewrite (bind_step _ _ _ tt s)
      by (apply assert_ok; by rewrite (bool_decide_eq_true_2 _ Hh)).
    erewrite bind_step by reflexivity. cbn [fst snd].
    erewrite bind_step by reflexivity.
    rewrite (bind_step _ _ _ ptr s)
      by (unfold gets, getBranch; by rewrite Hptr).
    rewrite (bind_step _ _ _ tt s)
      by (apply assert_ok; by rewrite (bool_decide_eq_false_2 _ Hnull)).
    rewrite (bind_step _ _ _ p s) by (by apply deref_ok).
    rewrite (bind_step _ _ _ tt s)
      by (apply assert_ok; by apply bool_decide_eq_true_2).
    rewrite (bind_step _ _ _ None s) by (unfold gets; by rewrite Hhd).
    rewrite (bind_step _ _ _ tt s)
      by (apply assert_ok; by apply bool_decide_eq_true_2).
    rewrite (bind_step _ _ _ tt s)
      by (apply assert_ok; by rewrite (bool_decide_eq_false_2 _ Hforks)).
    rewrite (bool_decide_eq_true_2 (null = null)) by done.
    destruct s as [hp all hds roots gen chain ctb ch].
    cbn [heap all_branches_ heads_ current_chain_ unloaded_roots_
         genesis_branch_ current_top_branch_ current_height_] in *.
    erewrite bind_step; cycle 1.
    { erewrite bind_step; cycle 1.
      { unfold newBranch. cbn [assigned_branch]. rewrite Hnonempty.
        erewrite bind_step
          by (apply assert_ok; by rewrite (bool_decide_eq_false_2 _ Hnew)).
        erewrite bind_step by (unfold gets; cbn [all_branches_];
                               by rewrite Hfree).
        erewrite bind_step
          by (apply assert_ok; by apply bool_decide_eq_true_2).
        erewrite bind_step by reflexivity.
        erewrite bind_step by reflexivity.
        erewrite bind_step by reflexivity.
        erewrite bind_step
          by (apply assert_ok; by apply bool_decide_eq_true_2).
        reflexivity. }
      unfold gets, getBranch, set_unloaded_roots, set_heads,
        set_all_branches, set_heap.
      cbn [heap all_branches_ heads_ current_chain_ unloaded_roots_
           genesis_branch_ current_top_branch_ current_height_].
      rewrite lookup_insert_eq. reflexivity. }
    fold new.
    erewrite bind_step
      by (apply assert_ok; by rewrite (bool_decide_eq_false_2 _ Hnn)).
    erewrite bind_step
      by (apply update_ok; cbn [heap]; rewrite lookup_insert_ne by done;
          exact Hp).
    unfold set_heap at 1.
    cbn [heap all_branches_ heads_ current_chain_ unloaded_roots_
         genesis_branch_ current_top_branch_ current_height_].
    erewrite bind_step
      by (apply deref_ok; cbn [heap]; apply lookup_insert_eq).
    erewrite bind_step
      by (apply update_ok; cbn [heap]; rewrite lookup_insert_ne by done;
          apply lookup_insert_eq).
    unfold set_heap at 1.
    cbn [heap all_branches_ heads_ current_chain_ unloaded_roots_
         genesis_branch_ current_top_branch_ current_height_].
    erewrite bind_step
      by (apply deref_ok; cbn [heap]; rewrite lookup_insert_ne by done;
          apply lookup_insert_eq).
    cbn [updateHeads].
    erewrite bind_step
      by (apply update_ok; cbn [heap]; apply lookup_insert_eq).
    unfold set_heap at 1.
    cbn [heap all_branches_ heads_ current_chain_ unloaded_roots_
         genesis_branch_ current_top_branch_ current_height_].
    erewrite bind_step
      by (apply deref_ok; cbn [heap]; apply lookup_insert_eq).
    cbn [forks set_synced_to_genesis set_parent set_forks top id
         synced_to_genesis].
    rewrite (bool_decide_eq_true_2 (∅ = ∅)) by done.
    erewrite bind_step by reflexivity.
    unfold ret, set_heads.
    cbn [heap all_branches_ heads_ current_chain_ unloaded_roots_
         genesis_branch_ current_top_branch_ current_height_ added removed].
    f_equal.
    + by destruct (synced_to_genesis p).
    + f_equal; [|by rewrite insert_insert_eq].
      rewrite !insert_insert_eq.
      apply map_eq. intros q. destruct (decide (q = new)) as [->|Hq].
      * by rewrite !lookup_insert_eq.
      * rewrite !(lookup_insert_ne _ new) by done.
        destruct (decide (q = ptr)) as [->|Hq'].
        -- by rewrite !lookup_insert_eq.
        -- rewrite !(lookup_insert_ne _ ptr) by done.
           by rewrite lookup_insert_ne.
Qed.

(** ** A tipset that joins an unloaded root to a head *)

(** An unloaded root without forks waits for the tipset, and the parent of
    the tipset is the top of a head branch.  [findStorePosition] assigns
    the tipset the head branch and asks for the branch of the root to be
    renamed to it, and [storeTipset] merges the two: the head branch takes
    the top of the root's branch and stays a head, now under that top,
    the id of the root's branch is no longer recorded, and the root no
    longer waits.  The new head is reported as added when the branch is
    synced; the head that went away is not reported as removed. *)
Theorem store_joins_unloaded_root fuel tipset parent_hash parent_branch s
    b ib ptr p :
  0 < height tipset → top_height p < height tipset → parent_hash ≠ [] →
  unloaded_roots_ s !! hash tipset = Some b → heap s !! b = Some ib →
  id ib ≠ kNoBranch → parent ib = kNoBranch →
  height tipset < bottom_height ib →
  all_branches_ s !! id ib = Some b → b ≠ null → forks ib = ∅ →
  parent_branch ≠ kNoBranch →
  all_branches_ s !! parent_branch = Some ptr → heap s !! ptr = Some p →
  bottom_height p ≤ top_height p → forks p = ∅ →
  heads_ s !! parent_hash = Some ptr → b ≠ ptr →
  let pos := mkPos parent_branch (id ib) parent_branch
               (Some (mkRename (id ib) parent_branch 0 false)) in
  findStorePosition kNoBranch kGenesisBranch tipset parent_hash parent_branch
    (top_height p) s = Done (Ok pos) s
  ∧ ∃ s',
      storeTipset kNoBranch kGenesisBranch (S fuel) tipset parent_hash pos s
      = Done (mkChanges [] (if synced_to_genesis p then [top ib] else [])) s'
      ∧ all_branches_ s' = delete (id ib) (all_branches_ s)
      ∧ heap s' !! ptr
        = Some (set_top (top ib) (set_top_height (top_height ib) p))
      ∧ (∀ q, q ≠ ptr → q ≠ b → heap s' !! q = heap s !! q)
      ∧ heads_ s' = <[top ib := ptr]> (delete parent_hash (heads_ s))
      ∧ unloaded_roots_ s' = delete (hash tipset) (unloaded_roots_ s)
      ∧ genesis_branch_ s' = genesis_branch_ s
      ∧ current_chain_ s' = current_chain_ s
      ∧ current_top_branch_ s' = current_top_branch_ s
      ∧ current_height_ s' = current_height_ s.
Proof.
  intros Hh Hph Hparent Hroot Hb Hid Hpar Hbelow Hrec Hbn Hleaf Hpb Hptr Hp
    Hheights Hforks Hhd Hbp.
  cbn zeta.
  assert (Hpb' : ptr ≠ b) by done.
  assert (Hnonempty : is_empty_hash parent_hash = false)
    by (by destruct parent_hash).
  split.
  - unfold findStorePosition.
    rewrite (bool_decide_eq_false_2 (height tipset = 0)) by lia.
    rewrite (bind_step _ _ _ (Some b) s) by (unfold gets; by rewrite Hroot).
    erewrite bind_step
      by (erewrite bind_step by (by apply deref_ok); reflexivity).
    rewrite (bind_step _ _ _ tt s)
      by (apply assert_ok; by apply bool_decide_eq_true_2).
    rewrite (bool_decide_eq_false_2 _ Hpb).
    erewrite bind_step; cycle 1.
    { rewrite (bind_step _ _ _ (Ok ptr) s)
        by (unfold gets, getBranch_const; by rewrite Hptr).
      rewrite (bind_step _ _ _ p s) by (by apply deref_ok).
      rewrite (bool_decide_eq_false_2 (top_height p < top_height p)) by lia.
      rewrite (bool_decide_eq_false_2 (top_height p < bottom_height p))
        by lia.
      rewrite (bool_decide_eq_true_2 (top_height p = top_height p)) by done.
      rewrite (bool_decide_eq_true_2 _ Hforks).
      cbn [orb negb at_bottom_of_branch].
      rewrite (bool_decide_eq_false_2 _ Hid). reflexivity. }
    cbn [assigned_branch at_bottom_of_branch on_top_of_branch rename].
    by rewrite (bool_decide_eq_false_2 _ Hpb).
  - unfold storeTipset. cbn [at_bottom_of_branch on_top_of_branch
      assigned_branch].
    rewrite (bool_decide_eq_false_2 _ Hid), (bool_decide_eq_false_2 _ Hpb).
    rewrite (bool_decide_eq_true_2 (parent_branch = parent_branch)) by done.
    cbn [andb negb]. rewrite Hnonempty.
    rewrite (bind_step _ _ _ tt s)
      by (apply assert_ok; by rewrite (bool_decide_eq_true_2 _ Hh)).
    destruct s as [hp all hds roots gen chain ctb ch].
    cbn [heap all_branches_ heads_ current_chain_ unloaded_roots_
         genesis_branch_ current_top_branch_ current_height_] in *.
    set (ib' := set_parent_hash parent_hash
                  (set_bottom (hash tipset)
                     (set_bottom_height (height tipset) ib))).
    erewrite bind_step; cycle 1.
    { erewrite bind_step by (unfold gets; cbn [unloaded_roots_];
                             by rewrite Hroot).
      cbv beta iota.
      erewrite bind_step by (by apply deref_ok).
      erewrite bind_step
        by (apply assert_ok; by apply bool_decide_eq_true_2).
      erewrite bind_step
        by (apply assert_ok; by apply bool_decide_eq_true_2).
      erewrite bind_step
        by (apply assert_ok; by apply bool_decide_eq_true_2).
      erewrite bind_step by (by apply update_ok).
      erewrite bind_step
        by (apply update_ok; heap_lookup).
      erewrite bind_step
        by (apply update_ok; heap_lookup).
      erewrite bind_step by reflexivity.
      unfold ret, set_unloaded_roots, set_heap.
      cbn [heap all_branches_ heads_ current_chain_ unloaded_roots_
           genesis_branch_ current_top_branch_ current_height_].
      rewrite !insert_insert_eq. fold ib'. reflexivity. }
    cbn [fst snd].
    erewrite bind_step by reflexivity.
    erewrite bind_step by (unfold gets; cbn [heads_]; by rewrite Hhd).
    cbv beta iota.
    erewrite bind_step by reflexivity.
    simpl_state.
    erewrite bind_step
      by (apply deref_ok; heap_lookup).
    erewrite bind_step
      by (apply assert_ok; by apply bool_decide_eq_true_2).
    erewrite bind_step
      by (apply assert_ok; by apply bool_decide_eq_true_2).
    rewrite (bool_decide_eq_false_2 _ Hbn).
    erewrite bind_step by reflexivity.
    erewrite bind_step by (unfold gets, getBranch; cbn [all_branches_];
                           by rewrite Hrec).
    erewrite bind_step
      by (apply assert_ok; by apply bool_decide_eq_true_2).
    unfold mergeBranches.
    erewrite bind_step
      by (apply deref_ok; heap_lookup).
    erewrite bind_step
      by (apply update_ok; heap_lookup).
    simpl_state.
    erewrite bind_step
      by (apply deref_ok; heap_lookup).
    erewrite bind_step
      by (apply update_ok; heap_lookup).
    simpl_state.
    rewrite insert_insert_eq.
    erewrite bind_step
      by (apply update_ok; heap_lookup).
    simpl_state.
    erewrite bind_step
      by (apply deref_ok; heap_lookup).
    erewrite bind_step
      by (apply update_ok; heap_lookup).
    simpl_state.
    erewrite bind_step
      by (apply update_ok; heap_lookup).
    simpl_state.
    erewrite bind_step
      by (apply deref_ok; heap_lookup).
    erewrite bind_step by reflexivity.
    simpl_state.
    erewrite bind_step
      by (apply deref_ok; heap_lookup).
    cbn [updateHeads].
    erewrite bind_step
      by (apply update_ok; heap_lookup).
    simpl_state.
    erewrite bind_step
      by (apply deref_ok; heap_lookup).
    cbn [forks set_synced_to_genesis set_parent_hash set_bottom
         set_bottom_height set_top set_top_height set_forks top id
         synced_to_genesis ib'].
    rewrite Hleaf. rewrite (bool_decide_eq_true_2 (∅ = ∅)) by done.
    erewrite bind_step by reflexivity.
    eexists. split.
    { unfold ret. f_equal. by destruct (synced_to_genesis p). }
    simpl_state.
    split; [done|]. split.
    { rewrite lookup_insert_eq. f_equal. destruct p. cbn in *.
      by rewrite Hforks. }
    split; [|done].
    intros q Hq1 Hq2. by rewrite !lookup_insert_ne.
Qed.

End Facts.

Section Position.

Variables (kNoBranch kGenesisBranch : BranchId).

(** [findStorePosition] never changes the object.  It fails only with
    [BRANCHES_STORE_ERROR], for a tipset of height 0 when branches are
    recorded, with [BRANCHES_BRANCH_NOT_FOUND], when the branch of the
    parent is not recorded, and with [BRANCHES_HEIGHT_MISMATCH], when the
    height of the parent is outside that branch.  A position it returns
    assigns a branch other than [kNoBranch]; for a tipset of height 0 it
    is the genesis position, on an object without branches; otherwise it
    is on top of the branch of the parent, inside whose heights the
    parent lies, and it is at the bottom of a branch exactly when an
    unloaded root waits for the tipset. *)
Theorem findStorePosition_outcome tipset parent_hash parent_branch
    parent_height s r s' :
  kNoBranch < kGenesisBranch →
  (∀ i, is_Some (all_branches_ s !! i) → kNoBranch < i) →
  (∀ h q b, unloaded_roots_ s !! h = Some q → heap s !! q = Some b →
            id b ≠ kNoBranch) →
  findStorePosition kNoBranch kGenesisBranch tipset parent_hash parent_branch
    parent_height s = Done r s' →
  s' = s
  ∧ match r with
    | Err e =>
      (e = BRANCHES_STORE_ERROR ∧ height tipset = 0 ∧ all_branches_ s ≠ ∅)
      ∨ (e = BRANCHES_BRANCH_NOT_FOUND ∧ height tipset ≠ 0
         ∧ parent_branch ≠ kNoBranch
         ∧ all_branches_ s !! parent_branch = None)
      ∨ (e = BRANCHES_HEIGHT_MISMATCH ∧ height tipset ≠ 0
         ∧ ∃ b, info_of s parent_branch = Some b
                ∧ (top_height b < parent_height
                   ∨ parent_height < bottom_height b))
    | Ok pos =>
      assigned_branch pos ≠ kNoBranch
      ∧ (height tipset = 0 →
         pos = mkPos kGenesisBranch kNoBranch kNoBranch None
         ∧ all_branches_ s = ∅)
      ∧ (height tipset ≠ 0 →
         on_top_of_branch pos = parent_branch
         ∧ parent_height < height tipset
         ∧ (at_bottom_of_branch pos = kNoBranch
            ↔ unloaded_roots_ s !! hash tipset = None)
         ∧ (parent_branch ≠ kNoBranch →
            ∃ b, info_of s parent_branch = Some b
                 ∧ bottom_height b ≤ parent_height ≤ top_height b))
    end.
Proof.
  intros Hids Hrec Hroots H. unfold findStorePosition in H.
  pose proof (newBranchId_not_kNoBranch kNoBranch kGenesisBranch s
                ltac:(lia) Hrec) as Hfresh.
  case_bool_decide as Hh.
  { apply bind_done in H as (e & s1 & He & H). injection He as <- <-.
    unfold empty in H. case_bool_decide as Hempty; injection H as <- <-.
    - split; [done|]. split; [cbn; lia|]. split; [done|]. done.
    - split; [done|]. by left. }
  apply bind_done in H as (it & s1 & Hit & H). injection Hit as <- <-.
  apply bind_done in H as (p & s1 & Hp & H).
  assert (Hpos : s1 = s ∧ on_top_of_branch p = kNoBranch ∧ rename p = None
                 ∧ assigned_branch p = at_bottom_of_branch p
                 ∧ (at_bottom_of_branch p = kNoBranch
                    ↔ unloaded_roots_ s !! hash tipset = None)).
  { destruct (unloaded_roots_ s !! hash tipset) as [q|] eqn:Hq.
    - apply bind_done in Hp as (ib & s2 & Hib & Hp).
      apply deref_done in Hib as [Hib ->]. injection Hp as <- <-.
      repeat split; try done. intros Hid. by destruct (Hroots _ _ _ Hq Hib).
    - injection Hp as <- <-. by repeat split. }
  destruct Hpos as (-> & Hontop & Hren & Hasg & Hbottom).
  apply bind_done in H as (? & s1 & Ha & H).
  apply assert_done in Ha as [Hlt ->]. apply bool_decide_eq_true in Hlt.
  apply bind_done in H as (r0 & s1 & Hr0 & H).
  (* the last step, which assigns a new id if none is assigned yet *)
  assert (Hlast : ∀ p0, r0 = Ok p0 → s1 = s →
            ∃ pos, r = Ok pos ∧ s' = s ∧ assigned_branch pos ≠ kNoBranch
                   ∧ at_bottom_of_branch pos = at_bottom_of_branch p0
                   ∧ on_top_of_branch pos = on_top_of_branch p0).
  { intros p0 -> ->. case_bool_decide as Hnone.
    - apply bind_done in H as (fresh & s2 & Hf & H). injection Hf as <- <-.
      injection H as <- <-. eexists. by repeat split.
    - injection H as <- <-. eexists. by repeat split. }
  case_bool_decide as Hpb.
  { injection Hr0 as <- <-.
    destruct (Hlast p) as (pos & -> & -> & Hne & Hb & Ht); [done..|].
    split; [done|]. split; [done|]. split; [done|]. intros _.
    rewrite Ht, Hb, Hontop, Hpb.
    split; [done|]. split; [done|]. split; [exact Hbottom|done]. }
  apply bind_done in Hr0 as (found & s2 & Hfound & Hr0).
  injection Hfound as <- <-. unfold getBranch_const in Hr0.
  destruct (all_branches_ s !! parent_branch) as [ptr|] eqn:Hptr.
  2:{ injection Hr0 as <- <-. injection H as <- <-. split; [done|].
      right; left. by repeat split. }
  apply bind_done in Hr0 as (info & s2 & Hinfo & Hr0).
  apply deref_done in Hinfo as [Hinfo ->].
  assert (Hb : info_of s parent_branch = Some info)
    by (unfold info_of; by rewrite Hptr).
  destruct (bool_decide (top_height info < parent_height)
            || bool_decide (parent_height < bottom_height info)) eqn:Hmis.
  { injection Hr0 as <- <-. injection H as <- <-. split; [done|].
    right; right. split; [done|]. split; [done|]. exists info.
    split; [done|]. apply orb_prop in Hmis as [Hm|Hm];
      apply bool_decide_eq_true in Hm; [by left|by right]. }
  apply orb_false_elim in Hmis as [Hm1 Hm2].
  apply bool_decide_eq_false in Hm1, Hm2.
  assert (Hfinal : ∀ p0, r0 = Ok p0 → s1 = s →
            at_bottom_of_branch p0 = at_bottom_of_branch p →
            on_top_of_branch p0 = parent_branch →
            s' = s
            ∧ match r with
              | Err e => False
              | Ok pos =>
                assigned_branch pos ≠ kNoBranch
                ∧ on_top_of_branch pos = parent_branch
                ∧ at_bottom_of_branch pos = at_bottom_of_branch p
              end).
  { intros p0 Hr Hs Hb0 Ht0.
    destruct (Hlast p0 Hr Hs) as (pos & -> & -> & Hne & Hb' & Ht').
    split; [done|]. split; [done|]. split; congruence. }
  assert (Hgoal : s' = s
            ∧ match r with
              | Err e => False
              | Ok pos =>
                assigned_branch pos ≠ kNoBranch
                ∧ on_top_of_branch pos = parent_branch
                ∧ at_bottom_of_branch pos = at_bottom_of_branch p
              end).
  { destruct (negb (bool_decide (parent_height = top_height info))).
    - apply bind_done in Hr0 as (fresh & s2 & Hf & Hr0).
      injection Hf as <- <-. injection Hr0 as <- <-. by apply (Hfinal _ eq_refl).
    - destruct (bool_decide (forks info = ∅));
        injection Hr0 as <- <-; by apply (Hfinal _ eq_refl). }
  destruct Hgoal as [-> Hgoal]. split; [done|]. destruct r as [pos|e]; [|done].
  destruct Hgoal as (Hne & Ht & Hbt). split; [done|]. split; [done|].
  intros _. rewrite Ht, Hbt.
  split; [done|]. split; [done|]. split; [exact Hbottom|].
  intros _. exists info. split; [done|]. lia.
Qed.

End Position.

(** ** Concrete runs, with [kNoBranch = 0] and [kGenesisBranch = 1] *)

(** The genesis branch, and a branch of one tipset, [[9]] at height 5,
    that waits for its parent [[8]]. *)
Definition waiting_state : State :=
  mkState
    (<[1%N := mkBranchInfo 1 [7] 0 [7] 0 0 [] true ∅]>
       {[2%N := mkBranchInfo 2 [9] 5 [9] 5 0 [8] false ∅]})
    (<[1 := 1%N]> {[2 := 2%N]})
    (<[[7] := 1%N]> {[[9] := 2%N]}) {[[8] := 2%N]} 1%N ∅ 0 0.

Lemma forked_state_ids i :
  is_Some (all_branches_ forked_state !! i) → 0 < i.
Proof.
  intros [q Hi]. cbn in Hi.
  repeat (apply lookup_insert_Some in Hi as [[<- _]|[_ Hi]]; [done|]).
  by apply lookup_singleton_Some in Hi as [<- _].
Qed.

Lemma forked_state_forks c :
  c ∈ ({[2; 3]} : gset Z) →
  ∃ q, all_branches_ forked_state !! c = Some q ∧ q ≠ null ∧ q ≠ 1%N
       ∧ is_Some (heap forked_state !! q).
Proof.
  intros Hc. apply elem_of_union in Hc as [Hc|Hc];
    apply elem_of_singleton in Hc as ->.
  - exists 2%N. repeat split; try done; by eexists.
  - exists 3%N. repeat split; try done; by eexists.
Qed.

(** The genesis branch of [forked_state], heights 0 to 3, is split above
    height 1. *)
Lemma splitBranch_splits_witness :
  ∃ s',
    splitBranch 0 [1] [2] 2 (mkRename 1 4 1 true) forked_state = Done tt s'
    ∧ info_of s' 1 = Some (mkBranchInfo 1 [1] 1 [0] 0 0 [] true {[4]})
    ∧ info_of s' 4 = Some (mkBranchInfo 4 [3] 3 [2] 0 1 [] true {[2; 3]})
    ∧ info_of s' 2 = Some (mkBranchInfo 2 [15] 5 [14] 4 4 [3] true ∅)
    ∧ info_of s' 3 = Some (mkBranchInfo 3 [24] 4 [24] 4 4 [3] true ∅).
Proof.
  destruct (splitBranch_splits 0 forked_state [1] [2] 2 (mkRename 1 4 1 true)
              1%N (mkBranchInfo 1 [3] 3 [0] 0 0 [] true {[2; 3]}))
    as (s' & fork & Hrun & _ & Hall & Hold & Hnew & Hforks & _);
    try done; [exact forked_state_forks|].
  exists s'. split; [exact Hrun|]. split; [exact Hold|]. split; [exact Hnew|].
  unfold info_of. rewrite Hall. cbn [all_branches_ forked_state].
  rewrite !(lookup_insert_ne _ 4) by done.
  assert (H2 : all_branches_ forked_state !! 2 = Some 2%N) by done.
  assert (H3 : all_branches_ forked_state !! 3 = Some 3%N) by done.
  cbn [all_branches_ forked_state] in H2, H3. rewrite H2, H3.
  split.
  - rewrite (Hforks 2 2%N); [done| |done].
    apply elem_of_union. left. by apply elem_of_singleton.
  - rewrite (Hforks 3 3%N); [done| |done].
    apply elem_of_union. right. by apply elem_of_singleton.
Defined.

(** The tipset [[10]] of height 2 on the tipset [[8]] of height 1, which
    is inside the one branch of [linear_state]. *)
Lemma store_inside_branch_witness :
  let fresh := newBranchId 1 linear_state in
  let split := mkRename 1 fresh 1 true in
  let pos := mkPos fresh 0 1 (Some split) in
  findStorePosition 0 1 (mkTipset 2 [10]) [8] 1 1 linear_state
  = Done (Ok pos) linear_state
  ∧ ∃ s', splitBranch 0 [8] [9] 2 split linear_state = Done tt s'
          ∧ storeTipset 0 1 1 (mkTipset 2 [10]) [8] pos s' = Abort.
Proof.
  apply (store_inside_branch 0 1 1 (mkTipset 2 [10]) [8] 1 1 [8] [9] 2
           linear_state 1%N (mkBranchInfo 1 [9] 2 [7] 0 0 [] true ∅));
    try done.
  intros i [q Hi]. cbn in Hi. by apply lookup_singleton_Some in Hi as [<- _].
Defined.

(** The tipset [[8]] of height 4, for which the branch 2 of
    [waiting_state] waits, on a parent [[6]] that is not recorded. *)
Lemma store_below_unloaded_root_witness :
  let pos := mkPos 2 2 0 None in
  findStorePosition 0 1 (mkTipset 4 [8]) [6] 0 3 waiting_state
  = Done (Ok pos) waiting_state
  ∧ storeTipset 0 1 0 (mkTipset 4 [8]) [6] pos waiting_state
    = Done (mkChanges [] [])
        (mkState
           (<[2%N := mkBranchInfo 2 [9] 5 [8] 4 0 [6] false ∅]>
              (heap waiting_state))
           (all_branches_ waiting_state) (heads_ waiting_state)
           (<[[6] := 2%N]> (delete [8] (unloaded_roots_ waiting_state)))
           (genesis_branch_ waiting_state) (current_chain_ waiting_state)
           (current_top_branch_ waiting_state)
           (current_height_ waiting_state)).
Proof.
  apply (store_below_unloaded_root 0 1 0 (mkTipset 4 [8]) [6] 3 waiting_state
           2%N (mkBranchInfo 2 [9] 5 [9] 5 0 [8] false ∅)); done.
Defined.

(** The tipset [[30]] of height 4 on the top [[3]] of the genesis branch
    of [forked_state], which has two forks. *)
Lemma store_fork_on_branch_top_witness :
  let fresh := newBranchId 1 forked_state in
  let pos := mkPos fresh 0 1 None in
  let new := fresh_ptr (heap forked_state) in
  findStorePosition 0 1 (mkTipset 4 [30]) [3] 1 3 forked_state
  = Done (Ok pos) forked_state
  ∧ storeTipset 0 1 1 (mkTipset 4 [30]) [3] pos forked_state
    = Done (mkChanges [] [[30]])
        (mkState
           (<[new := mkBranchInfo fresh [30] 4 [30] 4 1 [3] true ∅]>
              (<[1%N := set_forks ({[fresh]} ∪ {[2; 3]})
                          (mkBranchInfo 1 [3] 3 [0] 0 0 [] true {[2; 3]})]>
                 (heap forked_state)))
           (<[fresh := new]> (all_branches_ forked_state))
           (<[[30] := new]> (heads_ forked_state))
           (<[[3] := new]> (unloaded_roots_ forked_state))
           (genesis_branch_ forked_state) (current_chain_ forked_state)
           (current_top_branch_ forked_state)
           (current_height_ forked_state)).
Proof.
  pose proof (store_fork_on_branch_top 0 1 0 (mkTipset 4 [30]) [3] 1
                forked_state 1%N
                (mkBranchInfo 1 [3] 3 [0] 0 0 [] true {[2; 3]})) as H.
  cbn [top_height height hash synced_to_genesis forks top id bottom_height]
    in H.
  apply H; try done. exact forked_state_ids.
Defined.

(** The tipset [[8]] of height 1 on the genesis tipset [[7]]: the branch 2
    of [waiting_state], which waits for it, is merged into the genesis
    branch. *)
Lemma store_joins_unloaded_root_witness :
  let pos := mkPos 1 2 1 (Some (mkRename 2 1 0 false)) in
  findStorePosition 0 1 (mkTipset 1 [8]) [7] 1 0 waiting_state
  = Done (Ok pos) waiting_state
  ∧ ∃ s',
      storeTipset 0 1 1 (mkTipset 1 [8]) [7] pos waiting_state
      = Done (mkChanges [] [[9]]) s'
      ∧ all_branches_ s' = delete 2 (all_branches_ waiting_state)
      ∧ heap s' !! 1%N = Some (mkBranchInfo 1 [9] 5 [7] 0 0 [] true ∅)
      ∧ heads_ s' = <[[9] := 1%N]> (delete [7] (heads_ waiting_state)).
Proof.
  destruct (store_joins_unloaded_root 0 1 0 (mkTipset 1 [8]) [7] 1
              waiting_state 2%N (mkBranchInfo 2 [9] 5 [9] 5 0 [8] false ∅)
              1%N (mkBranchInfo 1 [7] 0 [7] 0 0 [] true ∅))
    as (Hpos & s' & Hrun & Hall & Hptr & _ & Hheads & _); try done.
  split; [exact Hpos|]. exists s'. by repeat split.
Defined.

(** The tipset [[30]] of height 4 on the top of the genesis branch of
    [forked_state]. *)
Lemma findStorePosition_outcome_witness :
  findStorePosition 0 1 (mkTipset 4 [30]) [3] 1 3 forked_state
  = Done (Ok (mkPos 4 0 1 None)) forked_state
  ∧ forked_state = forked_state
  ∧ assigned_branch (mkPos 4 0 1 None) ≠ 0
  ∧ (height (mkTipset 4 [30]) = 0 →
     mkPos 4 0 1 None = mkPos 1 0 0 None
     ∧ all_branches_ forked_state = ∅)
  ∧ (height (mkTipset 4 [30]) ≠ 0 →
     on_top_of_branch (mkPos 4 0 1 None) = 1
     ∧ 3 < height (mkTipset 4 [30])
     ∧ (at_bottom_of_branch (mkPos 4 0 1 None) = 0
        ↔ unloaded_roots_ forked_state !! hash (mkTipset 4 [30]) = None)
     ∧ (1 ≠ 0 →
        ∃ b, info_of forked_state 1 = Some b
             ∧ bottom_height b ≤ 3 ≤ top_height b)).
Proof.
  assert (H : findStorePosition 0 1 (mkTipset 4 [30]) [3] 1 3 forked_state
              = Done (Ok (mkPos 4 0 1 None)) forked_state)
    by (vm_compute; reflexivity).
  split; [exact H|].
  apply (findStorePosition_outcome 0 1 _ _ _ _ _ _ _ ltac:(lia)
           forked_state_ids ltac:(done) H).
Defined.

End BranchLinkFacts.

(** * The heads and the synced flags after [init] *)
Module BranchInitFacts.
Import Branches BranchesFacts BranchQueryFacts BranchStoreFacts.

Lemma ordered_ids_elem (X : gset Z) c : c ∈ ordered_ids X ↔ c ∈ X.
Proof. unfold ordered_ids. by rewrite merge_sort_Permutation, elem_of_elements. Qed.

(** [subtree s p r]: the object [r] is [p], or is reached from [p] along
    the forks. *)
Inductive subtree (s : State) : N → N → Prop :=
| subtree_self p : subtree s p p
| subtree_fork p b c q r :
    heap s !! p = Some b → c ∈ forks b → all_branches_ s !! c = Some q →
    subtree s q r → subtree s p r.

(** [leaf_at s q h]: the object [q] is a branch without forks whose top is
    [h]. *)
Definition leaf_at (s : State) (q : N) (h : TipsetHash) : Prop :=
  ∃ b, heap s !! q = Some b ∧ forks b = ∅ ∧ top b = h.

(** Two states that differ in [heads_] and in the [synced_to_genesis]
    flags of their objects only. *)
Definition same_forks (s s' : State) : Prop :=
  all_branches_ s' = all_branches_ s
  ∧ unloaded_roots_ s' = unloaded_roots_ s
  ∧ genesis_branch_ s' = genesis_branch_ s
  ∧ current_chain_ s' = current_chain_ s
  ∧ current_top_branch_ s' = current_top_branch_ s
  ∧ current_height_ s' = current_height_ s
  ∧ ∀ q, set_synced_to_genesis false <$> heap s' !! q
         = set_synced_to_genesis false <$> heap s !! q.

Lemma same_forks_refl s : same_forks s s.
Proof. by repeat split. Qed.

Lemma same_forks_sym s s' : same_forks s s' → same_forks s' s.
Proof. intros (? & ? & ? & ? & ? & ? & ?). by repeat split. Qed.

Lemma same_forks_trans s1 s2 s3 :
  same_forks s1 s2 → same_forks s2 s3 → same_forks s1 s3.
Proof.
  intros (? & ? & ? & ? & ? & ? & Hq1) (? & ? & ? & ? & ? & ? & Hq2).
  repeat split; try congruence; intros q; by rewrite Hq2, Hq1.
Qed.

Lemma same_forks_lookup s s' q b :
  same_forks s s' → heap s !! q = Some b →
  ∃ b', heap s' !! q = Some b'
        ∧ set_synced_to_genesis false b' = set_synced_to_genesis false b.
Proof.
  intros (_ & _ & _ & _ & _ & _ & H) Hq. specialize (H q). rewrite Hq in H.
  destruct (heap s' !! q) as [b'|]; [|done]. exists b'. split; [done|].
  cbn in H. congruence.
Qed.

Lemma unflag_fields b b' :
  set_synced_to_genesis false b' = set_synced_to_genesis false b →
  id b' = id b ∧ top b' = top b ∧ top_height b' = top_height b
  ∧ bottom b' = bottom b ∧ bottom_height b' = bottom_height b
  ∧ parent b' = parent b ∧ parent_hash b' = parent_hash b
  ∧ forks b' = forks b.
Proof. intros [= ? ? ? ? ? ? ? ?]. by repeat split. Qed.

Lemma subtree_same s s' p r :
  same_forks s s' → subtree s p r → subtree s' p r.
Proof.
  intros Hsame H. induction H as [p|p b c q r Hp Hc Hq _ IH]; [constructor|].
  destruct (same_forks_lookup _ _ _ _ Hsame Hp) as (b' & Hp' & Hb').
  apply unflag_fields in Hb' as (_ & _ & _ & _ & _ & _ & _ & Hforks).
  apply (subtree_fork s' p b' c q r); try done.
  - by rewrite Hforks.
  - destruct Hsame as [-> _]. done.
Qed.

Lemma leaf_at_same s s' q h : same_forks s s' → leaf_at s q h → leaf_at s' q h.
Proof.
  intros Hsame (b & Hq & Hforks & Htop).
  destruct (same_forks_lookup _ _ _ _ Hsame Hq) as (b' & Hq' & Hb').
  apply unflag_fields in Hb' as (_ & Ht & _ & _ & _ & _ & _ & Hf).
  exists b'. split; [done|]. split; congruence.
Qed.

Lemma subtree_trans s p q r : subtree s p q → subtree s q r → subtree s p r.
Proof.
  intros H1 H2. induction H1 as [p|p b c q0 q Hp Hc Hq0 _ IH]; [done|].
  eapply subtree_fork; eauto.
Qed.

(** [marked s s' R synced changes c]: from [s] to [s'], the objects of [R]
    had their flag set to [synced] and no other object changed; the
    branches without forks among them were made heads, and were added to
    the changes if [synced]. *)
Definition marked (s s' : State) (R : N → Prop) (synced : bool)
    (changes c : HeadChanges) : Prop :=
  same_forks s s'
  ∧ (∀ q b', R q → heap s' !! q = Some b' → synced_to_genesis b' = synced)
  ∧ (∀ q, heap s' !! q = heap s !! q ∨ R q)
  ∧ (∀ h, heads_ s' !! h = heads_ s !! h
          ∨ ∃ q, heads_ s' !! h = Some q ∧ R q ∧ leaf_at s q h)
  ∧ (∀ q h, R q → leaf_at s q h →
            ∃ q', heads_ s' !! h = Some q' ∧ R q' ∧ leaf_at s q' h)
  ∧ removed c = removed changes
  ∧ ∃ tops, added c = added changes ++ tops
            ∧ if synced
              then ∀ h, h ∈ tops ↔ ∃ q, R q ∧ leaf_at s q h
              else tops = [].

Lemma marked_nothing s synced changes :
  marked s s (λ _, False) synced changes changes.
Proof.
  split; [apply same_forks_refl|]. split; [done|]. split; [by left|].
  split; [by left|]. split; [done|]. split; [done|].
  exists []. split; [by rewrite app_nil_r|]. destruct synced; [|done].
  intros h. split; [by intros ?%elem_of_nil|by intros (? & [] & _)].
Qed.

Lemma marked_iff s s' (R R' : N → Prop) synced changes c :
  (∀ q, R q ↔ R' q) → marked s s' R synced changes c →
  marked s s' R' synced changes c.
Proof.
  intros HR (Hsame & Hflag & Hheap & Hheads & Hleaf & Hrem & tops & Hadd & Htops).
  split; [done|]. split; [|split; [|split; [|split; [|split; [done|]]]]].
  - intros q b' Hq. apply Hflag. by apply HR.
  - intros q. destruct (Hheap q) as [?|?]; [by left|right; by apply HR].
  - intros h. destruct (Hheads h) as [?|(q & ? & ? & ?)]; [by left|].
    right. exists q. split; [done|]. split; [by apply HR|done].
  - intros q h Hq Hl. destruct (Hleaf q h) as (q' & ? & ? & ?);
      [by apply HR|done|]. exists q'. split; [done|]. split; [by apply HR|done].
  - exists tops. split; [done|]. destruct synced; [|done].
    intros h. rewrite Htops. split; intros (q & ? & ?); exists q;
      (split; [by apply HR|done]).
Qed.

Lemma marked_trans s s1 s2 (R1 R2 : N → Prop) synced changes c1 c2 :
  marked s s1 R1 synced changes c1 → marked s1 s2 R2 synced c1 c2 →
  marked s s2 (λ q, R1 q ∨ R2 q) synced changes c2.
Proof.
  intros (Hsame1 & Hflag1 & Hheap1 & Hheads1 & Hleaf1 & Hrem1 & tops1 & Hadd1
          & Htops1)
         (Hsame2 & Hflag2 & Hheap2 & Hheads2 & Hleaf2 & Hrem2 & tops2 & Hadd2
          & Htops2).
  pose proof (same_forks_sym _ _ Hsame1) as Hback.
  split; [by eapply same_forks_trans|].
  split; [|split; [|split; [|split; [|split; [congruence|]]]]].
  - intros q b' [Hq|Hq] Hb'; [|by eapply Hflag2].
    destruct (Hheap2 q) as [Heq|Hq2]; [|by eapply Hflag2].
    rewrite Heq in Hb'. by eapply Hflag1.
  - intros q. destruct (Hheap2 q) as [Heq|?]; [|by right; right].
    destruct (Hheap1 q) as [Heq1|?]; [left; congruence|by right; left].
  - intros h. destruct (Hheads2 h) as [Heq|(q & Hq & HR & Hl)].
    + rewrite Heq. destruct (Hheads1 h) as [?|(q & ? & ? & ?)]; [by left|].
      right. exists q. auto.
    + right. exists q. split; [done|]. split; [by right|].
      by apply (leaf_at_same s1 s).
  - intros q h [Hq|Hq] Hl.
    + destruct (Hleaf1 q h Hq Hl) as (q' & Hq' & HR' & Hl').
      destruct (Hheads2 h) as [Heq|(q2 & Hq2 & HR2 & Hl2)].
      * exists q'. rewrite Heq. auto.
      * exists q2. split; [done|]. split; [by right|].
        by apply (leaf_at_same s1 s).
    + destruct (Hleaf2 q h Hq) as (q' & Hq' & HR' & Hl');
        [by apply (leaf_at_same s s1)|].
      exists q'. split; [done|]. split; [by right|].
      by apply (leaf_at_same s1 s).
  - exists (tops1 ++ tops2). split; [by rewrite Hadd2, Hadd1, app_assoc|].
    destruct synced; [|by rewrite Htops1, Htops2].
    intros h. rewrite elem_of_app, Htops1, Htops2. split.
    + intros [(q & ? & ?)|(q & ? & ?)]; exists q; (split; [auto|]); [done|].
      by apply (leaf_at_same s1 s).
    + intros (q & [?|?] & Hl); [left|right]; exists q; (split; [done|]);
        [done|]. by apply (leaf_at_same s s1).
Qed.

(** ** [updateHeads] *)

Lemma marked_flag s branch b0 synced changes :
  heap s !! branch = Some b0 → forks b0 ≠ ∅ →
  marked s (set_heap (<[branch := set_synced_to_genesis synced b0]> (heap s)) s)
    (λ q, q = branch) synced changes changes.
Proof.
  intros Hb Hforks. unfold set_heap.
  split; [|split; [|split; [|split; [|split; [|split; [done|]]]]]];
    cbn [heap heads_].
  - repeat split; try done. intros q. cbn [heap].
    destruct (decide (q = branch)) as [->|Hq].
    + by rewrite lookup_insert_eq, Hb.
    + by rewrite lookup_insert_ne.
  - intros q b' -> Hb'. rewrite lookup_insert_eq in Hb'. by injection Hb' as <-.
  - intros q. destruct (decide (q = branch)) as [->|Hq]; [by right|].
    left. by rewrite lookup_insert_ne.
  - by left.
  - intros q h -> (b & Hb' & Hleaf & _). congruence.
  - exists []. split; [by rewrite app_nil_r|]. destruct synced; [|done].
    intros h. split; [by intros ?%elem_of_nil|].
    intros (q & -> & b & Hb' & Hleaf & _). congruence.
Qed.

Lemma marked_leaf s branch b0 synced changes :
  heap s !! branch = Some b0 → forks b0 = ∅ →
  marked s
    (set_heads (<[top b0 := branch]> (heads_ s))
       (set_heap (<[branch := set_synced_to_genesis synced b0]> (heap s)) s))
    (subtree s branch) synced changes
    (if synced then mkChanges (removed changes) (added changes ++ [top b0])
     else changes).
Proof.
  intros Hb Hforks.
  assert (Hself : ∀ q, subtree s branch q → q = branch).
  { intros q Hq. inversion Hq as [|p b c q0 r Hp Hc _ _]; [done|subst].
    rewrite Hb in Hp. injection Hp as <-. rewrite Hforks in Hc.
    by apply not_elem_of_empty in Hc. }
  assert (Hleaf : leaf_at s branch (top b0)) by (by exists b0).
  unfold set_heap, set_heads.
  split; [|split; [|split; [|split; [|split; [|split]]]]];
    cbn [heap heads_].
  - repeat split; try done. intros q. cbn [heap].
    destruct (decide (q = branch)) as [->|Hq].
    + by rewrite lookup_insert_eq, Hb.
    + by rewrite lookup_insert_ne.
  - intros q b' Hq Hb'. rewrite (Hself q Hq), lookup_insert_eq in Hb'.
    by injection Hb' as <-.
  - intros q. destruct (decide (q = branch)) as [->|Hq];
      [right; constructor|]. left. by rewrite lookup_insert_ne.
  - intros h. destruct (decide (h = top b0)) as [->|Hh].
    + right. exists branch. rewrite lookup_insert_eq.
      split; [done|]. split; [constructor|done].
    + left. by rewrite lookup_insert_ne.
  - intros q h Hq (b & Hb' & Hf & Ht). rewrite (Hself q Hq) in Hb'.
    assert (b = b0) as -> by congruence. subst h.
    exists branch. rewrite lookup_insert_eq.
    split; [done|]. split; [constructor|done].
  - by destruct synced.
  - destruct synced.
    + exists [top b0]. split; [done|]. intros h. split.
      * intros ->%list_elem_of_singleton. exists branch.
        split; [constructor|done].
      * intros (q & Hq & b & Hb' & _ & Ht). rewrite (Hself q Hq) in Hb'.
        assert (b = b0) as -> by congruence. subst h.
        by apply list_elem_of_singleton.
    + exists []. by rewrite app_nil_r.
Qed.

(** [updateHeads] sets the flag of the branch and of every branch reached
    from it along the forks, and makes the branches without forks among
    them heads. *)
Lemma updateHeads_marks fuel :
  ∀ branch synced changes s c s',
    updateHeads fuel branch synced changes s = Done c s' →
    marked s s' (subtree s branch) synced changes c.
Proof.
  induction fuel as [|fuel IH]; intros branch synced changes s c s' H; [done|].
  cbn [updateHeads] in H.
  apply bind_done in H as (? & s1 & Hupd & H).
  unfold update in Hupd. destruct (heap s !! branch) as [b0|] eqn:Hb0; [|done].
  injection Hupd as _ <-.
  apply bind_done in H as (b & s2 & Hb & H).
  apply deref_done in Hb as [Hb ->].
  cbn [heap set_heap] in Hb. rewrite lookup_insert_eq in Hb.
  injection Hb as <-. cbn [forks set_synced_to_genesis top] in H.
  case_bool_decide as Hforks.
  { apply bind_done in H as (? & s3 & Hmod & H).
    injection Hmod as _ <-. injection H as <- <-.
    by apply marked_leaf. }
  pose proof (marked_flag s branch b0 synced changes Hb0 Hforks) as Hfirst.
  set (s1 := set_heap _ s) in *. clearbody s1.
  assert (Hloop :
    marked s1 s'
      (λ r, ∃ i p, i ∈ ordered_ids (forks b0) ∧ all_branches_ s1 !! i = Some p
                   ∧ subtree s1 p r) synced changes c).
  { clear Hfirst. revert changes s1 H. generalize (ordered_ids (forks b0)).
    intros ids. induction ids as [|i ids IHids]; intros changes s1 H.
    { injection H as <- <-.
      apply (marked_iff _ _ (λ _, False)); [|apply marked_nothing].
      intros q. split; [done|]. by intros (? & ? & ?%elem_of_nil & _). }
    apply bind_done in H as (fork & s3 & Hfork & H).
    injection Hfork as <- <-.
    apply bind_done in H as (? & s3 & Ha & H).
    apply assert_done in Ha as [Hnull ->].
    apply bind_done in H as (f & s3 & Hf & H). apply deref_done in Hf as [_ ->].
    apply bind_done in H as (? & s3 & Ha & H). apply assert_done in Ha as [_ ->].
    apply bind_done in H as (changes' & s3 & Hrec & H).
    apply IH in Hrec. apply IHids in H.
    pose proof Hrec as [Hsame _].
    assert (Hi : all_branches_ s1 !! i = Some (getBranch s1 i)).
    { unfold getBranch in *. destruct (all_branches_ s1 !! i); [done|].
      by rewrite bool_decide_eq_true_2 in Hnull. }
    eapply marked_iff; [|exact (marked_trans _ _ _ _ _ _ _ _ _ Hrec H)].
    intros q. cbn beta. split.
    - intros [Hq|(j & p & Hj & Hp & Hq)].
      + exists i, (getBranch s1 i). split; [by left|]. done.
      + exists j, p. split; [by right|]. pose proof Hsame as [Hall _].
        split; [by rewrite <- Hall|].
        by apply (subtree_same s3 s1); [apply same_forks_sym|].
    - intros (j & p & Hj & Hp & Hq). apply elem_of_cons in Hj as [->|Hj].
      + left. congruence.
      + right. exists j, p. split; [done|]. pose proof Hsame as [Hall _].
        split; [by rewrite Hall|]. by apply (subtree_same s1 s3). }
  pose proof Hfirst as [Hsame _].
  eapply marked_iff; [|exact (marked_trans _ _ _ _ _ _ _ _ _ Hfirst Hloop)].
  intros q. cbn beta. split.
  - intros [->|(i & p & Hi & Hp & Hq)]; [constructor|].
    pose proof Hsame as [Hall _].
    apply (subtree_fork s branch b0 i p q); [done| | |].
    + by apply ordered_ids_elem.
    + by rewrite <- Hall.
    + by apply (subtree_same s1 s); [apply same_forks_sym|].
  - intros Hq. inversion Hq as [|p b i q0 r Hp Hi Hq0 Hsub]; subst; [by left|].
    right. exists i, q0. assert (b = b0) as -> by congruence.
    pose proof Hsame as [Hall _].
    split; [by apply ordered_ids_elem|]. split; [by rewrite Hall|].
    by apply (subtree_same s s1).
Qed.

(** ** The first loop of [init] *)

(** Two states whose graphs differ in the forks only. *)
Definition same_but_forks (s s' : State) : Prop :=
  all_branches_ s' = all_branches_ s ∧ heads_ s' = heads_ s
  ∧ ∀ q, set_forks ∅ <$> heap s' !! q = set_forks ∅ <$> heap s !! q.

Lemma same_but_forks_refl s : same_but_forks s s.
Proof. by repeat split. Qed.

Lemma same_but_forks_trans s1 s2 s3 :
  same_but_forks s1 s2 → same_but_forks s2 s3 → same_but_forks s1 s3.
Proof.
  intros (? & ? & Hq1) (? & ? & Hq2).
  repeat split; try congruence; intros q; by rewrite Hq2, Hq1.
Qed.

Lemma same_but_forks_lookup s s' q b :
  same_but_forks s s' → heap s !! q = Some b →
  ∃ b', heap s' !! q = Some b' ∧ set_forks ∅ b' = set_forks ∅ b.
Proof.
  intros (_ & _ & H) Hq. specialize (H q). rewrite Hq in H.
  destruct (heap s' !! q) as [b'|]; [|done]. exists b'. split; [done|].
  cbn in H. congruence.
Qed.

Lemma same_but_forks_lookup_inv s s' q b' :
  same_but_forks s s' → heap s' !! q = Some b' →
  ∃ b, heap s !! q = Some b ∧ set_forks ∅ b' = set_forks ∅ b.
Proof.
  intros (_ & _ & H) Hq. specialize (H q). rewrite Hq in H.
  destruct (heap s !! q) as [b|]; [|done]. exists b. split; [done|].
  cbn in H. congruence.
Qed.

Section Facts.

Variables (kNoBranch kGenesisBranch : BranchId).

(** The forks a branch has after the first loop of [init] over the records
    [l]: those it was loaded with, and the ids of the records of [l] that
    name it as parent. *)
Lemma init_validate_forks l :
  ∀ s s',
    init_validate kNoBranch kGenesisBranch l s = Done None s' →
    same_but_forks s s'
    ∧ ∀ p b b', heap s !! p = Some b → heap s' !! p = Some b' →
        ∀ c, c ∈ forks b'
             ↔ c ∈ forks b
               ∨ ∃ pc bc, (c, pc) ∈ l ∧ heap s' !! pc = Some bc
                          ∧ parent bc ≠ kNoBranch
                          ∧ all_branches_ s' !! parent bc = Some p.
Proof.
  induction l as [|[i ptr] l IH]; intros s s' H.
  { injection H as <-. split; [apply same_but_forks_refl|].
    intros p b b' Hb Hb' c. assert (b' = b) as -> by congruence.
    split; [by left|]. by intros [?|(? & ? & ?%elem_of_nil & _)]. }
  cbn [init_validate] in H.
  assert (Hfailed : ∀ e s0,
    (do _ <- clear kNoBranch ; ret (Some e)) s0
    ≠ Done (@None Error) s') by done.
  case_bool_decide as Hnull; [by apply Hfailed in H|].
  apply bind_done in H as (b & s1 & Hb & H). apply deref_done in Hb as [Hb ->].
  destruct (negb (bool_decide (i = id b)) || bool_decide (i = kNoBranch))
    eqn:Hid; [by apply Hfailed in H|].
  apply orb_false_elim in Hid as [Hid Hi0].
  apply negb_false_iff, bool_decide_eq_true in Hid.
  case_bool_decide as Hheights; [by apply Hfailed in H|].
  (* a step that leaves the heap as it is, for a record without parent *)
  assert (Hrest : ∀ s2,
    parent b = kNoBranch → heap s2 = heap s →
    all_branches_ s2 = all_branches_ s → heads_ s2 = heads_ s →
    init_validate kNoBranch kGenesisBranch l s2 = Done None s' →
    same_but_forks s s'
    ∧ ∀ p b0 b', heap s !! p = Some b0 → heap s' !! p = Some b' →
        ∀ c, c ∈ forks b'
             ↔ c ∈ forks b0
               ∨ ∃ pc bc, (c, pc) ∈ (i, ptr) :: l ∧ heap s' !! pc = Some bc
                          ∧ parent bc ≠ kNoBranch
                          ∧ all_branches_ s' !! parent bc = Some p).
  { intros s2 Hroot Hheap Hall Hheads Hrun.
    destruct (IH s2 s' Hrun) as (Hsame & Hforks).
    assert (Hsame' : same_but_forks s s').
    { destruct Hsame as (Ha & Hh & Hq).
      repeat split; try congruence; intros q; by rewrite Hq, Hheap. }
    split; [done|]. intros p b0 b' Hb0 Hb' c.
    rewrite <- Hheap in Hb0. rewrite (Hforks p b0 b' Hb0 Hb' c).
    split; (intros [?|(pc & bc & Hin & Hbc & Hpar & Hp)]; [by left|right]).
    - exists pc, bc. split; [by right|done].
    - apply elem_of_cons in Hin as [[= -> ->]|Hin]; [|by exists pc, bc].
      destruct (same_but_forks_lookup _ _ _ _ Hsame' Hb) as (b1 & Hb1 & Heq).
      assert (bc = b1) as -> by congruence.
      injection Heq as _ _ _ _ _ Hparent _ _. congruence. }
  destruct (negb (bool_decide (parent b = kNoBranch))) eqn:Hparent.
  - apply negb_true_iff, bool_decide_eq_false in Hparent.
    case_bool_decide as Hself; [by apply Hfailed in H|].
    apply bind_done in H as (it & s1 & Hit & H). injection Hit as <- <-.
    destruct (all_branches_ s !! parent b) as [pp|] eqn:Hpp;
      [|by apply Hfailed in H].
    apply bind_done in H as (pb & s1 & Hpb & H).
    apply deref_done in Hpb as [Hpb ->].
    case_bool_decide as Hlow; [by apply Hfailed in H|].
    apply bind_done in H as (? & s2 & Hupd & H).
    unfold update in Hupd. rewrite Hpb in Hupd. injection Hupd as _ <-.
    destruct (IH _ s' H) as (Hsame & Hforks).
    assert (Hstep : same_but_forks s
              (set_heap (<[pp := set_forks ({[id b]} ∪ forks pb) pb]> (heap s))
                 s)).
    { repeat split; try done. intros q. cbn [heap set_heap].
      destruct (decide (q = pp)) as [->|Hq].
      - by rewrite lookup_insert_eq, Hpb.
      - by rewrite lookup_insert_ne. }
    pose proof (same_but_forks_trans _ _ _ Hstep Hsame) as Hsame'.
    split; [done|]. intros p b0 b' Hb0 Hb' c.
    pose proof Hsame' as (Hall & _).
    destruct (same_but_forks_lookup _ _ _ _ Hsame' Hb) as (b1 & Hb1 & Heq).
    assert (Hb1par : parent b1 = parent b)
      by (by injection Heq as _ _ _ _ _ ? _ _).
    destruct (decide (p = pp)) as [->|Hp].
    + assert (b0 = pb) as -> by congruence.
      rewrite (Hforks pp (set_forks ({[id b]} ∪ forks pb) pb) b');
        [|cbn [heap set_heap]; apply lookup_insert_eq|done].
      cbn [forks set_forks]. rewrite elem_of_union, elem_of_singleton. split.
      * intros [[->|?]|(pc & bc & Hin & ?)]; [right|by left|right].
        -- exists ptr, b1. split; [rewrite <- Hid; by left|].
           split; [done|]. split; [congruence|]. by rewrite Hb1par, Hall.
        -- exists pc, bc. split; [by right|done].
      * intros [?|(pc & bc & Hin & Hrest')]; [by left; right|].
        apply elem_of_cons in Hin as [[= -> ->]|Hin]; [by left; left|].
        right. by exists pc, bc.
    + rewrite (Hforks p b0 b');
        [|cbn [heap set_heap]; by rewrite lookup_insert_ne|done].
      split; (intros [?|(pc & bc & Hin & Hbc & Hpar & Hpc)]; [by left|right]).
      * exists pc, bc. split; [by right|done].
      * apply elem_of_cons in Hin as [[= -> ->]|Hin]; [|by exists pc, bc].
        assert (bc = b1) as -> by congruence.
        rewrite Hb1par, Hall in Hpc. congruence.
  - apply negb_false_iff, bool_decide_eq_true in Hparent.
    case_bool_decide as Hgenesis.
    + apply bind_done in H as (? & s2 & Hmod & H). injection Hmod as _ <-.
      by apply (Hrest (set_genesis_branch ptr s)).
    + destruct (is_empty_hash (parent_hash b)); [done|].
      apply bind_done in H as (? & s2 & Hmod & H). injection Hmod as _ <-.
      by apply (Hrest (set_unloaded_roots
                         (<[parent_hash b := ptr]> (unloaded_roots_ s)) s)).
Qed.

End Facts.

(** ** The forks and the parents of a loaded graph *)

Section Tree.

Variables (s : State) (genesis : BranchId) (g : N).

(** Every record is kept under the id it holds, and the forks of a branch
    are the branches that name it as parent. *)
Hypothesis record_ids :
  ∀ i p b, all_branches_ s !! i = Some p → heap s !! p = Some b → id b = i.
Hypothesis forks_children :
  ∀ i b c, info_of s i = Some b →
           (c ∈ forks b ↔ ∃ bc, info_of s c = Some bc ∧ parent bc = i).
Hypothesis genesis_recorded : all_branches_ s !! genesis = Some g.

Lemma info_of_Some i b :
  info_of s i = Some b ↔ ∃ p, all_branches_ s !! i = Some p ∧ heap s !! p = Some b.
Proof.
  unfold info_of. destruct (all_branches_ s !! i) as [p|].
  - split; [by exists p|]. by intros (? & [= <-] & ?).
  - split; [done|]. by intros (? & ? & _).
Qed.

Lemma recorded_once i j p b :
  all_branches_ s !! i = Some p → all_branches_ s !! j = Some p →
  heap s !! p = Some b → i = j.
Proof.
  intros Hi Hj Hb. rewrite <- (record_ids i p b Hi Hb).
  by apply (record_ids j p b).
Qed.

Lemma subtree_is_ancestor p r :
  subtree s p r →
  ∀ ip ir t, all_branches_ s !! ip = Some p → all_branches_ s !! ir = Some r →
             is_Some (heap s !! r) →
             ancestor s ip t → ancestor s ir t.
Proof.
  induction 1 as [p|p b c q r Hp Hc Hq _ IH]; intros ip ir t Hip Hir [br Hr] Ht.
  - by rewrite <- (recorded_once ip ir p br Hip Hir Hr).
  - assert (Hinfo : info_of s ip = Some b) by (apply info_of_Some; eauto).
    apply (forks_children ip b c Hinfo) in Hc as (bc & Hbc & Hpar).
    apply (IH c ir t); [done|done|by exists br|].
    apply (ancestor_up s c bc t); [done|by rewrite Hpar].
Qed.

Lemma ancestor_is_subtree a t :
  ancestor s a t →
  ∀ pa pt, all_branches_ s !! a = Some pa → all_branches_ s !! t = Some pt →
           subtree s pt pa.
Proof.
  induction 1 as [a b Ha|a b t Ha Hup IH]; intros pa pt Hpa Hpt.
  - assert (pa = pt) as -> by congruence. constructor.
  - destruct (ancestor_known _ _ _ Hup) as [bp Hbp].
    pose proof Hbp as Hbp'.
    apply info_of_Some in Hbp' as (pp & Hpp & Hbpp).
    apply (subtree_trans s pt pp pa); [by apply IH|].
    apply (subtree_fork s pp bp a pa pa); [done| |done|constructor].
    apply (forks_children (parent b) bp a Hbp). by exists b.
Qed.

Lemma subtree_recorded r :
  subtree s g r → ∃ i, all_branches_ s !! i = Some r.
Proof.
  assert (H : ∀ p r, subtree s p r → (∃ i, all_branches_ s !! i = Some p) →
                     ∃ i, all_branches_ s !! i = Some r).
  { induction 1 as [p|p b c q r' Hp Hc Hq _ IH]; [done|].
    intros _. apply IH. by exists c. }
  intros Hr. apply (H g r Hr). by exists genesis.
Qed.

(** The branches reached from the genesis branch along the forks are the
    branches that have the genesis branch as an ancestor. *)
Lemma subtree_ancestor i p b :
  all_branches_ s !! i = Some p → heap s !! p = Some b →
  is_Some (heap s !! g) →
  (subtree s g p ↔ ancestor s i genesis).
Proof.
  intros Hi Hp [bg Hg]. split.
  - intros Hsub.
    apply (subtree_is_ancestor g p Hsub genesis i genesis); try done.
    apply (ancestor_self s genesis bg). apply info_of_Some. eauto.
  - intros Hanc. by apply (ancestor_is_subtree i genesis Hanc).
Qed.

End Tree.

(** ** The last loop of [init] *)

Lemma init_unsynced_heads (l : list (Z * N)) :
  ∀ s r s',
    for_each l (λ '(_, ptr),
      do b <- deref ptr ;
      if bool_decide (forks b = ∅) && negb (synced_to_genesis b)
      then modify (λ s, set_heads (<[top b := ptr]> (heads_ s)) s)
      else ret tt) s = Done r s' →
    (∃ hd, s' = set_heads hd s)
    ∧ (∀ h, heads_ s' !! h = heads_ s !! h
            ∨ ∃ i q b, (i, q) ∈ l ∧ heads_ s' !! h = Some q
                       ∧ heap s !! q = Some b ∧ forks b = ∅
                       ∧ synced_to_genesis b = false ∧ top b = h)
    ∧ (∀ i q b, (i, q) ∈ l → heap s !! q = Some b → forks b = ∅ →
                synced_to_genesis b = false →
                ∃ i' q' b', (i', q') ∈ l ∧ heads_ s' !! top b = Some q'
                            ∧ heap s !! q' = Some b' ∧ forks b' = ∅
                            ∧ synced_to_genesis b' = false ∧ top b' = top b).
Proof.
  induction l as [|[i ptr] l IH]; intros s r s' H.
  { injection H as _ <-. split; [exists (heads_ s); by destruct s|].
    split; [by left|]. by intros ? ? ? ?%elem_of_nil. }
  cbn [for_each] in H.
  apply bind_done in H as (? & s1 & Hbody & H).
  apply bind_done in Hbody as (b & s2 & Hb & Hbody).
  apply deref_done in Hb as [Hb ->].
  apply IH in H as ([hd Hs'] & Hheads & Hleaves).
  destruct (bool_decide (forks b = ∅) && negb (synced_to_genesis b)) eqn:Hleaf.
  - injection Hbody as _ <-.
    apply andb_prop in Hleaf as [Hforks Hflag].
    apply bool_decide_eq_true in Hforks. apply negb_true_iff in Hflag.
    cbn [heap heads_ set_heads] in *.
    split; [exists hd; by rewrite Hs'|]. split.
    + intros h. destruct (Hheads h) as [Heq|(j & q & bq & Hin & Hrest)].
      * destruct (decide (h = top b)) as [->|Hh].
        -- right. exists i, ptr, b. rewrite Heq, lookup_insert_eq.
           split; [by left|done].
        -- left. by rewrite Heq, lookup_insert_ne.
      * right. exists j, q, bq. split; [by right|done].
    + intros j q bq Hin Hq Hf Hsy.
      assert (Hlater : ∀ h, (∃ i' q' b', (i', q') ∈ l ∧ heads_ s' !! h = Some q'
                              ∧ heap s !! q' = Some b' ∧ forks b' = ∅
                              ∧ synced_to_genesis b' = false ∧ top b' = h) →
                ∃ i' q' b', (i', q') ∈ (i, ptr) :: l
                            ∧ heads_ s' !! h = Some q'
                            ∧ heap s !! q' = Some b' ∧ forks b' = ∅
                            ∧ synced_to_genesis b' = false ∧ top b' = h).
      { intros h (i' & q' & b' & Hin' & Hrest). exists i', q', b'.
        split; [by right|done]. }
      apply elem_of_cons in Hin as [[= -> ->]|Hin].
      * assert (bq = b) as -> by congruence.
        destruct (Hheads (top b)) as [Heq|Hex]; [|by apply Hlater].
        exists i, ptr, b. rewrite Heq, lookup_insert_eq.
        split; [by left|done].
      * apply Hlater. by apply (Hleaves j q bq).
  - injection Hbody as _ <-. split; [by exists hd|]. split.
    + intros h. destruct (Hheads h) as [?|(j & q & bq & Hin & Hrest)];
        [by left|]. right. exists j, q, bq. split; [by right|done].
    + intros j q bq Hin Hq Hf Hsy.
      apply elem_of_cons in Hin as [[= -> ->]|Hin].
      * assert (bq = b) as -> by congruence.
        by rewrite Hf, Hsy, bool_decide_eq_true_2 in Hleaf.
      * destruct (Hleaves j q bq Hin Hq Hf Hsy) as (i' & q' & b' & Hin' & ?).
        exists i', q', b'. split; [by right|done].
Qed.

(** ** [init] *)

Section Init.

Variables (kNoBranch kGenesisBranch : BranchId).

(** What [init] makes of records that are loaded without forks and
    unsynced, and whose tops differ.  The forks of a branch are the
    branches that name it as parent.  The branches marked as synced are
    the genesis branch and the branches that have it as an ancestor.  The
    heads are the branches without forks, each under its top, synced or
    not; the heads reported as added are the synced ones, and none is
    reported as removed. *)
Theorem init_marks_genesis_tree fuel all_branches s changes s' :
  init kNoBranch kGenesisBranch fuel all_branches s = Done (Ok changes) s' →
  (∀ i p b, all_branches !! i = Some p → heap s !! p = Some b →
            synced_to_genesis b = false ∧ forks b = ∅) →
  (∀ i j p q b c, all_branches !! i = Some p → all_branches !! j = Some q →
                  heap s !! p = Some b → heap s !! q = Some c →
                  top b = top c → i = j) →
  (∀ i b c, info_of s' i = Some b →
            (c ∈ forks b ↔ ∃ bc, info_of s' c = Some bc ∧ parent bc = i))
  ∧ (∀ i b, info_of s' i = Some b →
            (synced_to_genesis b = true ↔ ancestor s' i kGenesisBranch))
  ∧ (∀ h p, heads_ s' !! h = Some p
            ↔ ∃ i b, all_branches_ s' !! i = Some p ∧ heap s' !! p = Some b
                     ∧ forks b = ∅ ∧ top b = h)
  ∧ removed changes = []
  ∧ (∀ h, h ∈ added changes
          ↔ ∃ i b, info_of s' i = Some b ∧ forks b = ∅
                   ∧ synced_to_genesis b = true ∧ top b = h).
Proof.
  intros H Hloaded Htops. unfold init in H.
  apply bind_done in H as (? & s0 & Hclear & H). injection Hclear as _ <-.
  case_bool_decide as Hne.
  { injection H as <- <-. unfold info_of. cbn.
    split; [by intros i b c; rewrite lookup_empty|].
    split; [by intros i b; rewrite lookup_empty|].
    split; [|split; [done|]].
    - intros h p. rewrite lookup_empty. split; [done|].
      intros (i & b & Hi & _). by rewrite lookup_empty in Hi.
    - intros h. split; [by intros ?%elem_of_nil|].
      intros (i & b & Hi & _). by rewrite lookup_empty in Hi. }
  apply bind_done in H as (? & s1 & Hset & H). injection Hset as _ <-.
  apply bind_done in H as (failed & s2 & Hvalid & H).
  destruct failed as [e|]; [by injection H|].
  pose proof (init_validate_forks _ _ _ _ _ Hvalid) as (Hsbf & Hforks).
  apply init_validate_ok in Hvalid as (Hsame & Hrecs & Hgen).
  apply bind_done in H as (genesis & s3 & Hg & H). injection Hg as <- <-.
  case_bool_decide as Hnull.
  { apply bind_done in H as (? & s3 & _ & H). by injection H. }
  apply bind_done in H as (heads & s3 & Hheads & H).
  apply updateHeads_marks in Hheads
    as (Hsf & Hflag & Hheap & Hhd & Hleaves & Hrem & tops & Hadd & Htops').
  apply bind_done in H as (all & s4 & Hall & H). injection Hall as <- <-.
  apply bind_done in H as (? & s4 & Hloop & H). injection H as <- <-.
  apply init_unsynced_heads in Hloop as ([hd Hs4] & Hlate & Hunsynced).
  set (g := genesis_branch_ s2) in *.
  cbn [heap all_branches_ heads_ set_all_branches genesis_branch_] in *.
  destruct Hsbf as (Hall2 & Hheads2 & Hq02).
  cbn [heap all_branches_ heads_ set_all_branches] in Hall2, Hheads2, Hq02.
  pose proof Hsf as (Hall3 & _).
  assert (Hsf4 : same_forks s2 s4).
  { apply (same_forks_trans _ s3); [done|]. rewrite Hs4. by repeat split. }
  assert (Hheap4 : heap s4 = heap s3) by (by rewrite Hs4).
  assert (Hall4 : all_branches_ s4 = all_branches)
    by (rewrite Hs4; cbn; congruence).
  rewrite Hall3, Hall2 in Hlate, Hunsynced. rewrite Hall2 in Hforks.
  clear Hs4 hd.
  destruct Hgen as [Hgen|(g0 & Hgin & Hg0 & Hg0par)]; [done|].
  apply ordered_items_elem in Hgin.
  (* the records of a recorded branch, as loaded and after each step *)
  assert (Hrecord : ∀ i p, all_branches !! i = Some p →
    ∃ b0 b2 b3,
      heap s !! p = Some b0 ∧ heap s2 !! p = Some b2 ∧ heap s3 !! p = Some b3
      ∧ set_forks ∅ b2 = set_forks ∅ b0
      ∧ set_synced_to_genesis false b3 = set_synced_to_genesis false b2
      ∧ id b2 = i ∧ i ≠ kNoBranch
      ∧ forks b0 = ∅ ∧ synced_to_genesis b0 = false).
  { intros i p Hi.
    destruct (Hrecs i p) as (b2 & Hb2 & Hid & Hi0 & _);
      [by apply ordered_items_elem|].
    specialize (Hq02 p). rewrite Hb2 in Hq02.
    destruct (heap s !! p) as [b0|] eqn:Hb0; [|done].
    destruct (same_forks_lookup _ _ _ _ Hsf Hb2) as (b3 & Hb3 & Heq3).
    destruct (Hloaded i p b0 Hi Hb0) as [Hflag0 Hforks0].
    exists b0, b2, b3. repeat split; try done. cbn in Hq02. congruence. }
  assert (Hinfo : ∀ i b, info_of s4 i = Some b
                  ↔ ∃ p, all_branches !! i = Some p ∧ heap s3 !! p = Some b).
  { intros i b. unfold info_of. rewrite Hall4, Hheap4.
    destruct (all_branches !! i) as [p|].
    - split; [by exists p|]. by intros (? & [= <-] & ?).
    - split; [done|]. by intros (? & ? & _). }
  assert (Hids : ∀ i p b, all_branches_ s4 !! i = Some p →
                          heap s4 !! p = Some b → id b = i).
  { intros i p b. rewrite Hall4, Hheap4. intros Hi Hb.
    destruct (Hrecord i p Hi) as (b0 & b2 & b3 & _ & _ & Hb3 & _ & Heq & Hid & _).
    assert (b3 = b) as -> by congruence.
    apply unflag_fields in Heq as (-> & _). done. }
  assert (Honce : ∀ i j p, all_branches !! i = Some p →
                           all_branches !! j = Some p → i = j).
  { intros i j p Hi Hj.
    destruct (Hrecord i p Hi) as (_ & b2 & _ & _ & Hb2 & _ & _ & _ & Hid & _).
    destruct (Hrecord j p Hj) as (_ & b2' & _ & _ & Hb2' & _ & _ & _ & Hid' & _).
    congruence. }
  assert (Hchildren : ∀ i b c, info_of s4 i = Some b →
    (c ∈ forks b ↔ ∃ bc, info_of s4 c = Some bc ∧ parent bc = i)).
  { intros i b c Hi. apply Hinfo in Hi as (p & Hi & Hb).
    destruct (Hrecord i p Hi)
      as (b0 & b2 & b3 & Hb0 & Hb2 & Hb3 & _ & Heq & Hid & Hi0 & Hf0 & _).
    assert (b3 = b) as -> by congruence.
    apply unflag_fields in Heq as (_ & _ & _ & _ & _ & _ & _ & ->).
    rewrite (Hforks p b0 b2 Hb0 Hb2 c), Hf0. split.
    - intros [Hc|(pc & bc & Hin & Hbc & Hpar & Hp)];
        [by apply not_elem_of_empty in Hc|].
      apply ordered_items_elem in Hin.
      destruct (Hrecord c pc Hin)
        as (_ & bc2 & bc3 & _ & Hbc2 & Hbc3 & _ & Heqc & _).
      assert (bc2 = bc) as -> by congruence.
      apply unflag_fields in Heqc as (_ & _ & _ & _ & _ & Hparc & _).
      exists bc3. split; [apply Hinfo; by exists pc|].
      rewrite Hparc. by apply (Honce _ _ p).
    - intros (bc & Hc & Hpar). apply Hinfo in Hc as (pc & Hc & Hbc).
      destruct (Hrecord c pc Hc)
        as (_ & bc2 & bc3 & _ & Hbc2 & Hbc3 & _ & Heqc & _).
      assert (bc3 = bc) as -> by congruence.
      apply unflag_fields in Heqc as (_ & _ & _ & _ & _ & Hparc & _).
      right. exists pc, bc2. split; [by apply ordered_items_elem|].
      split; [done|]. rewrite <- Hparc, Hpar. done. }
  assert (Hsynced : ∀ i p b, all_branches !! i = Some p →
    heap s3 !! p = Some b → (synced_to_genesis b = true ↔ subtree s2 g p)).
  { intros i p b Hi Hb. split; [|intros Hsub; by apply (Hflag p b)].
    intros Hsy. destruct (Hheap p) as [Heq|Hsub]; [|done].
    destruct (Hrecord i p Hi)
      as (b0 & b2 & b3 & _ & Hb2 & _ & Heq0 & _ & _ & _ & _ & Hflag0).
    assert (b2 = b) as -> by congruence.
    injection Heq0 as _ _ _ _ _ _ _ Hsy0. congruence. }
  assert (Hreached : ∀ q, subtree s2 g q → ∃ i, all_branches !! i = Some q).
  { intros q Hq. rewrite <- Hall2.
    apply (subtree_recorded s2 kGenesisBranch g); [|done].
    by rewrite Hall2. }
  assert (Hleaf : ∀ i p b h, all_branches !! i = Some p →
    heap s3 !! p = Some b → (leaf_at s2 p h ↔ forks b = ∅ ∧ top b = h)).
  { intros i p b h Hi Hb.
    destruct (Hrecord i p Hi) as (_ & b2 & b3 & _ & Hb2 & Hb3 & _ & Heq & _).
    assert (b3 = b) as -> by congruence.
    apply unflag_fields in Heq as (_ & Htop & _ & _ & _ & _ & _ & Hfk).
    unfold leaf_at. rewrite Hb2, Hfk, Htop. split.
    - by intros (? & [= <-] & ? & ?).
    - intros [? ?]. by exists b2. }
  assert (Hdistinct : ∀ i j p q bp bq,
    all_branches !! i = Some p → all_branches !! j = Some q →
    heap s3 !! p = Some bp → heap s3 !! q = Some bq → top bp = top bq →
    p = q).
  { intros i j p q bp bq Hi Hj Hbp Hbq Htop.
    destruct (Hrecord i p Hi) as (b0 & b2 & b3 & Hb0 & _ & Hb3 & Heq0 & Heq & _).
    destruct (Hrecord j q Hj)
      as (c0 & c2 & c3 & Hc0 & _ & Hc3 & Heqc0 & Heqc & _).
    assert (b3 = bp) as -> by congruence.
    assert (c3 = bq) as -> by congruence.
    apply unflag_fields in Heq as (_ & Ht1 & _).
    apply unflag_fields in Heqc as (_ & Ht2 & _).
    injection Heq0 as _ Ht3 _. injection Heqc0 as _ Ht4 _.
    assert (i = j) as -> by (apply (Htops i j p q b0 c0); congruence).
    congruence. }
  split; [exact Hchildren|]. split; [|split; [|split; [done|]]].
  - intros i b Hi. pose proof Hi as Hi'.
    apply Hinfo in Hi' as (p & Hp & Hb).
    rewrite (Hsynced i p b Hp Hb).
    assert (Hgrec : all_branches_ s4 !! kGenesisBranch = Some g)
      by (by rewrite Hall4).
    assert (Hp4 : all_branches_ s4 !! i = Some p) by (by rewrite Hall4).
    assert (Hb4 : heap s4 !! p = Some b) by (by rewrite Hheap4).
    assert (Hg4 : is_Some (heap s4 !! g)).
    { destruct (same_forks_lookup _ _ _ _ Hsf4 Hg0) as (g4 & Hg4 & _).
      by exists g4. }
    rewrite <- (subtree_ancestor s4 kGenesisBranch g Hids Hchildren Hgrec
                  i p b Hp4 Hb4 Hg4).
    split; intros Hsub.
    + by apply (subtree_same s2 s4).
    + by apply (subtree_same s4 s2); [apply same_forks_sym|].
  - intros h p. rewrite Hall4, Hheap4. split.
    + intros Hhead. destruct (Hlate h) as [Heq|(i & q & b & Hin & Hq & Hrest)].
      * rewrite Heq in Hhead.
        destruct (Hhd h) as [Heq2|(q & Hq & Hsub & Hl)].
        { by rewrite Heq2, Hheads2, lookup_empty in Hhead. }
        assert (q = p) as -> by congruence.
        destruct (Hreached p Hsub) as (i & Hi).
        destruct (Hrecord i p Hi) as (_ & _ & b3 & _ & _ & Hb3 & _).
        exists i, b3. split; [done|]. split; [done|].
        by apply (Hleaf i p b3 h Hi Hb3).
      * assert (q = p) as -> by congruence.
        apply ordered_items_elem in Hin.
        exists i, b. by destruct Hrest as (? & ? & ? & ?).
    + intros (i & b & Hi & Hb & Hfk & Htop).
      assert (Hfinal : ∀ q, heads_ s3 !! h = Some q → q = p →
                            heads_ s4 !! h = Some p).
      { intros q Hq ->.
        destruct (Hlate h) as [Heq|(j & q & bq & Hin & Hhq & Hbq & _ & _ & Ht)];
          [congruence|].
        apply ordered_items_elem in Hin. rewrite Hhq. f_equal.
        apply (Hdistinct j i q p bq b); congruence. }
      destruct (synced_to_genesis b) eqn:Hsy.
      * apply (Hsynced i p b Hi Hb) in Hsy.
        destruct (Hleaves p h Hsy) as (q' & Hq' & Hsub' & Hl');
          [by apply (Hleaf i p b h Hi Hb)|].
        apply (Hfinal q' Hq').
        destruct (Hreached q' Hsub') as (j & Hj).
        destruct (Hrecord j q' Hj) as (_ & _ & c3 & _ & _ & Hc3 & _).
        apply (Hleaf j q' c3 h Hj Hc3) in Hl' as [_ Htop'].
        apply (Hdistinct j i q' p c3 b); congruence.
      * destruct (Hunsynced i p b) as (j & q' & b' & Hin & Hq' & Hb' & _ & _ & Ht);
          [by apply ordered_items_elem|done|done|done|].
        apply ordered_items_elem in Hin. rewrite <- Htop, Hq'. f_equal.
        apply (Hdistinct j i q' p b' b); congruence.
  - intros h. rewrite Hadd. cbn [added app]. rewrite Htops'. split.
    + intros (q & Hsub & Hl). destruct (Hreached q Hsub) as (i & Hi).
      destruct (Hrecord i q Hi) as (_ & _ & b3 & _ & _ & Hb3 & _).
      apply (Hleaf i q b3 h Hi Hb3) in Hl as [Hfk Htop].
      exists i, b3. split; [apply Hinfo; by exists q|].
      split; [done|]. split; [|done]. by apply (Hsynced i q b3 Hi Hb3).
    + intros (i & b & Hi & Hfk & Hsy & Htop).
      apply Hinfo in Hi as (p & Hi & Hb). exists p.
      split; [by apply (Hsynced i p b Hi Hb)|].
      by apply (Hleaf i p b h Hi Hb).
Qed.

End Init.

(** ** A concrete run, with [kNoBranch = 0] and [kGenesisBranch = 1] *)

Lemma fork_records_inv i p b :
  fork_records !! i = Some p → fork_heap !! p = Some b →
  (i = 1 ∧ b = mkBranchInfo 1 [3] 3 [0] 0 0 [] false ∅)
  ∨ (i = 2 ∧ b = mkBranchInfo 2 [15] 5 [14] 4 1 [3] false ∅)
  ∨ (i = 3 ∧ b = mkBranchInfo 3 [24] 4 [24] 4 1 [3] false ∅).
Proof.
  unfold fork_records. intros Hi Hb.
  apply lookup_insert_Some in Hi as [[<- <-]|[_ Hi]].
  { left. vm_compute in Hb. by injection Hb as <-. }
  apply lookup_insert_Some in Hi as [[<- <-]|[_ Hi]].
  { right; left. vm_compute in Hb. by injection Hb as <-. }
  apply lookup_singleton_Some in Hi as [<- <-].
  right; right. vm_compute in Hb. by injection Hb as <-.
Qed.

(** The three records of [fork_records]: after [init] the two branches on
    top of the genesis branch are its forks, all three are synced, and
    the two forks are the heads, both reported as added. *)
Lemma init_marks_genesis_tree_witness :
  ∃ changes s',
    init 0 1 3 fork_records (mkState fork_heap ∅ ∅ ∅ null ∅ 0 0)
    = Done (Ok changes) s'
    ∧ (∀ i b c, info_of s' i = Some b →
                (c ∈ forks b ↔ ∃ bc, info_of s' c = Some bc ∧ parent bc = i))
    ∧ (∀ i b, info_of s' i = Some b →
              (synced_to_genesis b = true ↔ ancestor s' i 1))
    ∧ (∀ h p, heads_ s' !! h = Some p
              ↔ ∃ i b, all_branches_ s' !! i = Some p ∧ heap s' !! p = Some b
                       ∧ forks b = ∅ ∧ top b = h)
    ∧ removed changes = []
    ∧ (∀ h, h ∈ added changes
            ↔ ∃ i b, info_of s' i = Some b ∧ forks b = ∅
                     ∧ synced_to_genesis b = true ∧ top b = h).
Proof.
  eexists _, _.
  assert (H : init 0 1 3 fork_records (mkState fork_heap ∅ ∅ ∅ null ∅ 0 0)
              = Done (Ok _) _) by (vm_compute; reflexivity).
  split; [exact H|].
  apply (init_marks_genesis_tree 0 1 _ _ _ _ _ H).
  - intros i p b Hi Hb. cbn [heap] in Hb.
    by destruct (fork_records_inv i p b Hi Hb) as [[_ ->]|[[_ ->]|[_ ->]]].
  - intros i j p q b c Hi Hj Hb Hc Htop. cbn [heap] in Hb, Hc.
    destruct (fork_records_inv i p b Hi Hb) as [[-> ->]|[[-> ->]|[-> ->]]],
      (fork_records_inv j q c Hj Hc) as [[-> ->]|[[-> ->]|[-> ->]]];
      done.
Defined.

Example init_fork_records :
  ∃ s', init 0 1 3 fork_records (mkState fork_heap ∅ ∅ ∅ null ∅ 0 0)
        = Done (Ok (mkChanges [] [[15]; [24]])) s'
        ∧ heads_ s' = <[[15] := 2%N]> {[[24] := 3%N]}
        ∧ info_of s' 1 = Some (mkBranchInfo 1 [3] 3 [0] 0 0 [] true {[2; 3]}).
Proof.
  eexists. split; [vm_compute; reflexivity|].
  split; [by vm_compute|]. vm_compute. reflexivity.
Qed.

End BranchInitFacts.

(** * The graphs that [init] accepts *)
Module BranchLoadFacts.
Import Branches BranchesFacts BranchQueryFacts BranchStoreFacts.
Import BranchLinkFacts BranchInitFacts.

Section Facts.

Variables (kNoBranch kGenesisBranch : BranchId).

(** [valid_record s i p]: the record that [p] points to passes the checks
    of the first loop of [init] as the record of the id [i]. *)
Definition valid_record (s : State) (i : BranchId) (p : N) : Prop :=
  p ≠ null ∧ all_branches_ s !! i = Some p
  ∧ ∃ b, heap s !! p = Some b ∧ id b = i ∧ i ≠ kNoBranch
         ∧ bottom_height b ≤ top_height b
         ∧ (parent b ≠ kNoBranch →
            ∃ pp pb, all_branches_ s !! parent b = Some pp
                     ∧ heap s !! pp = Some pb
                     ∧ top_height pb < bottom_height b)
         ∧ (parent b = kNoBranch → i ≠ kGenesisBranch → parent_hash b ≠ []).

Lemma valid_record_same s s' i p :
  same_but_forks s s' → valid_record s i p → valid_record s' i p.
Proof.
  intros Hsame (Hnull & Hi & b & Hb & Hid & Hi0 & Hh & Hpar & Hroot).
  pose proof Hsame as (Hall & _).
  destruct (same_but_forks_lookup _ _ _ _ Hsame Hb) as (b' & Hb' & Heq).
  injection Heq as Hid' Htop Hth Hbot Hbh Hparent Hph Hsy.
  split; [done|]. split; [by rewrite Hall|]. exists b'.
  rewrite Hid', Hth, Hbh, Hparent, Hph. repeat split; try done.
  intros Hne. destruct (Hpar Hne) as (pp & pb & Hpp & Hpb & Hlt).
  destruct (same_but_forks_lookup _ _ _ _ Hsame Hpb) as (pb' & Hpb' & Heq).
  injection Heq as _ _ Hth' _ _ _ _ _.
  exists pp, pb'. rewrite Hall, Hth'. done.
Qed.

Lemma same_but_forks_update s p b X :
  heap s !! p = Some b →
  same_but_forks s (set_heap (<[p := set_forks X b]> (heap s)) s).
Proof.
  intros Hb. repeat split; try done. intros q. cbn [heap set_heap].
  destruct (decide (q = p)) as [->|Hq].
  - by rewrite lookup_insert_eq, Hb.
  - by rewrite lookup_insert_ne.
Qed.

(** The first loop of [init] goes through when every record passes the
    checks. *)
Lemma init_validate_accepts l :
  ∀ s, (∀ i p, (i, p) ∈ l → valid_record s i p) →
       ∃ s', init_validate kNoBranch kGenesisBranch l s = Done None s'.
Proof.
  induction l as [|[i ptr] l IH]; intros s Hvalid; [by eexists|].
  destruct (Hvalid i ptr) as (Hnull & Hi & b & Hb & Hid & Hi0 & Hh & Hpar & Hroot);
    [by left|].
  assert (Hnext : ∀ s1, same_but_forks s s1 →
            ∃ s', init_validate kNoBranch kGenesisBranch l s1 = Done None s').
  { intros s1 Hsame. apply IH. intros j q Hin.
    apply (valid_record_same s); [done|]. apply Hvalid. by right. }
  cbn [init_validate].
  rewrite (bool_decide_eq_false_2 _ Hnull).
  rewrite (bind_step _ _ _ b s) by (by apply deref_ok).
  rewrite (bool_decide_eq_true_2 (i = id b)) by done.
  rewrite (bool_decide_eq_false_2 _ Hi0). cbn [negb orb].
  rewrite (bool_decide_eq_false_2 (top_height b < bottom_height b)) by lia.
  destruct (decide (parent b = kNoBranch)) as [Hp|Hp].
  - rewrite (bool_decide_eq_true_2 _ Hp). cbn [negb].
    destruct (decide (id b = kGenesisBranch)) as [Hg|Hg].
    + rewrite (bool_decide_eq_true_2 _ Hg).
      erewrite bind_step by reflexivity. apply Hnext. by repeat split.
    + rewrite (bool_decide_eq_false_2 _ Hg).
      assert (is_empty_hash (parent_hash b) = false) as ->.
      { destruct (parent_hash b) eqn:Hph; [|done].
        destruct Hroot; [done|congruence|done]. }
      erewrite bind_step by reflexivity. apply Hnext. by repeat split.
  - rewrite (bool_decide_eq_false_2 _ Hp). cbn [negb].
    destruct (Hpar Hp) as (pp & pb & Hpp & Hpb & Hlt).
    assert (Hself : parent b ≠ id b).
    { intros Heq. rewrite Heq, Hid, Hi in Hpp. injection Hpp as <-.
      assert (pb = b) as -> by congruence. lia. }
    rewrite (bool_decide_eq_false_2 _ Hself).
    rewrite (bind_step _ _ _ (Some pp) s) by (unfold gets; by rewrite Hpp).
    rewrite (bind_step _ _ _ pb s) by (by apply deref_ok).
    rewrite (bool_decide_eq_false_2 (bottom_height b ≤ top_height pb)) by lia.
    erewrite bind_step by (by apply update_ok).
    apply Hnext. by apply same_but_forks_update.
Qed.

(** The first loop of [init] sets the genesis pointer when it meets a
    record without parent under [kGenesisBranch]. *)
Lemma init_validate_genesis l :
  ∀ s s' p b,
    init_validate kNoBranch kGenesisBranch l s = Done None s' →
    (kGenesisBranch, p) ∈ l → heap s !! p = Some b → parent b = kNoBranch →
    ∃ p', (kGenesisBranch, p') ∈ l ∧ genesis_branch_ s' = p'.
Proof.
  induction l as [|[i ptr] l IH]; intros s s' p b H Hin Hb Hpar.
  { by apply elem_of_nil in Hin. }
  assert (Hlater : ∀ s1, same_but_forks s s1 →
            init_validate kNoBranch kGenesisBranch l s1 = Done None s' →
            (kGenesisBranch, p) ∈ l →
            ∃ p', (kGenesisBranch, p') ∈ (i, ptr) :: l
                  ∧ genesis_branch_ s' = p').
  { intros s1 Hsame Hrun Hin'.
    destruct (same_but_forks_lookup _ _ _ _ Hsame Hb) as (b' & Hb' & Heq).
    injection Heq as _ _ _ _ _ Hparent _ _.
    destruct (IH s1 s' p b' Hrun Hin' Hb') as (p' & Hp' & Hg); [congruence|].
    exists p'. split; [by right|done]. }
  cbn [init_validate] in H.
  assert (Hfailed : ∀ e s0,
    (do _ <- clear kNoBranch ; ret (Some e)) s0
    ≠ Done (@None Error) s') by done.
  case_bool_decide as Hnull; [by apply Hfailed in H|].
  apply bind_done in H as (bi & s1 & Hbi & H).
  apply deref_done in Hbi as [Hbi ->].
  destruct (negb (bool_decide (i = id bi)) || bool_decide (i = kNoBranch))
    eqn:Hid; [by apply Hfailed in H|].
  apply orb_false_elim in Hid as [Hid Hi0].
  apply negb_false_iff, bool_decide_eq_true in Hid.
  case_bool_decide as Hheights; [by apply Hfailed in H|].
  destruct (negb (bool_decide (parent bi = kNoBranch))) eqn:Hparent.
  - apply negb_true_iff, bool_decide_eq_false in Hparent.
    case_bool_decide as Hself; [by apply Hfailed in H|].
    apply bind_done in H as (it & s1 & Hit & H). injection Hit as <- <-.
    destruct (all_branches_ s !! parent bi) as [pp|] eqn:Hpp;
      [|by apply Hfailed in H].
    apply bind_done in H as (pb & s1 & Hpb & H).
    apply deref_done in Hpb as [Hpb ->].
    case_bool_decide as Hlow; [by apply Hfailed in H|].
    apply bind_done in H as (? & s2 & Hupd & H).
    unfold update in Hupd. rewrite Hpb in Hupd. injection Hupd as _ <-.
    apply elem_of_cons in Hin as [[= <- <-]|Hin]; [congruence|].
    apply (Hlater _ (same_but_forks_update s pp pb _ Hpb) H Hin).
  - apply negb_false_iff, bool_decide_eq_true in Hparent.
    case_bool_decide as Hgenesis.
    + apply bind_done in H as (? & s2 & Hmod & H). injection Hmod as _ <-.
      apply init_validate_ok in H as (_ & _ & [Hg|(g & Hg & _)]).
      * exists ptr. split; [|by rewrite Hg].
        rewrite <- Hgenesis, <- Hid. by left.
      * exists (genesis_branch_ s'). split; [by right|done].
    + destruct (is_empty_hash (parent_hash bi)); [done|].
      apply bind_done in H as (? & s2 & Hmod & H). injection Hmod as _ <-.
      apply elem_of_cons in Hin as [[= <- <-]|Hin]; [congruence|].
      eapply Hlater; [|exact H|exact Hin]. by repeat split.
Qed.

End Facts.

(** ** [updateHeads] on a tree *)

Section Walk.

Variables (s : State) (M : Z).

(** The graph of [s] is a forest: every record is live and kept under the
    id it holds, the forks of a branch are the branches that name it as
    parent, and a branch starts above the top of its parent. *)
Hypothesis record_ids :
  ∀ i p b, all_branches_ s !! i = Some p → heap s !! p = Some b → id b = i.
Hypothesis live :
  ∀ i p, all_branches_ s !! i = Some p → p ≠ null ∧ is_Some (heap s !! p).
Hypothesis forks_children :
  ∀ i b c, info_of s i = Some b →
           (c ∈ forks b ↔ ∃ bc, info_of s c = Some bc ∧ parent bc = i).
Hypothesis heights :
  ∀ i b, info_of s i = Some b →
         bottom_height b ≤ top_height b ∧ bottom_height b ≤ M.
Hypothesis below :
  ∀ i b pb, info_of s i = Some b → info_of s (parent b) = Some pb →
            top_height pb < bottom_height b.

Lemma ancestor_lower a c ia ic :
  ancestor s a c → info_of s a = Some ia → info_of s c = Some ic →
  a = c ∨ top_height ic < bottom_height ia.
Proof.
  intros H. revert ia. induction H as [a b Ha|a b c Ha Hup IH]; intros ia Hia Hic.
  { by left. }
  right. assert (b = ia) as -> by congruence.
  destruct (ancestor_known _ _ _ Hup) as [pb Hpb].
  pose proof (below a ia pb Hia Hpb) as Hlt.
  destruct (IH pb Hpb Hic) as [<-|Hlow].
  - assert (pb = ic) as -> by congruence. done.
  - destruct (heights _ _ Hpb). lia.
Qed.

Lemma ancestor_linear a c c' :
  ancestor s a c → ancestor s a c' → ancestor s c c' ∨ ancestor s c' c.
Proof.
  intros H. revert c'. induction H as [a b Ha|a b c Ha Hup IH]; intros c' Hc'.
  { by left. }
  inversion Hc' as [a' b' Ha'|a' b' c'' Ha' Hup']; subst.
  - right. by apply (ancestor_up s c' b c).
  - assert (b' = b) as -> by congruence. by apply IH.
Qed.

(** A child is not an ancestor of its parent. *)
Lemma child_not_above i c bp bc :
  info_of s i = Some bp → info_of s c = Some bc → parent bc = i →
  ¬ ancestor s i c.
Proof.
  intros Hi Hc Hpar Hanc.
  assert (Hlt : top_height bp < bottom_height bc).
  { apply (below c bc bp); [done|by rewrite Hpar]. }
  destruct (heights _ _ Hi), (heights _ _ Hc).
  destruct (ancestor_lower i c bp bc Hanc Hi Hc) as [->|Hlow]; [|lia].
  assert (bp = bc) as -> by congruence. lia.
Qed.

Lemma ancestor_inv a c :
  ancestor s a c →
  a = c ∨ ∃ b, info_of s a = Some b ∧ ancestor s (parent b) c.
Proof. intros [a' b Ha|a' b c' Ha Hup]; [by left|right; by exists b]. Qed.

(** Two children of a branch have no common descendant. *)
Lemma siblings_disjoint i c c' bp bc bc' r :
  info_of s i = Some bp →
  info_of s c = Some bc → parent bc = i →
  info_of s c' = Some bc' → parent bc' = i →
  c ≠ c' → ancestor s r c → ancestor s r c' → False.
Proof.
  intros Hi Hc Hpar Hc' Hpar' Hne Hr Hr'.
  destruct (ancestor_linear r c c' Hr Hr') as [H|H];
    apply ancestor_inv in H as [?|(b & Hb & Hup)]; try done.
  - assert (b = bc) as -> by congruence. rewrite Hpar in Hup.
    by apply (child_not_above i c' bp bc').
  - assert (b = bc') as -> by congruence. rewrite Hpar' in Hup.
    by apply (child_not_above i c bp bc).
Qed.

Lemma subtree_below p r ip ir :
  subtree s p r → all_branches_ s !! ip = Some p →
  all_branches_ s !! ir = Some r → ancestor s ir ip.
Proof.
  intros Hsub Hip Hir.
  destruct (live ip p Hip) as [_ [bp Hbp]].
  destruct (live ir r Hir) as [_ Hr].
  apply (subtree_is_ancestor s record_ids forks_children p r Hsub ip ir ip);
    try done.
  apply (ancestor_self s ip bp). unfold info_of. by rewrite Hip.
Qed.

Lemma subtree_live p r :
  subtree s p r → (∃ i, all_branches_ s !! i = Some p) →
  ∃ i, all_branches_ s !! i = Some r.
Proof.
  induction 1 as [p|p b c q r' Hp Hc Hq _ IH]; [done|].
  intros _. apply IH. by exists c.
Qed.

(** [updateHeads] returns on a branch whose descendants are not synced,
    given fuel for the heights above the branch. *)
Lemma updateHeads_returns fuel :
  ∀ i p b sk changes,
    all_branches_ s !! i = Some p → heap s !! p = Some b →
    (Z.to_nat (M - bottom_height b) < fuel)%nat →
    same_forks s sk →
    (∀ c q r br, c ∈ forks b → all_branches_ s !! c = Some q →
                 subtree s q r → heap sk !! r = Some br →
                 synced_to_genesis br = false) →
    ∃ c' s', updateHeads fuel p true changes sk = Done c' s'.
Proof.
  induction fuel as [|fuel IH]; intros i p b sk changes Hi Hb Hfuel Hsame Hclean;
    [lia|].
  assert (Hinfo : info_of s i = Some b) by (unfold info_of; by rewrite Hi).
  destruct (same_forks_lookup _ _ _ _ Hsame Hb) as (bk & Hbk & Heq).
  apply unflag_fields in Heq as (_ & _ & _ & _ & _ & _ & _ & Hfk).
  cbn [updateHeads].
  erewrite bind_step by (by apply update_ok).
  erewrite bind_step
    by (apply deref_ok; cbn [heap set_heap]; apply lookup_insert_eq).
  cbn [forks set_synced_to_genesis top]. rewrite Hfk.
  case_bool_decide as Hforks.
  { erewrite bind_step by reflexivity. by eexists _, _. }
  set (s1 := set_heap (<[p := set_synced_to_genesis true bk]> (heap sk)) sk).
  assert (Hsame1 : same_forks s s1).
  { apply (same_forks_trans _ sk); [done|]. repeat split; try done.
    intros q. cbn [heap set_heap s1]. destruct (decide (q = p)) as [->|Hq].
    - by rewrite lookup_insert_eq, Hbk.
    - by rewrite lookup_insert_ne. }
  assert (Hclean1 : ∀ c q r br, c ∈ forks b → all_branches_ s !! c = Some q →
            subtree s q r → heap s1 !! r = Some br →
            synced_to_genesis br = false).
  { intros c q r br Hc Hq Hsub Hr. cbn [heap set_heap s1] in Hr.
    destruct (decide (r = p)) as [->|Hrp].
    - exfalso.
      apply (forks_children i b c Hinfo) in Hc as (bc & Hbc & Hpar).
      apply (child_not_above i c b bc Hinfo Hbc Hpar).
      by apply (subtree_below q p c i).
    - rewrite lookup_insert_ne in Hr by done. by apply (Hclean c q r br). }
  clearbody s1. clear Hclean Hbk Hsame sk.
  assert (Hids : ∀ c, c ∈ ordered_ids (forks b) → c ∈ forks b)
    by (intros c; by rewrite ordered_ids_elem).
  assert (Hnodup : NoDup (ordered_ids (forks b))).
  { unfold ordered_ids. rewrite merge_sort_Permutation. apply NoDup_elements. }
  assert (Hrest : ∀ c q r br, c ∈ ordered_ids (forks b) →
            all_branches_ s !! c = Some q → subtree s q r →
            heap s1 !! r = Some br → synced_to_genesis br = false).
  { intros c q r br Hc. apply Hclean1. by apply Hids. }
  clear Hclean1.
  revert changes s1 Hsame1 Hrest Hids Hnodup.
  generalize (ordered_ids (forks b)). intros ids.
  induction ids as [|c ids IHids]; intros changes s1 Hsame1 Hrest Hids Hnodup.
  { by eexists _, _. }
  apply NoDup_cons in Hnodup as [Hnotin Hnodup].
  assert (Hc : c ∈ forks b) by (apply Hids; by left).
  pose proof Hc as Hchild.
  apply (forks_children i b c Hinfo) in Hchild as (bc & Hbc & Hpar).
  pose proof Hbc as Hbc'. unfold info_of in Hbc'.
  destruct (all_branches_ s !! c) as [q|] eqn:Hq; [|done].
  destruct (live c q Hq) as [Hqnull _].
  pose proof Hsame1 as (Hall1 & _).
  destruct (same_forks_lookup _ _ _ _ Hsame1 Hbc') as (bq & Hbq & Heq).
  assert (Hget : getBranch s1 c = q) by (unfold getBranch; by rewrite Hall1, Hq).
  rewrite (bind_step _ _ _ q s1) by (unfold gets; by rewrite Hget).
  rewrite (bind_step _ _ _ tt s1)
    by (apply assert_ok; by rewrite (bool_decide_eq_false_2 _ Hqnull)).
  rewrite (bind_step _ _ _ bq s1) by (by apply deref_ok).
  rewrite (bind_step _ _ _ tt s1).
  2:{ apply assert_ok.
      rewrite (Hrest c q q bq); [done|by left|done|constructor|done]. }
  destruct (IH c q bc s1 changes Hq Hbc') as (ch' & s2 & Hrun); [|done| |].
  { pose proof (below c bc b Hbc) as Hlt. rewrite Hpar in Hlt.
    specialize (Hlt Hinfo).
    destruct (heights _ _ Hinfo), (heights _ _ Hbc). lia. }
  { intros c2 q2 r br Hc2 Hq2 Hsub Hr.
    apply (Hrest c q r br); [by left|done| |done].
    by apply (subtree_fork s q bc c2 q2 r). }
  rewrite (bind_step _ _ _ ch' s2) by done.
  apply updateHeads_marks in Hrun as (Hsame2 & _ & Hheap2 & _).
  apply IHids; [by apply (same_forks_trans _ s1)| |by intros; apply Hids; right
               |done].
  intros c' q' r br Hc' Hq' Hsub Hr.
  destruct (Hheap2 r) as [Heq2|Hsub2].
  { rewrite Heq2 in Hr. apply (Hrest c' q' r br); [by right|done..]. }
  exfalso.
  apply (subtree_same s1 s) in Hsub2; [|by apply same_forks_sym].
  assert (Hne : c ≠ c') by (by intros ->).
  assert (Hc'' : c' ∈ forks b) by (apply Hids; by right).
  apply (forks_children i b c' Hinfo) in Hc'' as (bc' & Hbc2 & Hpar').
  destruct (subtree_live q r Hsub2) as (ir & Hir); [by exists c|].
  apply (siblings_disjoint i c c' b bc bc' ir Hinfo Hbc Hpar Hbc2 Hpar' Hne).
  - by apply (subtree_below q r c ir).
  - by apply (subtree_below q' r c' ir).
Qed.

End Walk.

(** ** [init] *)

Lemma bottoms_bounded (all : gmap Z N) (h : gmap N BranchInfo) :
  ∃ M, ∀ i p b, all !! i = Some p → h !! p = Some b → bottom_height b ≤ M.
Proof.
  induction all as [|j q all Hj [M IH]] using map_ind.
  { exists 0. intros i p b Hi. by rewrite lookup_empty in Hi. }
  destruct (h !! q) as [bq|] eqn:Hq.
  - exists (Z.max M (bottom_height bq)). intros i p b Hi Hb.
    apply lookup_insert_Some in Hi as [[<- <-]|[_ Hi]].
    + assert (b = bq) as -> by congruence. lia.
    + specialize (IH i p b Hi Hb). lia.
  - exists M. intros i p b Hi Hb.
    apply lookup_insert_Some in Hi as [[<- <-]|[_ Hi]]; [congruence|].
    by apply (IH i p b).
Qed.

Lemma init_unsynced_returns (l : list (Z * N)) :
  ∀ s, (∀ i p, (i, p) ∈ l → is_Some (heap s !! p)) →
       ∃ s', for_each l (λ '(_, ptr),
               do b <- deref ptr ;
               if bool_decide (forks b = ∅) && negb (synced_to_genesis b)
               then modify (λ s, set_heads (<[top b := ptr]> (heads_ s)) s)
               else ret tt) s = Done tt s'.
Proof.
  induction l as [|[i ptr] l IH]; intros s Hlive; [by eexists|].
  destruct (Hlive i ptr) as [b Hb]; [by left|].
  cbn [for_each].
  assert (Hnext : ∀ s1, heap s1 = heap s →
            ∀ j p, (j, p) ∈ l → is_Some (heap s1 !! p)).
  { intros s1 Heq j p Hin. rewrite Heq. apply (Hlive j p). by right. }
  destruct (bool_decide (forks b = ∅) && negb (synced_to_genesis b)) eqn:Hleaf.
  - erewrite bind_step; [apply IH|].
    2:{ erewrite bind_step by (by apply deref_ok). by rewrite Hleaf. }
    by apply Hnext.
  - erewrite bind_step; [apply IH|].
    2:{ erewrite bind_step by (by apply deref_ok). by rewrite Hleaf. }
    by apply Hnext.
Qed.

Section Init.

Variables (kNoBranch kGenesisBranch : BranchId).

(** [loadable all h]: the records that the map [all] names in the heap [h]
    are a graph as a store keeps it.  Every pointer is set, and its record
    holds the id it is kept under, which is not [kNoBranch]; the bottom of
    a branch is not above its top; the record is not synced and has no
    forks yet; a parent that is named is recorded and ends below the
    bottom of the branch; a branch without parent that is not the genesis
    branch names the hash of its parent.  The record under
    [kGenesisBranch] is there and has no parent. *)
Definition loadable (all : gmap Z N) (h : gmap N BranchInfo) : Prop :=
  (∀ i p, all !! i = Some p →
     p ≠ null
     ∧ ∃ b, h !! p = Some b ∧ id b = i ∧ i ≠ kNoBranch
            ∧ bottom_height b ≤ top_height b
            ∧ synced_to_genesis b = false ∧ forks b = ∅
            ∧ (parent b ≠ kNoBranch →
               ∃ pp pb, all !! parent b = Some pp ∧ h !! pp = Some pb
                        ∧ top_height pb < bottom_height b)
            ∧ (parent b = kNoBranch → i ≠ kGenesisBranch →
               parent_hash b ≠ []))
  ∧ ∃ pg bg, all !! kGenesisBranch = Some pg ∧ h !! pg = Some bg
             ∧ parent bg = kNoBranch.

(** [init] accepts every loadable graph: it returns, without a failed
    assertion and with success, once [updateHeads] has fuel for the
    depth of the graph. *)
Theorem init_accepts all_branches s :
  loadable all_branches (heap s) →
  ∃ fuel0, ∀ fuel, (fuel0 ≤ fuel)%nat →
    ∃ changes s',
      init kNoBranch kGenesisBranch fuel all_branches s = Done (Ok changes) s'.
Proof.
  intros [Hrecords (pg & bg & Hpg & Hbg & Hgpar)].
  destruct (bottoms_bounded all_branches (heap s)) as [M HM].
  exists (S (Z.to_nat (M - bottom_height bg))). intros fuel Hfuel.
  assert (Hne : all_branches ≠ ∅).
  { intros ->. by rewrite lookup_empty in Hpg. }
  unfold init. erewrite bind_step by reflexivity.
  rewrite (bool_decide_eq_false_2 _ Hne).
  erewrite bind_step by reflexivity.
  set (s1 := set_all_branches all_branches _).
  assert (Hheap1 : heap s1 = heap s) by done.
  assert (Hall1 : all_branches_ s1 = all_branches) by done.
  assert (Hheads1 : heads_ s1 = ∅) by done.
  assert (Hgen1 : genesis_branch_ s1 = null) by done.
  clearbody s1.
  destruct (init_validate_accepts kNoBranch kGenesisBranch
              (ordered_items all_branches) s1) as [s2 Hrun].
  { intros i p Hip. apply ordered_items_elem in Hip.
    destruct (Hrecords i p Hip)
      as (Hnull & b & Hb & Hid & Hi0 & Hh & _ & _ & Hpar & Hroot).
    split; [done|]. split; [by rewrite Hall1|]. exists b.
    rewrite Hheap1, Hall1. by repeat split. }
  rewrite (bind_step _ _ _ None s2) by done.
  pose proof (init_validate_forks _ _ _ _ _ Hrun) as (Hsbf & Hforks).
  destruct (init_validate_genesis _ _ _ _ _ pg bg Hrun) as (pg' & Hin & Hg2);
    [by apply ordered_items_elem|by rewrite Hheap1|done|].
  apply ordered_items_elem in Hin. assert (pg' = pg) as -> by congruence.
  apply init_validate_ok in Hrun as (_ & Hrecs & _).
  pose proof Hsbf as (Hall2 & _). rewrite Hall1 in Hall2.
  rewrite Hheap1 in Hforks.
  (* the records of a recorded branch, as loaded and after the loop *)
  assert (Hrecord : ∀ i p, all_branches !! i = Some p →
    p ≠ null
    ∧ ∃ b0 b2, heap s !! p = Some b0 ∧ heap s2 !! p = Some b2
               ∧ set_forks ∅ b2 = set_forks ∅ b0 ∧ id b2 = i
               ∧ forks b0 = ∅ ∧ synced_to_genesis b2 = false
               ∧ bottom_height b2 ≤ top_height b2 ∧ bottom_height b2 ≤ M).
  { intros i p Hi.
    destruct (Hrecords i p Hi) as (Hnull & b0 & Hb0 & _ & _ & _ & Hsy & Hf & _).
    split; [done|].
    destruct (Hrecs i p) as (b2 & Hb2 & Hid & _ & Hh & _);
      [by apply ordered_items_elem|].
    destruct (same_but_forks_lookup_inv _ _ _ _ Hsbf Hb2) as (b0' & Hb0' & Heq).
    rewrite Hheap1 in Hb0'. assert (b0' = b0) as -> by congruence.
    exists b0, b2. repeat split; try done.
    - injection Heq as _ _ _ _ _ _ _ Hsy2. congruence.
    - injection Heq as _ _ _ _ Hbh _ _ _. rewrite Hbh. by apply (HM i p). }
  assert (Hinfo : ∀ i b, info_of s2 i = Some b
                  ↔ ∃ p, all_branches !! i = Some p ∧ heap s2 !! p = Some b).
  { intros i b. unfold info_of. rewrite Hall2.
    destruct (all_branches !! i) as [p|].
    - split; [by exists p|]. by intros (? & [= <-] & ?).
    - split; [done|]. by intros (? & ? & _). }
  assert (Honce : ∀ i j p, all_branches !! i = Some p →
                           all_branches !! j = Some p → i = j).
  { intros i j p Hi Hj.
    destruct (Hrecord i p Hi) as (_ & _ & b2 & _ & Hb2 & _ & Hid & _).
    destruct (Hrecord j p Hj) as (_ & _ & b2' & _ & Hb2' & _ & Hid' & _).
    congruence. }
  assert (Hids : ∀ i p b, all_branches_ s2 !! i = Some p →
                          heap s2 !! p = Some b → id b = i).
  { intros i p b. rewrite Hall2. intros Hi Hb.
    destruct (Hrecord i p Hi) as (_ & _ & b2 & _ & Hb2 & _ & Hid & _).
    congruence. }
  assert (Hlive : ∀ i p, all_branches_ s2 !! i = Some p →
                         p ≠ null ∧ is_Some (heap s2 !! p)).
  { intros i p. rewrite Hall2. intros Hi.
    destruct (Hrecord i p Hi) as (Hnull & _ & b2 & _ & Hb2 & _).
    split; [done|by exists b2]. }
  assert (Hchildren : ∀ i b c, info_of s2 i = Some b →
    (c ∈ forks b ↔ ∃ bc, info_of s2 c = Some bc ∧ parent bc = i)).
  { intros i b c Hi. apply Hinfo in Hi as (p & Hi & Hb).
    destruct (Hrecord i p Hi) as (_ & b0 & b2 & Hb0 & Hb2 & _ & _ & Hf0 & _).
    assert (b2 = b) as -> by congruence.
    rewrite (Hforks p b0 b Hb0 Hb c), Hf0, Hall2. split.
    - intros [Hc|(pc & bc & Hcin & Hbc & Hpar & Hp)];
        [by apply not_elem_of_empty in Hc|].
      apply ordered_items_elem in Hcin.
      exists bc. split; [apply Hinfo; by exists pc|].
      by apply (Honce _ _ p).
    - intros (bc & Hc & Hpar). apply Hinfo in Hc as (pc & Hc & Hbc).
      right. exists pc, bc. split; [by apply ordered_items_elem|].
      split; [done|]. rewrite Hpar.
      destruct (Hrecs i p) as (_ & _ & _ & Hi0 & _);
        [by apply ordered_items_elem|]. done. }
  assert (Hheights : ∀ i b, info_of s2 i = Some b →
            bottom_height b ≤ top_height b ∧ bottom_height b ≤ M).
  { intros i b Hi. apply Hinfo in Hi as (p & Hi & Hb).
    destruct (Hrecord i p Hi) as (_ & _ & b2 & _ & Hb2 & _ & _ & _ & _ & ? & ?).
    by assert (b2 = b) as -> by congruence. }
  assert (Hbelow : ∀ i b pb, info_of s2 i = Some b →
            info_of s2 (parent b) = Some pb → top_height pb < bottom_height b).
  { intros i b pb Hi Hp. apply Hinfo in Hi as (p & Hi & Hb).
    apply Hinfo in Hp as (pp & Hpp & Hpb).
    destruct (Hrecs i p) as (b' & Hb' & _ & _ & _ & Hpar);
      [by apply ordered_items_elem|].
    assert (b' = b) as -> by congruence.
    destruct (Hrecs (parent b) pp) as (_ & _ & _ & Hp0 & _);
      [by apply ordered_items_elem|].
    destruct (Hpar Hp0) as (pp' & pb' & Hpp' & Hpb' & Hlt).
    rewrite Hall2 in Hpp'. congruence. }
  destruct (Hrecord kGenesisBranch pg Hpg)
    as (Hgnull & bg0 & bg2 & Hbg0 & Hbg2 & Heqg & _).
  assert (bg0 = bg) as -> by congruence.
  erewrite bind_step by reflexivity. rewrite Hg2.
  rewrite (bool_decide_eq_false_2 _ Hgnull).
  destruct (updateHeads_returns s2 M Hids Hlive Hchildren Hheights Hbelow
              fuel kGenesisBranch pg bg2 s2 (mkChanges [] []))
    as (heads & s3 & Hheads).
  { by rewrite Hall2. }
  { done. }
  { injection Heqg as _ _ _ _ Hbh _ _ _. rewrite Hbh. lia. }
  { apply same_forks_refl. }
  { intros c q r br _ Hq Hsub Hr.
    destruct (subtree_live s2 q r Hsub) as (ir & Hir); [by exists c|].
    rewrite Hall2 in Hir.
    destruct (Hrecord ir r Hir) as (_ & _ & b2 & _ & Hb2 & _ & _ & _ & Hsy & _).
    congruence. }
  rewrite (bind_step _ _ _ heads s3) by done.
  apply updateHeads_marks in Hheads as (Hsf & _).
  pose proof Hsf as (Hall3 & _).
  erewrite bind_step by reflexivity.
  destruct (init_unsynced_returns (ordered_items (all_branches_ s3)) s3)
    as [s4 Hloop].
  { intros i p Hip. apply ordered_items_elem in Hip.
    rewrite Hall3 in Hip. destruct (Hlive i p Hip) as [_ [b2 Hb2]].
    destruct (same_forks_lookup _ _ _ _ Hsf Hb2) as (b3 & Hb3 & _).
    by exists b3. }
  rewrite (bind_step _ _ _ tt s4) by done.
  by eexists _, _.
Qed.

End Init.

(** ** A concrete graph, with [kNoBranch = 0] and [kGenesisBranch = 1] *)

Lemma fork_records_loadable : loadable 0 1 fork_records fork_heap.
Proof.
  split.
  - unfold fork_records. intros i p Hi.
    apply lookup_insert_Some in Hi as [[<- <-]|[_ Hi]].
    { split; [done|]. eexists. split; [by vm_compute|]. by repeat split. }
    apply lookup_insert_Some in Hi as [[<- <-]|[_ Hi]].
    { split; [done|]. eexists. split; [by vm_compute|].
      repeat split; try done. intros _. by exists 1%N, (mkBranchInfo 1 [3] 3 [0] 0 0 [] false ∅). }
    apply lookup_singleton_Some in Hi as [<- <-].
    split; [done|]. eexists. split; [by vm_compute|].
    repeat split; try done. intros _.
    by exists 1%N, (mkBranchInfo 1 [3] 3 [0] 0 0 [] false ∅).
  - by exists 1%N, (mkBranchInfo 1 [3] 3 [0] 0 0 [] false ∅).
Qed.

Lemma init_accepts_witness :
  ∃ fuel0, ∀ fuel, (fuel0 ≤ fuel)%nat →
    ∃ changes s',
      init 0 1 fuel fork_records (mkState fork_heap ∅ ∅ ∅ null ∅ 0 0)
      = Done (Ok changes) s'.
Proof.
  apply (init_accepts 0 1 fork_records (mkState fork_heap ∅ ∅ ∅ null ∅ 0 0)).
  exact fork_records_loadable.
Defined.

End BranchLoadFacts.

(** * More properties of the HAMT *)
Module HamtMoreFacts.
Import Hamt HamtFacts.

#[local] Set Warnings "-clear-no-such-hyp".

Section Reading.

Variable sha256 : string → list Z.
Variable getCbor : list Z → result (gmap Z Item).

(** ** Calls that leave the contents alone *)

Lemma get_node_loads indices :
  ∀ node k,
    loads_to getCbor (IPtr node) (IPtr (get_node getCbor node indices k).1).
Proof.
  induction indices as [|i rest IH]; intros node k; [constructor|].
  cbn [get_node]. destruct (node !! i) as [item|] eqn:Hi; [|constructor].
  destruct (loadItem getCbor item) as [item1 [[]|e]] eqn:Hload;
    [|constructor].
  destruct item1 as [c|child|leaf].
  - eapply loads_slot; [done|by eapply loadItem_loads].
  - specialize (IH child k).
    destruct (get_node getCbor child rest k) as [child' r]. cbn [fst] in *.
    rewrite insert_insert_eq. eapply loads_slot; [done|].
    by eapply loadItem_ptr.
  - assert (Hsame : loads_to getCbor (IPtr node)
                      (IPtr (<[i := ILeaf leaf]> node))).
    { eapply loads_slot; [done|by eapply loadItem_loads]. }
    by destruct (leaf !! k).
Qed.

Lemma on_root_loads {A} (h : Hamt) (call : gmap Z Item → gmap Z Item * result A) :
  (∀ node, loads_to getCbor (IPtr node) (IPtr (call node).1)) →
  bit_width_ (on_root getCbor h call).1 = bit_width_ h
  ∧ loads_to getCbor (root_ h) (root_ (on_root getCbor h call).1).
Proof.
  intros Hcall. unfold on_root.
  destruct (loadItem getCbor (root_ h)) as [root1 [[]|e]] eqn:Hload.
  - destruct root1 as [c|node|leaf];
      try (cbn; split; [done|by eapply loadItem_loads]).
    specialize (Hcall node). destruct (call node) as [node' r]. cbn in *.
    split; [done|]. by eapply loadItem_ptr.
  - destruct root1; cbn; split; try done; constructor.
Qed.

(** Whatever the HAMT and the store, [get] changes nothing but the load
    state of the items on its way: no later [get] returns anything else,
    and a fully loaded HAMT is left exactly as it was. *)
Theorem get_only_loads h key :
  let h' := (get sha256 getCbor h key).1 in
  bit_width_ h' = bit_width_ h
  ∧ loads_to getCbor (root_ h) (root_ h')
  ∧ (∀ k, (get sha256 getCbor h' k).2 = (get sha256 getCbor h k).2)
  ∧ (loaded (root_ h) = true → h' = h).
Proof.
  cbn zeta.
  assert (Hroot : bit_width_ (get sha256 getCbor h key).1 = bit_width_ h
                  ∧ loads_to getCbor (root_ h)
                      (root_ (get sha256 getCbor h key).1)).
  { unfold get. apply on_root_loads. intros node.
    destruct (keyToIndices sha256 (bit_width_ h) key (-1)) as [indices|];
      [|constructor].
    apply get_node_loads. }
  destruct Hroot as [Hbw Hloads]. split; [done|]. split; [done|]. split.
  - intros k. destruct (get sha256 getCbor h key).1 as [r' b'].
    destruct h as [r b]. cbn in Hbw, Hloads. subst b'. by apply get_loads.
  - intros Hl. apply (loads_to_loaded _ _ _ Hloads) in Hl.
    destruct (get sha256 getCbor h key).1 as [r b], h as [r0 b0].
    cbn in *. by subst.
Qed.

Lemma cleanShard_node_ok node : (cleanShard (IPtr node)).2 = Ok tt.
Proof.
  unfold cleanShard. case_bool_decide.
  - by destruct (ordered_items node) as [|[? [| |]] ?].
  - case_bool_decide; [|done].
    by destruct (gather_items (ordered_items node) ∅).
Qed.

Lemma remove_node_error indices :
  ∀ node k node' e,
    remove_node getCbor node indices k = (node', Err e) →
    loads_to getCbor (IPtr node) (IPtr node').
Proof.
  induction indices as [|i rest IH]; intros node k node' e;
    cbn [remove_node]; [intros [= <- _]; constructor|].
  destruct (node !! i) as [item|] eqn:Hi; [|intros [= <- _]; constructor].
  destruct (loadItem getCbor item) as [item1 [[]|e1]] eqn:Hload;
    [|intros [= <- _]; constructor].
  destruct item1 as [c|child|leaf].
  - intros [= <- _]. eapply loads_slot; [done|by eapply loadItem_loads].
  - destruct (remove_node getCbor child rest k) as [child' [[]|e1]] eqn:Hrec.
    + pose proof (cleanShard_node_ok child') as Hclean.
      destruct (cleanShard (IPtr child')) as [item' r]. cbn in Hclean.
      by subst r.
    + intros [= <- _]. rewrite insert_insert_eq.
      eapply loads_slot; [done|]. eapply loadItem_ptr; [done|].
      by eapply IH.
  - assert (Hsame : loads_to getCbor (IPtr node)
                      (IPtr (<[i := ILeaf leaf]> node))).
    { eapply loads_slot; [done|by eapply loadItem_loads]. }
    destruct (leaf !! k); [|by intros [= <- _]].
    by case_bool_decide.
Qed.

(** Whatever the HAMT and the store, a [remove] that fails (the key is
    not there, or a block cannot be read) takes nothing out: it changes
    nothing but the load state of the items on its way. *)
Theorem remove_failure_only_loads h key e :
  (remove sha256 getCbor h key).2 = Err e →
  let h' := (remove sha256 getCbor h key).1 in
  bit_width_ h' = bit_width_ h
  ∧ loads_to getCbor (root_ h) (root_ h')
  ∧ (∀ k, (get sha256 getCbor h' k).2 = (get sha256 getCbor h k).2)
  ∧ (loaded (root_ h) = true → h' = h).
Proof.
  intros Herr. cbn zeta.
  assert (Hroot : bit_width_ (remove sha256 getCbor h key).1 = bit_width_ h
                  ∧ loads_to getCbor (root_ h)
                      (root_ (remove sha256 getCbor h key).1)).
  { revert Herr. unfold remove, on_root.
    destruct (loadItem getCbor (root_ h)) as [root1 [[]|e1]] eqn:Hload;
      [|destruct root1; cbn; intros _; split; [done|constructor..]].
    destruct root1 as [c|node|leaf];
      try (cbn; intros _; split; [done|by eapply loadItem_loads]).
    destruct (keyToIndices sha256 (bit_width_ h) key (-1)) as [indices|].
    2:{ cbn. intros _. split; [done|by eapply loadItem_loads]. }
    destruct (remove_node getCbor node indices key) as [node' r] eqn:Hrm.
    cbn. intros ->. split; [done|]. eapply loadItem_ptr; [done|].
    by eapply remove_node_error. }
  destruct Hroot as [Hbw Hloads]. split; [done|]. split; [done|]. split.
  - intros k. destruct (remove sha256 getCbor h key).1 as [r' b'].
    destruct h as [r b]. cbn in Hbw, Hloads. subst b'. by apply get_loads.
  - intros Hl. apply (loads_to_loaded _ _ _ Hloads) in Hl.
    destruct (remove sha256 getCbor h key).1 as [r b], h as [r0 b0].
    cbn in *. by subst.
Qed.

End Reading.

(** ** The range of the indices *)

Lemma index_group_range bit_width hash j :
  0 < bit_width → 0 ≤ index_group bit_width hash j < 2 ^ bit_width.
Proof.
  intros Hbw. unfold index_group. apply Z.mod_pos_bound.
  apply Z.pow_pos_nonneg; lia.
Qed.

(** With an index of 1 to 64 bits and a hash of 32 bytes, every index
    that [keyToIndices] yields, for the default [n = -1] and for [n] from
    1 to [L + 1], is a slot number of a node: it lies from 0 up to, and
    not including, [2 ^ bit_width]; and there are at most [L] of them. *)
Theorem keyToIndices_in_range sha256 bit_width key n :
  0 < bit_width ≤ 64 → sha256_ok sha256 key →
  n = -1 ∨ 1 ≤ n ≤ Z.of_nat (levels bit_width) + 1 →
  ∃ indices,
    keyToIndices sha256 bit_width key n = Some indices
    ∧ (length indices ≤ levels bit_width)%nat
    ∧ Forall (λ i, 0 ≤ i < 2 ^ bit_width) indices.
Proof.
  intros Hbw Hok Hn.
  assert (Hall : Forall (λ i, 0 ≤ i < 2 ^ bit_width)
                   (path sha256 bit_width key)).
  { unfold path, index_path. apply Forall_fmap, Forall_forall.
    intros j _. apply index_group_range. lia. }
  pose proof (path_length sha256 bit_width key Hok) as Hlen.
  destruct Hn as [->|Hn].
  - exists (path sha256 bit_width key).
    split; [by apply keyToIndices_full|]. split; [lia|done].
  - eexists. split; [by apply keyToIndices_suffix|].
    split; [rewrite length_drop; lia|by apply Forall_drop].
Qed.

(** ** Induction on items *)

Fixpoint depth (item : Item) : nat :=
  match item with
  | IPtr node => S (map_fold (λ _ it acc, Nat.max (depth it) acc) 0%nat node)
  | _ => 0%nat
  end.

Lemma depth_child node i it :
  node !! i = Some it → (depth it < depth (IPtr node))%nat.
Proof.
  cbn [depth]. intros Hi. apply Nat.lt_succ_r. revert i it Hi.
  apply (map_fold_weak_ind
    (λ r (m : gmap Z Item), ∀ i it, m !! i = Some it → (depth it ≤ r)%nat)).
  - intros i it. by rewrite lookup_empty.
  - intros j x m r Hj IH i it Hi.
    apply lookup_insert_Some in Hi as [[<- <-]|[_ Hi]]; [lia|].
    specialize (IH i it Hi). lia.
Qed.

Lemma Item_node_ind (P : Item → Prop) :
  (∀ c, P (ICid c)) → (∀ leaf, P (ILeaf leaf)) →
  (∀ node, (∀ i it, node !! i = Some it → P it) → P (IPtr node)) →
  ∀ item, P item.
Proof.
  intros Hcid Hleaf Hptr item.
  assert (H : ∀ n it, (depth it < n)%nat → P it).
  { induction n as [|n IH]; intros it Hn; [lia|].
    destruct it as [c|node|leaf]; [done| |done].
    apply Hptr. intros i x Hi. apply IH.
    pose proof (depth_child _ _ _ Hi). lia. }
  apply (H (S (depth item))). lia.
Qed.

(** ** [flush] *)

(** The order of iteration does not depend on the values. *)
Lemma ordered_items_fmap {A B} (f : A → B) (m : gmap Z A) :
  ordered_items (f <$> m) = prod_map id f <$> ordered_items m.
Proof.
  assert (Hsorted : ∀ l : list (Z * A),
            StronglySorted key_le l →
            StronglySorted key_le (prod_map id f <$> l)).
  { induction 1 as [|x l _ IH Hall]; [constructor|].
    cbn. constructor; [done|]. apply Forall_fmap.
    eapply Forall_impl; [exact Hall|]. by intros []. }
  assert (Hperm : ∀ V (n : gmap Z V), ordered_items n ≡ₚ map_to_list n).
  { intros V n. apply merge_sort_Permutation. }
  apply (StronglySorted_unique_strong key_le).
  - intros [k1 v1] [k2 v2] H1 H2 Hle1 Hle2. unfold key_le in *. cbn in *.
    assert (k1 = k2) as -> by lia. f_equal.
    rewrite Hperm, elem_of_map_to_list in H1.
    rewrite Hperm, <- map_to_list_fmap, elem_of_map_to_list in H2.
    congruence.
  - apply BranchQueryFacts.ordered_items_sorted.
  - apply Hsorted, BranchQueryFacts.ordered_items_sorted.
  - by rewrite !Hperm, map_to_list_fmap.
Qed.

Section Flushing.

Variable sha256 : string → list Z.
Variable getCbor : list Z → result (gmap Z Item).
Variable setCbor : gmap Z Item → result (list Z).

(** [stored item item']: [item'] is [item] in which some of the loaded
    nodes, with all the nodes below them, were put in the store and
    replaced by the CID the store gave for them.  This is what [flush]
    does, to all the loaded nodes when it succeeds, and to those it went
    through when a write fails. *)
Inductive stored : Item → Item → Prop :=
| stored_same item : stored item item
| stored_node node node' :
    (∀ i, node !! i = None → node' !! i = None) →
    (∀ i it, node !! i = Some it →
       ∃ it', node' !! i = Some it' ∧ stored it it') →
    stored (IPtr node) (IPtr node')
| stored_put node node' c :
    (∀ i, node !! i = None → node' !! i = None) →
    (∀ i it, node !! i = Some it →
       ∃ it', node' !! i = Some it' ∧ stored it it') →
    setCbor node' = Ok c →
    stored (IPtr node) (ICid c).

Lemma ordered_items_elem_of {V} (m : gmap Z V) k v :
  (k, v) ∈ ordered_items m ↔ m !! k = Some v.
Proof.
  unfold ordered_items. by rewrite merge_sort_Permutation, elem_of_map_to_list.
Qed.

Lemma ordered_items_NoDup {V} (m : gmap Z V) : NoDup (ordered_items m).*1.
Proof.
  unfold ordered_items. rewrite merge_sort_Permutation.
  apply NoDup_fst_map_to_list.
Qed.

(** The loop over the items of a node replaces items by what their own
    flush made of them, and touches no other slot. *)
Lemma flush_items_slots items :
  ∀ node0 node' r,
    flush_items items node0 = (node', r) →
    ∀ i, node' !! i = node0 !! i
         ∨ ∃ it' r', (i, (it', r')) ∈ items ∧ node' !! i = Some it'.
Proof.
  induction items as [|[j [jt rj]] items IH]; intros node0 node' r H i.
  { injection H as <- _. by left. }
  cbn [flush_items] in H. destruct rj as [[]|e].
  - destruct (IH _ _ _ H i) as [Hi|(it' & r' & Hin & Hi)].
    + destruct (decide (j = i)) as [->|Hne].
      * right. exists jt, (Ok tt). split; [left|].
        by rewrite Hi, lookup_insert_eq.
      * left. by rewrite Hi, lookup_insert_ne.
    + right. exists it', r'. split; [by right|done].
  - injection H as <- _. destruct (decide (j = i)) as [->|Hne].
    + right. exists jt, (Err e). split; [left|]. apply lookup_insert_eq.
    + left. by rewrite lookup_insert_ne.
Qed.

Lemma flush_item_stored item :
  ∀ item' r, flush_item setCbor item = (item', r) → stored item item'.
Proof.
  induction item as [c|leaf|node IH] using Item_node_ind; intros item' r;
    cbn [flush_item]; try (intros [= <- _]; constructor).
  destruct (flush_items (ordered_items (flush_item setCbor <$> node)) node)
    as [node' r'] eqn:Hitems.
  pose proof (flush_items_slots _ _ _ _ Hitems) as Hslots.
  assert (Hnone : ∀ i, node !! i = None → node' !! i = None).
  { intros i Hi. destruct (Hslots i) as [->|(it' & ri & Hin & _)]; [done|].
    apply ordered_items_elem_of in Hin.
    by rewrite lookup_fmap, Hi in Hin. }
  assert (Hsome : ∀ i it, node !! i = Some it →
                          ∃ it', node' !! i = Some it' ∧ stored it it').
  { intros i it Hi. destruct (Hslots i) as [Hsame|(it' & ri & Hin & Hi')].
    - exists it. rewrite Hsame. split; [done|constructor].
    - exists it'. split; [done|]. apply ordered_items_elem_of in Hin.
      rewrite lookup_fmap, Hi in Hin. injection Hin as Hin.
      by eapply IH. }
  destruct r' as [[]|e]; [|intros [= <- _]; by constructor].
  destruct (setCbor node') as [c|e] eqn:Hput; intros [= <- _].
  - by eapply stored_put.
  - by constructor.
Qed.

(** The store returns the node that was put under a CID. *)
Hypothesis store_round_trip :
  ∀ node c, setCbor node = Ok c → getCbor c = Ok node.

Lemma get_node_stored indices :
  ∀ node node' k,
    (∀ i, node !! i = None → node' !! i = None) →
    (∀ i it, node !! i = Some it →
       ∃ it', node' !! i = Some it' ∧ stored it it') →
    (get_node getCbor node' indices k).2 = (get_node getCbor node indices k).2.
Proof.
  induction indices as [|i rest IH]; intros node node' k Hnone Hsome; [done|].
  rewrite !get_node_cons. destruct (node !! i) as [it|] eqn:Hi.
  2:{ by rewrite (Hnone i Hi). }
  destruct (Hsome i it Hi) as (it' & -> & Hst).
  inversion Hst as [x|n n' Hn Hs|n n' c Hn Hs Hput]; subst; [done| |].
  - unfold get_item. cbn [loadItem]. by apply IH.
  - unfold get_item. cbn [loadItem]. rewrite (store_round_trip _ _ Hput).
    by apply IH.
Qed.

(** ** Operations on a flushed HAMT *)

(** [slots node node']: the two nodes have the same slots in use, and each
    item of [node'] is the item of [node] with some nodes stored. *)
Definition slots (node node' : gmap Z Item) : Prop :=
  (∀ i, node !! i = None → node' !! i = None)
  ∧ (∀ i it, node !! i = Some it →
       ∃ it', node' !! i = Some it' ∧ stored it it').

Lemma slots_refl node : slots node node.
Proof. split; [done|]. intros i it Hi. exists it. split; [done|constructor]. Qed.

Lemma slots_insert node node' i it it' :
  slots node node' → stored it it' →
  slots (<[i := it]> node) (<[i := it']> node').
Proof.
  intros [Hnone Hsome] Hst. split.
  - intros j Hj. apply lookup_insert_None in Hj as [Hj Hne].
    rewrite lookup_insert_ne by done. by apply Hnone.
  - intros j jt Hj. apply lookup_insert_Some in Hj as [[<- <-]|[Hne Hj]].
    + exists it'. by rewrite lookup_insert_eq.
    + rewrite lookup_insert_ne by done. by apply Hsome.
Qed.

Lemma slots_delete node node' i :
  slots node node' → slots (delete i node) (delete i node').
Proof.
  intros [Hnone Hsome]. split.
  - intros j Hj. apply lookup_delete_None in Hj as [<-|Hj].
    + apply lookup_delete_eq.
    + apply lookup_delete_None. right. by apply Hnone.
  - intros j jt Hj. apply lookup_delete_Some in Hj as [Hne Hj].
    rewrite lookup_delete_ne by done. by apply Hsome.
Qed.

Lemma stored_ptr node node' : slots node node' → stored (IPtr node) (IPtr node').
Proof. intros [? ?]. by constructor. Qed.

(** Two items after [loadItem]: nodes with the same slots, or the same
    leaf. *)
Inductive both : Item → Item → Prop :=
| both_ptr node node' : slots node node' → both (IPtr node) (IPtr node')
| both_leaf leaf : both (ILeaf leaf) (ILeaf leaf).

Lemma stored_load item item' :
  stored item item' →
  (∃ e, loadItem getCbor item = (item, Err e)
        ∧ loadItem getCbor item' = (item', Err e))
  ∨ (∃ l l', loadItem getCbor item = (l, Ok tt)
             ∧ loadItem getCbor item' = (l', Ok tt) ∧ both l l').
Proof.
  intros Hst. inversion Hst as [x|n n' Hn Hs|n n' c Hn Hs Hput]; subst.
  - destruct item' as [c|n|l]; cbn [loadItem].
    + destruct (getCbor c) as [n|e]; [right|left; by exists e].
      exists (IPtr n), (IPtr n). repeat split. constructor. apply slots_refl.
    + right. exists (IPtr n), (IPtr n). repeat split. constructor.
      apply slots_refl.
    + right. exists (ILeaf l), (ILeaf l). repeat split. constructor.
  - right. exists (IPtr n), (IPtr n'). repeat split. by constructor.
  - right. exists (IPtr n), (IPtr n'). cbn [loadItem].
    rewrite (store_round_trip _ _ Hput). repeat split. by constructor.
Qed.

Lemma slots_step node node' index :
  slots node node' →
  (node !! index = None ∧ node' !! index = None)
  ∨ ∃ it it', node !! index = Some it ∧ node' !! index = Some it'
              ∧ stored it it'.
Proof.
  intros [Hnone Hsome]. destruct (node !! index) as [it|] eqn:Hi.
  - right. destruct (Hsome index it Hi) as (it' & Hi' & Hst). by exists it, it'.
  - left. split; [done|by apply Hnone].
Qed.

(** [set] on two nodes with the same slots. *)
Lemma set_node_slots fuel bit_width :
  ∀ indices node node' key value,
    slots node node' →
    (set_node sha256 getCbor fuel bit_width node' indices key value).2
    = (set_node sha256 getCbor fuel bit_width node indices key value).2
    ∧ slots (set_node sha256 getCbor fuel bit_width node indices key value).1
        (set_node sha256 getCbor fuel bit_width node' indices key value).1.
Proof.
  induction fuel as [|fuel IH]; intros [|index rest] node node' key value Hsl;
    cbn [set_node]; try done.
  - destruct (slots_step node node' index Hsl)
      as [[-> ->]|(it & it' & -> & -> & Hst)].
    { split; [done|]. apply slots_insert; [done|constructor]. }
    destruct (stored_load it it' Hst)
      as [(e & -> & ->)|(l & l' & -> & -> & Hboth)]; [done|].
    split; [done|]. apply slots_insert; [done|].
    destruct Hboth; [by apply stored_ptr|constructor].
  - destruct (slots_step node node' index Hsl)
      as [[-> ->]|(it & it' & -> & -> & Hst)].
    { split; [done|]. apply slots_insert; [done|constructor]. }
    destruct (stored_load it it' Hst)
      as [(e & -> & ->)|(l & l' & -> & -> & Hboth)]; [done|].
    destruct Hboth as [child child' Hchild|leaf].
    + destruct (IH rest child child' key value Hchild) as [Hr Hs].
      destruct (set_node sha256 getCbor fuel bit_width child rest key value)
        as [c1 r1], (set_node sha256 getCbor fuel bit_width child' rest key value)
        as [c1' r1']. cbn [fst snd] in *. split; [done|].
      rewrite !insert_insert_eq. apply slots_insert; [done|].
      by apply stored_ptr.
    + assert (Hnode : slots (<[index := ILeaf leaf]> node)
                        (<[index := ILeaf leaf]> node'))
        by (apply slots_insert; [done|constructor]).
      destruct (_ || _).
      { split; [done|]. rewrite !insert_insert_eq.
        apply slots_insert; [done|constructor]. }
      destruct (set_node sha256 getCbor fuel bit_width ∅ rest key value)
        as [c0 [[]|e]]; [|done].
      destruct (reinsert _ _ _ _ _ _) as [c1 [[]|e]]; [|done].
      split; [done|]. rewrite !insert_insert_eq.
      apply slots_insert; [done|constructor].
Qed.

(** The leaf that an item is, if it is one. *)
Definition leaf_view (item : Item) : option (gmap string (list Z)) :=
  match item with ILeaf leaf => Some leaf | _ => None end.

Lemma stored_leaf_view item item' :
  stored item item' → leaf_view item' = leaf_view item.
Proof. by intros []. Qed.

Lemma slots_leaf_view node node' :
  slots node node' → leaf_view <$> node' = leaf_view <$> node.
Proof.
  intros Hsl. apply map_eq. intros i. rewrite !lookup_fmap.
  destruct (slots_step node node' i Hsl) as [[-> ->]|(it & it' & -> & -> & Hst)];
    [done|]. cbn. by rewrite (stored_leaf_view _ _ Hst).
Qed.

Lemma slots_size node node' : slots node node' → size node' = size node.
Proof.
  intros Hsl. rewrite <- (map_size_fmap leaf_view node'),
    <- (map_size_fmap leaf_view node). by rewrite (slots_leaf_view _ _ Hsl).
Qed.

(** What [cleanShard] reads of the items of a node. *)
Fixpoint gather_views (items : list (Z * option (gmap string (list Z))))
    (leaf : gmap string (list Z)) : option (gmap string (list Z)) :=
  match items with
  | [] => Some leaf
  | (_, Some l) :: items' =>
    match gather_pairs (ordered_pairs l) leaf with
    | None => None
    | Some leaf => gather_views items' leaf
    end
  | _ :: _ => None
  end.

Lemma gather_items_views items :
  ∀ leaf, gather_items items leaf
          = gather_views (prod_map id leaf_view <$> items) leaf.
Proof.
  induction items as [|[i [c|n|l]] items IH]; intros leaf; cbn; try done.
  destruct (gather_pairs (ordered_pairs l) leaf); [apply IH|done].
Qed.

Lemma cleanShard_slots child child' :
  slots child child' →
  (cleanShard (IPtr child')).2 = (cleanShard (IPtr child)).2
  ∧ stored (cleanShard (IPtr child)).1 (cleanShard (IPtr child')).1.
Proof.
  intros Hsl. pose proof (stored_ptr _ _ Hsl) as Hptr.
  pose proof (slots_leaf_view _ _ Hsl) as Hviews.
  assert (Hlist : prod_map id leaf_view <$> ordered_items child'
                  = prod_map id leaf_view <$> ordered_items child).
  { by rewrite <- !ordered_items_fmap, Hviews. }
  unfold cleanShard. rewrite (slots_size _ _ Hsl).
  case_bool_decide as H1.
  - destruct (ordered_items child) as [|[i it] items],
      (ordered_items child') as [|[i' it'] items']; try done.
    injection Hlist as _ Hview _.
    destruct it as [c|n|l], it' as [c'|n'|l']; cbn in Hview; try done.
    injection Hview as ->. split; [done|constructor].
  - case_bool_decide as H2; [|done].
    rewrite !gather_items_views, Hlist.
    destruct (gather_views _ ∅); [|done]. split; [done|constructor].
Qed.

(** [remove] on two nodes with the same slots. *)
Lemma remove_node_slots indices :
  ∀ node node' key,
    slots node node' →
    (remove_node getCbor node' indices key).2
    = (remove_node getCbor node indices key).2
    ∧ slots (remove_node getCbor node indices key).1
        (remove_node getCbor node' indices key).1.
Proof.
  induction indices as [|index rest IH]; intros node node' key Hsl;
    cbn [remove_node]; [done|].
  destruct (slots_step node node' index Hsl)
    as [[-> ->]|(it & it' & -> & -> & Hst)]; [done|].
  destruct (stored_load it it' Hst)
    as [(e & -> & ->)|(l & l' & -> & -> & Hboth)]; [done|].
  destruct Hboth as [child child' Hchild|leaf].
  - destruct (IH child child' key Hchild) as [Hr Hs].
    destruct (remove_node getCbor child rest key) as [c1 r1],
      (remove_node getCbor child' rest key) as [c1' r1'].
    cbn [fst snd] in *. subst r1'. destruct r1 as [[]|e].
    + destruct (cleanShard_slots c1 c1' Hs) as [Hr' Hst'].
      destruct (cleanShard (IPtr c1)) as [i1 r1],
        (cleanShard (IPtr c1')) as [i1' r1'].
      cbn [fst snd] in *. split; [done|].
      rewrite !insert_insert_eq. by apply slots_insert.
    + split; [done|]. rewrite !insert_insert_eq.
      apply slots_insert; [done|]. by apply stored_ptr.
  - assert (Hnode : slots (<[index := ILeaf leaf]> node)
                      (<[index := ILeaf leaf]> node'))
      by (apply slots_insert; [done|constructor]).
    destruct (leaf !! key); [|done].
    case_bool_decide.
    + split; [done|]. rewrite !delete_insert_eq. by apply slots_delete.
    + split; [done|]. rewrite !insert_insert_eq.
      apply slots_insert; [done|constructor].
Qed.

(** [hamt_stored h h']: [h'] is [h] with some of its nodes stored. *)
Definition hamt_stored (h h' : Hamt) : Prop :=
  bit_width_ h' = bit_width_ h ∧ stored (root_ h) (root_ h').

Lemma on_root_stored {A} (h h' : Hamt)
    (call call' : gmap Z Item → gmap Z Item * result A) :
  hamt_stored h h' →
  (∀ node node', slots node node' →
     (call' node').2 = (call node).2 ∧ slots (call node).1 (call' node').1) →
  (on_root getCbor h' call').2 = (on_root getCbor h call).2
  ∧ hamt_stored (on_root getCbor h call).1 (on_root getCbor h' call').1.
Proof.
  intros Hst Hcall. pose proof Hst as [Hbw Hroot]. unfold on_root.
  destruct (stored_load _ _ Hroot) as [(e & -> & ->)|(l & l' & -> & -> & Hboth)].
  { by destruct (root_ h), (root_ h'). }
  destruct Hboth as [node node' Hnode|leaf].
  - destruct (Hcall node node' Hnode) as [Hr Hs].
    destruct (call node) as [n1 r1], (call' node') as [n1' r1'].
    cbn [fst snd] in *. split; [done|]. split; [done|]. by apply stored_ptr.
  - split; [done|]. split; [done|]. constructor.
Qed.

Lemma apply_op_stored h h' o :
  hamt_stored h h' →
  (apply_op sha256 getCbor h' o).2 = (apply_op sha256 getCbor h o).2
  ∧ hamt_stored (apply_op sha256 getCbor h o).1
      (apply_op sha256 getCbor h' o).1.
Proof.
  intros Hst. pose proof Hst as [Hbw _].
  destruct o as [k v|k]; cbn [apply_op]; unfold set, remove;
    apply on_root_stored; try done; rewrite Hbw; intros node node' Hsl;
    (destruct (keyToIndices sha256 (bit_width_ h) k (-1)) as [indices|];
     [|done]).
  - by apply set_node_slots.
  - by apply remove_node_slots.
Qed.

Lemma run_stored ops :
  ∀ h h', hamt_stored h h' →
          (run sha256 getCbor ops h').2 = (run sha256 getCbor ops h).2
          ∧ hamt_stored (run sha256 getCbor ops h).1
              (run sha256 getCbor ops h').1.
Proof.
  induction ops as [|o ops IH]; intros h h' Hst; [done|].
  cbn [run]. destruct (apply_op_stored h h' o Hst) as [Hr Hs].
  destruct (apply_op sha256 getCbor h o) as [h1 r1],
    (apply_op sha256 getCbor h' o) as [h1' r1']. cbn [fst snd] in *.
  destruct (IH h1 h1' Hs) as [Hrs Hs'].
  destruct (run sha256 getCbor ops h1) as [h2 rs],
    (run sha256 getCbor ops h1') as [h2' rs']. cbn [fst snd] in *.
  split; [congruence|done].
Qed.

Lemma get_stored h h' k :
  hamt_stored h h' →
  (get sha256 getCbor h' k).2 = (get sha256 getCbor h k).2.
Proof.
  intros [Hbw Hroot]. unfold get, on_root. rewrite Hbw.
  destruct (stored_load _ _ Hroot) as [(e & -> & ->)|(l & l' & -> & -> & Hboth)].
  { by destruct (root_ h), (root_ h'). }
  destruct Hboth as [node node' [Hn Hs]|leaf]; [|done].
  destruct (keyToIndices sha256 (bit_width_ h) k (-1)) as [indices|]; [|done].
  pose proof (get_node_stored indices node node' k Hn Hs) as Hg.
  by destruct (get_node getCbor node' indices k),
              (get_node getCbor node indices k).
Qed.

(** When the store returns what was put into it, a [flush] at any point
    changes nothing of what the HAMT does afterwards: whatever the HAMT,
    and whether the [flush] succeeds or a write fails on the way, every
    sequence of [set] and [remove] returns on the flushed HAMT what it
    returns on the HAMT as it was, and every [get] after it returns the
    same.  The [flush] keeps the bit width, and when it succeeds the root
    of the HAMT is the CID it returns. *)
Theorem flush_is_transparent h :
  let r := flush setCbor h in
  bit_width_ r.1 = bit_width_ h
  ∧ (∀ c, r.2 = Ok c → r.1 = mkHamt (ICid c) (bit_width_ h))
  ∧ ∀ ops,
      (run sha256 getCbor ops r.1).2 = (run sha256 getCbor ops h).2
      ∧ ∀ k, (get sha256 getCbor (run sha256 getCbor ops r.1).1 k).2
             = (get sha256 getCbor (run sha256 getCbor ops h).1 k).2.
Proof.
  cbn zeta.
  assert (Hst : hamt_stored h (flush setCbor h).1
                ∧ ∀ c, (flush setCbor h).2 = Ok c →
                       (flush setCbor h).1 = mkHamt (ICid c) (bit_width_ h)).
  { unfold flush.
    destruct (flush_item setCbor (root_ h)) as [root r] eqn:Hroot.
    apply flush_item_stored in Hroot.
    destruct r as [[]|e], root as [c| |]; (split; [done|]); try done.
    by intros c' [= <-]. }
  destruct Hst as [Hst Hcid]. split; [by destruct Hst|]. split; [done|].
  intros ops. destruct (run_stored ops h _ Hst) as [Hr Hs]. split; [done|].
  intros k. by apply get_stored.
Qed.

End Flushing.

(** ** [visit] *)

Lemma visit_pairs_app {A} (visitor : A → string → list Z → A * result unit)
    l1 l2 a :
  visit_pairs visitor (l1 ++ l2) a
  = match visit_pairs visitor l1 a with
    | (a', Ok _) => visit_pairs visitor l2 a'
    | (a', Err e) => (a', Err e)
    end.
Proof.
  revert a. induction l1 as [|[k v] l1 IH]; intros a; [done|].
  cbn [app visit_pairs]. destruct (visitor a k v) as [a' [[]|e]]; [|done].
  apply IH.
Qed.

Lemma elem_of_concat {A} (x : A) (ls : list (list A)) :
  x ∈ concat ls ↔ ∃ l, x ∈ l ∧ l ∈ ls.
Proof.
  induction ls as [|l ls IH]; cbn [concat].
  { split; [by intros ?%elem_of_nil|]. by intros (l & _ & ?%elem_of_nil). }
  rewrite elem_of_app, IH. split.
  - intros [H|(l' & H & Hl')]; [exists l|exists l']; split; try done;
      [left|by right].
  - intros (l' & H & Hl'). apply elem_of_cons in Hl' as [->|Hl'];
      [by left|right; by exists l'].
Qed.

Section Visiting.

Variable sha256 : string → list Z.
Variable getCbor : list Z → result (gmap Z Item).
Variable bit_width : Z.

Hypothesis bit_width_ok : 0 < bit_width ≤ 64.
Hypothesis sha256_32 : ∀ key, sha256_ok sha256 key.

(** What [visit] does on an item: it leaves the item as it is and calls
    the visitor on the entries of the list, in their order, up to the
    first error. *)
Definition visits (fuel0 : nat) (item : Item)
    (l : list (string * list Z)) : Prop :=
  ∀ A (visitor : A → string → list Z → A * result unit) a fuel,
    (fuel0 ≤ fuel)%nat →
    visit_item getCbor fuel visitor item a
    = (item, (visit_pairs visitor l a).1, (visit_pairs visitor l a).2).

Lemma visit_items_spec m node items :
  (∀ i it, (i, it) ∈ items → node !! i = Some it) →
  ∀ ls, Forall2 (λ x l, visits m x.2 l) items ls →
  ∀ A (visitor : A → string → list Z → A * result unit) a fuel,
    (m ≤ fuel)%nat →
    visit_items (visit_item getCbor fuel visitor) items node a
    = (node, (visit_pairs visitor (concat ls) a).1,
       (visit_pairs visitor (concat ls) a).2).
Proof.
  intros Hnode ls Hall. induction Hall as [|[i it] l items ls Hit _ IH];
    intros A visitor a fuel Hfuel; [done|].
  cbn [visit_items concat]. rewrite visit_pairs_app. cbn [snd] in Hit.
  rewrite (Hit A visitor a fuel Hfuel).
  assert (Hi : node !! i = Some it) by (apply Hnode; left).
  destruct (visit_pairs visitor l a) as [a' [[]|e]]; cbn [fst snd].
  - rewrite (insert_id _ _ _ Hi). apply IH; [|done].
    intros j jt Hj. apply Hnode. by right.
  - by rewrite (insert_id _ _ _ Hi).
Qed.

Lemma visits_node m :
  (∀ pre item,
     wf_item sha256 bit_width m pre item →
     ∃ l, l ≡ₚ map_to_list (content item) ∧ visits m item l) →
  ∀ pre node,
    wf_node sha256 bit_width (S m) pre node →
    ∃ l, l ≡ₚ map_to_list (content (IPtr node)) ∧ visits (S m) (IPtr node) l.
Proof.
  intros IH pre node Hnode.
  assert (Hwf : ∀ j it, node !! j = Some it →
                        wf_item sha256 bit_width m (pre ++ [j]) it) by done.
  assert (Hlists : ∀ items,
    (∀ i it, (i, it) ∈ items → node !! i = Some it) →
    ∃ ls, Forall2 (λ x l, l ≡ₚ map_to_list (content x.2) ∧ visits m x.2 l)
            items ls).
  { induction items as [|[i it] items IHi]; intros Hin.
    { exists []. constructor. }
    destruct IHi as [ls Hls]; [intros j jt Hj; apply Hin; by right|].
    destruct (IH _ _ (Hwf i it (Hin i it ltac:(left)))) as (l & Hl & Hv).
    exists (l :: ls). by constructor. }
  destruct (Hlists (ordered_items node)) as [ls Hls].
  { intros i it. apply ordered_items_lookup. }
  exists (concat ls). split.
  + apply NoDup_Permutation.
    * assert (Hnd : NoDup (ordered_items node).*1)
        by apply ordered_items_NoDup.
      assert (Hin : ∀ i it, (i, it) ∈ ordered_items node →
                            node !! i = Some it)
        by (intros i it; apply ordered_items_lookup).
      revert Hnd Hin. induction Hls as [|[i it] l items ls [Hl _] Hls IHl];
        intros Hnd Hin; [constructor|].
      rewrite fmap_cons in Hnd. apply NoDup_cons in Hnd as [Hi Hnd].
      cbn [concat]. apply NoDup_app. split; [|split].
      -- rewrite Hl. apply NoDup_map_to_list.
      -- intros [k v] Hkv Hrest. rewrite Hl in Hkv.
         apply elem_of_map_to_list in Hkv. cbn [snd] in Hkv.
         apply elem_of_concat in Hrest as (l' & Hkv' & Hl').
         apply list_elem_of_lookup in Hl' as [n Hn].
         destruct (Forall2_lookup_r _ _ _ _ _ Hls Hn)
           as ([j jt] & Hj & Hjl & _).
         rewrite Hjl in Hkv'. apply elem_of_map_to_list in Hkv'.
         cbn [snd] in Hkv'.
         apply list_elem_of_lookup_2 in Hj.
         pose proof (wf_node_slot _ _ _ _ _ _ _ k Hnode
                       (Hin i it ltac:(left)) (mk_is_Some _ _ Hkv)) as E1.
         pose proof (wf_node_slot _ _ _ _ _ _ _ k Hnode
                       (Hin j jt ltac:(by right)) (mk_is_Some _ _ Hkv'))
           as E2.
         apply Hi. cbn [fst]. apply list_elem_of_fmap. exists (j, jt).
         split; [cbn [fst]; congruence|done].
      -- apply IHl; [done|]. intros j jt Hj. apply Hin. by right.
    * apply NoDup_map_to_list.
    * intros [k v]. rewrite elem_of_map_to_list. split.
      -- intros Hkv. apply elem_of_concat in Hkv as (l & Hkv & Hl).
         apply list_elem_of_lookup in Hl as [n Hn].
         destruct (Forall2_lookup_r _ _ _ _ _ Hls Hn)
           as ([j jt] & Hj & Hjl & _).
         rewrite Hjl in Hkv. apply elem_of_map_to_list in Hkv.
         cbn [snd] in Hkv. apply list_elem_of_lookup_2 in Hj.
         apply ordered_items_lookup in Hj.
         pose proof (wf_node_slot _ _ _ _ _ _ _ k Hnode Hj
                       (mk_is_Some _ _ Hkv)) as Hslot.
         by rewrite (content_lookup _ _ _ _ _ k Hnode), Hslot, Hj.
      -- intros Hkv. apply content_in in Hkv as (j & jt & Hj & Hkv).
         apply ordered_items_lookup in Hj.
         apply list_elem_of_lookup in Hj as [n Hn].
         destruct (Forall2_lookup_l _ _ _ _ _ Hls Hn) as (l & Hl & Hjl & _).
         apply elem_of_concat. exists l. split.
         ++ rewrite Hjl. by apply elem_of_map_to_list.
         ++ by eapply list_elem_of_lookup_2.
  + intros A visitor a fuel Hfuel.
    destruct fuel as [|fuel]; [lia|]. cbn [visit_item loadItem].
    rewrite (visit_items_spec m node (ordered_items node)) with (ls := ls).
    * done.
    * intros i it. apply ordered_items_lookup.
    * eapply Forall2_impl; [exact Hls|]. by intros x l [_ H].
    * lia.
Qed.

Lemma visits_wf m :
  ∀ pre item,
    wf_item sha256 bit_width m pre item →
    ∃ l, l ≡ₚ map_to_list (content item) ∧ visits m item l.
Proof.
  assert (Hleaf : ∀ n leaf,
    ∃ l, l ≡ₚ map_to_list (content (ILeaf leaf)) ∧ visits n (ILeaf leaf) l).
  { intros n leaf. exists (ordered_pairs leaf).
    split; [apply ordered_pairs_perm|].
    intros A visitor a fuel _. destruct fuel; cbn [visit_item loadItem];
      by destruct (visit_pairs visitor (ordered_pairs leaf) a). }
  induction m as [|m IH]; intros pre [c|node|leaf] Hwf; try done.
  destruct Hwf as [_ Hwf]. by apply (visits_node m IH pre).
Qed.

(** On a HAMT built from the empty one by [set] and [remove], [visit]
    calls the visitor once on every entry of the mapping and on nothing
    else, in an order that does not depend on the visitor, and stops at
    the first error the visitor returns; the HAMT is left as it was. *)
Theorem visit_reports_entries ops :
  let r := run sha256 getCbor ops (empty_hamt bit_width) in
  ∃ l,
    l ≡ₚ map_to_list (reference ops r.2 ∅)
    ∧ ∀ A (visitor : A → string → list Z → A * result unit) a fuel,
        (levels bit_width ≤ fuel)%nat →
        visit getCbor fuel visitor r.1 a
        = (r.1, (visit_pairs visitor l a).1, (visit_pairs visitor l a).2).
Proof.
  cbn zeta.
  destruct (run_spec sha256 getCbor bit_width bit_width_ok sha256_32 ops
              (empty_hamt bit_width) (wf_empty_hamt _ _ bit_width_ok))
    as (h & rs & -> & [Hbw (node & Hroot & Hwf)] & Hc).
  cbn [empty_hamt root_] in Hc. rewrite content_empty_node in Hc.
  cbn [fst snd]. rewrite <- Hc, Hroot.
  pose proof (levels_pos bit_width bit_width_ok) as Hlev.
  destruct (levels bit_width) as [|m] eqn:Hm; [lia|].
  destruct (visits_node m (visits_wf m) [] node Hwf) as (l & Hl & Hv).
  exists l. split; [done|]. intros A visitor a fuel Hfuel.
  unfold visit. rewrite Hroot, (Hv A visitor a fuel Hfuel).
  destruct h as [r bw]. cbn in *. by subst.
Qed.

End Visiting.

(** ** When [set] has no place for a key *)

Section Capacity.

Variable sha256 : string → list Z.
Variable getCbor : list Z → result (gmap Z Item).
Variable bit_width : Z.

#[local] Abbreviation path := (path sha256 bit_width).
#[local] Abbreviation levels := (levels bit_width).
#[local] Abbreviation wf_node := (wf_node sha256 bit_width).

(** The keys of a set that have all the indices of [k]. *)
Definition colliding (k : string) (keys : gset string) : gset string :=
  filter (λ k', path k' = path k) keys.

(** The other keys of a set that have all the indices of [k]. *)
Definition others (k : string) (keys : gset string) : gset string :=
  filter (λ k', k' ≠ k ∧ path k' = path k) keys.

Lemma colliding_empty k : colliding k ∅ = ∅.
Proof. unfold colliding. set_solver. Qed.

Lemma colliding_subseteq k (X : gset string) : colliding k X ⊆ X.
Proof. unfold colliding. set_solver. Qed.

Lemma colliding_mono k (X Y : gset string) :
  X ⊆ Y → (size (colliding k X) ≤ size (colliding k Y))%nat.
Proof. intros H. apply subseteq_size. unfold colliding. set_solver. Qed.

Lemma others_mono k (X Y : gset string) :
  X ⊆ Y → (size (others k X) ≤ size (others k Y))%nat.
Proof. intros H. apply subseteq_size. unfold others. set_solver. Qed.

Lemma colliding_others k (X Y : gset string) :
  k ∉ X → X ⊆ Y → (size (colliding k X) ≤ size (others k Y))%nat.
Proof.
  intros Hk H. apply subseteq_size. unfold colliding, others. set_solver.
Qed.

Lemma colliding_insert k (X : gset string) :
  k ∉ X → size (colliding k ({[k]} ∪ X)) = S (size (colliding k X)).
Proof.
  intros Hk.
  assert (colliding k ({[k]} ∪ X) = {[k]} ∪ colliding k X) as ->
    by (unfold colliding; set_solver).
  rewrite size_union, size_singleton; [done|].
  unfold colliding. set_solver.
Qed.

Lemma keys_step (k : string) (rest : list string) (X : gset string) :
  list_to_set rest ∪ ({[k]} ∪ X) ⊆ list_to_set (k :: rest) ∪ X.
Proof. set_solver. Qed.

(** When all the keys of a set but one are among the others of that one,
    they all have its indices. *)
Lemma others_all kp (X : gset string) :
  kp ∈ X → (size X ≤ S (size (others kp X)))%nat →
  ∀ x, x ∈ X → path x = path kp.
Proof.
  intros Hkp Hsize.
  assert (Hall : others kp X = X ∖ {[kp]}).
  { apply set_subseteq_size_eq; [unfold others; set_solver|].
    rewrite size_difference by set_solver. rewrite size_singleton. lia. }
  intros x Hx. destruct (decide (x = kp)) as [->|Hne]; [done|].
  assert (Hx' : x ∈ others kp X) by (rewrite Hall; set_solver).
  apply elem_of_filter in Hx' as [[_ Hx'] _]. done.
Qed.

Hypothesis bit_width_ok : 0 < bit_width ≤ 64.
Hypothesis sha256_32 : ∀ key, sha256_ok sha256 key.

(** A trie built by the operations holds at most [kLeafMax] keys with
    the same indices: they all are in one leaf at the last level. *)
Lemma colliding_bound m :
  ∀ d node k,
    (d + m = levels)%nat → wf_node m (take d (path k)) node →
    (size (colliding k (dom (content (IPtr node)))) ≤ kLeafMax)%nat.
Proof.
  induction m as [|m IH]; intros d node k Hd Hwf; [done|].
  destruct (path_lookup sha256 bit_width sha256_32 k d) as [i Hi]; [lia|].
  assert (Hlen : length (take d (path k)) = d)
    by (apply (pre_length sha256 bit_width sha256_32); lia).
  assert (Hslot : ∀ k', k' ∈ colliding k (dom (content (IPtr node))) →
            ∃ it, node !! i = Some it ∧ k' ∈ colliding k (dom (content it))).
  { intros k' Hk'. apply elem_of_filter in Hk' as [Hpath Hk'].
    apply elem_of_dom in Hk' as [v Hv].
    rewrite (content_lookup _ _ _ _ _ k' Hwf), Hlen, Hpath, Hi in Hv.
    destruct (node !! i) as [it|]; [|done]. exists it. split; [done|].
    apply elem_of_filter. split; [done|]. apply elem_of_dom. by eauto. }
  destruct (node !! i) as [it|] eqn:Hit.
  2:{ assert (colliding k (dom (content (IPtr node))) = ∅) as ->.
      { apply set_eq. intros k'. split; [|by intros ?%not_elem_of_empty].
        intros Hk'. by destruct (Hslot k' Hk') as (? & ? & _). }
      rewrite size_empty. lia. }
  transitivity (size (colliding k (dom (content it)))).
  { apply subseteq_size. intros k' Hk'.
    destruct (Hslot k' Hk') as (it' & [= <-] & H). done. }
  pose proof (Hwf i it Hit) as Hwfit.
  rewrite <- (path_take _ _ _ _ _ Hi) in Hwfit.
  destruct it as [c|child|leaf].
  - by apply wf_item_cid in Hwfit.
  - apply (wf_item_ptr sha256 getCbor bit_width bit_width_ok) in Hwfit
      as [_ Hchild].
    apply (IH (S d)); [lia|done].
  - apply wf_item_leaf in Hwfit as (_ & Hmax & _).
    etransitivity; [|exact Hmax]. cbn [content]. rewrite <- size_dom.
    apply subseteq_size, colliding_subseteq.
Qed.

(** When [set] on a node fails with [kMaxDepth], the key is not there and
    [kLeafMax] keys with all its indices are. *)
Definition set_full (m : nat) : Prop :=
  ∀ d node k v fuel node',
    (d + m = levels)%nat → (m ≤ fuel)%nat →
    wf_node m (take d (path k)) node →
    set_node sha256 getCbor fuel bit_width node (drop d (path k)) k v
      = (node', Err kMaxDepth) →
    content (IPtr node) !! k = None
    ∧ (kLeafMax ≤ size (colliding k (dom (content (IPtr node)))))%nat.

Lemma reinsert_full m d pre fuel :
  set_full m → (S d + m = levels)%nat → (m ≤ fuel)%nat →
  ∀ pairs child c,
    wf_node m pre child →
    Forall (λ p, take (S d) (path p.1) = pre) pairs →
    reinsert sha256 (set_node sha256 getCbor fuel bit_width) bit_width
      (Z.of_nat (S m)) pairs child = (c, Err kMaxDepth) →
    ∃ kp, kp ∈ pairs.*1
          ∧ (kLeafMax ≤ size (others kp (list_to_set pairs.*1
                                          ∪ dom (content (IPtr child)))))%nat.
Proof.
  intros Hfull Hd Hfuel.
  pose proof (set_node_spec sha256 getCbor bit_width bit_width_ok sha256_32 m)
    as Hset.
  induction pairs as [|[k v] pairs IH]; intros child c Hwf Hpre H; [done|].
  apply Forall_cons in Hpre as [Hk Hpre]. cbn [fst] in Hk.
  cbn [reinsert] in H.
  rewrite (keyToIndices_suffix sha256 bit_width) in H by (done || lia).
  replace (Z.to_nat (Z.of_nat levels - Z.of_nat (S m) + 1)) with (S d) in H
    by lia.
  rewrite <- Hk in Hwf.
  destruct (set_node sha256 getCbor fuel bit_width child
              (drop (S d) (path k)) k v) as [c1 [[]|e]] eqn:Hrun.
  - destruct (Hset (S d) child k v fuel Hd Hfuel Hwf)
      as [Hno|(c1' & Hyes & Hc1 & Hcc)]; [congruence|].
    assert (c1' = c1) as -> by congruence. rewrite Hk in Hc1.
    destruct (IH c1 c Hc1 Hpre H) as (kp & Hkp & Hsize).
    exists kp. split; [rewrite fmap_cons; by right|].
    etransitivity; [exact Hsize|]. apply others_mono.
    rewrite Hcc, dom_insert_L, fmap_cons. cbn [fst]. apply keys_step.
  - injection H as <- ->.
    destruct (Hfull (S d) child k v fuel c1 Hd Hfuel Hwf Hrun) as [Hnone Hsize].
    exists k. split; [rewrite fmap_cons; by left|].
    etransitivity; [exact Hsize|]. apply colliding_others.
    + by apply not_elem_of_dom.
    + apply union_subseteq_r.
Qed.

Lemma set_node_full m : set_full m.
Proof.
  induction m as [|m IH]; intros d node k v fuel node' Hd Hfuel Hwf H; [done|].
  destruct (path_lookup sha256 bit_width sha256_32 k d) as [i Hi]; [lia|].
  assert (Hlen : length (take d (path k)) = d)
    by (apply (pre_length sha256 bit_width sha256_32); lia).
  rewrite (path_drop _ _ _ _ _ Hi) in H.
  destruct fuel as [|fuel]; [lia|]. cbn [set_node] in H.
  destruct (node !! i) as [item|] eqn:Hitem; [|done].
  pose proof (Hwf i item Hitem) as Hit.
  rewrite <- (path_take _ _ _ _ _ Hi) in Hit.
  pose proof (content_submap _ _ _ _ _ _ _ Hwf Hitem) as Hsub.
  assert (Hlook : content (IPtr node) !! k = content item !! k).
  { by rewrite (content_lookup _ _ _ _ _ k Hwf), Hlen, Hi, Hitem. }
  destruct item as [c|child|leaf]; [by apply wf_item_cid in Hit| |];
    cbn [loadItem] in H; rewrite (insert_id _ _ _ Hitem) in H.
  - (* a loaded child *)
    apply (wf_item_ptr sha256 getCbor bit_width bit_width_ok) in Hit
      as [_ Hchild].
    destruct (set_node sha256 getCbor fuel bit_width child
                (drop (S d) (path k)) k v) as [child' r] eqn:Hrec.
    injection H as _ ->.
    destruct (IH (S d) child k v fuel child') as [Hnone Hsize];
      [lia|lia|done|done|].
    split; [by rewrite Hlook|].
    etransitivity; [exact Hsize|]. apply colliding_mono.
    by apply subseteq_dom.
  - (* a leaf *)
    apply wf_item_leaf in Hit. destruct Hit as (Hne & Hmax & Hkeys).
    destruct (bool_decide (is_Some (leaf !! k))
              || bool_decide (size leaf < kLeafMax)%nat) eqn:Hroom; [done|].
    apply orb_false_elim in Hroom as [Hin Hfull].
    apply bool_decide_eq_false in Hin, Hfull.
    assert (Hk : leaf !! k = None).
    { destruct (leaf !! k) eqn:E; [|done]. destruct Hin. eauto. }
    split; [by rewrite Hlook|].
    assert (Hsame : (∀ k', k' ∈ dom leaf → path k' = path k) →
              (kLeafMax ≤ size (colliding k (dom (content (IPtr node)))))%nat).
    { intros Hall. transitivity (size (dom leaf)); [rewrite size_dom; lia|].
      apply subseteq_size. intros k' Hk'. apply elem_of_filter.
      split; [by apply Hall|]. apply subseteq_dom in Hsub. by apply Hsub. }
    apply Hsame. clear Hsame. intros k' Hk'.
    apply elem_of_dom in Hk' as [v' Hv'].
    pose proof (Hkeys k' v' Hv') as Hpre.
    rewrite length_take, (path_len sha256 bit_width sha256_32) in Hpre.
    replace (S d `min` levels)%nat with (S d) in Hpre by lia.
    destruct m as [|m].
    { (* the last level: the prefix is the whole path *)
      rewrite !take_ge in Hpre
        by (rewrite (path_len sha256 bit_width sha256_32); lia).
      done. }
    destruct (set_node_spec sha256 getCbor bit_width bit_width_ok sha256_32
                (S m) (S d) ∅ k v fuel)
      as [Hfail|(child1 & Hrun1 & Hc1 & Hcc1)];
      [lia|lia|apply wf_node_empty| |].
    { destruct (IH (S d) ∅ k v fuel ∅) as [_ Hsize];
        [lia|lia|apply wf_node_empty|done|].
      rewrite content_empty_node, dom_empty_L, colliding_empty in Hsize.
      rewrite size_empty in Hsize. unfold kLeafMax in Hsize. lia. }
    rewrite Hrun1 in H. cbn [length] in H.
    rewrite length_drop, (path_len sha256 bit_width sha256_32) in H.
    replace (S (levels - S d)) with (S (S m)) in H by lia.
    rewrite to_int_small in H
      by (pose proof (Z.div_le_upper_bound 256 bit_width 256);
          unfold HamtFacts.levels in *; lia).
    destruct (reinsert sha256 (set_node sha256 getCbor fuel bit_width)
                bit_width (Z.of_nat (S (S m))) (ordered_pairs leaf) child1)
      as [c2 [[]|e]] eqn:Hre; [done|].
    injection H as _ ->.
    destruct (reinsert_full (S m) d (take (S d) (path k)) fuel IH
                ltac:(lia) ltac:(lia) (ordered_pairs leaf) child1 c2 Hc1)
      as (kp & Hkp & Hsize); [|done|].
    { apply Forall_forall. intros [k2 v2] Hin2.
      apply ordered_pairs_lookup in Hin2. cbn [fst].
      specialize (Hkeys k2 v2 Hin2).
      rewrite length_take, (path_len sha256 bit_width sha256_32) in Hkeys.
      by replace (S d `min` levels)%nat with (S d) in Hkeys by lia. }
    (* the keys at hand: those of the leaf, and [k] *)
    assert (Hkeyset : list_to_set (ordered_pairs leaf).*1
                      ∪ dom (content (IPtr child1))
                      = dom leaf ∪ ({[k]} : gset string)).
    { rewrite Hcc1, content_empty_node, insert_empty, dom_singleton_L.
      f_equal. apply set_eq. intros x. rewrite elem_of_list_to_set.
      rewrite elem_of_dom. split.
      - intros Hx. apply list_elem_of_fmap in Hx as ([x' vx] & -> & Hx).
        apply ordered_pairs_lookup in Hx. by eauto.
      - intros [vx Hx]. apply list_elem_of_fmap. exists (x, vx).
        split; [done|]. by apply ordered_pairs_lookup. }
    rewrite Hkeyset in Hsize.
    assert (Hkp' : kp ∈ dom leaf).
    { apply list_elem_of_fmap in Hkp as ([x vx] & -> & Hx).
      apply ordered_pairs_lookup in Hx. apply elem_of_dom. by eauto. }
    assert (Hknot : k ∉ dom leaf) by (by apply not_elem_of_dom).
    assert (Hpath : ∀ x, x ∈ dom leaf ∪ ({[k]} : gset string) →
                         path x = path kp).
    { apply others_all; [by apply elem_of_union_l|].
      rewrite size_union by (by apply disjoint_singleton_r).
      rewrite size_singleton, size_dom. unfold kLeafMax in *. lia. }
    rewrite (Hpath k') by (apply elem_of_union_l, elem_of_dom; by eauto).
    rewrite (Hpath k) by (by apply elem_of_union_r, elem_of_singleton).
    done.
Qed.

(** On a HAMT built from the empty one by [set] and [remove], [set(k, v)]
    succeeds or fails with [kMaxDepth], and it fails exactly when [k] is
    not a key of the mapping while [kLeafMax] keys of the mapping have all
    the indices of [k]: the hashes collide on every index. *)
Theorem set_fails_on_full_collision ops k v :
  let r := run sha256 getCbor ops (empty_hamt bit_width) in
  let keys := dom (reference ops r.2 ∅) in
  ((set sha256 getCbor r.1 k v).2 = Ok tt
   ∨ (set sha256 getCbor r.1 k v).2 = Err kMaxDepth)
  ∧ ((set sha256 getCbor r.1 k v).2 = Err kMaxDepth
     ↔ (k ∉ keys) ∧ size (colliding k keys) = kLeafMax).
Proof.
  cbn zeta.
  destruct (run_spec sha256 getCbor bit_width bit_width_ok sha256_32 ops
              (empty_hamt bit_width) (wf_empty_hamt _ _ bit_width_ok))
    as (h & rs & -> & Hwf & Hc).
  cbn [empty_hamt root_] in Hc. rewrite content_empty_node in Hc.
  cbn [fst snd]. rewrite <- Hc. clear Hc.
  assert (Hbound : ∀ h0, wf_hamt sha256 bit_width h0 →
            (size (colliding k (dom (content (root_ h0)))) ≤ kLeafMax)%nat).
  { intros h0 [_ (n0 & -> & Hn0)].
    apply (colliding_bound levels 0%nat); [lia|done]. }
  destruct (set_spec sha256 getCbor bit_width bit_width_ok sha256_32 h k v Hwf)
    as [Hfail|(h' & Hok & Hwf' & Hc')].
  - rewrite Hfail. cbn [snd]. split; [by right|]. split; [intros _|done].
    destruct Hwf as [Hbw (node & Hroot & Hnode)]. destruct h as [root bw].
    cbn in Hbw, Hroot. subst.
    unfold set, on_root in Hfail. cbn [root_ bit_width_ loadItem] in Hfail.
    rewrite (keyToIndices_full sha256 bit_width) in Hfail by done.
    rewrite (path_len sha256 bit_width sha256_32) in Hfail.
    destruct (set_node sha256 getCbor levels bit_width node (path k) k v)
      as [node' r] eqn:Hrun.
    injection Hfail as _ ->.
    destruct (set_node_full levels 0%nat node k v levels node')
      as [Hnone Hsize]; [lia|lia|done|done|].
    cbn [root_]. split; [by apply not_elem_of_dom|].
    pose proof (Hbound (mkHamt (IPtr node) bit_width)) as Hle.
    cbn [root_] in Hle. specialize (Hle ltac:(split; [done|by eauto])). lia.
  - rewrite Hok. cbn [snd]. split; [by left|]. split; [done|].
    intros [Hnot Hsize]. exfalso.
    pose proof (Hbound h' Hwf') as Hle. rewrite Hc', dom_insert_L in Hle.
    rewrite colliding_insert in Hle by done. lia.
Qed.

End Capacity.

(** ** Concrete runs *)

(** A store that holds one block: the node with the single entry of the
    key ["a"], under the CID [[1]]. *)
Definition one_block : gmap Z Item := {[97 := ILeaf {["a" := [1]]}]}.

Definition one_block_put (node : gmap Z Item) : result (list Z) :=
  match ordered_items node with
  | [(i, ILeaf leaf)] =>
    if decide (i = 97 ∧ leaf = {["a" := [1]]}) then Ok [1]
    else Err (StoreError 1)
  | _ => Err (StoreError 1)
  end.

Definition one_block_get (c : list Z) : result (gmap Z Item) :=
  if decide (c = [1]) then Ok one_block else Err (StoreError 1).

Lemma one_block_round_trip node c :
  one_block_put node = Ok c → one_block_get c = Ok node.
Proof.
  unfold one_block_put. intros H.
  destruct (ordered_items node) as [|[i it] l] eqn:E; [done|].
  destruct it as [| |leaf]; try done. destruct l; [|done].
  case_decide as Hd; [|done]. destruct Hd as [-> ->]. injection H as <-.
  assert (Hsize : size node = 1%nat).
  { by rewrite <- length_map_to_list, <- (ordered_items_perm node), E. }
  destruct (ordered_items_single node Hsize) as (j & it & E' & ->).
  rewrite E in E'. by injection E' as <- <-.
Qed.

Lemma remove_failure_only_loads_witness :
  let h := empty_hamt 8 in
  (remove toy_sha256 no_store h "a").2 = Err kNotFound
  ∧ (remove toy_sha256 no_store h "a").1 = h.
Proof.
  cbn zeta.
  assert (H : (remove toy_sha256 no_store (empty_hamt 8) "a").2
              = Err kNotFound) by (vm_compute; reflexivity).
  split; [exact H|].
  apply (remove_failure_only_loads toy_sha256 no_store _ _ _ H).
  vm_compute. reflexivity.
Defined.

Lemma keyToIndices_in_range_witness :
  ∃ indices,
    keyToIndices toy_sha256 5 "a" 3 = Some indices
    ∧ (length indices ≤ levels 5)%nat
    ∧ Forall (λ i, 0 ≤ i < 2 ^ 5) indices.
Proof.
  apply (keyToIndices_in_range toy_sha256 5 "a" 3).
  - lia.
  - apply toy_sha256_ok.
  - right. vm_compute. split; discriminate.
Defined.

(** The flush of that HAMT puts its one node in the store; the value is
    then read back through the CID. *)
Example flush_then_get :
  flush one_block_put
    (run toy_sha256 one_block_get [OpSet "a" [1]] (empty_hamt 8)).1
  = (mkHamt (ICid [1]) 8, Ok [1])
  ∧ (get toy_sha256 one_block_get (mkHamt (ICid [1]) 8) "a").2 = Ok [1].
Proof. split; vm_compute; reflexivity. Qed.

Lemma flush_is_transparent_witness :
  let h := (run toy_sha256 one_block_get [OpSet "a" [1]] (empty_hamt 8)).1 in
  let r := flush one_block_put h in
  bit_width_ r.1 = bit_width_ h
  ∧ (∀ c, r.2 = Ok c → r.1 = mkHamt (ICid c) (bit_width_ h))
  ∧ ∀ ops,
      (run toy_sha256 one_block_get ops r.1).2
      = (run toy_sha256 one_block_get ops h).2
      ∧ ∀ k, (get toy_sha256 one_block_get
                (run toy_sha256 one_block_get ops r.1).1 k).2
             = (get toy_sha256 one_block_get
                  (run toy_sha256 one_block_get ops h).1 k).2.
Proof.
  apply (flush_is_transparent toy_sha256 one_block_get one_block_put
           one_block_round_trip).
Defined.

(** The HAMT of the one entry of ["a"] is flushed to the CID [[1]]; on the
    flushed HAMT the key ["b"] is set, ["a"] is removed, and the removal
    of ["c"] fails, as on the HAMT that was not flushed. *)
Example flush_then_update :
  (flush one_block_put
     (run toy_sha256 one_block_get [OpSet "a" [1]] (empty_hamt 8)).1).1
  = mkHamt (ICid [1]) 8
  ∧ (run toy_sha256 one_block_get
       [OpSet "b" [2]; OpRemove "a"; OpRemove "c"] (mkHamt (ICid [1]) 8)).2
    = [Ok tt; Ok tt; Err kNotFound].
Proof. split; vm_compute; reflexivity. Qed.

Lemma visit_reports_entries_witness :
  let r := run toy_sha256 no_store sample_ops (empty_hamt 8) in
  ∃ l,
    l ≡ₚ map_to_list (reference sample_ops r.2 ∅)
    ∧ ∀ A (visitor : A → string → list Z → A * result unit) a fuel,
        (levels 8 ≤ fuel)%nat →
        visit no_store fuel visitor r.1 a
        = (r.1, (visit_pairs visitor l a).1, (visit_pairs visitor l a).2).
Proof.
  apply (visit_reports_entries toy_sha256 no_store 8 ltac:(lia)
           toy_sha256_ok sample_ops).
Defined.

Lemma set_fails_on_full_collision_witness :
  let r := run toy_sha256 no_store deep_ops (empty_hamt 64) in
  let keys := dom (reference deep_ops r.2 ∅) in
  ((set toy_sha256 no_store r.1 deep_key [7]).2 = Ok tt
   ∨ (set toy_sha256 no_store r.1 deep_key [7]).2 = Err kMaxDepth)
  ∧ ((set toy_sha256 no_store r.1 deep_key [7]).2 = Err kMaxDepth
     ↔ (deep_key ∉ keys)
       ∧ size (colliding toy_sha256 64 deep_key keys) = kLeafMax).
Proof.
  apply (set_fails_on_full_collision toy_sha256 no_store 64 ltac:(lia)
           toy_sha256_ok deep_ops deep_key [7]).
Defined.

(** The entries of a HAMT of three keys, as a visitor that collects them
    sees them. *)
Example visit_collects :
  visit no_store 32 (λ acc k v, (acc ++ [(k, v)], Ok tt))
    (run toy_sha256 no_store
       [OpSet "b" [2]; OpSet "a" [1]; OpSet "c" [3]; OpRemove "b"]
       (empty_hamt 8)).1 []
  = ((run toy_sha256 no_store
        [OpSet "b" [2]; OpSet "a" [1]; OpSet "c" [3]; OpRemove "b"]
        (empty_hamt 8)).1,
     [("a", [1]); ("c", [3])], Ok tt).
Proof. vm_compute. reflexivity. Qed.

End HamtMoreFacts.
